(* ===== verification/_CoqProject ===== *)
-Q . S2P
Prelude.v
Charconv.v
Types.v
Parser.v
ParserSpec.v
ParserSafety.v
Resp3.v
ParserCorrect.v
ParserTheorems.v
ParserTyping.v
Serialization.v
Request.v
Adapters.v
Traits.v
AdapterTheorems.v
AdapterClaims.v
Response.v
Multiplexer.v
MultiplexerInvariant.v
MultiplexerRead.v
MultiplexerStream.v
Evolution.v
ClientSpec.v
ClientRefinement.v
MultiplexerClaims.v
Logger.v
Session.v
Connection.v
ReaderStream.v
Run.v
Facade.v
Advance.v
ConnectionClaims.v
System.v
SystemInvariant.v
SystemMoves.v
Scenario.v
SystemRefinement.v
HealthCheck.v
SystemClaims.v
Runner.v
Healthy.v
RoundTrip.v
SessionStart.v
Startup.v
Recovery.v
Examples.v
Programs.v
ExampleClaims.v
Subscriber.v
ProgramClaims.v
