(* ===== verification/Prelude.v ===== *)
(** * Boost.Redis: a verification development

    A model of the Boost.Redis client library (C++, under [src/include/boost/redis],
    the root of the paths below) and theorems about it.

    ** The program

    A user builds a [request], a pipeline of commands serialised in RESP3, and
    passes it with a response object to [connection::async_exec].  The
    [multiplexer] queues the requests of all callers, coalesces their payloads
    for the writer, and hands the messages the reader receives to the [parser],
    which calls an adapter for every node of a message: the adapter of the
    request at the front of the queue, or the receive adapter for pushes.
    Adapters convert nodes to C++ values and store them in the response object.
    [connection::async_run] resolves, connects, and runs a session of five
    operations: handshake, ping, time-out check, reader and writer.

    ** Conventions

    A C++ function is a Rocq function with the state it changes as arguments
    and results.  A call returns, throws, or faults ([outcome] below): undefined
    behaviour (an access out of bounds), a failed [BOOST_ASSERT] and an exception
    at a [noexcept] boundary are values, so that theorems can say that they do
    or do not happen.  [std::size_t] is [N] with arithmetic modulo 2^64 ([+w],
    [-w], [*w]); strings are lists of characters; an [error_code] that is passed
    by reference is an argument and a result.  Overload resolution and template
    specialisation are instance resolution of type classes.  Composed
    asynchronous operations are coroutines: functions from the point where the
    operation is suspended and the completion it is resumed with.  A timer is
    quiet, armed or fired.  A connection and the operations in progress on it are
    a state machine, whose events are the calls of users and the completions of
    the runtime.  An object several parts refer to is kept in one place: the
    elements of requests in the store of the multiplexer, a response object in
    the adapter that refers to it, the strings of the logger in the console.

    ** Files

    - Prelude: outcomes, machine arithmetic, strings, tactics, the hint database
      [redis].
    - Charconv: [std::from_chars] and [std::to_string] on integers.
    - Types: [resp3/type.hpp], [resp3/node.hpp], [error.hpp], [impl/error.ipp],
      [adapter/result.hpp].
    - Parser: [resp3/parser.hpp], [resp3/impl/parser.ipp], and [deserialize] of
      [resp3/serialization.hpp], with the parser's array of sizes and its depth.
    - ParserSpec: the abstract machine the parser implements, a stack of open
      aggregates instead of an array and a counter, and the refinement.
    - ParserSafety: the invariant of a parser within a message, the header lines
      on which it leaves defined behaviour, and termination of [parse].
    - Resp3: trees of RESP3 values, their wire format and their nodes.
    - ParserCorrect, ParserTheorems: [parse] on the bytes of a value hands the
      adapter the nodes of the value, whatever the pieces the bytes arrive in.
    - ParserTyping: conversely, the nodes of an accepted message are those of a
      value.
    - Serialization, Request: [resp3/serialization.hpp] with its [.ipp],
      [request.hpp], [impl/request.ipp]; a request parses back to its commands.
    - Adapters: [adapter/detail/adapters.hpp], the converters, the implementation
      class of each container and the wrappers.
    - Traits: [adapter/detail/result_traits.hpp],
      [adapter/detail/response_traits.hpp], [adapter/ignore.hpp],
      [adapter/adapt.hpp], [adapter/any_adapter.hpp].
    - AdapterTheorems, AdapterClaims: what each response object holds after a
      message was parsed into it, and the error paths.
    - Response: [impl/response.ipp] and the adapter of tuples.
    - Multiplexer: [detail/multiplexer.hpp], [impl/multiplexer.ipp], [usage.hpp].
      The elements shared by the queue and the waiting operations live in a
      store, under identifiers that stand for the shared pointers.
    - MultiplexerInvariant: the invariant of the queue, every operation as a
      label, and reachability.
    - Evolution: what every operation does to an element of the queue, as one
      relation.
    - ClientSpec: an abstract client, with queues of requests, the bytes to send
      and what each caller was told; ClientRefinement: the operations of the
      multiplexer are actions of this client.
    - MultiplexerRead, MultiplexerStream: single messages, and streams of
      responses and pushes in arbitrary pieces, against a specification that
      delivers one message after the other.
    - MultiplexerClaims: writing, cancellation, and three defects.
    - Logger: [logger.hpp], [impl/logger.ipp], as the text they append.
    - Session: [config.hpp], [operation.hpp], [detail/resp3_handshaker.hpp],
      [impl/resp3_handshaker.ipp], and the data of [detail/health_checker.hpp].
    - Connection, Run: [connection.hpp], [detail/resolver.hpp],
      [detail/connector.hpp] and the operations of the handshaker and the health
      checker, as coroutines.
    - ReaderStream: the reader in the middle of a stream.
    - Facade: the type-erased class [connection] with [impl/connection.ipp], and
      [detail/write.hpp].
    - Advance: what every operation does to a connection, as one relation.
    - ConnectionClaims: the start of a session, termination of the reader,
      reconnection.
    - System: the step function of a connection with the requests in progress and
      [async_run], composed of the coroutines of Connection and Run.
    - SystemInvariant: its invariant, preserved by every event; SystemMoves: what
      each event may read and write.
    - SystemRefinement: every run of the system is a run of the abstract client.
    - Scenario: reachable states at which the claims are instantiated.
    - HealthCheck, SystemClaims: claims about the health check and about every
      reachable state.
    - Healthy: sessions whose handshake has succeeded and whose last PING was
      answered; RoundTrip: requests end to end on a session at rest.
    - SessionStart: a session from the connection to the answers of its first
      write, whatever was queued before; Startup: a connection from its
      construction; Recovery: requests whose connection is lost.
    - Runner: [detail/runner.hpp] and its equivalence with [run_op].
    - Examples, ExampleClaims: the parts of the programs of [example/], between
      the points where they wait.
    - Programs: the programs as a whole, in direct style over the class [Runtime],
      which says what happens while they wait; [sync_connection.hpp].
    - Subscriber, ProgramClaims: what whole programs do.

    ** Theorems

    - Parser: it implements the abstract machine step for step; parsing inverts
      the wire format, for every adapter and every way the bytes are cut, and what
      it accepts, streamed strings apart, is a well-formed value; it
      terminates; in the middle of a message it leaves defined behaviour on
      exactly three kinds of header lines, for which concrete inputs are given.
    - Requests: payload, counters and priority are those of the commands.
    - Adapters: vectors, maps, sets, arrays, integers and tuples receive what the
      message holds; RESP3 errors become errors of the result; wrong shapes are
      reported.
    - Multiplexer: in every reachable state the queue is ordered written, staged,
      waiting, without duplicates or finished requests; each response reaches
      its own request at its own index; writes carry the waiting payloads in
      order; cancellations affect and notify exactly the requests they should.
    - Connection: the reader terminates on its buffer; reader and writer end only
      on a closed connection; when a session is followed by a reconnection; what
      the logger prints; the runner does what [async_run] does.
    - System: whatever the order of events, a request somebody waits for is queued
      or about to be notified, it completes once and with all its responses, a
      request to be written wakes the writer, the buffers of a read or a write in
      progress do not change, and the events that do not parse never fault or
      throw.  A failure to connect ends [async_run] and leaves the requests.
    - Refinement: every run of the system, whatever the users, the runtime and the
      server do, is a run of the abstract client, for which requests are sent once
      per session in the order of the queue; a server that answers in order agrees
      with the connection about which response belongs to which request, unless a
      request is of the kind that is sent again; the first write of a session is
      [HELLO], the whole queue, [PING].
    - End to end: a batch of requests on a session at rest, or made on a new
      connection before it is established, is sent in one write; however the
      answers, with pushes anywhere between them, are cut into reads, every caller
      receives its own responses, the receive adapter the pushes, and the session
      is at rest and healthy.  A batch whose connection is lost after the write is
      sent again by the next session, and its callers do not notice.
    - Examples: what programs print, from the construction of the connection to
      the output; the subscriber prints every message once and in order, the chat
      room loses some; the synchronous program hangs without a server.
    - Defects found on the way are theorems as well, on inputs that show them.

    ** Bounds

    The loops of the parser have fuel: seven for the closing of aggregates, since
    the array of sizes has six entries, and twice the length of the buffer plus
    two for [parse], since every node takes a byte or completes a bulk whose
    header was taken before ([consume_cases], [parse_loop_cases]).  The loop of
    the reader has the length of its buffer plus one, since every message
    shortens the buffer ([reader_terminates]).  The loop of the stream example has
    the number of nodes plus one ([scan_fuel]).  The loops of programs that do not
    end are unrolled by a number of turns, which the theorems quantify over.
    Decimal conversion uses the bit length of the number.  The theorems on messages
    assume buffers shorter than 2^64 bytes and values nested at most five levels,
    the limit of the parser.

    ** Parameters

    [std::from_chars] into a [double], the values of uninitialised arithmetic
    objects, the largest size of a vector, user overloads of
    [boost_redis_to_bulk] and [boost_redis_from_bulk], the channel of Boost.Asio,
    the text of an endpoint and of foreign error codes, the write functions of
    Boost.Asio for [detail/write.hpp], the missing [reset] of the connection for
    the runner, Boost.JSON and protobuf for the examples that use them, and what
    happens while an example program waits ([Runtime]).  That a channel delivers
    what was sent, in order, is the law of the class [Fifo].  What the runtime
    delivers, and when, is chosen by the events.  [std::partition_point] is modelled on partitioned ranges, which
    the invariant of the queue provides.

    ** Not modelled

    Sockets, TLS, timers and the scheduler, which are Boost.Asio: an operation on
    them is an event, and time is only the order of events.  Failure of an
    allocation.  The libc++ branch of the conversion to [double].  Of the example
    programs: the calls that set up signal handlers, acceptors and the checks of
    certificates, which are Boost.Asio; an exception discards the text a program
    printed before it; the two threads of [sync_connection.hpp] take turns, since
    all it does with the connection is dispatched to one of them.  The programs
    of [benchmarks/], which do not use the library, and the tests.
    Declarations, includes and documentation have no counterpart. *)

From Stdlib Require Export Ascii Lia.
From stdpp Require Export base numbers strings list.

Set Default Goal Selector "!".

#[global] Open Scope N_scope.
#[global] Open Scope list_scope.

(** ** Outcomes of C++ code

    A call either returns ([Done]), leaves by an exception ([Throw]) or does
    something from which there is no recovery ([Fault]): undefined behaviour,
    a failed [BOOST_ASSERT], or an exception that reaches a [noexcept]
    boundary and calls [std::terminate].  [out_of_fuel] is not a behaviour of
    the code: it marks a bound of the model that was too small, and every loop
    comes with a theorem that it is never reached. *)

Inductive fault :=
  | out_of_bounds
  | assertion_failed
  | terminate
  | out_of_fuel.

Inductive exception :=
  | std_out_of_range
  | bad_result_access
  | std_length_error
  | system_error
  | std_bad_function_call
  | std_bad_optional_access.

Inductive outcome (A : Type) :=
  | Done (a : A)
  | Throw (e : exception)
  | Fault (f : fault).

Arguments Done {A} a.
Arguments Throw {A} e.
Arguments Fault {A} f.

#[global] Instance fault_eq_dec : EqDecision fault.
Proof. solve_decision. Defined.
#[global] Instance exception_eq_dec : EqDecision exception.
Proof. solve_decision. Defined.

#[global] Instance outcome_ret : MRet outcome := fun A a => Done a.

#[global] Instance outcome_bind : MBind outcome := fun A B k m =>
  match m with
  | Done a => k a
  | Throw e => Throw e
  | Fault f => Fault f
  end.

#[global] Instance outcome_fmap : FMap outcome := fun A B g m =>
  match m with
  | Done a => Done (g a)
  | Throw e => Throw e
  | Fault f => Fault f
  end.

(** [BOOST_ASSERT(b)]. *)
Definition boost_assert (b : bool) : outcome unit :=
  if b then Done tt else Fault assertion_failed.

(** The boundary of a [noexcept] function. *)
Definition noexcept {A} (m : outcome A) : outcome A :=
  match m with
  | Throw _ => Fault terminate
  | m => m
  end.

(** ** 64-bit unsigned arithmetic ([std::size_t]) *)

Abbreviation size_t := N.

Definition size_modulus : N := 18446744073709551616.
Definition size_max : N := 18446744073709551615.

Definition wadd (a b : size_t) : size_t := (a + b) mod size_modulus.
Definition wsub (a b : size_t) : size_t := (a + size_modulus - b) mod size_modulus.
Definition wmul (a b : size_t) : size_t := (a * b) mod size_modulus.

Declare Scope redis_scope.
Delimit Scope redis_scope with redis.
Infix "+w" := wadd (at level 50, left associativity) : redis_scope.
Infix "-w" := wsub (at level 50, left associativity) : redis_scope.
Infix "*w" := wmul (at level 40, left associativity) : redis_scope.
#[global] Open Scope redis_scope.

(** ** Byte strings ([std::string], [std::string_view]) *)

Abbreviation bytes := (list ascii).

(** A C++ string literal. *)
Definition bs (s : string) : bytes := String.list_ascii_of_string s.

Definition len {A} (l : list A) : size_t := N.of_nat (length l).

(** [v.at(i)]. *)
Definition sv_at (v : bytes) (i : size_t) : outcome ascii :=
  if i <? len v
  then match v !! N.to_nat i with
       | Some c => Done c
       | None => Throw std_out_of_range
       end
  else Throw std_out_of_range.

(** [v.substr(pos, n)]: throws when [pos > size()], and otherwise returns
    [min(n, size() - pos)] characters. *)
Definition sv_substr (v : bytes) (pos n : size_t) : outcome bytes :=
  if pos <=? len v
  then Done (take (N.to_nat (N.min n (len v - pos))) (drop (N.to_nat pos) v))
  else Throw std_out_of_range.

Definition CR : ascii := "013"%char.
Definition LF : ascii := "010"%char.

Definition starts_crlf (v : bytes) : bool :=
  match v with
  | c :: c' :: _ => Ascii.eqb c CR && Ascii.eqb c' LF
  | _ => false
  end.

(** Index of the first ["\r\n"] of a string. *)
Fixpoint find_crlf (v : bytes) : option nat :=
  if starts_crlf v then Some 0%nat
  else match v with
       | [] => None
       | _ :: v' => S <$> find_crlf v'
       end.

(** [v.find("\r\n", pos)], [None] standing for [npos]. *)
Definition sv_find_sep (v : bytes) (pos : size_t) : option size_t :=
  if pos <=? len v
  then (fun i => pos + N.of_nat i) <$> find_crlf (drop (N.to_nat pos) v)
  else None.

(** ** Automation *)

Create HintDb redis discriminated.
Create Rewrite HintDb redis.

Ltac size_lia :=
  unfold wadd, wsub, wmul, len, size_modulus, size_max in *; lia.

(** Case analysis on the scrutinee of the goal or of a hypothesis. *)
Ltac case_goal :=
  match goal with
  | |- context [match ?x with _ => _ end] => destruct x eqn:?
  end.

(** ** Lemmas on outcomes *)

Lemma bind_done {A B} (m : outcome A) (k : A -> outcome B) b :
  m ≫= k = Done b <-> exists a, m = Done a /\ k a = Done b.
Proof.
  split.
  - destruct m; cbn; intros H; [eauto | discriminate..].
  - by intros (a & -> & ?).
Qed.

Lemma noexcept_done {A} (m : outcome A) a : noexcept m = Done a <-> m = Done a.
Proof. destruct m; cbn; split; congruence. Qed.

Lemma noexcept_no_throw {A} (m : outcome A) e : noexcept m <> Throw e.
Proof. by destruct m. Qed.

Lemma noexcept_bind {A B} (m : outcome A) (k : A -> outcome B) :
  noexcept (m ≫= k) = noexcept m ≫= (fun a => noexcept (k a)).
Proof. by destruct m. Qed.

Lemma boost_assert_done b u : boost_assert b = Done u <-> b = true.
Proof. destruct b, u; cbn; split; congruence. Qed.

(** Two computations that fail alike, or return related values. *)
Definition orel {A B} (R : A -> B -> Prop) (m : outcome A) (n : outcome B) : Prop :=
  match m, n with
  | Done a, Done b => R a b
  | Throw e, Throw e' => e = e'
  | Fault f, Fault f' => f = f'
  | _, _ => False
  end.

Lemma orel_bind {A B A' B'} (R : A -> B -> Prop) (Q : A' -> B' -> Prop) m n k l :
  orel R m n -> (forall a b, R a b -> orel Q (k a) (l b)) -> orel Q (m ≫= k) (n ≫= l).
Proof. destruct m, n; cbn; naive_solver. Qed.

Lemma orel_mono {A B} (R Q : A -> B -> Prop) m n :
  orel R m n -> (forall a b, R a b -> Q a b) -> orel Q m n.
Proof. destruct m, n; cbn; naive_solver. Qed.

Lemma orel_done_inv {A B} (R : A -> B -> Prop) m b :
  orel R m (Done b) -> exists a, m = Done a /\ R a b.
Proof. destruct m; cbn; naive_solver. Qed.

Lemma orel_fault_inv {A B} (R : A -> B -> Prop) (n : outcome B) f :
  orel R (Fault f) n -> n = Fault f.
Proof. destruct n; cbn; naive_solver. Qed.

(** Split a monadic computation known to return. *)
Ltac inv_done :=
  repeat match goal with
    | H : _ ≫= _ = Done _ |- _ =>
        let a := fresh "a" in apply bind_done in H as (a & ? & H)
    | H : noexcept _ = Done _ |- _ => apply noexcept_done in H
    | H : boost_assert _ = Done _ |- _ => apply boost_assert_done in H
    | H : mret _ = Done _ |- _ => injection H as H; subst
    | H : Done _ = Done _ |- _ => injection H as H; subst
    | H : Throw _ = Done _ |- _ => discriminate H
    | H : Fault _ = Done _ |- _ => discriminate H
    end.

(** ** Lemmas on 64-bit arithmetic *)

Lemma wadd_small a b : a + b < size_modulus -> a +w b = a + b.
Proof. intros. unfold wadd. by apply N.mod_small. Qed.

Lemma wmul_small a b : a * b < size_modulus -> a *w b = a * b.
Proof. intros. unfold wmul. by apply N.mod_small. Qed.

Lemma wsub_small a b : b <= a -> a < size_modulus -> a -w b = a - b.
Proof.
  intros. unfold wsub.
  replace (a + size_modulus - b) with (a - b + 1 * size_modulus) by lia.
  rewrite N.Div0.mod_add. apply N.mod_small. lia.
Qed.

Lemma wadd_bound a b : a +w b < size_modulus.
Proof. unfold wadd, size_modulus. apply N.mod_lt. lia. Qed.
Lemma wsub_bound a b : a -w b < size_modulus.
Proof. unfold wsub, size_modulus. apply N.mod_lt. lia. Qed.
Lemma wmul_bound a b : a *w b < size_modulus.
Proof. unfold wmul, size_modulus. apply N.mod_lt. lia. Qed.

#[export] Hint Resolve wadd_bound wsub_bound wmul_bound : redis.

(** ** Lemmas on byte strings *)

Lemma len_app {A} (u v : list A) : len (u ++ v) = len u + len v.
Proof. unfold len. rewrite length_app. lia. Qed.

Lemma len_nil {A} : len (@nil A) = 0.
Proof. done. Qed.

Lemma len_cons {A} (a : A) v : len (a :: v) = 1 + len v.
Proof. unfold len. cbn [length]. lia. Qed.

#[export] Hint Rewrite @len_app @len_nil @len_cons : redis.

Lemma starts_crlf_app v w : starts_crlf v = true -> starts_crlf (v ++ w) = true.
Proof. by destruct v as [|? [|? ?]]. Qed.

Lemma find_crlf_spec (v w : bytes) :
  find_crlf v = None -> find_crlf (v ++ CR :: LF :: w) = Some (length v).
Proof.
  induction v as [|c v IH]; cbn [find_crlf app]; [done|].
  destruct (starts_crlf (c :: v)) eqn:E; [done|].
  destruct (find_crlf v) eqn:Ev; [done|]. intros _. rewrite IH by done.
  destruct v as [|c' v']; cbn in *; [|by rewrite E].
  by destruct (Ascii.eqb c CR).
Qed.

Lemma find_crlf_bound v i : find_crlf v = Some i -> (i + 2 <= length v)%nat.
Proof.
  revert i. induction v as [|c v IH]; cbn [find_crlf]; intros i H; [done|].
  destruct (starts_crlf (c :: v)) eqn:E.
  - destruct v; [done|]. injection H as <-. cbn. lia.
  - destruct (find_crlf v); [|done]. injection H as <-.
    specialize (IH _ eq_refl). cbn. lia.
Qed.

Lemma find_crlf_app v w i : find_crlf v = Some i -> find_crlf (v ++ w) = Some i.
Proof.
  revert i. induction v as [|c v IH]; cbn [find_crlf app]; intros i H; [done|].
  destruct (starts_crlf (c :: v)) eqn:E.
  - apply (starts_crlf_app _ w) in E. cbn [app] in E. by rewrite E.
  - destruct (find_crlf v) as [j|] eqn:Ev; [|done]. injection H as <-.
    rewrite (IH j eq_refl). apply find_crlf_bound in Ev.
    destruct v; [cbn in Ev; lia|]. cbn in *. by rewrite E.
Qed.

(** The part of a string in front of its first separator has none. *)
Lemma find_crlf_take v i : find_crlf v = Some i -> find_crlf (take i v) = None.
Proof.
  revert i. induction v as [|c v IH]; cbn [find_crlf]; intros i H; [done|].
  destruct (starts_crlf (c :: v)) eqn:E; [by injection H as <-|].
  destruct (find_crlf v) as [j|] eqn:Ev; [|done]. injection H as <-.
  cbn [take find_crlf]. rewrite (IH j eq_refl).
  destruct v as [|c' v]; [done|]. destruct j; cbn in *; [done|by rewrite E].
Qed.
