(* ===== verification/Charconv.v ===== *)
(** * Numbers and decimal text

    The parts of [<charconv>] and [<string>] the library uses:
    [std::from_chars] on integers, which reads the longest run of decimal
    digits and ignores what follows, and [std::to_string]. *)

From S2P Require Import Prelude.

Definition is_digit (c : ascii) : bool :=
  (48 <=? N_of_ascii c) && (N_of_ascii c <=? 57).

Definition digit_value (c : ascii) : N := N_of_ascii c - 48.
Definition digit_char (d : N) : ascii := ascii_of_N (48 + d).

Fixpoint take_digits (v : bytes) : bytes :=
  match v with
  | c :: v' => if is_digit c then c :: take_digits v' else []
  | [] => []
  end.

Definition decimal_value (acc : N) (ds : bytes) : N :=
  fold_left (fun a c => 10 * a + digit_value c) ds acc.

(** The result of [std::from_chars]; the value is written only on success. *)
Inductive from_chars_result (A : Type) :=
  | fc_ok (a : A)
  | fc_invalid_argument
  | fc_result_out_of_range.

Arguments fc_ok {A} a.
Arguments fc_invalid_argument {A}.
Arguments fc_result_out_of_range {A}.

(** [std::from_chars] into an unsigned type with largest value [hi]: no sign,
    no leading white space. *)
Definition from_chars_unsigned (hi : N) (v : bytes) : from_chars_result N :=
  match take_digits v with
  | [] => fc_invalid_argument
  | ds => let n := decimal_value 0 ds in
          if n <=? hi then fc_ok n else fc_result_out_of_range
  end.

(** [std::from_chars] into a signed type with range [lo..hi]: an optional
    minus sign in front of the digits. *)
Definition from_chars_signed (lo hi : Z) (v : bytes) : from_chars_result Z :=
  let '(neg, r) := match v with
                   | c :: r => if Ascii.eqb c "-"%char then (true, r) else (false, v)
                   | [] => (false, [])
                   end in
  match take_digits r with
  | [] => fc_invalid_argument
  | ds => let n := Z.of_N (decimal_value 0 ds) in
          let z := if neg then (- n)%Z else n in
          if (lo <=? z)%Z && (z <=? hi)%Z then fc_ok z else fc_result_out_of_range
  end.

(** Decimal digits of [n] in front of [acc]; [fuel] bounds their number. *)
Fixpoint decimal_digits (fuel : nat) (n : N) (acc : bytes) : bytes :=
  match fuel with
  | O => acc
  | S fuel' =>
      let acc' := digit_char (n mod 10) :: acc in
      if n / 10 =? 0 then acc' else decimal_digits fuel' (n / 10) acc'
  end.

(** [std::to_string] of an unsigned value.  A number has at most as many
    decimal digits as bits, so the bit length is enough fuel. *)
Definition to_string (n : N) : bytes := decimal_digits (S (N.size_nat n)) n [].

(** [std::to_string] of a signed value. *)
Definition to_string_signed (z : Z) : bytes :=
  if (z <? 0)%Z then "-"%char :: to_string (Z.to_N (- z)) else to_string (Z.to_N z).

Example to_string_ex : to_string 18446744073709551615 = bs "18446744073709551615".
Proof. reflexivity. Qed.

(** ** Digits *)

Lemma digit_char_code d : d < 10 -> N_of_ascii (digit_char d) = 48 + d.
Proof. intros. unfold digit_char. apply N_ascii_embedding. lia. Qed.

Lemma is_digit_char d : d < 10 -> is_digit (digit_char d) = true.
Proof.
  intros. unfold is_digit. rewrite digit_char_code by done.
  apply andb_true_iff. rewrite !N.leb_le. lia.
Qed.

Lemma digit_value_char d : d < 10 -> digit_value (digit_char d) = d.
Proof. intros. unfold digit_value. rewrite digit_char_code by done. lia. Qed.

Lemma digit_not c : is_digit c = true -> c <> CR /\ c <> "?"%char /\ c <> "-"%char.
Proof. intros H. repeat split; intros ->; discriminate H. Qed.

Lemma take_digits_all v : forallb is_digit v = true -> take_digits v = v.
Proof. induction v as [|c v IH]; cbn; [done|]. intros [-> ?]%andb_true_iff. by rewrite IH. Qed.

Lemma decimal_digits_spec fuel n acc :
  n < 2 ^ N.of_nat fuel ->
  forallb is_digit acc = true ->
  let ds := decimal_digits (S fuel) n acc in
  forallb is_digit ds = true /\ ds <> [] /\ decimal_value 0 ds = decimal_value n acc.
Proof.
  revert n acc. induction fuel as [|fuel IH]; intros n acc Hn Hacc.
  - assert (n = 0) as -> by (change (2 ^ N.of_nat 0) with 1 in Hn; lia).
    change (decimal_digits 1 0 acc) with ("0"%char :: acc). by split_and!.
  - assert (Hmod : n mod 10 < 10) by (apply N.mod_lt; lia).
    set (acc' := digit_char (n mod 10) :: acc).
    assert (Hacc' : forallb is_digit acc' = true) by (cbn; by rewrite is_digit_char).
    assert (Hval : decimal_value n acc = decimal_value (n / 10) acc').
    { unfold decimal_value, acc'. cbn. rewrite digit_value_char by done.
      f_equal. apply (N.div_mod n 10). lia. }
    cbn zeta. change (decimal_digits (S (S fuel)) n acc)
      with (if n / 10 =? 0 then acc' else decimal_digits (S fuel) (n / 10) acc').
    destruct (N.eqb_spec (n / 10) 0) as [E|E].
    + rewrite E in Hval. by rewrite Hval.
    + destruct (IH (n / 10) acc') as (? & ? & H); [|done|].
      { rewrite Nat2N.inj_succ, N.pow_succ_r' in Hn. apply N.Div0.div_lt_upper_bound. lia. }
      by rewrite H, Hval.
Qed.

Lemma size_nat_bound n : n < 2 ^ N.of_nat (N.size_nat n).
Proof.
  destruct n as [|p]; [done|]. cbn. induction p as [p IH|p IH|]; [..|done].
  all: cbn [Pos.size_nat]; rewrite Nat2N.inj_succ, N.pow_succ_r'; lia.
Qed.

Lemma to_string_spec n :
  forallb is_digit (to_string n) = true /\ to_string n <> [] /\
  decimal_value 0 (to_string n) = n.
Proof.
  destruct (decimal_digits_spec (N.size_nat n) n []) as (? & ? & H);
    [apply size_nat_bound|done|]. done.
Qed.

(** What [std::to_string] prints, [std::from_chars] reads back. *)
Lemma from_chars_to_string hi n : n <= hi -> from_chars_unsigned hi (to_string n) = fc_ok n.
Proof.
  intros Hn. destruct (to_string_spec n) as (Hd & Hne & Hv).
  unfold from_chars_unsigned. rewrite take_digits_all by done.
  destruct (to_string n); [done|]. rewrite Hv. by rewrite (proj2 (N.leb_le n hi) Hn).
Qed.

Lemma from_chars_unsigned_ok hi v n : from_chars_unsigned hi v = fc_ok n -> n <= hi.
Proof.
  unfold from_chars_unsigned. destruct (take_digits v); [done|].
  destruct (N.leb_spec (decimal_value 0 (a :: l)) hi); [|done]. by intros [= <-].
Qed.

(** Printed numbers contain no separator and do not start like a streamed
    string. *)
Lemma to_string_no_crlf n : find_crlf (to_string n) = None.
Proof.
  destruct (to_string_spec n) as (Hd & _ & _).
  induction (to_string n) as [|c v IH]; [done|].
  cbn [forallb] in Hd. apply andb_true_iff in Hd as [Hc Hd].
  cbn [find_crlf]. rewrite IH by done.
  assert (Ascii.eqb c CR = false) as E by (apply Ascii.eqb_neq; by apply digit_not).
  destruct v; [done|]. cbn. by rewrite E.
Qed.

Lemma to_string_head n : exists c v, to_string n = c :: v /\ is_digit c = true.
Proof.
  destruct (to_string_spec n) as (Hd & Hne & _).
  destruct (to_string n) as [|c v]; [done|]. exists c, v.
  cbn in Hd. apply andb_true_iff in Hd as [? _]. done.
Qed.
