(* ===== verification/Types.v ===== *)
(** * RESP3 types, nodes and errors

    [resp3/type.hpp], [resp3/impl/type.ipp], [resp3/node.hpp], [error.hpp],
    [impl/error.ipp] and the error structure of [adapter/result.hpp]. *)

From S2P Require Import Prelude.

(** ** [enum class resp3::type] *)

Module type.
Inductive t :=
  | array
  | push
  | set
  | map
  | attribute
  | simple_string
  | simple_error
  | number
  | doublean
  | boolean
  | big_number
  | null
  | blob_error
  | verbatim_string
  | blob_string
  | streamed_string
  | streamed_string_part
  | invalid.

#[global] Instance t_eq_dec : EqDecision t.
Proof. solve_decision. Defined.

Definition eqb (a b : t) : bool := bool_decide (a = b).
End type.

Definition type_to_string (t : type.t) : string :=
  match t with
  | type.array => "array"
  | type.push => "push"
  | type.set => "set"
  | type.map => "map"
  | type.attribute => "attribute"
  | type.simple_string => "simple_string"
  | type.simple_error => "simple_error"
  | type.number => "number"
  | type.doublean => "doublean"
  | type.boolean => "boolean"
  | type.big_number => "big_number"
  | type.null => "null"
  | type.blob_error => "blob_error"
  | type.verbatim_string => "verbatim_string"
  | type.blob_string => "blob_string"
  | type.streamed_string => "streamed_string"
  | type.streamed_string_part => "streamed_string_part"
  | type.invalid => "invalid"
  end.

Definition is_aggregate (t : type.t) : bool :=
  match t with
  | type.array | type.push | type.set | type.map | type.attribute => true
  | _ => false
  end.

Definition element_multiplicity (t : type.t) : size_t :=
  match t with
  | type.map | type.attribute => 2
  | _ => 1
  end.

#[local] Open Scope char_scope.

(** [to_code] asserts that the type has a wire code: the streamed-string
    header and [invalid] have none. *)
Definition to_code (t : type.t) : outcome ascii :=
  match t with
  | type.blob_error => Done "!"
  | type.verbatim_string => Done "="
  | type.blob_string => Done "$"
  | type.streamed_string_part => Done ";"
  | type.simple_error => Done "-"
  | type.number => Done ":"
  | type.doublean => Done ","
  | type.boolean => Done "#"
  | type.big_number => Done "("
  | type.simple_string => Done "+"
  | type.null => Done "_"
  | type.push => Done ">"
  | type.set => Done "~"
  | type.array => Done "*"
  | type.attribute => Done "|"
  | type.map => Done "%"
  | _ => _ ← boost_assert false; Done " "
  end.

Definition to_type (c : ascii) : type.t :=
  match c with
  | "!" => type.blob_error
  | "=" => type.verbatim_string
  | "$" => type.blob_string
  | ";" => type.streamed_string_part
  | "-" => type.simple_error
  | ":" => type.number
  | "," => type.doublean
  | "#" => type.boolean
  | "(" => type.big_number
  | "+" => type.simple_string
  | "_" => type.null
  | ">" => type.push
  | "~" => type.set
  | "*" => type.array
  | "|" => type.attribute
  | "%" => type.map
  | _ => type.invalid
  end.

Close Scope char_scope.

(** ** [struct basic_node] *)

Record node := mk_node {
  data_type : type.t;
  aggregate_size : size_t;
  depth : size_t;
  value : bytes;
}.

(** The value-initialised node [{}]. *)
Definition default_node : node := mk_node type.invalid 0 0 [].

#[global] Instance node_eq_dec : EqDecision node.
Proof. solve_decision. Defined.

(** [operator==] on nodes. *)
Definition node_eqb (a b : node) : bool :=
  (aggregate_size a =? aggregate_size b)
  && (depth a =? depth b)
  && type.eqb (data_type a) (data_type b)
  && bool_decide (value a = value b).

(** ** [enum class error] *)

Module error.
Inductive t :=
  | invalid_data_type
  | not_a_number
  | exceeeds_max_nested_depth
  | unexpected_bool_value
  | empty_field
  | expects_resp3_simple_type
  | expects_resp3_aggregate
  | expects_resp3_map
  | expects_resp3_set
  | nested_aggregate_not_supported
  | resp3_simple_error
  | resp3_blob_error
  | incompatible_size
  | not_a_double
  | resp3_null
  | not_connected
  | resolve_timeout
  | connect_timeout
  | pong_timeout
  | ssl_handshake_timeout
  | sync_receive_push_failed
  | incompatible_node_depth
  | resp3_hello.

#[global] Instance t_eq_dec : EqDecision t.
Proof. solve_decision. Defined.

(** The enumerators in declaration order; the first has value 1. *)
Definition all : list t :=
  [ invalid_data_type; not_a_number; exceeeds_max_nested_depth; unexpected_bool_value;
    empty_field; expects_resp3_simple_type; expects_resp3_aggregate; expects_resp3_map;
    expects_resp3_set; nested_aggregate_not_supported; resp3_simple_error;
    resp3_blob_error; incompatible_size; not_a_double; resp3_null; not_connected;
    resolve_timeout; connect_timeout; pong_timeout; ssl_handshake_timeout;
    sync_receive_push_failed; incompatible_node_depth; resp3_hello ].

(** [static_cast<int>(e)]. *)
Definition to_int (e : t) : Z :=
  match e with
  | invalid_data_type => 1
  | not_a_number => 2
  | exceeeds_max_nested_depth => 3
  | unexpected_bool_value => 4
  | empty_field => 5
  | expects_resp3_simple_type => 6
  | expects_resp3_aggregate => 7
  | expects_resp3_map => 8
  | expects_resp3_set => 9
  | nested_aggregate_not_supported => 10
  | resp3_simple_error => 11
  | resp3_blob_error => 12
  | incompatible_size => 13
  | not_a_double => 14
  | resp3_null => 15
  | not_connected => 16
  | resolve_timeout => 17
  | connect_timeout => 18
  | pong_timeout => 19
  | ssl_handshake_timeout => 20
  | sync_receive_push_failed => 21
  | incompatible_node_depth => 22
  | resp3_hello => 23
  end.
End error.

(** [error_category_impl::message]; an unknown value trips an assertion. *)
Definition error_message (ev : Z) : outcome string :=
  match ev with
  | 1%Z => Done "Invalid resp3 type."
  | 2%Z => Done "Can't convert string to number (maybe forgot to upgrade to RESP3?)."
  | 3%Z => Done "Exceeds the maximum number of nested responses."
  | 4%Z => Done "Unexpected bool value."
  | 5%Z => Done "Expected field value is empty."
  | 6%Z => Done "Expects a resp3 simple type."
  | 7%Z => Done "Expects resp3 aggregate."
  | 8%Z => Done "Expects resp3 map."
  | 9%Z => Done "Expects resp3 set."
  | 10%Z => Done "Nested aggregate not_supported."
  | 11%Z => Done "Got RESP3 simple-error."
  | 12%Z => Done "Got RESP3 blob-error."
  | 13%Z => Done "Aggregate container has incompatible size."
  | 14%Z => Done "Not a double."
  | 15%Z => Done "Got RESP3 null."
  | 16%Z => Done "Not connected."
  | 17%Z => Done "Resolve timeout."
  | 18%Z => Done "Connect timeout."
  | 19%Z => Done "Pong timeout."
  | 20%Z => Done "SSL handshake timeout."
  | 21%Z => Done "Can't receive server push synchronously without blocking."
  | 22%Z => Done "Incompatible node depth."
  | 23%Z => Done "RESP3 handshake error (hello command)."
  | _ => _ ← boost_assert false; Done "Boost.Redis error."
  end%string.

(** [system::error_code]: [None] is the default-constructed, falsy value.
    [sys] stands for the codes of other categories (sockets, TLS). *)
Inductive error_value :=
  | redis_error (e : error.t)
  | operation_aborted
  | sys (n : Z).

#[global] Instance error_value_eq_dec : EqDecision error_value.
Proof. solve_decision. Defined.

Abbreviation error_code := (option error_value).

Definition make_error_code (e : error.t) : error_code := Some (redis_error e).

(** [if (ec)]. *)
Definition has_ec (ec : error_code) : bool :=
  match ec with Some _ => true | None => false end.

(** [struct adapter::error]: an error message sent by Redis. *)
Record adapter_error := mk_adapter_error {
  err_data_type : type.t;
  diagnostic : bytes;
}.

#[global] Instance adapter_error_eq_dec : EqDecision adapter_error.
Proof. solve_decision. Defined.

Definition adapter_error_eqb (a b : adapter_error) : bool :=
  type.eqb (err_data_type a) (err_data_type b)
  && bool_decide (diagnostic a = diagnostic b).

(** [throw_exception_from_error]: the code carried by the thrown
    [system_error]. *)
Definition throw_exception_from_error (e : adapter_error) : outcome error_code :=
  match err_data_type e with
  | type.simple_error => Done (make_error_code error.resp3_simple_error)
  | type.blob_error => Done (make_error_code error.resp3_blob_error)
  | type.null => Done (make_error_code error.resp3_null)
  | _ => _ ← boost_assert false; Done None
  end.

(** ** Facts *)

Lemma type_eqb_spec a b : reflect (a = b) (type.eqb a b).
Proof. unfold type.eqb. case_bool_decide; by constructor. Qed.

Lemma type_eqb_refl a : type.eqb a a = true.
Proof. by destruct (type_eqb_spec a a). Qed.

Lemma element_multiplicity_pos t : 1 <= element_multiplicity t <= 2.
Proof. destruct t; cbn; lia. Qed.

Lemma node_eqb_spec a b : reflect (a = b) (node_eqb a b).
Proof.
  destruct a as [t1 s1 d1 v1], b as [t2 s2 d2 v2]. unfold node_eqb. cbn.
  destruct (N.eqb_spec s1 s2), (N.eqb_spec d1 d2), (type_eqb_spec t1 t2);
    cbn; try case_bool_decide; constructor; congruence.
Qed.

Lemma has_ec_false ec : has_ec ec = false <-> ec = None.
Proof. by destruct ec. Qed.
