(* ===== verification/Parser.v ===== *)
(** * The RESP3 parser

    [resp3/parser.hpp] and [resp3/impl/parser.ipp]: the incremental push
    parser [resp3::parser], its free function [resp3::parse], and
    [detail::deserialize] of [resp3/serialization.hpp], which parses a
    complete message. *)

From S2P Require Import Prelude Charconv Types.

(** ** [class parser] *)

Definition max_embedded_depth : N := 5.
Definition sep : bytes := [CR; LF].

Record parser := mk_parser {
  depth_ : size_t;
  sizes_ : list size_t;
  bulk_length_ : size_t;
  bulk_ : type.t;
  consumed_ : size_t;
}.

Definition with_bulk_length (p : parser) (n : size_t) : parser :=
  mk_parser (depth_ p) (sizes_ p) n (bulk_ p) (consumed_ p).
Definition with_bulk (p : parser) (t : type.t) : parser :=
  mk_parser (depth_ p) (sizes_ p) (bulk_length_ p) t (consumed_ p).
Definition with_consumed (p : parser) (n : size_t) : parser :=
  mk_parser (depth_ p) (sizes_ p) (bulk_length_ p) (bulk_ p) n.
Definition with_stack (p : parser) (d : size_t) (s : list size_t) : parser :=
  mk_parser d s (bulk_length_ p) (bulk_ p) (consumed_ p).

(** [reset()]: the array [{{1}}] is value-initialised after its first element,
    which is then overwritten by the sentinel 2. *)
Definition reset : parser :=
  mk_parser 0 [2; 0; 0; 0; 0; 0] size_max type.invalid 0.

(** [sizes_[i]], read and written: [std::array::operator[]] does not check its
    index, so an index past the end is undefined behaviour. *)
Definition sizes_get (s : list size_t) (i : size_t) : outcome size_t :=
  if i <? len s
  then match s !! N.to_nat i with Some n => Done n | None => Fault out_of_bounds end
  else Fault out_of_bounds.

Definition sizes_set (s : list size_t) (i n : size_t) : outcome (list size_t) :=
  if i <? len s then Done (<[N.to_nat i := n]> s) else Fault out_of_bounds.

(** [--sizes_[i]]. *)
Definition sizes_dec (s : list size_t) (i : size_t) : outcome (list size_t) :=
  n ← sizes_get s i; sizes_set s i (n -w 1).

Definition bulk_expected (p : parser) : bool := negb (type.eqb (bulk_ p) type.invalid).

Definition get_suggested_buffer_growth (p : parser) (hint : size_t) : size_t :=
  if negb (bulk_expected p) then hint
  else if hint <? bulk_length_ p +w 2 then bulk_length_ p +w 2
  else hint.

Definition get_consumed (p : parser) : size_t := consumed_ p.

Definition done (p : parser) : bool :=
  (depth_ p =? 0) && type.eqb (bulk_ p) type.invalid && negb (consumed_ p =? 0).

(** The [while] loop of [commit_elem].  Every iteration that does not fault
    lowers an index into an array of six, so a fuel of seven is never used up
    ([consume_cases] in ParserSafety). *)
Fixpoint commit_loop (fuel : nat) (d : size_t) (s : list size_t)
    : outcome (size_t * list size_t) :=
  match fuel with
  | O => Fault out_of_fuel
  | S fuel' =>
      n ← sizes_get s d;
      if n =? 0 then
        let d' := d -w 1 in
        s' ← sizes_dec s d';
        commit_loop fuel' d' s'
      else Done (d, s)
  end.

Definition commit_elem (p : parser) : outcome parser :=
  s ← sizes_dec (sizes_ p) (depth_ p);
  '(d, s') ← commit_loop 7 (depth_ p) s;
  Done (with_stack p d s').

(** [void to_int(std::size_t& i, std::string_view sv, error_code& ec)]: the
    new values of [i] and [ec]. *)
Definition to_int (i : size_t) (sv : bytes) (ec : error_code) : size_t * error_code :=
  match from_chars_unsigned size_max sv with
  | fc_ok n => (n, ec)
  | _ => (i, make_error_code error.not_a_number)
  end.

Definition consume_impl (p : parser) (t : type.t) (elem : bytes) (ec : error_code)
    : outcome (parser * error_code * node) :=
  _ ← boost_assert (negb (bulk_expected p));
  match t with
  | type.streamed_string_part =>
      let '(n, ec) := to_int (bulk_length_ p) elem ec in
      let p := with_bulk_length p n in
      if has_ec ec then Done (p, ec, default_node)
      else if n =? 0 then
        let ret := mk_node type.streamed_string_part 1 (depth_ p) [] in
        s ← sizes_set (sizes_ p) (depth_ p) 1;
        let p := with_bulk (with_stack p (depth_ p) s) type.invalid in
        p ← commit_elem p;
        Done (p, ec, ret)
      else Done (with_bulk p type.streamed_string_part, ec, default_node)
  | type.blob_error | type.verbatim_string | type.blob_string =>
      c ← sv_at elem 0;
      if Ascii.eqb c "?"%char then
        let d := depth_ p +w 1 in
        s ← sizes_set (sizes_ p) d size_max;
        Done (with_stack p d s, ec, mk_node type.streamed_string 0 d [])
      else
        let '(n, ec) := to_int (bulk_length_ p) elem ec in
        let p := with_bulk_length p n in
        if has_ec ec then Done (p, ec, default_node)
        else Done (with_bulk p t, ec, default_node)
  | type.boolean =>
      if bool_decide (elem = []) then
        Done (p, make_error_code error.empty_field, default_node)
      else
        c ← sv_at elem 0;
        if negb (Ascii.eqb c "f"%char) && negb (Ascii.eqb c "t"%char) then
          Done (p, make_error_code error.unexpected_bool_value, default_node)
        else
          let ret := mk_node t 1 (depth_ p) elem in
          p ← commit_elem p;
          Done (p, ec, ret)
  | type.doublean | type.big_number | type.number =>
      if bool_decide (elem = []) then
        Done (p, make_error_code error.empty_field, default_node)
      else
        let ret := mk_node t 1 (depth_ p) elem in
        p ← commit_elem p;
        Done (p, ec, ret)
  | type.simple_error | type.simple_string | type.null =>
      let ret := mk_node t 1 (depth_ p) elem in
      p ← commit_elem p;
      Done (p, ec, ret)
  | type.push | type.set | type.array | type.attribute | type.map =>
      let '(l, ec) := to_int size_max elem ec in
      if has_ec ec then Done (p, ec, default_node)
      else
        let ret := mk_node t l (depth_ p) [] in
        if l =? 0 then
          p ← commit_elem p;
          Done (p, ec, ret)
        else if depth_ p =? max_embedded_depth then
          Done (p, make_error_code error.exceeeds_max_nested_depth, default_node)
        else
          let d := depth_ p +w 1 in
          s ← sizes_set (sizes_ p) d (l *w element_multiplicity t);
          Done (with_stack p d s, ec, ret)
  | _ => Done (p, make_error_code error.invalid_data_type, default_node)
  end.

(** The second half of [consume], reached with a bulk pending. *)
Definition consume_bulk (p : parser) (view : bytes) (ec : error_code)
    : outcome (parser * error_code * option node) :=
  let span := bulk_length_ p +w 2 in
  if len view -w consumed_ p <? span then Done (p, ec, None)
  else
    bulk_view ← sv_substr view (consumed_ p) (bulk_length_ p);
    let ret := mk_node (bulk_ p) 1 (depth_ p) bulk_view in
    p ← commit_elem (with_bulk p type.invalid);
    Done (with_consumed p (consumed_ p +w span), ec, Some ret).

(** [consume]: [None] asks for more data. *)
Definition consume (p : parser) (view : bytes) (ec : error_code)
    : outcome (parser * error_code * option node) :=
  noexcept (
    if bulk_expected p then consume_bulk p view ec
    else
      match sv_find_sep view (consumed_ p) with
      | None => Done (p, ec, None)
      | Some pos =>
          c ← sv_at view (consumed_ p);
          content ← sv_substr view (consumed_ p +w 1) (pos -w 1 -w consumed_ p);
          '(p, ec, ret) ← consume_impl p (to_type c) content ec;
          if has_ec ec then Done (p, ec, None)
          else
            let p := with_consumed p (pos +w 2) in
            if negb (bulk_expected p) then Done (p, ec, Some ret)
            else consume_bulk p view ec
      end).

(** ** Parsing with an adapter

    An adapter is a function object: its state [S], and a call operator that
    updates the state and the error code. *)
Section WithAdapter.
Context {S : Type} (adapter : S -> node -> error_code -> outcome (S * error_code)).

(** [resp3::parse]: the last component is the result, [false] when more data
    is needed. *)
Fixpoint parse_loop (fuel : nat) (p : parser) (msg : bytes) (s : S) (ec : error_code)
    : outcome (parser * S * error_code * bool) :=
  match fuel with
  | O => Fault out_of_fuel
  | Datatypes.S fuel' =>
      if done p then Done (p, s, ec, true)
      else
        '(p, ec, res) ← consume p msg ec;
        if has_ec ec then Done (p, s, ec, true)
        else
          match res with
          | None => Done (p, s, ec, false)
          | Some nd =>
              '(s, ec) ← adapter s nd ec;
              if has_ec ec then Done (p, s, ec, true)
              else parse_loop fuel' p msg s ec
          end
  end.

(** A node takes at least one byte, or completes a bulk whose header was taken
    before: twice the length of the message, plus two, bounds the iterations
    ([parse_loop_cases] in ParserSafety). *)
Definition parse_fuel (msg : bytes) : nat := (2 * length msg + 2)%nat.

Definition parse (p : parser) (msg : bytes) (s : S) (ec : error_code)
    : outcome (parser * S * error_code * bool) :=
  parse_loop (parse_fuel msg) p msg s ec.

(** [detail::deserialize]: the message must be complete. *)
Fixpoint deserialize_loop (fuel : nat) (p : parser) (data : bytes) (s : S) (ec : error_code)
    : outcome (parser * S * error_code) :=
  match fuel with
  | O => Fault out_of_fuel
  | Datatypes.S fuel' =>
      if done p then
        _ ← boost_assert (get_consumed p =? len data);
        Done (p, s, ec)
      else
        '(p, ec, res) ← consume p data ec;
        if has_ec ec then Done (p, s, ec)
        else
          match res with
          | None => Fault assertion_failed
          | Some nd =>
              '(s, ec) ← adapter s nd ec;
              if has_ec ec then Done (p, s, ec)
              else deserialize_loop fuel' p data s ec
          end
  end.

Definition deserialize (data : bytes) (s : S) (ec : error_code) : outcome (S * error_code) :=
  '(_, s, ec) ← deserialize_loop (parse_fuel data) reset data s ec;
  Done (s, ec).

(** The overload without an error code throws it. *)
Definition deserialize_throwing (data : bytes) (s : S) : outcome S :=
  '(s, ec) ← deserialize data s None;
  if has_ec ec then Throw system_error else Done s.

End WithAdapter.

(** The adapter that collects the nodes it is given. *)
Definition collect (s : list node) (nd : node) (ec : error_code)
    : outcome (list node * error_code) := Done (s ++ [nd], ec).

Definition crlf (v : bytes) : bytes := v ++ sep.
#[local] Open Scope string_scope.

Example parse_array :
  parse collect reset (crlf (bs "*2") ++ crlf (bs "$3") ++ crlf (bs "foo") ++ crlf (bs ":42")) [] None
  = Done (mk_parser 0 [1; 0; 0; 0; 0; 0] 3 type.invalid 18,
          [ mk_node type.array 2 0 []; mk_node type.blob_string 1 1 (bs "foo");
            mk_node type.number 1 1 (bs "42") ], None, true).
Proof. vm_compute. reflexivity. Qed.
