(* ===== verification/ParserSpec.v ===== *)
(** * The parser as a stack machine

    An abstract specification of [resp3::parser]: the array of sizes and the
    depth become a stack of the numbers of elements still missing from the
    open aggregates, the pending bulk an option, and reading a header line is
    separated from its effect on the stack.  The parser refines it
    ([consume_refines]); memory safety, progress and completion are proved on
    the stack machine and transported. *)

From S2P Require Import Prelude Charconv Types Parser.

(** ** The machine *)

(** What one header line says, whatever the state of the parser. *)
Inductive header :=
  | h_leaf (t : type.t) (v : bytes)
  | h_bulk (t : type.t) (n : size_t)
  | h_aggregate (t : type.t) (n : size_t)
  | h_stream
  | h_stream_end
  | h_error (e : error.t)
  | h_crash.

Definition read_number (v : bytes) (k : size_t -> header) : header :=
  match from_chars_unsigned size_max v with
  | fc_ok n => k n
  | _ => h_error error.not_a_number
  end.

Definition read_header (t : type.t) (elem : bytes) : header :=
  match t with
  | type.streamed_string_part =>
      read_number elem (fun n => if n =? 0 then h_stream_end else h_bulk t n)
  | type.blob_error | type.verbatim_string | type.blob_string =>
      match elem with
      | [] => h_crash
      | c :: _ => if Ascii.eqb c "?"%char then h_stream else read_number elem (h_bulk t)
      end
  | type.boolean =>
      match elem with
      | [] => h_error error.empty_field
      | c :: _ =>
          if Ascii.eqb c "f"%char || Ascii.eqb c "t"%char then h_leaf t elem
          else h_error error.unexpected_bool_value
      end
  | type.doublean | type.big_number | type.number =>
      match elem with [] => h_error error.empty_field | _ => h_leaf t elem end
  | type.simple_error | type.simple_string | type.null => h_leaf t elem
  | type.push | type.set | type.array | type.attribute | type.map =>
      read_number elem (h_aggregate t)
  | type.streamed_string | type.invalid => h_error error.invalid_data_type
  end.

(** One element of the innermost aggregate is complete. *)
Fixpoint pop (st : list size_t) : outcome (list size_t) :=
  match st with
  | [] => Fault out_of_bounds
  | k :: st' => if k -w 1 =? 0 then pop st' else Done (k -w 1 :: st')
  end.

Record machine := mk_machine {
  stack : list size_t;
  pending : option (type.t * size_t);
  position : size_t;
}.

Definition level (st : list size_t) : size_t := len st - 1.

(** The effect of a header: the new stack and either the node it stands for
    or the bulk it announces. *)
Definition apply_header (st : list size_t) (h : header)
    : outcome (error.t + list size_t * (node + type.t * size_t)) :=
  match h with
  | h_leaf t v =>
      st' ← pop st; Done (inr (st', inl (mk_node t 1 (level st) v)))
  | h_bulk t n => Done (inr (st, inr (t, n)))
  | h_aggregate t n =>
      let nd := mk_node t n (level st) [] in
      if n =? 0 then st' ← pop st; Done (inr (st', inl nd))
      else if level st =? max_embedded_depth then Done (inl error.exceeeds_max_nested_depth)
      else Done (inr (n *w element_multiplicity t :: st, inl nd))
  | h_stream =>
      if level st =? max_embedded_depth then Fault out_of_bounds
      else Done (inr (size_max :: st, inl (mk_node type.streamed_string 0 (level st + 1) [])))
  | h_stream_end =>
      st' ← pop (tail st);
      Done (inr (st', inl (mk_node type.streamed_string_part 1 (level st) [])))
  | h_error e => Done (inl e)
  | h_crash => Fault terminate
  end.

Definition machine_bulk (m : machine) (t : type.t) (n : size_t) (view : bytes)
    : outcome (machine * option node) :=
  if len view - position m <? n +w 2 then Done (m, None)
  else
    let v := take (N.to_nat (N.min n (len view - position m)))
                  (drop (N.to_nat (position m)) view) in
    st ← pop (stack m);
    Done (mk_machine st None (position m + (n +w 2)),
          Some (mk_node t 1 (level (stack m)) v)).

(** One step: an error, or a new state and the node read, if any. *)
Definition machine_consume (m : machine) (view : bytes)
    : outcome (error.t + machine * option node) :=
  match pending m with
  | Some (t, n) => inr <$> machine_bulk m t n view
  | None =>
      match drop (N.to_nat (position m)) view with
      | [] => Done (inr (m, None))
      | c :: rest =>
          match find_crlf (c :: rest) with
          | None => Done (inr (m, None))
          | Some O => Done (inl error.invalid_data_type)
          | Some (S i) =>
              r ← apply_header (stack m) (read_header (to_type c) (take i rest));
              let pos := position m + N.of_nat (S i) + 2 in
              match r with
              | inl e => Done (inl e)
              | inr (st, inl nd) => Done (inr (mk_machine st None pos, Some nd))
              | inr (st, inr (t, n)) =>
                  inr <$> machine_bulk (mk_machine st (Some (t, n)) pos) t n view
              end
          end
      end
  end.

(** ** Abstraction *)

Definition below (d : nat) (s : list size_t) : list size_t := rev (take d s).
Definition stack_of (d : size_t) (s : list size_t) : list size_t := below (S (N.to_nat d)) s.

Definition abs (p : parser) : machine :=
  mk_machine (stack_of (depth_ p) (sizes_ p))
             (if bulk_expected p then Some (bulk_ p, bulk_length_ p) else None)
             (consumed_ p).

(** The array has its six elements and the depth is an index into it. *)
Definition in_bounds (d : size_t) (s : list size_t) : Prop :=
  length s = 6%nat /\ d <= max_embedded_depth.

(** The state relation of the refinement, for a buffer [view]. *)
Definition repr (view : bytes) (p : parser) (m : machine) : Prop :=
  in_bounds (depth_ p) (sizes_ p) /\ abs p = m /\ consumed_ p <= len view.

(** ** Refinement *)

Lemma sizes_get_spec d s :
  in_bounds d s ->
  exists k, sizes_get s d = Done k /\ s !! N.to_nat d = Some k /\
            stack_of d s = k :: below (N.to_nat d) s.
Proof.
  intros [Hl Hd]. unfold max_embedded_depth in Hd.
  destruct (lookup_lt_is_Some_2 s (N.to_nat d)) as [k Hk]; [lia|].
  exists k. split_and!; [|done|].
  - unfold sizes_get. rewrite Hk. by rewrite (proj2 (N.ltb_lt d (len s))) by (unfold len; lia).
  - unfold stack_of, below. erewrite take_S_r by done. by rewrite rev_app_distr.
Qed.

Lemma sizes_set_spec d s n :
  in_bounds d s ->
  exists s', sizes_set s d n = Done s' /\ in_bounds d s' /\
             s' !! N.to_nat d = Some n /\ below (N.to_nat d) s' = below (N.to_nat d) s.
Proof.
  intros [Hl Hd]. unfold max_embedded_depth in Hd.
  exists (<[N.to_nat d := n]> s). unfold sizes_set.
  rewrite (proj2 (N.ltb_lt d (len s))) by (unfold len; lia). split_and!; [done|..].
  - split; [by rewrite length_insert|done].
  - apply list_lookup_insert_eq. lia.
  - unfold below. by rewrite take_insert_ge.
Qed.

Lemma stack_of_eq d s k :
  s !! N.to_nat d = Some k -> stack_of d s = k :: below (N.to_nat d) s.
Proof. intros. unfold stack_of, below. erewrite take_S_r by done. by rewrite rev_app_distr. Qed.

(** An array and a depth that represent a stack. *)
Definition stack_repr (st : list size_t) (ds : size_t * list size_t) : Prop :=
  in_bounds ds.1 ds.2 /\ stack_of ds.1 ds.2 = st.

Lemma sizes_dec_spec d s :
  in_bounds d s ->
  exists k s', s !! N.to_nat d = Some k /\ sizes_dec s d = Done s' /\ in_bounds d s' /\
               s' !! N.to_nat d = Some (k -w 1) /\
               below (N.to_nat d) s' = below (N.to_nat d) s.
Proof.
  intros Hb. destruct (sizes_get_spec d s Hb) as (k & Hg & Hk & _).
  destruct (sizes_set_spec d s (k -w 1) Hb) as (s' & Hs & ? & ? & ?).
  exists k, s'. unfold sizes_dec. rewrite Hg. by split_and!.
Qed.

Lemma commit_loop_refines fuel d s n :
  in_bounds d s -> s !! N.to_nat d = Some n -> (N.to_nat d < fuel)%nat ->
  orel (flip stack_repr) (commit_loop fuel d s)
       (if n =? 0 then pop (below (N.to_nat d) s) else Done (n :: below (N.to_nat d) s)).
Proof.
  revert d s n. induction fuel as [|fuel IH]; intros d s n Hb Hn Hf; [lia|].
  destruct (sizes_get_spec d s Hb) as (k & Hg & Hk & Hst).
  assert (k = n) as -> by congruence. cbn [commit_loop]. rewrite Hg. cbn.
  destruct (N.eqb_spec n 0) as [->|Hnz].
  - destruct (decide (d = 0)) as [->|Hd].
    + cbn. unfold sizes_dec, sizes_get. destruct Hb as [Hl _].
      unfold len. by rewrite Hl.
    + destruct Hb as [Hl Hb]. unfold max_embedded_depth in Hb.
      assert (d -w 1 = d - 1) as Hw by (apply wsub_small; unfold size_modulus; lia).
      rewrite Hw. assert (Hb' : in_bounds (d - 1) s) by (split; [done|unfold max_embedded_depth; lia]).
      destruct (sizes_dec_spec _ _ Hb') as (k & s' & Hk' & -> & Hs' & Hk1 & Hbel). cbn.
      assert (below (N.to_nat d) s = k :: below (N.to_nat (d - 1)) s) as Hbd.
      { rewrite <- stack_of_eq by done. unfold stack_of. f_equal. lia. }
      rewrite Hbd, <- Hbel. cbn. apply IH; [done..|lia].
  - cbn. unfold flip, stack_repr. done.
Qed.

Lemma commit_elem_refines p :
  in_bounds (depth_ p) (sizes_ p) ->
  orel (fun p' st => exists d s, p' = with_stack p d s /\ stack_repr st (d, s))
       (commit_elem p) (pop (stack_of (depth_ p) (sizes_ p))).
Proof.
  intros Hb. destruct (sizes_dec_spec _ _ Hb) as (k & s & Hk & Hs & Hb' & Hk' & Hbel).
  unfold commit_elem. rewrite Hs, (stack_of_eq _ _ _ Hk), <- Hbel. cbn [pop mbind outcome_bind].
  assert (N.to_nat (depth_ p) < 7)%nat by (destruct Hb as [_ Hb]; unfold max_embedded_depth in Hb; lia).
  pose proof (commit_loop_refines 7 _ _ _ Hb' Hk' H) as Hl.
  destruct (commit_loop 7 (depth_ p) s) as [[d s1]|?|?], (if _ =? 0 then _ else _); naive_solver.
Qed.

Lemma level_stack_of d s : in_bounds d s -> level (stack_of d s) = d.
Proof.
  intros [Hl Hd]. unfold max_embedded_depth in Hd.
  unfold level, stack_of, below, len. rewrite length_rev, length_take. lia.
Qed.

(** How the results of [consume_impl] and of [apply_header] correspond. *)
Definition header_repr (p : parser) (x : parser * error_code * node)
    (r : error.t + list size_t * (node + type.t * size_t)) : Prop :=
  let '(p', ec, ret) := x in
  match r with
  | inl e => ec = make_error_code e /\ p' = p
  | inr (st, inl nd) =>
      ec = None /\ ret = nd /\
      exists d s n, p' = mk_parser d s n type.invalid (consumed_ p) /\ stack_repr st (d, s)
  | inr (st, inr (t, n)) =>
      ec = None /\ t <> type.invalid /\ st = stack_of (depth_ p) (sizes_ p) /\
      p' = mk_parser (depth_ p) (sizes_ p) n t (consumed_ p)
  end.

Lemma push_stack_repr d s n :
  in_bounds d s -> d <> max_embedded_depth ->
  exists s', sizes_set s (d +w 1) n = Done s' /\ stack_repr (n :: stack_of d s) (d +w 1, s').
Proof.
  intros [Hl Hd] Hne. unfold max_embedded_depth in *.
  rewrite wadd_small by (unfold size_modulus; lia).
  assert (Hb : in_bounds (d + 1) s) by (split; [done|unfold max_embedded_depth; lia]).
  destruct (sizes_set_spec _ _ n Hb) as (s' & -> & Hb' & Hn & Hbel).
  exists s'. split; [done|]. split; [done|]. cbn [fst snd].
  rewrite (stack_of_eq _ _ _ Hn), Hbel. unfold stack_of. f_equal. f_equal. lia.
Qed.

Lemma pop_no_throw st e : pop st <> Throw e.
Proof. induction st as [|k st IH]; cbn; [done|]. by destruct (_ =? 0). Qed.

(** An element that ends a value: emit a node and pop. *)
Lemma commit_node_refines p q nd :
  in_bounds (depth_ q) (sizes_ q) -> bulk_ q = type.invalid -> consumed_ q = consumed_ p ->
  orel (header_repr p)
    (noexcept (p' ← commit_elem q; Done (p', None, nd)))
    (st ← pop (stack_of (depth_ q) (sizes_ q)); Done (inr (st, inl nd))).
Proof.
  intros Hb Hbulk Hc. pose proof (commit_elem_refines q Hb) as H.
  destruct (commit_elem q) as [p'|?|?], (pop _) as [st|?|?] eqn:Hpop; try done.
  2: by apply pop_no_throw in Hpop.
  destruct H as (d & s & -> & H). cbn. split_and!; [done..|].
  exists d, s, (bulk_length_ q). by rewrite <- Hbulk, <- Hc.
Qed.

#[local] Ltac header_simpl :=
  cbn [mbind outcome_bind noexcept apply_header orel header_repr has_ec make_error_code].

Lemma aggregate_refines p t elem :
  in_bounds (depth_ p) (sizes_ p) -> bulk_ p = type.invalid -> is_aggregate t = true ->
  orel (header_repr p) (noexcept (consume_impl p t elem None))
       (apply_header (stack_of (depth_ p) (sizes_ p)) (read_number elem (h_aggregate t))).
Proof.
  intros Hb Hbulk Ht. pose proof (level_stack_of _ _ Hb) as Hlev.
  unfold consume_impl, bulk_expected, to_int, read_number.
  rewrite Hbulk, type_eqb_refl. cbn [negb boost_assert mbind outcome_bind].
  destruct t; try discriminate Ht.
  all: destruct (from_chars_unsigned _ _) as [l| |]; header_simpl; [|done..].
  all: rewrite Hlev; destruct (l =? 0); [by apply commit_node_refines|].
  all: destruct (N.eqb_spec (depth_ p) max_embedded_depth); [by header_simpl|].
  all: edestruct push_stack_repr as (s' & -> & Hs'); [done..|]; header_simpl.
  all: split_and!; [done..|]; rewrite <- Hbulk; by do 3 eexists.
Qed.

Lemma blob_refines p t elem :
  in_bounds (depth_ p) (sizes_ p) -> bulk_ p = type.invalid ->
  t = type.blob_error \/ t = type.verbatim_string \/ t = type.blob_string ->
  orel (header_repr p) (noexcept (consume_impl p t elem None))
       (apply_header (stack_of (depth_ p) (sizes_ p)) (read_header t elem)).
Proof.
  intros Hb Hbulk Ht. pose proof (level_stack_of _ _ Hb) as Hlev.
  unfold consume_impl, bulk_expected, to_int.
  rewrite Hbulk, type_eqb_refl. cbn [negb boost_assert mbind outcome_bind].
  destruct Ht as [->|[->| ->]]; cbn [read_header]; unfold read_number.
  all: destruct elem as [|c elem]; [done|].
  all: change (sv_at (c :: elem) 0) with (Done c); header_simpl.
  all: destruct (Ascii.eqb c "?").
  2, 4, 6: destruct (from_chars_unsigned _ _); header_simpl; [|by destruct p..]; by split_and!.
  all: header_simpl; rewrite Hlev; destruct (N.eqb_spec (depth_ p) max_embedded_depth) as [E|].
  2, 4, 6: edestruct push_stack_repr as (s' & -> & Hs'); [done..|]; header_simpl.
  2, 3, 4: destruct Hs' as [Hs1 Hs2]; rewrite wadd_small in * by (destruct Hb; unfold size_modulus, max_embedded_depth in *; lia).
  2, 3, 4: split_and!; [done..|]; rewrite <- Hbulk; by do 3 eexists.
  all: unfold sizes_set; rewrite E; destruct Hb as [Hl _]; unfold len; by rewrite Hl.
Qed.

Lemma stream_part_refines p elem :
  in_bounds (depth_ p) (sizes_ p) -> bulk_ p = type.invalid ->
  orel (header_repr p) (noexcept (consume_impl p type.streamed_string_part elem None))
       (apply_header (stack_of (depth_ p) (sizes_ p)) (read_header type.streamed_string_part elem)).
Proof.
  intros Hb Hbulk. pose proof (level_stack_of _ _ Hb) as Hlev.
  unfold consume_impl, bulk_expected, to_int.
  rewrite Hbulk, type_eqb_refl. cbn [negb boost_assert mbind outcome_bind read_header]. unfold read_number.
  destruct (from_chars_unsigned _ _) as [n| |]; header_simpl.
  2, 3: by destruct p.
  destruct (n =? 0); [|by header_simpl].
  header_simpl. rewrite Hlev. cbn [depth_ sizes_ with_bulk_length].
  destruct (sizes_set_spec _ _ 1 Hb) as (s & -> & Hb' & H1 & Hbel). cbn [mbind outcome_bind].
  destruct (sizes_get_spec _ _ Hb) as (k & _ & _ & ->).
  pose (q := with_bulk (with_stack (with_bulk_length p n) (depth_ p) s) type.invalid).
  pose proof (commit_node_refines p q (mk_node type.streamed_string_part 1 (depth_ p) []) Hb' eq_refl eq_refl) as H.
  cbn [q depth_ sizes_ with_bulk with_stack] in H.
  by rewrite (stack_of_eq _ _ _ H1), Hbel in H.
Qed.

Lemma consume_impl_refines p t elem :
  in_bounds (depth_ p) (sizes_ p) -> bulk_ p = type.invalid ->
  orel (header_repr p) (noexcept (consume_impl p t elem None))
       (apply_header (stack_of (depth_ p) (sizes_ p)) (read_header t elem)).
Proof.
  intros Hb Hbulk. pose proof (level_stack_of _ _ Hb) as Hlev.
  destruct t; try (by apply aggregate_refines); try (apply blob_refines; by auto);
    try (by apply stream_part_refines).
  all: unfold consume_impl, bulk_expected; rewrite Hbulk, type_eqb_refl.
  all: cbn [negb boost_assert mbind outcome_bind read_header].
  all: try (by header_simpl); try (header_simpl; rewrite Hlev; by apply commit_node_refines).
  all: destruct elem as [|c elem]; [done|]; rewrite bool_decide_false by done.
  3: change (sv_at (c :: elem) 0) with (Done c); header_simpl;
     destruct (Ascii.eqb c "f"), (Ascii.eqb c "t"); cbn [negb andb orb]; try (by header_simpl).
  all: header_simpl; rewrite Hlev; by apply commit_node_refines.
Qed.

(** Results of a step of the parser and of the machine. *)
Definition step_repr (view : bytes) (x : parser * error_code * option node)
    (y : machine * option node) : Prop :=
  let '(p', ec, r) := x in ec = None /\ r = y.2 /\ repr view p' y.1.

Definition consume_repr (view : bytes) (p : parser) (x : parser * error_code * option node)
    (y : error.t + machine * option node) : Prop :=
  match y with
  | inl e => x = (p, make_error_code e, None)
  | inr y => step_repr view x y
  end.

Lemma bulk_expected_true p : bulk_ p <> type.invalid -> bulk_expected p = true.
Proof. intros. unfold bulk_expected. by destruct (type_eqb_spec (bulk_ p) type.invalid). Qed.

Lemma bulk_expected_false p : bulk_expected p = false <-> bulk_ p = type.invalid.
Proof. unfold bulk_expected. by destruct (type_eqb_spec (bulk_ p) type.invalid). Qed.

Lemma repr_idle view d s n c st :
  stack_repr st (d, s) -> c <= len view ->
  repr view (mk_parser d s n type.invalid c) (mk_machine st None c).
Proof.
  intros [Hb Hst] Hc. split_and!; [done| |done].
  unfold abs, bulk_expected. cbn in *. rewrite type_eqb_refl. cbn. by rewrite Hst.
Qed.

Lemma consume_bulk_refines view p :
  in_bounds (depth_ p) (sizes_ p) -> bulk_ p <> type.invalid ->
  consumed_ p <= len view -> len view < size_modulus ->
  orel (step_repr view) (noexcept (consume_bulk p view None))
       (machine_bulk (abs p) (bulk_ p) (bulk_length_ p) view).
Proof.
  intros Hb Hbulk Hc Hv. unfold consume_bulk, machine_bulk. cbn [abs position stack].
  rewrite (wsub_small (len view) (consumed_ p)) by done.
  set (span := bulk_length_ p +w 2).
  destruct (N.ltb_spec (len view - consumed_ p) span) as [|Hspan]; [by cbn|].
  unfold sv_substr. rewrite (proj2 (N.leb_le _ _) Hc). cbn [mbind outcome_bind].
  rewrite level_stack_of by done.
  pose proof (commit_elem_refines (with_bulk p type.invalid) Hb) as H.
  cbn [depth_ sizes_ with_bulk] in H.
  destruct (commit_elem _) as [p'|?|?], (pop _) as [st|?|?] eqn:Hpop; try done.
  2: by apply pop_no_throw in Hpop.
  destruct H as (d & s & -> & H). cbn. split_and!; [done..|].
  rewrite wadd_small by lia. apply repr_idle; [done|lia].
Qed.

Lemma find_sep_spec view c :
  c <= len view ->
  sv_find_sep view c = (fun i => c + N.of_nat i) <$> find_crlf (drop (N.to_nat c) view).
Proof. intros Hc. unfold sv_find_sep. by rewrite (proj2 (N.leb_le _ _) Hc). Qed.

Lemma find_crlf_0 x rest : find_crlf (x :: rest) = Some 0%nat -> x = CR.
Proof.
  cbn [find_crlf]. destruct (starts_crlf (x :: rest)) eqn:E; [|by destruct (find_crlf rest)].
  intros _. destruct rest; [done|]. cbn in E. apply andb_true_iff in E as [E _].
  by apply Ascii.eqb_eq in E.
Qed.

Lemma header_char (view : bytes) c x rest :
  drop (N.to_nat c) view = x :: rest -> sv_at view c = Done x /\ c + 1 <= len view.
Proof.
  intros Hd. assert (Hx : view !! N.to_nat c = Some x).
  { rewrite <- (Nat.add_0_r (N.to_nat c)), <- lookup_drop, Hd. done. }
  pose proof (lookup_lt_Some _ _ _ Hx). split; [|unfold len; lia].
  unfold sv_at, len. by rewrite Hx, (proj2 (N.ltb_lt _ _)) by lia.
Qed.

(** The header line at the position of the parser. *)
Lemma header_line view c x rest i :
  len view < size_modulus -> drop (N.to_nat c) view = x :: rest ->
  find_crlf (x :: rest) = Some (S i) ->
  sv_at view c = Done x /\
  sv_substr view (c +w 1) ((c + N.of_nat (S i)) -w 1 -w c) = Done (take i rest) /\
  c + N.of_nat (S i) + 2 <= len view.
Proof.
  intros Hv Hd Hi. pose proof (find_crlf_bound _ _ Hi) as Hb.
  destruct (header_char _ _ _ _ Hd) as [Hx Hlt].
  assert (Hlen : (length view = N.to_nat c + length (x :: rest))%nat).
  { rewrite <- Hd, length_drop. unfold len in Hlt. lia. }
  cbn [length] in *. unfold len in *. split_and!; [done| |lia].
  rewrite wadd_small by lia. rewrite (wsub_small _ 1), wsub_small by lia.
  unfold sv_substr, len. rewrite (proj2 (N.leb_le _ _)) by lia. f_equal.
  replace (N.to_nat (c + 1)) with (N.to_nat c + 1)%nat by lia.
  rewrite <- drop_drop, Hd. cbn. f_equal. lia.
Qed.

Theorem consume_refines_machine view p :
  in_bounds (depth_ p) (sizes_ p) -> consumed_ p <= len view -> len view < size_modulus ->
  orel (consume_repr view p) (consume p view None) (machine_consume (abs p) view).
Proof.
  intros Hb Hc Hv. unfold consume, machine_consume. cbn [abs pending position stack].
  destruct (bulk_expected p) eqn:Hbulk.
  { assert (bulk_ p <> type.invalid) as Hne by (intros E%bulk_expected_false; congruence).
    pose proof (consume_bulk_refines view p Hb Hne Hc Hv) as H.
    by destruct (noexcept (consume_bulk p view None)), (machine_bulk _ _ _ _). }
  apply bulk_expected_false in Hbulk. rewrite find_sep_spec by done.
  destruct (drop (N.to_nat (consumed_ p)) view) as [|x rest] eqn:Hd.
  { cbn. split_and!; [done..|]. split_and!; [done| |done]. unfold abs.
    by rewrite (proj2 (bulk_expected_false p) Hbulk). }
  destruct (find_crlf (x :: rest)) as [[|i]|] eqn:Hi; cbn [fmap option_fmap option_map].
  3: { cbn. split_and!; [done..|]. split_and!; [done| |done]. unfold abs.
       by rewrite (proj2 (bulk_expected_false p) Hbulk). }
  - (* the separator comes first: [\r] is no type *)
    destruct (header_char _ _ _ _ Hd) as [-> Hpos]. cbn [mbind outcome_bind].
    apply find_crlf_0 in Hi as ->. rewrite (wadd_small (consumed_ p) 1) by lia.
    unfold sv_substr. rewrite (proj2 (N.leb_le _ _) Hpos). cbn [mbind outcome_bind].
    unfold consume_impl, bulk_expected. by rewrite Hbulk.
  - destruct (header_line _ _ _ _ _ Hv Hd Hi) as (-> & -> & Hpos). cbn [mbind outcome_bind].
    set (h := read_header _ _).
    pose proof (consume_impl_refines p (to_type x) (take i rest) Hb Hbulk) as H. fold h in H.
    rewrite noexcept_bind.
    destruct (noexcept (consume_impl _ _ _ _)) as [[[p' ec] ret]|?|?],
      (apply_header _ h) as [[err|[st [nd|[t n]]]]|?|?]; try done; cbn [header_repr mbind outcome_bind orel] in *.
    + destruct H as [-> ->]. done.
    + destruct H as (-> & -> & d & s & n & -> & H). cbn. split_and!; [done..|].
      rewrite wadd_small by lia. by apply repr_idle.
    + destruct H as (-> & Hne & -> & ->).
      set (q := mk_parser (depth_ p) (sizes_ p) n t (consumed_ p + N.of_nat (S i) + 2)).
      pose proof (consume_bulk_refines view q Hb Hne Hpos Hv) as H.
      unfold abs in H. rewrite (bulk_expected_true q Hne) in H. cbn [depth_ sizes_ bulk_ bulk_length_ consumed_ q] in H.
      cbn [has_ec]. rewrite (wadd_small _ 2) by lia.
      change (with_consumed _ _) with q.
      rewrite (bulk_expected_true q Hne). cbn [negb].
      by destruct (noexcept (consume_bulk q view None)), (machine_bulk _ _ _ _).
Qed.
