(* ===== verification/ParserSafety.v ===== *)
(** * Safety and progress of the parser

    From the invariant of a parser in the middle of a message: exactly which
    header lines make [consume] leave defined behaviour, that every other
    input keeps the invariant, that the message is complete exactly when the
    bottom of the stack was counted down, and that [parse] terminates. *)

From S2P Require Import Prelude Charconv Types Parser ParserSpec.

(** ** Stacks of a message in progress

    At the bottom is the sentinel 2 of the code, so that closing the message
    leaves 1 and never 0. *)
Definition open_stack (st : list size_t) : Prop :=
  exists u, st = u ++ [2] /\ len u <= max_embedded_depth.

(** At least one aggregate is open. *)
Definition nested_stack (st : list size_t) : Prop :=
  exists k u, st = k :: u ++ [2] /\ 1 + len u <= max_embedded_depth.

Definition popped (st : list size_t) : Prop := nested_stack st \/ st = [1].

Lemma nested_open st : nested_stack st -> open_stack st.
Proof. intros (k & u & -> & ?). exists (k :: u). rewrite len_cons. done. Qed.

Lemma open_level st : open_stack st -> level st <= max_embedded_depth.
Proof. intros (u & -> & ?). unfold level. rewrite len_app, len_cons, len_nil. lia. Qed.

Lemma open_level_0 st : open_stack st -> level st = 0 -> st = [2].
Proof.
  intros ([|k u] & -> & ?); [done|]. unfold level.
  rewrite len_app, !len_cons, len_nil. lia.
Qed.

Lemma open_level_pos st : open_stack st -> level st <> 0 -> open_stack (tail st).
Proof.
  intros ([|k u] & -> & H) Hl; [done|]. exists u. rewrite len_cons in H. cbn. split; [done|lia].
Qed.

Lemma open_push st k : open_stack st -> level st <> max_embedded_depth -> nested_stack (k :: st).
Proof.
  intros (u & -> & H) Hl. exists k, u. split; [done|].
  unfold level in Hl. rewrite len_app, len_cons, len_nil in Hl. lia.
Qed.

Lemma pop_open st : open_stack st -> exists st', pop st = Done st' /\ popped st'.
Proof.
  intros (u & -> & H). induction u as [|k u IH]; cbn [app pop].
  - exists [1]. split; [done|by right].
  - rewrite len_cons in H. destruct (_ =? 0); [apply IH; lia|].
    eexists. split; [done|]. left. by do 2 eexists.
Qed.

(** ** Header lines outside of defined behaviour

    - the length of a blob is missing: [elem.at(0)] throws in [noexcept] code;
    - a streamed string opens at the greatest depth: [sizes_[++depth_]] is
      past the end;
    - a streamed string ends at depth zero, where none was opened:
      [--depth_] wraps around. *)
Definition hazardous (lev : size_t) (h : header) : bool :=
  match h with
  | h_crash => true
  | h_stream => lev =? max_embedded_depth
  | h_stream_end => lev =? 0
  | _ => false
  end.

Definition header_ok (st : list size_t) (r : error.t + list size_t * (node + type.t * size_t)) : Prop :=
  match r with
  | inl _ => True
  | inr (st', inl _) => popped st'
  | inr (st', inr (t, _)) => st' = st
  end.

Lemma pop_node st nd (k := fun st' => Done (inr (st', inl nd))) :
  open_stack st -> exists r, (st' ← pop st; k st') = Done r /\ header_ok st r.
Proof. intros H. destruct (pop_open st H) as (st' & -> & Hp). by eexists. Qed.

Lemma apply_header_safe st h :
  open_stack st -> hazardous (level st) h = false ->
  exists r, apply_header st h = Done r /\ header_ok st r.
Proof.
  intros Ho Hh. destruct h as [t v|t n|t n| | |e|]; cbn [hazardous apply_header] in *; try done.
  - by apply pop_node.
  - by eexists.
  - destruct (n =? 0); [by apply pop_node|].
    destruct (N.eqb_spec (level st) max_embedded_depth); [by eexists|].
    eexists. split; [done|]. left. by apply open_push.
  - rewrite Hh. apply N.eqb_neq in Hh. eexists. split; [done|]. left. by apply open_push.
  - apply N.eqb_neq in Hh. destruct (pop_open (tail st)) as (st' & -> & ?); [by apply open_level_pos|].
    by eexists.
  - by eexists.
Qed.

Lemma apply_header_hazard st h :
  open_stack st -> hazardous (level st) h = true -> exists f, apply_header st h = Fault f.
Proof.
  intros Ho Hh. destruct h as [t v|t n|t n| | |e|]; cbn [hazardous apply_header] in *; try done.
  - rewrite Hh. eauto.
  - apply N.eqb_eq in Hh. rewrite (open_level_0 st) by done. cbn. eauto.
  - eauto.
Qed.

(** ** The invariant of a message in progress *)

Record in_progress (view : bytes) (m : machine) : Prop := {
  ip_stack : open_stack (stack m);
  ip_position : position m <= len view;
  ip_fresh : level (stack m) = 0 -> pending m = None -> position m = 0;
  ip_header : pending m <> None -> position m <> 0;
}.

Definition finished (view : bytes) (m : machine) : Prop :=
  stack m = [1] /\ pending m = None /\ position m <> 0 /\ position m <= len view.

(** The header line the machine reads next, when it is complete. *)
Definition next_header (m : machine) (view : bytes) : option header :=
  match pending m with
  | Some _ => None
  | None =>
      match drop (N.to_nat (position m)) view with
      | [] => None
      | c :: rest =>
          match find_crlf (c :: rest) with
          | Some (S i) => Some (read_header (to_type c) (take i rest))
          | _ => None
          end
      end
  end.

Definition hazard (m : machine) (view : bytes) : bool :=
  match next_header m view with
  | Some h => hazardous (level (stack m)) h
  | None => false
  end.

(** Bytes left, with the pending bulk as a half step. *)
Definition budget (view : bytes) (m : machine) : N :=
  2 * (len view - position m) + (if pending m is Some _ then 1 else 0).

(** What a step that neither faults nor fails does. *)
Definition step_ok (view : bytes) (m : machine) (x : machine * option node) : Prop :=
  match x with
  | (m', None) => in_progress view m' /\ (m' = m \/ next_header m view <> None)
  | (m', Some _) =>
      pending m' = None /\ budget view m' < budget view m /\
      (in_progress view m' \/ finished view m')
  end.

Lemma popped_settled view st pos :
  popped st -> pos <> 0 -> pos <= len view ->
  in_progress view (mk_machine st None pos) \/ finished view (mk_machine st None pos).
Proof.
  intros [Hn| ->] H0 Hl; [left|by right].
  split; cbn; [by apply nested_open|done| |done].
  destruct Hn as (k & u & -> & ?). unfold level. rewrite len_cons, len_app, len_cons, len_nil. lia.
Qed.

Lemma machine_bulk_safe view m t n :
  in_progress view m -> pending m = Some (t, n) ->
  exists x, machine_bulk m t n view = Done x /\
    (x = (m, None) \/
     exists m' nd, x = (m', Some nd) /\ pending m' = None /\ position m <= position m' /\
       (in_progress view m' \/ finished view m')).
Proof.
  intros [Hs Hp Hf Hh] Hpend. unfold machine_bulk.
  destruct (N.ltb_spec (len view - position m) (n +w 2)); [eauto|].
  destruct (pop_open _ Hs) as (st & -> & Hst). cbn. eexists. split; [done|]. right.
  assert (position m <> 0) by (apply Hh; by rewrite Hpend).
  do 2 eexists. split_and!; [done..|cbn; lia|]. apply popped_settled; [done|lia..].
Qed.

Lemma machine_consume_safe view m :
  in_progress view m -> hazard m view = false ->
  exists r, machine_consume m view = Done r /\
    match r with inl _ => True | inr x => step_ok view m x end.
Proof.
  intros Hm Hz. pose proof Hm as [Hs Hp Hf Hh]. unfold machine_consume, hazard, next_header in *.
  destruct (pending m) as [[t n]|] eqn:Hpend.
  { destruct (machine_bulk_safe _ _ _ _ Hm Hpend) as (x & -> & Hx). cbn. eexists. split; [done|].
    destruct Hx as [->|(m' & nd & -> & Hn & Hle & Hx)]; cbn; [by auto|].
    unfold budget. rewrite Hn, Hpend. split_and!; [done|lia|done]. }
  assert (Hnone : step_ok view m (m, None)) by (cbn; auto).
  destruct (drop (N.to_nat (position m)) view) as [|c rest] eqn:Hd; [by eexists|].
  destruct (find_crlf (c :: rest)) as [[|i]|] eqn:Hi; [by eexists| |by eexists].
  destruct (apply_header_safe _ _ Hs Hz) as (r & -> & Hr). cbn [mbind outcome_bind].
  pose proof (find_crlf_bound _ _ Hi) as Hb. pose proof (f_equal length Hd) as Hlen.
  rewrite length_drop in Hlen.
  set (pos := position m + N.of_nat (S i) + 2). assert (pos <= len view) by (unfold len; lia).
  destruct r as [e|[st [nd|[t n]]]]; [by eexists|..]; cbn in Hr.
  - eexists. split; [done|]. cbn. unfold budget. cbn. rewrite Hpend.
    split_and!; [done|lia|]. apply popped_settled; [done|lia..].
  - subst st. set (m1 := mk_machine _ _ _).
    assert (Hm1 : in_progress view m1) by (split; cbn; [done|lia|done|lia]).
    destruct (machine_bulk_safe _ m1 t n Hm1 eq_refl) as (x & -> & Hx). cbn. eexists. split; [done|].
    destruct Hx as [->|(m' & nd & -> & Hn & Hle & Hx)]; cbn.
    + split; [done|]. right. unfold next_header. by rewrite Hpend, Hd, Hi.
    + cbn in Hle. unfold budget. rewrite Hn, Hpend. split_and!; [done|lia|done].
Qed.

Lemma machine_consume_hazard view m :
  in_progress view m -> hazard m view = true -> exists f, machine_consume m view = Fault f.
Proof.
  intros [Hs _ _ _]. unfold hazard, next_header, machine_consume.
  destruct (pending m) as [[t n]|]; [done|].
  destruct (drop _ view) as [|c rest]; [done|].
  destruct (find_crlf (c :: rest)) as [[|i]|]; [done| |done].
  intros Hh. by destruct (apply_header_hazard _ _ Hs Hh) as [f ->]; eauto.
Qed.

(** ** The parser *)

(** A parser in the middle of a message, and one that has completed it. *)
Definition parsing (view : bytes) (p : parser) : Prop :=
  in_bounds (depth_ p) (sizes_ p) /\ in_progress view (abs p).

Definition complete (view : bytes) (p : parser) : Prop :=
  in_bounds (depth_ p) (sizes_ p) /\ finished view (abs p).

Lemma abs_pending p : pending (abs p) = None <-> bulk_ p = type.invalid.
Proof. cbn. rewrite <- bulk_expected_false. by destruct (bulk_expected p). Qed.

Lemma done_spec p :
  done p = true <-> depth_ p = 0 /\ bulk_ p = type.invalid /\ consumed_ p <> 0.
Proof.
  unfold done. rewrite !andb_true_iff, negb_true_iff, N.eqb_eq, N.eqb_neq.
  destruct (type_eqb_spec (bulk_ p) type.invalid); intuition congruence.
Qed.

Lemma parsing_not_done view p : parsing view p -> done p = false.
Proof.
  intros [Hb [_ _ Hf _]]. apply not_true_is_false. intros (Hd & Hbulk & Hc)%done_spec.
  apply Hc, Hf; [|by apply abs_pending]. cbn. by rewrite level_stack_of.
Qed.

Lemma complete_done view p : complete view p -> done p = true.
Proof.
  intros [Hb (Hs & Hp & Hc & _)]. apply done_spec. split_and!; [|by apply abs_pending|done].
  rewrite <- (level_stack_of _ _ Hb). cbn in Hs. by rewrite Hs.
Qed.

Lemma parsing_reset view : parsing view reset.
Proof. split; [done|]. split; [by exists []|cbn; lia|done|done]. Qed.

Lemma parsing_mono v w p : parsing v p -> parsing (v ++ w) p.
Proof.
  intros [Hb [Hs Hp Hf Hh]]. split; [done|]. split; [done| |done..]. rewrite len_app. lia.
Qed.

(** [consume] leaves defined behaviour exactly on a hazardous header line. *)
Lemma consume_faults view p :
  parsing view p -> len view < size_modulus ->
  (exists f, consume p view None = Fault f) <-> hazard (abs p) view = true.
Proof.
  intros [Hb Hm] Hv. pose proof Hm as [_ Hc _ _].
  pose proof (consume_refines_machine view p Hb Hc Hv) as H. split.
  - intros [f Hf]. destruct (hazard (abs p) view) eqn:Hz; [done|].
    destruct (machine_consume_safe view _ Hm Hz) as (r & Hr & _).
    rewrite Hf in H. apply orel_fault_inv in H. congruence.
  - intros Hz. destruct (machine_consume_hazard view _ Hm Hz) as [f Hf].
    rewrite Hf in H. destruct (consume p view None); cbn in H; try done. eauto.
Qed.

(** The possible results of [consume] on a parser in the middle of a message. *)
Inductive consume_result (view : bytes) (p : parser) : outcome (parser * error_code * option node) -> Prop :=
  | cr_fault f : hazard (abs p) view = true -> f <> out_of_fuel -> consume_result view p (Fault f)
  | cr_error e : consume_result view p (Done (p, make_error_code e, None))
  | cr_more p' : parsing view p' -> consume_result view p (Done (p', None, None))
  | cr_node p' nd :
      parsing view p' \/ complete view p' ->
      budget view (abs p') < budget view (abs p) ->
      consume_result view p (Done (p', None, Some nd)).

Lemma pop_fault st f : pop st = Fault f -> f = out_of_bounds.
Proof. induction st as [|k st IH]; cbn; [naive_solver|]. by destruct (_ =? 0). Qed.

Lemma apply_header_fault st h f : apply_header st h = Fault f -> f <> out_of_fuel.
Proof.
  destruct h; cbn; repeat case_goal; try done; try (by intros [= <-]).
  all: destruct (pop _) eqn:E; cbn; try done; intros [= <-]; by apply pop_fault in E as ->.
Qed.

Lemma machine_consume_fault m view f : machine_consume m view = Fault f -> f <> out_of_fuel.
Proof.
  assert (Hbulk : forall m t n f, machine_bulk m t n view = Fault f -> f <> out_of_fuel).
  { intros m' t n f'. unfold machine_bulk. destruct (_ <? _); [done|].
    destruct (pop _) eqn:E; cbn; try done. intros [= <-]. by apply pop_fault in E as ->. }
  unfold machine_consume. destruct (pending m) as [[t n]|].
  { destruct (machine_bulk _ _ _ _) eqn:E; cbn; try done. intros [= <-]. by eapply Hbulk. }
  destruct (drop _ view) as [|c rest]; [done|].
  destruct (find_crlf (c :: rest)) as [[|i]|]; [done| |done].
  destruct (apply_header _ _) as [[e|[st [nd|[t n]]]]|e|f'] eqn:E; cbn; try done.
  - destruct (machine_bulk _ _ _ _) eqn:Eb; cbn; try done. intros [= <-]. by eapply Hbulk.
  - intros [= <-]. by eapply apply_header_fault.
Qed.

Lemma consume_cases view p :
  parsing view p -> len view < size_modulus -> consume_result view p (consume p view None).
Proof.
  intros [Hb Hm] Hv. pose proof Hm as [_ Hc _ _].
  pose proof (consume_refines_machine view p Hb Hc Hv) as H.
  destruct (hazard (abs p) view) eqn:Hz.
  - destruct (machine_consume_hazard view _ Hm Hz) as [f Hf]. rewrite Hf in H.
    destruct (consume p view None); cbn in H; try done. subst.
    constructor; [done|]. by eapply machine_consume_fault.
  - destruct (machine_consume_safe view _ Hm Hz) as (r & Hr & Hok). rewrite Hr in H.
    apply orel_done_inv in H as ([[p' ec] o] & -> & H).
    destruct r as [e|[m' o']]; cbn in H; [injection H as -> -> ->; constructor|].
    destruct H as (-> & -> & Hb' & Habs & _). cbn in *. subst m'.
    destruct o' as [nd|]; cbn in Hok.
    + destruct Hok as (_ & Hlt & Hok). constructor; [|done]. unfold parsing, complete. tauto.
    + constructor. split; [done|apply Hok].
Qed.

(** ** [resp3::parse] *)

Lemma budget_bound view m : budget view m < 2 * len view + 2.
Proof. unfold budget. destruct (pending m); lia. Qed.

Lemma parse_fuel_enough view m : (N.to_nat (budget view m) < parse_fuel view)%nat.
Proof. pose proof (budget_bound view m). unfold parse_fuel, len in *. lia. Qed.

Section Parse.
Context {S : Type} (adapter : S -> node -> error_code -> outcome (S * error_code)).

(** What [parse] leaves behind: more data is asked for in the middle of a
    message; otherwise an error is set or the message is complete. *)
Definition parse_post (msg : bytes) (x : parser * S * error_code * bool) : Prop :=
  let '(p, _, ec, b) := x in
  if b then has_ec ec = true \/ complete msg p
  else ec = None /\ parsing msg p.

Lemma parse_loop_cases (P : S -> Prop) fuel p msg s :
  len msg < size_modulus ->
  (forall s nd, P s -> exists s' ec, adapter s nd None = Done (s', ec) /\ P s') -> P s ->
  parsing msg p \/ complete msg p ->
  (N.to_nat (budget msg (abs p)) < fuel)%nat ->
  (exists x, parse_loop adapter fuel p msg s None = Done x /\ parse_post msg x /\ P x.1.1.2) \/
  (exists f, parse_loop adapter fuel p msg s None = Fault f /\ f <> out_of_fuel /\
     exists q, parsing msg q /\ hazard (abs q) msg = true).
Proof.
  intros Hv Ha. revert p s. induction fuel as [|fuel IH]; intros p s Hs Hp Hf; [lia|].
  cbn [parse_loop]. destruct Hp as [Hp|Hp].
  2: { rewrite (complete_done _ _ Hp). left. eexists. split; [done|]. by split; [right|]. }
  rewrite (parsing_not_done _ _ Hp).
  destruct (consume_cases msg p Hp Hv) as [f Hz Hne|e|p' Hp'|p' nd Hp' Hlt]; cbn.
  - right. eauto 10.
  - left. eexists. split; [done|]. by split; [left|].
  - left. by eexists.
  - destruct (Ha s nd Hs) as (s' & ec & -> & Hs'). cbn.
    destruct ec as [e|]; cbn; [left; eexists; split; [done|]; by split; [left|]|].
    apply IH; [done|done|lia].
Qed.
End Parse.
