(* ===== verification/Resp3.v ===== *)
(** * RESP3 values, their wire format and their node lists

    The protocol side of the parser: the tree of a RESP3 message, the bytes a
    server sends for it, and the pre-order list of nodes the documentation of
    [resp3::node] promises.  The main result is that the parser turns the
    former into the latter, however the bytes are split. *)

From S2P Require Import Prelude Charconv Types Parser ParserSpec ParserSafety.

(** ** Values *)

#[local] Set Warnings "-register-all".

Inductive resp3 :=
  | r_simple (t : type.t) (v : bytes)
  | r_blob (t : type.t) (v : bytes)
  | r_aggregate (t : type.t) (cs : list resp3)
  | r_stream (parts : list bytes).

Section resp3_ind.
Variable P : resp3 -> Prop.
Hypothesis Hsimple : forall t v, P (r_simple t v).
Hypothesis Hblob : forall t v, P (r_blob t v).
Hypothesis Haggregate : forall t cs, Forall P cs -> P (r_aggregate t cs).
Hypothesis Hstream : forall parts, P (r_stream parts).

Fixpoint resp3_ind' (r : resp3) : P r :=
  match r with
  | r_simple t v => Hsimple t v
  | r_blob t v => Hblob t v
  | r_aggregate t cs =>
      Haggregate t cs
        ((fix go cs : Forall P cs :=
            match cs with
            | [] => Forall_nil_2 P
            | c :: cs => Forall_cons_2 P c cs (resp3_ind' c) (go cs)
            end) cs)
  | r_stream parts => Hstream parts
  end.
End resp3_ind.

(** ** Wire format *)

Definition code (t : type.t) : ascii :=
  match to_code t with Done c => c | _ => " "%char end.

Definition line (c : ascii) (v : bytes) : bytes := c :: v ++ sep.

Definition encode_part (v : bytes) : bytes :=
  line ";" (to_string (len v)) ++ v ++ sep.

(** The count an aggregate header carries: pairs, for maps and attributes. *)
Definition aggregate_count (t : type.t) (cs : list resp3) : N := len cs / element_multiplicity t.

Fixpoint encode (r : resp3) : bytes :=
  match r with
  | r_simple t v => line (code t) v
  | r_blob t v => line (code t) (to_string (len v)) ++ v ++ sep
  | r_aggregate t cs =>
      line (code t) (to_string (aggregate_count t cs)) ++ concat (map encode cs)
  | r_stream parts =>
      line "$" (bs "?") ++ concat (map encode_part parts) ++ line ";" (bs "0")
  end.

(** ** Nodes, in pre-order *)

Fixpoint nodes (d : N) (r : resp3) : list node :=
  match r with
  | r_simple t v => [mk_node t 1 d v]
  | r_blob t v => [mk_node t 1 d v]
  | r_aggregate t cs =>
      mk_node t (aggregate_count t cs) d [] :: concat (map (nodes (d + 1)) cs)
  | r_stream parts =>
      mk_node type.streamed_string 0 (d + 1) []
      :: map (mk_node type.streamed_string_part 1 (d + 1)) parts
      ++ [mk_node type.streamed_string_part 1 (d + 1) []]
  end.

(** Levels of nesting a value needs. *)
Fixpoint height (r : resp3) : N :=
  match r with
  | r_simple _ _ | r_blob _ _ => 0
  | r_aggregate _ [] => 0
  | r_aggregate _ cs => 1 + fold_right N.max 0 (map height cs)
  | r_stream _ => 1
  end.

(** ** Well-formed values *)

Definition simple_ok (t : type.t) (v : bytes) : bool :=
  bool_decide (find_crlf v = None) &&
  match t with
  | type.simple_string | type.simple_error | type.null => true
  | type.number | type.doublean | type.big_number => negb (bool_decide (v = []))
  | type.boolean =>
      match v with c :: _ => Ascii.eqb c "f"%char || Ascii.eqb c "t"%char | [] => false end
  | _ => false
  end.

(** A blob length that the parser can add the separator to. *)
Definition blob_fits (v : bytes) : bool := len v + 2 <? size_modulus.

Definition is_blob (t : type.t) : bool :=
  match t with
  | type.blob_string | type.blob_error | type.verbatim_string => true
  | _ => false
  end.

Fixpoint valid (r : resp3) : bool :=
  match r with
  | r_simple t v => simple_ok t v
  | r_blob t v => is_blob t && blob_fits v
  | r_aggregate t cs =>
      is_aggregate t && (len cs <? size_modulus)
      && (len cs mod element_multiplicity t =? 0) && forallb valid cs
  | r_stream parts =>
      (len parts + 1 <? size_max)
      && forallb (fun v => negb (bool_decide (v = [])) && blob_fits v) parts
  end.

Example encode_ex :
  encode (r_aggregate type.map [r_blob type.blob_string (bs "k"); r_simple type.number (bs "1")])
  = bs "%1" ++ sep ++ bs "$1" ++ sep ++ bs "k" ++ sep ++ bs ":1" ++ sep.
Proof. reflexivity. Qed.

(** ** Runs of the machine *)

(** No announced bulk length overflows when the separator is added. *)
Definition fits (m : machine) (view : bytes) : Prop :=
  match pending m with
  | Some (_, n) => n + 2 < size_modulus
  | None =>
      match next_header m view with
      | Some (h_bulk _ n) => n + 2 < size_modulus
      | _ => True
      end
  end.

(** The machine is not between two messages, where [done] holds. *)
Definition busy (m : machine) : Prop :=
  level (stack m) = 0 -> pending m = None -> position m = 0.

Inductive run (view : bytes) : machine -> list node -> machine -> Prop :=
  | run_nil m : run view m [] m
  | run_cons m m1 m2 nd nds :
      busy m -> fits m view ->
      machine_consume m view = Done (inr (m1, Some nd)) ->
      run view m1 nds m2 ->
      run view m (nd :: nds) m2.

Lemma run_app view m1 m2 m3 a b : run view m1 a m2 -> run view m2 b m3 -> run view m1 (a ++ b) m3.
Proof. induction 1; cbn; [done|]. intros. econstructor; eauto. Qed.

Lemma run_one view m m' nd :
  busy m -> fits m view -> machine_consume m view = Done (inr (m', Some nd)) ->
  run view m [nd] m'.
Proof. intros. econstructor; eauto. constructor. Qed.

(** [view] reads [u] from [pos] on. *)
Definition at_pos (view : bytes) (pos : N) (u : bytes) : Prop := drop (N.to_nat pos) view = u.

Lemma at_pos_app view pos u w : at_pos view pos (u ++ w) -> at_pos view (pos + len u) w.
Proof.
  unfold at_pos, len. intros H.
  replace (N.to_nat (pos + N.of_nat (length u))) with (N.to_nat pos + length u)%nat by lia.
  rewrite <- drop_drop, H. by rewrite drop_app_length.
Qed.

Lemma at_pos_len view pos u : at_pos view pos u -> len view - pos = len u.
Proof. unfold at_pos, len. intros <-. rewrite length_drop. lia. Qed.

Lemma to_type_code t :
  t <> type.streamed_string -> t <> type.invalid -> to_type (code t) = t.
Proof. by destruct t. Qed.

Lemma code_not_cr t : code t <> CR.
Proof. by destruct t. Qed.

(** A complete line in front of the machine. *)
Lemma machine_line view m c v rest :
  pending m = None -> at_pos view (position m) (line c v ++ rest) ->
  c <> CR -> find_crlf v = None ->
  next_header m view = Some (read_header (to_type c) v) /\
  machine_consume m view =
    r ← apply_header (stack m) (read_header (to_type c) v);
    let pos := position m + len (line c v) in
    match r with
    | inl e => Done (inl e)
    | inr (st, inl nd) => Done (inr (mk_machine st None pos, Some nd))
    | inr (st, inr (t, n)) => inr <$> machine_bulk (mk_machine st (Some (t, n)) pos) t n view
    end.
Proof.
  intros Hp Hat Hc Hv. unfold next_header, machine_consume. rewrite Hp, Hat.
  assert (Hf : find_crlf (line c v ++ rest) = Some (S (length v))).
  { unfold line, sep. cbn [app]. rewrite <- app_assoc. cbn [app].
    rewrite app_comm_cons. rewrite (find_crlf_spec (c :: v)); [done|].
    cbn [find_crlf]. rewrite Hv. apply Ascii.eqb_neq in Hc.
    destruct v; cbn; [done|by rewrite Hc]. }
  change (line c v ++ rest) with (c :: (v ++ sep) ++ rest) in *.
  cbn beta iota. rewrite Hf.
  assert (take (length v) ((v ++ sep) ++ rest) = v) as ->.
  { rewrite <- app_assoc. by rewrite take_app_length. }
  split; [done|].
  replace (position m + N.of_nat (S (length v)) + 2) with (position m + len (line c v)); [done|].
  unfold line, sep, len. cbn. rewrite length_app. cbn. lia.
Qed.

(** A complete bulk in front of the machine. *)
Lemma machine_bulk_read view st t n pos v rest st' o :
  at_pos view pos (v ++ sep ++ rest) -> n = len v -> len v + 2 < size_modulus ->
  pop st = Done st' ->
  machine_bulk (mk_machine st o pos) t n view =
  Done (mk_machine st' None (pos + len (v ++ sep)), Some (mk_node t 1 (level st) v)).
Proof.
  intros Hat -> Hfit Hpop. unfold machine_bulk. cbn [position stack].
  pose proof (at_pos_len _ _ _ Hat) as Hlen. rewrite !len_app in Hlen.
  change (len sep) with 2 in Hlen. rewrite wadd_small by done.
  rewrite (proj2 (N.ltb_ge _ _)) by lia. rewrite Hpop, Hat. cbn [mbind outcome_bind].
  do 3 f_equal.
  - rewrite len_app. done.
  - f_equal. rewrite N.min_l by lia. unfold len. rewrite Nat2N.id. by rewrite take_app_length.
Qed.

(** ** Reading an encoded value *)

Lemma read_number_to_string n k : n <= size_max -> read_number (to_string n) k = k n.
Proof. intros. unfold read_number. by rewrite from_chars_to_string. Qed.

Lemma simple_header t v : simple_ok t v = true -> read_header t v = h_leaf t v /\ find_crlf v = None
  /\ to_type (code t) = t.
Proof.
  unfold simple_ok. intros [H1%bool_decide_eq_true H2]%andb_true_iff.
  destruct t; try done; cbn; destruct v as [|c v]; try done.
  by rewrite H2.
Qed.

Lemma blob_header t n :
  is_blob t = true -> n <= size_max ->
  read_header t (to_string n) = h_bulk t n /\ to_type (code t) = t.
Proof.
  intros Ht Hn. destruct (to_string_head n) as (c & v & Hc & Hd).
  apply digit_not in Hd as (_ & Hq & _). apply Ascii.eqb_neq in Hq.
  pose proof (read_number_to_string n) as Hr. rewrite Hc in *.
  destruct t; try done; cbn; by rewrite Hq, Hr.
Qed.

Lemma aggregate_header t n :
  is_aggregate t = true -> n <= size_max ->
  read_header t (to_string n) = h_aggregate t n /\ to_type (code t) = t.
Proof.
  intros Ht Hn. destruct t; try done; cbn [read_header]; by rewrite read_number_to_string.
Qed.

Lemma run_line_node view st pos c v rest st' nd :
  busy (mk_machine st None pos) ->
  at_pos view pos (line c v ++ rest) -> c <> CR -> find_crlf v = None ->
  apply_header st (read_header (to_type c) v) = Done (inr (st', inl nd)) ->
  run view (mk_machine st None pos) [nd] (mk_machine st' None (pos + len (line c v))).
Proof.
  intros Hbz Hat Hc Hv Ha. set (m := mk_machine st None pos).
  destruct (machine_line view m c v rest eq_refl Hat Hc Hv) as [Hn Hm].
  apply run_one; [done| |by rewrite Hm; cbn [stack m]; rewrite Ha].
  unfold fits. cbn [pending m]. rewrite Hn.
  destruct (read_header _ _); try done.
Qed.

Lemma run_line_bulk view st pos c t v rest st' :
  busy (mk_machine st None pos) ->
  at_pos view pos (line c (to_string (len v)) ++ v ++ sep ++ rest) -> c <> CR ->
  blob_fits v = true ->
  read_header (to_type c) (to_string (len v)) = h_bulk t (len v) ->
  pop st = Done st' ->
  run view (mk_machine st None pos) [mk_node t 1 (level st) v]
      (mk_machine st' None (pos + len (line c (to_string (len v)) ++ v ++ sep))).
Proof.
  intros Hbz Hat Hc Hfit%N.ltb_lt Hh Hpop. set (m := mk_machine st None pos).
  destruct (machine_line view m c _ _ eq_refl Hat Hc (to_string_no_crlf _)) as [Hn Hm].
  apply run_one; [done|..].
  - unfold fits. cbn [pending m]. by rewrite Hn, Hh.
  - rewrite Hm, Hh. cbn [apply_header mbind outcome_bind position m].
    apply at_pos_app in Hat.
    erewrite machine_bulk_read by done. cbn [fmap outcome_fmap].
    by rewrite (len_app (line _ _)), N.add_assoc.
Qed.

Lemma pop_succ k st : 2 <= k -> k < size_modulus -> pop (k :: st) = Done (k - 1 :: st).
Proof.
  intros. cbn. rewrite wsub_small by lia. by rewrite (proj2 (N.eqb_neq (k - 1) 0)) by lia.
Qed.

Lemma level_cons k st st' : pop st = Done st' -> level (k :: st) = level st + 1.
Proof. destruct st; [done|]. intros _. unfold level. rewrite !len_cons. lia. Qed.

Lemma busy_cons k st st' pos : pop st = Done st' -> busy (mk_machine (k :: st) None pos).
Proof. intros H. unfold busy. cbn [stack]. erewrite level_cons by done. lia. Qed.

(** What [run_encode] says of one value. *)
Definition reads (view : bytes) (r : resp3) : Prop :=
  forall st st' pos rest,
    valid r = true -> level st + height r <= max_embedded_depth ->
    busy (mk_machine st None pos) ->
    at_pos view pos (encode r ++ rest) -> pop st = Done st' ->
    run view (mk_machine st None pos) (nodes (level st) r)
        (mk_machine st' None (pos + len (encode r))).

Lemma run_children view cs st st' pos rest :
  Forall (reads view) cs -> cs <> [] -> forallb valid cs = true -> len cs < size_modulus ->
  level st + 1 + fold_right N.max 0 (map height cs) <= max_embedded_depth ->
  at_pos view pos (concat (map encode cs) ++ rest) -> pop st = Done st' ->
  run view (mk_machine (len cs :: st) None pos) (concat (map (nodes (level st + 1)) cs))
      (mk_machine st' None (pos + len (concat (map encode cs)))).
Proof.
  intros HF Hne Hval Hlen Hh Hat Hpop. revert pos Hval Hlen Hh Hat Hne.
  induction HF as [|c cs Hc HF IH]; intros pos Hval Hlen Hh Hat Hne; [done|].
  cbn [map concat forallb fold_right] in *. apply andb_true_iff in Hval as [Hv Hval].
  rewrite <- app_assoc in Hat. rewrite len_cons in Hlen.
  assert (Hlev : forall k, level (k :: st) = level st + 1) by (intros; by eapply level_cons).
  destruct cs as [|c' cs].
  - cbn [map concat]. rewrite !app_nil_r. change (len [c]) with 1. rewrite <- (Hlev 1).
    eapply Hc; [done|rewrite Hlev; lia|by eapply busy_cons|done|done].
  - set (cs' := c' :: cs) in *. assert (1 <= len cs') by (unfold cs'; rewrite len_cons; lia).
    eapply run_app.
    + rewrite <- (Hlev (len (c :: cs'))). eapply Hc; [done|rewrite Hlev; lia|by eapply busy_cons|exact Hat|].
      rewrite len_cons. apply pop_succ; lia.
    + rewrite len_app, N.add_assoc.
      replace (1 + len cs' - 1) with (len cs') by lia.
      apply IH; [done|lia|lia|by apply at_pos_app|done].
Qed.

Lemma part_header n :
  n <> 0 -> n <= size_max ->
  read_header (to_type ";") (to_string n) = h_bulk type.streamed_string_part n.
Proof.
  intros H0 Hn. change (to_type ";") with type.streamed_string_part. cbn [read_header].
  rewrite read_number_to_string by done. by rewrite (proj2 (N.eqb_neq n 0)).
Qed.

Lemma blob_fits_size v : blob_fits v = true -> len v <= size_max.
Proof. unfold blob_fits, size_modulus, size_max. rewrite N.ltb_lt. lia. Qed.

Lemma run_parts view parts k st st' pos rest :
  forallb (fun v => negb (bool_decide (v = [])) && blob_fits v) parts = true ->
  len parts + 1 < k -> k < size_modulus ->
  at_pos view pos (concat (map encode_part parts) ++ rest) -> pop st = Done st' ->
  run view (mk_machine (k :: st) None pos)
      (map (mk_node type.streamed_string_part 1 (level st + 1)) parts)
      (mk_machine (k - len parts :: st) None (pos + len (concat (map encode_part parts)))).
Proof.
  intros Hval Hk Hkm Hat Hpop. revert k pos Hk Hkm Hat.
  induction parts as [|v parts IH]; intros k pos Hk Hkm Hat; cbn [map concat forallb] in *.
  - rewrite !len_nil, N.sub_0_r, N.add_0_r. constructor.
  - apply andb_true_iff in Hval as [Hv Hval]. apply andb_true_iff in Hv as [Hne Hfit].
    rewrite negb_true_iff, bool_decide_eq_false in Hne. rewrite len_cons in *.
    assert (len v <> 0) by (destruct v; [done|rewrite len_cons; lia]).
    rewrite <- app_assoc in Hat. unfold encode_part at 1 in Hat. rewrite <- !app_assoc in Hat.
    pose proof (blob_fits_size v Hfit). eapply (run_app _ _ _ _ [_]).
    + rewrite <- (level_cons k st st' Hpop).
      eapply run_line_bulk; [by eapply busy_cons|exact Hat|done|done|by apply part_header|]. apply pop_succ; lia.
    + rewrite (len_app (encode_part v)), N.add_assoc.
      replace (k - (1 + len parts)) with (k - 1 - len parts) by lia.
      apply IH; [done|lia|lia|]. apply at_pos_app. unfold encode_part at 1. by rewrite <- !app_assoc.
Qed.

Lemma run_stream view parts : reads view (r_stream parts).
Proof.
  intros st st' pos rest Hval Hh Hbz Hat Hpop. cbn [valid height encode nodes] in *.
  apply andb_true_iff in Hval as [Hlen%N.ltb_lt Hval].
  assert (Hl : level st <> max_embedded_depth) by lia.
  rewrite <- !app_assoc in Hat. rewrite !len_app, !N.add_assoc.
  eapply (run_app _ _ _ _ [_]).
  - eapply run_line_node; [done|exact Hat|done..|].
    change (read_header _ _) with h_stream. cbn [apply_header].
    by rewrite (proj2 (N.eqb_neq _ _) Hl).
  - apply at_pos_app in Hat. eapply run_app.
    + eapply run_parts; [done|exact Hlen|done|exact Hat|done].
    + apply at_pos_app in Hat. eapply run_line_node; [by eapply busy_cons|exact Hat|done..|].
      change (read_header _ _) with h_stream_end. cbn [apply_header tail]. rewrite Hpop.
      cbn [mbind outcome_bind]. by erewrite level_cons.
Qed.

Lemma run_aggregate view t cs :
  Forall (reads view) cs -> reads view (r_aggregate t cs).
Proof.
  intros HF st st' pos rest Hval Hh Hbz Hat Hpop. cbn [valid encode nodes] in *.
  repeat (apply andb_true_iff in Hval as [Hval ?]).
  rewrite N.ltb_lt, N.eqb_eq in *. set (n := aggregate_count t cs) in *.
  pose proof (element_multiplicity_pos t) as Hm.
  assert (Hn : len cs = n * element_multiplicity t).
  { unfold n, aggregate_count. rewrite (N.div_mod (len cs) (element_multiplicity t)) at 1; lia. }
  assert (Hmax : n <= size_max) by (unfold size_modulus, size_max in *; nia).
  destruct (aggregate_header t n Hval Hmax) as [Hh1 Hh2].
  rewrite <- app_assoc in Hat. rewrite len_app, N.add_assoc. eapply (run_app _ _ _ _ [_]).
  - eapply (run_line_node _ _ _ _ _ _ (if cs is [] then st' else len cs :: st));
      [done|exact Hat|apply code_not_cr|apply to_string_no_crlf|].
    rewrite Hh2, Hh1. cbn [apply_header]. destruct cs as [|c cs].
    + assert (n = 0) as -> by (rewrite len_nil in Hn; nia). cbn. by rewrite Hpop.
    + cbn [height] in Hh. rewrite (proj2 (N.eqb_neq n 0)) by (rewrite len_cons in Hn; nia).
      rewrite (proj2 (N.eqb_neq (level st) _)) by lia. by rewrite wmul_small, Hn by lia.
  - destruct cs as [|c cs].
    + change (len (concat (map encode []))) with 0. rewrite N.add_0_r. apply run_nil.
    + cbn [height] in Hh. apply at_pos_app in Hat.
      eapply run_children; [done..|lia|exact Hat|done].
Qed.

(** Reading the encoding of a value emits its nodes and completes one element
    of the surrounding aggregate. *)
Lemma run_encode view r : reads view r.
Proof.
  induction r as [t v|t v|t cs IH|parts] using resp3_ind'.
  - intros st st' pos rest Hval _ Hbz Hat Hpop.
    destruct (simple_header t v Hval) as (Hh & Hf & Ht).
    eapply run_line_node; [done|exact Hat|apply code_not_cr|done|].
    rewrite Ht, Hh. cbn. by rewrite Hpop.
  - intros st st' pos rest [Hb Hfit]%andb_true_iff _ Hbz Hat Hpop.
    destruct (blob_header t (len v) Hb (blob_fits_size v Hfit)) as [Hh Ht].
    cbn [encode] in Hat. rewrite <- !app_assoc in Hat.
    eapply run_line_bulk; [done|exact Hat|apply code_not_cr|done|by rewrite Ht|done].
  - by apply run_aggregate.
  - apply run_stream.
Qed.
