(* ===== verification/ParserCorrect.v ===== *)
(** * Correctness of the parser

    [parse] hands its adapter exactly the nodes of the message, consumes
    exactly its bytes, and the result does not depend on how the bytes arrive. *)

From S2P Require Import Prelude Charconv Types Parser ParserSpec ParserSafety Resp3.

Section Correct.
Context {S : Type} (adapter : S -> node -> error_code -> outcome (S * error_code)).

(** The adapter applied to a list of nodes, up to its first error. *)
Fixpoint feed (s : S) (nds : list node) : outcome (S * error_code) :=
  match nds with
  | [] => Done (s, None)
  | nd :: nds =>
      '(s, ec) ← adapter s nd None;
      if has_ec ec then Done (s, ec) else feed s nds
  end.

Lemma feed_app s a b :
  feed s (a ++ b) = '(s, ec) ← feed s a; if has_ec ec then Done (s, ec) else feed s b.
Proof.
  revert s. induction a as [|nd a IH]; intros s; [done|]. cbn.
  destruct (adapter s nd None) as [[s' [e|]]|?|?]; cbn; [done|apply IH|done..].
Qed.

(** ** One step *)

Lemma run_consume view p nd nds m2 :
  parsing view p -> len view < size_modulus -> run view (abs p) (nd :: nds) m2 ->
  exists p1, consume p view None = Done (p1, None, Some nd) /\
    (parsing view p1 \/ complete view p1) /\ run view (abs p1) nds m2 /\
    budget view (abs p1) < budget view (abs p).
Proof.
  intros Hp Hv Hrun. inversion Hrun as [|? m1 ? ? ? _ _ Hc Hrun']; subst.
  pose proof Hp as [Hb [_ Hpos _ _]].
  pose proof (consume_refines_machine view p Hb Hpos Hv) as H. rewrite Hc in H.
  apply orel_done_inv in H as ([[p1 ec] o] & Hc1 & -> & -> & _ & Habs & _). cbn in *.
  exists p1. subst m1. split; [done|].
  pose proof (consume_cases view p Hp Hv) as Hcase. rewrite Hc1 in Hcase.
  inversion Hcase; subst. done.
Qed.

Lemma complete_run view p nds m2 : complete view p -> run view (abs p) nds m2 -> nds = [] /\ m2 = abs p.
Proof.
  intros [_ (Hs & Hp & Hc & _)] Hrun. inversion Hrun as [|? ? ? ? ? Hbusy]; subst; [done|].
  exfalso. apply Hc, Hbusy; [|done]. by rewrite Hs.
Qed.

Lemma parsing_run view p nds m2 :
  parsing view p -> run view (abs p) nds m2 -> finished view m2 -> nds <> [].
Proof.
  intros [_ [[u [Hu _]] _ _ _]] Hrun (Hs & _) ->. inversion Hrun; subst.
  rewrite Hs in Hu. by destruct u as [|? [|]].
Qed.

(** ** A complete message *)

(** [parse] returns what the adapter returns; without error, the message is
    complete and its length is consumed. *)
Definition parsed (view : bytes) (n : N) (x : parser * S * error_code * bool)
    (y : S * error_code) : Prop :=
  let '(p, s, ec, b) := x in
  (s, ec) = y /\ b = true /\ (ec = None -> complete view p /\ consumed_ p = n).

Lemma parse_loop_run fuel p view s nds m2 :
  len view < size_modulus -> parsing view p \/ complete view p ->
  run view (abs p) nds m2 -> finished view m2 ->
  (N.to_nat (budget view (abs p)) < fuel)%nat ->
  orel (parsed view (position m2)) (parse_loop adapter fuel p view s None) (feed s nds).
Proof.
  intros Hv Hp Hrun Hfin Hf. revert p s nds Hp Hrun Hf.
  induction fuel as [|fuel IH]; intros p s nds Hp Hrun Hf; [lia|]. cbn [parse_loop].
  destruct Hp as [Hp|Hp].
  2: { rewrite (complete_done _ _ Hp). destruct (complete_run _ _ _ _ Hp Hrun) as [-> ->]. done. }
  rewrite (parsing_not_done _ _ Hp).
  destruct nds as [|nd nds]; [by destruct (parsing_run _ _ _ _ Hp Hrun Hfin)|].
  destruct (run_consume _ _ _ _ _ Hp Hv Hrun) as (p1 & -> & Hp1 & Hrun1 & Hlt). cbn.
  destruct (adapter s nd None) as [[s' [e|]]|?|?]; cbn; [done| |done..].
  apply IH; [done..|lia].
Qed.

Lemma run_reset r rest :
  valid r = true -> height r <= max_embedded_depth ->
  run (encode r ++ rest) (abs reset) (nodes 0 r) (mk_machine [1] None (len (encode r))).
Proof.
  intros Hval Hh. apply (run_encode (encode r ++ rest) r [2] [1] 0 rest); [done|done| |done..].
  unfold busy. done.
Qed.

Lemma encode_nonempty r : len (encode r) <> 0.
Proof. destruct r; cbn [encode]; unfold line; rewrite ?len_app, ?len_cons; lia. Qed.

Lemma finished_encode r rest :
  finished (encode r ++ rest) (mk_machine [1] None (len (encode r))).
Proof. split_and!; [done..|apply encode_nonempty|rewrite len_app; cbn; lia]. Qed.

Lemma parse_encode_feed r rest s :
  valid r = true -> height r <= max_embedded_depth -> len (encode r ++ rest) < size_modulus ->
  orel (parsed (encode r ++ rest) (len (encode r)))
    (parse adapter reset (encode r ++ rest) s None) (feed s (nodes 0 r)).
Proof.
  intros Hval Hh Hv.
  apply (parse_loop_run _ _ _ _ _ (mk_machine [1] None (len (encode r)))); [done|..].
  - left. apply parsing_reset.
  - by apply run_reset.
  - apply finished_encode.
  - apply parse_fuel_enough.
Qed.

(** ** [deserialize] *)

Lemma deserialize_loop_run fuel p view s nds m2 :
  len view < size_modulus -> parsing view p \/ complete view p ->
  run view (abs p) nds m2 -> finished view m2 -> position m2 = len view ->
  (N.to_nat (budget view (abs p)) < fuel)%nat ->
  orel (fun x y => (x.1.2, x.2) = y) (deserialize_loop adapter fuel p view s None) (feed s nds).
Proof.
  intros Hv Hp Hrun Hfin Hpos Hf. revert p s nds Hp Hrun Hf.
  induction fuel as [|fuel IH]; intros p s nds Hp Hrun Hf; [lia|]. cbn [deserialize_loop].
  destruct Hp as [Hp|Hp].
  2: { rewrite (complete_done _ _ Hp). destruct (complete_run _ _ _ _ Hp Hrun) as [-> ->].
       cbn in Hpos. unfold get_consumed. by rewrite Hpos, N.eqb_refl. }
  rewrite (parsing_not_done _ _ Hp).
  destruct nds as [|nd nds]; [by destruct (parsing_run _ _ _ _ Hp Hrun Hfin)|].
  destruct (run_consume _ _ _ _ _ Hp Hv Hrun) as (p1 & -> & Hp1 & Hrun1 & Hlt). cbn.
  destruct (adapter s nd None) as [[s' [e|]]|?|?]; cbn; [done| |done..].
  apply IH; [done..|lia].
Qed.

Lemma deserialize_encode_feed r s :
  valid r = true -> height r <= max_embedded_depth -> len (encode r) < size_modulus ->
  deserialize adapter (encode r) s None = feed s (nodes 0 r).
Proof.
  intros Hval Hh Hv.
  pose proof (run_reset r [] Hval Hh) as Hrun. pose proof (finished_encode r []) as Hfin.
  rewrite app_nil_r in *.
  pose proof (deserialize_loop_run _ reset (encode r) s _ _ Hv (or_introl (parsing_reset _)) Hrun Hfin
    eq_refl (parse_fuel_enough _ _)) as H.
  unfold deserialize.
  destruct (deserialize_loop _ _ _ _ _ _) as [[[p' s'] ec]|?|?], (feed s (nodes 0 r)); cbn in *;
    congruence || done.
Qed.

(** ** Messages that arrive in pieces *)

(** The buffer grows chunk by chunk, as in [reader_op]: as long as [parse] asks
    for more data, the next chunk is appended and [parse] is called again with
    the whole buffer. *)
Fixpoint parse_chunks (p : parser) (buf : bytes) (chunks : list bytes) (s : S)
    : outcome (parser * S * error_code * bool) :=
  match chunks with
  | [] => Done (p, s, None, false)
  | c :: chunks =>
      '(p, s, ec, b) ← parse adapter p (buf ++ c) s None;
      if (b : bool) then Done (p, s, ec, b) else parse_chunks p (buf ++ c) chunks s
  end.
End Correct.

(** Reading from a prefix [v] of the data: the same node, or a request for more
    data that changes nothing for the complete data. *)
Lemma machine_bulk_prefix v w m t n m1 nd :
  position m <= len v -> n + 2 < size_modulus ->
  machine_bulk m t n (v ++ w) = Done (m1, Some nd) ->
  machine_bulk m t n v = Done (m1, Some nd) \/ machine_bulk m t n v = Done (m, None).
Proof.
  intros Hpos Hn Hb. unfold machine_bulk in *. rewrite (wadd_small n 2) in * by done.
  destruct (N.ltb_spec (len v - position m) (n + 2)) as [|Hge]; [by right|].
  rewrite len_app in Hb. rewrite (proj2 (N.ltb_ge (_ + _ - _) _)) in Hb by lia.
  left. rewrite <- Hb. do 4 f_equal. f_equal. rewrite !N.min_l by lia.
  rewrite drop_app_le by (unfold len in *; lia). rewrite take_app_le; [done|].
  rewrite length_drop. unfold len in *. lia.
Qed.

Lemma apply_header_bulk st h st' t n :
  apply_header st h = Done (inr (st', inr (t, n))) -> h = h_bulk t n /\ st' = st.
Proof.
  destruct h; cbn; repeat case_goal; try done; try (by intros [= -> -> ->]).
  all: destruct (pop _); cbn; intros; by simplify_eq.
Qed.

Lemma drop_prefix (v w : bytes) pos :
  pos <= len v -> drop (N.to_nat pos) (v ++ w) = drop (N.to_nat pos) v ++ w.
Proof. intros. apply drop_app_le. unfold len in *. lia. Qed.

(** A step that asks for more data keeps the invariant. *)
Lemma machine_more view m m' :
  in_progress view m -> machine_consume m view = Done (inr (m', None)) -> in_progress view m'.
Proof.
  intros Hm Hc. destruct (hazard m view) eqn:Hz.
  - destruct (machine_consume_hazard _ _ Hm Hz) as [f Hf]. congruence.
  - destruct (machine_consume_safe _ _ Hm Hz) as (r & Hr & Hok). rewrite Hr in Hc.
    injection Hc as ->. apply Hok.
Qed.

(** The header line lies inside the prefix. *)
Lemma machine_prefix_line v w m m1 nd c rest i :
  in_progress v m -> fits m (v ++ w) -> pending m = None ->
  drop (N.to_nat (position m)) v = c :: rest -> find_crlf (c :: rest) = Some (S i) ->
  machine_consume m (v ++ w) = Done (inr (m1, Some nd)) ->
  machine_consume m v = Done (inr (m1, Some nd)) \/
  exists st t n pos, let m' := mk_machine st (Some (t, n)) pos in
    machine_consume m v = Done (inr (m', None)) /\ n + 2 < size_modulus /\
    machine_bulk m' t n (v ++ w) = Done (m1, Some nd).
Proof.
  intros Hm Hfit Hpend Hd Hi Hc. pose proof Hm as [Hs Hpos Hf Hh].
  pose proof (find_crlf_bound _ _ Hi) as Hb. cbn [length] in Hb.
  pose proof (find_crlf_app _ w _ Hi) as Hi'. cbn [app] in Hi'.
  pose proof (f_equal length Hd) as Hlen. rewrite length_drop in Hlen. cbn in Hlen.
  unfold fits, next_header, machine_consume in *. rewrite Hpend in *.
  rewrite drop_prefix, Hd in Hc, Hfit by done. cbn [app] in *. rewrite Hi' in Hc, Hfit.
  rewrite Hd, Hi. rewrite (take_app_le rest w i) in Hc, Hfit by lia.
  destruct (apply_header _ _) as [[e|[st [nd'|[t n]]]]|?|?] eqn:Ha; cbn [mbind outcome_bind] in *;
    try done; [by left|].
  apply apply_header_bulk in Ha as [Hh' ->]. rewrite Hh' in Hfit.
  destruct (machine_bulk _ t n (v ++ w)) as [[m2 o]|?|?] eqn:Eb; try done.
  cbn in Hc. injection Hc as -> ->.
  eapply machine_bulk_prefix in Eb as Eb'; [|cbn; unfold len; lia|done].
  destruct Eb' as [-> | ->]; [by left|right]. by eexists _, _, _, _.
Qed.

Lemma machine_prefix v w m m1 nd :
  in_progress v m -> fits m (v ++ w) ->
  machine_consume m (v ++ w) = Done (inr (m1, Some nd)) ->
  machine_consume m v = Done (inr (m1, Some nd)) \/
  exists m', machine_consume m v = Done (inr (m', None)) /\ in_progress v m' /\
    busy m' /\ fits m' (v ++ w) /\ machine_consume m' (v ++ w) = Done (inr (m1, Some nd)).
Proof.
  intros Hm Hfit Hc. pose proof Hm as [Hs Hpos Hf Hh].
  assert (Hsame : machine_consume m v = Done (inr (m, None)) ->
    exists m', machine_consume m v = Done (inr (m', None)) /\ in_progress v m' /\
    busy m' /\ fits m' (v ++ w) /\ machine_consume m' (v ++ w) = Done (inr (m1, Some nd)))
    by (intros; by exists m).
  destruct (pending m) as [[t n]|] eqn:Hpend.
  - unfold fits in Hfit. unfold machine_consume in Hc, Hsame. rewrite Hpend in *.
    destruct (machine_bulk m t n (v ++ w)) as [[m' o]|?|?] eqn:Eb; try done.
    cbn in Hc. injection Hc as -> ->. unfold machine_consume. rewrite Hpend.
    destruct (machine_bulk_prefix _ _ _ _ _ _ _ Hpos Hfit Eb) as [E|E]; rewrite E in *; auto.
  - destruct (drop (N.to_nat (position m)) v) as [|c rest] eqn:Hd.
    { right. apply Hsame. unfold machine_consume. by rewrite Hpend, Hd. }
    destruct (find_crlf (c :: rest)) as [[|i]|] eqn:Hi.
    + unfold machine_consume in Hc. rewrite Hpend, drop_prefix, Hd in Hc by done.
      apply (find_crlf_app _ w) in Hi. cbn [app] in *. by rewrite Hi in Hc.
    + destruct (machine_prefix_line _ _ _ _ _ _ _ _ Hm Hfit Hpend Hd Hi Hc)
        as [|(st & t & n & pos & Hv & Hn & Hb)]; [by left|right].
      eexists. split; [exact Hv|]. split; [by eapply machine_more|]. split; [done|].
      split; [done|]. unfold machine_consume. cbn [pending]. by rewrite Hb.
    + right. apply Hsame. unfold machine_consume. by rewrite Hpend, Hd, Hi.
Qed.

Lemma consume_machine view p m1 o :
  parsing view p -> len view < size_modulus ->
  machine_consume (abs p) view = Done (inr (m1, o)) ->
  exists p1, consume p view None = Done (p1, None, o) /\ abs p1 = m1.
Proof.
  intros [Hb [_ Hpos _ _]] Hv Hc.
  pose proof (consume_refines_machine view p Hb Hpos Hv) as H. rewrite Hc in H.
  apply orel_done_inv in H as ([[p1 ec] o'] & Hc1 & -> & -> & _ & Habs & _). by exists p1.
Qed.

Lemma complete_mono v w p : complete v p -> complete (v ++ w) p.
Proof. intros [Hb (Hs & Hp & Hc & Hl)]. split; [done|]. split_and!; [done..|]. rewrite len_app. lia. Qed.

Section Chunks.
Context {S : Type} (adapter : S -> node -> error_code -> outcome (S * error_code)).

(** [parse] on a prefix [v] of the data [v ++ w]: what it leaves for later. *)
Definition chunked (v w : bytes) (nds : list node) (m2 : machine)
    (x : parser * S * error_code * bool) (y : S * error_code) : Prop :=
  let '(p, s, ec, b) := x in
  (s, ec) = y /\
  match ec, b with
  | Some _, _ => b = true
  | None, true => nds = [] /\ abs p = m2 /\ complete v p
  | None, false => w <> [] /\ parsing v p /\ run (v ++ w) (abs p) nds m2
  end.

Lemma parse_loop_prefix fuel p v w nds m2 s :
  len (v ++ w) < size_modulus -> parsing v p \/ complete v p ->
  run (v ++ w) (abs p) nds m2 -> finished (v ++ w) m2 ->
  (N.to_nat (budget v (abs p)) < fuel)%nat ->
  exists nds1 nds2, nds = nds1 ++ nds2 /\
    orel (chunked v w nds2 m2) (parse_loop adapter fuel p v s None) (feed adapter s nds1).
Proof.
  intros Hv Hp Hrun Hfin Hf. revert p s nds Hp Hrun Hf.
  assert (Hv' : len v < size_modulus) by (rewrite len_app in Hv; lia).
  induction fuel as [|fuel IH]; intros p s nds Hp Hrun Hf; [lia|]. cbn [parse_loop].
  destruct Hp as [Hp|Hp].
  2: { rewrite (complete_done _ _ Hp). exists [], [].
       by destruct (complete_run _ _ _ _ (complete_mono _ w _ Hp) Hrun) as [-> ->]. }
  rewrite (parsing_not_done _ _ Hp).
  inversion Hrun as [|? m1 ? nd nds' Hbusy Hfit Hc Hrun']; subst.
  { by destruct (parsing_run _ _ _ _ (parsing_mono _ w _ Hp) Hrun Hfin). }
  pose proof (consume_cases v p Hp Hv') as Hcase.
  destruct (machine_prefix _ _ _ _ _ (proj2 Hp) Hfit Hc) as [Hc1|(m' & Hc1 & Hm' & Hb' & Hf' & Hc')].
  - destruct (consume_machine _ _ _ _ Hp Hv' Hc1) as (p1 & E & <-). rewrite E in *.
    inversion Hcase as [| | |? ? Hp1 Hlt]; subst. cbn.
    destruct (adapter s nd None) as [[s' [e|]]|?|?] eqn:Ea;
      [exists [nd], nds'; cbn; by rewrite Ea| |exists [nd], nds'; cbn; by rewrite Ea..].
    destruct (IH p1 s' nds' Hp1 Hrun' ltac:(lia)) as (nds1 & nds2 & -> & IH').
    exists (nd :: nds1), nds2. cbn. rewrite Ea. by split.
  - destruct (consume_machine _ _ _ _ Hp Hv' Hc1) as (p1 & E & <-). rewrite E in *.
    inversion Hcase as [| |? Hp1|]; subst. cbn. exists [], (nd :: nds'). split; [done|].
    cbn. split_and!; [done| |done|by econstructor].
    intros ->. rewrite app_nil_r in Hc. congruence.
Qed.

(** All the chunks together hold the message: the outcome is that of feeding
    its nodes to the adapter. *)
Definition assembled (n : N) (x : parser * S * error_code * bool) (y : S * error_code) : Prop :=
  let '(p, s, ec, b) := x in
  (s, ec) = y /\ b = true /\ (ec = None -> done p = true /\ consumed_ p = n).

Lemma parse_chunks_run chunks p buf s nds m2 :
  len (buf ++ concat chunks) < size_modulus -> concat chunks <> [] -> parsing buf p ->
  run (buf ++ concat chunks) (abs p) nds m2 -> finished (buf ++ concat chunks) m2 ->
  orel (assembled (position m2)) (parse_chunks adapter p buf chunks s) (feed adapter s nds).
Proof.
  revert p buf s nds. induction chunks as [|c chunks IH]; intros p buf s nds Hv Hne Hp Hrun Hfin; [done|].
  cbn [concat parse_chunks] in *. rewrite app_assoc in *.
  destruct (parse_loop_prefix (parse_fuel (buf ++ c)) p (buf ++ c) (concat chunks) nds m2 s)
    as (nds1 & nds2 & -> & H); [done|left; by apply parsing_mono|done..|apply parse_fuel_enough|].
  rewrite feed_app. unfold parse. eapply orel_bind; [exact H|].
  intros [[[p1 s1] ec1] b1] [s1' ec1'] [Heq Hm]. simplify_eq. destruct ec1' as [e|]; cbn in *.
  { subst. done. }
  destruct b1.
  - destruct Hm as (-> & <- & Hcomp). cbn. split_and!; [done..|]. intros _.
    split; [by eapply complete_done|done].
  - destruct Hm as (Hw & Hp1 & Hrun1). by apply IH.
Qed.
End Chunks.

(** ** Several messages in one buffer

    As the multiplexer does between messages: the consumed bytes are erased
    and the parser is reset. *)
Fixpoint parse_all (fuel : nat) (buf : bytes) : outcome (list (list node)) :=
  match fuel, buf with
  | _, [] => Done []
  | O, _ => Fault out_of_fuel
  | Datatypes.S fuel', _ =>
      '(p, nds, ec, b) ← parse collect reset buf [] None;
      if has_ec ec || negb b then Fault assertion_failed
      else
        msgs ← parse_all fuel' (drop (N.to_nat (get_consumed p)) buf);
        Done (nds :: msgs)
  end.

Lemma feed_collect s nds : feed collect s nds = Done (s ++ nds, None).
Proof.
  revert s. induction nds as [|nd nds IH]; intros s; cbn; [by rewrite app_nil_r|].
  by rewrite IH, <- app_assoc.
Qed.

Lemma parse_all_encode fuel rs :
  Forall (fun r => valid r = true /\ height r <= max_embedded_depth) rs ->
  len (concat (map encode rs)) < size_modulus -> (length rs <= fuel)%nat ->
  parse_all fuel (concat (map encode rs)) = Done (map (nodes 0) rs).
Proof.
  intros HF. revert fuel. induction HF as [|r rs [Hval Hh] HF IH]; intros fuel Hv Hf; [by destruct fuel|].
  destruct fuel as [|fuel]; cbn [length] in Hf; [lia|]. cbn [map concat] in *.
  pose proof (parse_encode_feed collect r (concat (map encode rs)) [] Hval Hh Hv) as H.
  rewrite feed_collect in H. apply orel_done_inv in H as ([[[p nds] ec] b] & Hp & Heq & -> & Hc).
  simplify_eq. destruct (Hc eq_refl) as [_ Hcons]. cbn [app] in *.
  destruct (encode r ++ _) as [|x buf] eqn:E.
  { apply (f_equal len) in E. rewrite len_app in E. pose proof (encode_nonempty r). rewrite len_nil in E. lia. }
  cbn [parse_all]. rewrite Hp. cbn [mbind outcome_bind has_ec orb negb].
  unfold get_consumed. rewrite Hcons, <- E. unfold len. rewrite Nat2N.id, drop_app_length.
  rewrite IH; [done|rewrite <- E, len_app in Hv; lia|lia].
Qed.
