(* ===== verification/ParserTheorems.v ===== *)
(** * What the parser guarantees

    The properties of [resp3::parser], [resp3::parse] and [deserialize], with
    a concrete instance of each. *)

From S2P Require Import Prelude Charconv Types Parser ParserSpec ParserSafety Resp3 ParserCorrect.

(** The message [%2\r\n$1\r\na\r\n:1\r\n$1\r\nb\r\n*1\r\n#t\r\n]. *)
Definition sample : resp3 :=
  r_aggregate type.map
    [ r_blob type.blob_string (bs "a"); r_simple type.number (bs "1");
      r_blob type.blob_string (bs "b"); r_aggregate type.array [r_simple type.boolean (bs "t")] ].

(** C7: parsing the wire format of a well-formed value nested at most five
    levels deep, followed by anything, gives the adapter exactly the pre-order
    list of its nodes; if the adapter accepts them all the parser reports
    completion and has consumed exactly the bytes of the value, and otherwise
    the failure of the adapter is the result of [parse]. *)
Theorem parse_encode {S} (adapter : S -> node -> error_code -> outcome (S * error_code))
    (r : resp3) (rest : bytes) (s : S) :
  valid r = true -> height r <= max_embedded_depth -> len (encode r ++ rest) < size_modulus ->
  match feed adapter s (nodes 0 r) with
  | Done (s', None) =>
      exists p, parse adapter reset (encode r ++ rest) s None = Done (p, s', None, true) /\
        done p = true /\ get_consumed p = len (encode r)
  | Done (s', Some e) =>
      exists p, parse adapter reset (encode r ++ rest) s None = Done (p, s', Some e, true)
  | Throw e => parse adapter reset (encode r ++ rest) s None = Throw e
  | Fault f => parse adapter reset (encode r ++ rest) s None = Fault f
  end.
Proof.
  intros Hval Hh Hv. pose proof (parse_encode_feed adapter r rest s Hval Hh Hv) as H.
  destruct (feed adapter s (nodes 0 r)) as [[s' ec]|e|f], (parse _ _ _ _ _) as [[[[p s1] ec1] b]|?|?];
    try done; cbn in H; [|by subst..].
  destruct H as (Heq & -> & Hc). simplify_eq. destruct ec as [e|]; [by eexists|].
  destruct (Hc eq_refl) as [Hcomp Hcons]. exists p. split; [done|].
  split; [by eapply complete_done|done].
Qed.

Lemma parse_encode_witness :
  exists p, parse collect reset (encode sample ++ bs "+OK") [] None
    = Done (p, nodes 0 sample, None, true) /\ done p = true /\ get_consumed p = len (encode sample).
Proof. apply (parse_encode collect sample (bs "+OK") []); by vm_compute. Defined.

(** C8: the bytes of a well-formed value may arrive in any number of pieces cut
    anywhere: calling [parse] again with the grown buffer whenever it asks for
    more data has the outcome of feeding the nodes of the value to the adapter
    once, and consumes exactly its bytes. *)
Theorem parse_any_chunks {S} (adapter : S -> node -> error_code -> outcome (S * error_code))
    (r : resp3) (rest : bytes) (chunks : list bytes) (s s' : S) :
  valid r = true -> height r <= max_embedded_depth ->
  concat chunks = encode r ++ rest -> len (concat chunks) < size_modulus ->
  feed adapter s (nodes 0 r) = Done (s', None) ->
  exists p, parse_chunks adapter reset [] chunks s = Done (p, s', None, true) /\
    done p = true /\ get_consumed p = len (encode r).
Proof.
  intros Hval Hh Hc Hv Hfeed.
  assert (Hne : concat chunks <> []).
  { intros E. pose proof (encode_nonempty r). rewrite Hc in E.
    apply app_eq_nil in E as [E _]. by rewrite E in *. }
  pose proof (parse_chunks_run adapter chunks reset [] s (nodes 0 r)
    (mk_machine [1] None (len (encode r))) Hv Hne (parsing_reset _)) as H.
  cbn [app] in H. rewrite Hc, Hfeed in H.
  specialize (H (run_reset r rest Hval Hh) (finished_encode r rest)).
  apply orel_done_inv in H as ([[[p s1] ec] b] & -> & Heq & -> & H). simplify_eq.
  exists p. by destruct (H eq_refl).
Qed.

Lemma parse_any_chunks_witness :
  exists p, parse_chunks collect reset []
      [bs "%2"; sep ++ bs "$1" ++ sep ++ bs "a"; drop 9 (encode sample)] []
    = Done (p, nodes 0 sample, None, true) /\ done p = true /\ get_consumed p = len (encode sample).
Proof. apply (parse_any_chunks collect sample []); by vm_compute. Defined.

(** C16: the parser, with its fixed array of sizes and its depth counter,
    implements the stack machine: on every buffer, a call of [consume] on a
    parser whose depth is within its array faults as the machine does, sets
    the error the machine reports and stays unchanged, or moves to a parser
    that represents the next state of the machine, with the same node. *)
Theorem consume_refines_stack_machine (view : bytes) (p : parser) :
  in_bounds (depth_ p) (sizes_ p) -> consumed_ p <= len view -> len view < size_modulus ->
  match machine_consume (abs p) view with
  | Fault f => consume p view None = Fault f
  | Throw _ => False
  | Done (inl e) => consume p view None = Done (p, make_error_code e, None)
  | Done (inr (m, o)) =>
      exists p', consume p view None = Done (p', None, o) /\
        abs p' = m /\ in_bounds (depth_ p') (sizes_ p') /\ consumed_ p' <= len view
  end.
Proof.
  intros Hb Hc Hv. pose proof (consume_refines_machine view p Hb Hc Hv) as H.
  destruct (machine_consume (abs p) view) as [[e|[m o]]|e|f],
    (consume p view None) as [[[p' ec] o']|?|?] eqn:Ec; try done; cbn in H.
  - by rewrite H.
  - destruct H as (-> & -> & Hb' & <- & Hc'). by exists p'.
  - unfold consume in Ec. by apply noexcept_no_throw in Ec.
  - by subst.
Qed.

Lemma consume_refines_stack_machine_witness :
  exists p', consume reset (encode sample) None
      = Done (p', None, Some (mk_node type.map 2 0 [])) /\
    abs p' = mk_machine [4; 2] None 4 /\ in_bounds (depth_ p') (sizes_ p') /\
    consumed_ p' <= len (encode sample).
Proof. apply (consume_refines_stack_machine (encode sample) reset); by vm_compute. Defined.

(** C15: in the middle of a message, [consume] leaves defined behaviour (a write
    outside [sizes_], or an exception out of a [noexcept] function) exactly on
    three kinds of header line: a blob without a length, a streamed string
    opened at the greatest depth, and the end of a streamed string at depth
    zero. *)
Theorem consume_fault_iff_hazard (view : bytes) (p : parser) :
  parsing view p -> len view < size_modulus ->
  (exists f, consume p view None = Fault f) <-> hazard (abs p) view = true.
Proof. apply consume_faults. Qed.

Lemma consume_fault_iff_hazard_witness :
  (exists f, consume reset (encode sample) None = Fault f) <-> hazard (abs reset) (encode sample) = true.
Proof. apply (consume_fault_iff_hazard (encode sample) reset); [apply parsing_reset|by vm_compute]. Defined.

(** C20: [parse] terminates within its bound on every input and for every
    adapter that returns: it asks for more data in the middle of a message,
    or an error is set, or the message is complete; if it faults, some header
    line of the buffer was one of the three hazards. *)
Theorem parse_returns {S} (adapter : S -> node -> error_code -> outcome (S * error_code))
    (p : parser) (msg : bytes) (s : S) :
  parsing msg p -> len msg < size_modulus ->
  (forall s nd, exists s' ec, adapter s nd None = Done (s', ec)) ->
  (exists p' s' ec b, parse adapter p msg s None = Done (p', s', ec, b) /\
     if b then ec <> None \/ complete msg p' else ec = None /\ parsing msg p') \/
  (exists f, parse adapter p msg s None = Fault f /\ f <> out_of_fuel /\
     exists q, parsing msg q /\ hazard (abs q) msg = true).
Proof.
  intros Hp Hv Ha.
  destruct (parse_loop_cases adapter (fun _ => True) (parse_fuel msg) p msg s Hv) as [([[[p' s'] ec] b] & H & Hpost & _)|H];
    [intros s1 nd _; destruct (Ha s1 nd) as (s2 & ec & ?); eauto|done|by left|apply parse_fuel_enough|left|by right].
  exists p', s', ec, b. split; [done|]. destruct b; [|done].
  destruct Hpost as [Hpost|Hpost]; [left|by right]. by destruct ec.
Qed.

Lemma parse_returns_witness :
  (exists p' s' ec b, parse collect reset (bs "*2") [] None = Done (p', s', ec, b) /\
     if b then ec <> None \/ complete (bs "*2") p' else ec = None /\ parsing (bs "*2") p') \/
  (exists f, parse collect reset (bs "*2") [] None = Fault f /\ f <> out_of_fuel /\
     exists q, parsing (bs "*2") q /\ hazard (abs q) (bs "*2") = true).
Proof.
  apply (parse_returns collect reset (bs "*2") []); [apply parsing_reset|by vm_compute|].
  intros. by eexists _, _.
Defined.

(** a read of the suggested size completes a pending bulk: if the parser
    waits for a bulk of [n] bytes, then after appending as many bytes as
    [get_suggested_buffer_growth] returns, for any hint, [consume] returns the
    node of the bulk with a value of exactly [n] bytes. *)
Theorem suggested_growth_completes_bulk (view chunk : bytes) (p : parser) (hint : size_t) :
  parsing view p -> bulk_expected p = true -> bulk_length_ p + 2 < size_modulus ->
  len chunk = get_suggested_buffer_growth p hint -> len (view ++ chunk) < size_modulus ->
  exists p' nd, consume p (view ++ chunk) None = Done (p', None, Some nd) /\
    data_type nd = bulk_ p /\ depth nd = depth_ p /\ len (value nd) = bulk_length_ p.
Proof.
  intros Hp Hb Hn Hc Hv. apply (parsing_mono _ chunk) in Hp as Hp'.
  assert (Hge : bulk_length_ p + 2 <= len chunk).
  { rewrite Hc. unfold get_suggested_buffer_growth. rewrite Hb, wadd_small by done. cbn [negb].
    destruct (N.ltb_spec hint (bulk_length_ p + 2)); lia. }
  pose proof Hp as [Hbd [Hs Hpos _ _]]. destruct (pop_open _ Hs) as (st & Hpop & _).
  destruct (consume_machine (view ++ chunk) p (mk_machine st None (consumed_ p + (bulk_length_ p + 2)))
    (Some (mk_node (bulk_ p) 1 (depth_ p)
      (take (N.to_nat (bulk_length_ p)) (drop (N.to_nat (consumed_ p)) (view ++ chunk))))) Hp' Hv)
    as (p' & E & _).
  - unfold machine_consume. cbn [abs pending]. rewrite Hb. unfold machine_bulk. rewrite Hpop.
    cbn [abs position stack] in *. rewrite (wadd_small _ 2) by done. rewrite level_stack_of by done.
    rewrite (proj2 (N.ltb_ge _ _)) by (rewrite len_app; lia). cbn [mbind outcome_bind fmap outcome_fmap].
    rewrite N.min_l by (rewrite len_app; lia). done.
  - eexists _, _. split; [exact E|]. cbn in *. split_and!; [done..|].
    rewrite len_app in *. unfold len in *. rewrite length_take, length_drop, length_app. lia.
Qed.

Lemma suggested_growth_completes_bulk_witness :
  exists p' nd,
    consume (mk_parser 0 [2; 0; 0; 0; 0; 0] 3 type.blob_string 4) (bs "$3" ++ sep ++ bs "foo" ++ sep) None
      = Done (p', None, Some nd) /\
    data_type nd = type.blob_string /\ depth nd = 0 /\ len (value nd) = 3.
Proof.
  apply (suggested_growth_completes_bulk (bs "$3" ++ sep) (bs "foo" ++ sep)
    (mk_parser 0 [2; 0; 0; 0; 0; 0] 3 type.blob_string 4) 2); [|by vm_compute..].
  split; [by vm_compute|]. split; [by exists []|by vm_compute|by vm_compute|by vm_compute].
Defined.

(** bytes a server may send that take the client out of defined behaviour:
    a blob header without a length terminates the process, whatever the
    adapter; a stray end of a streamed string and a streamed string inside
    five nested arrays access [sizes_] out of bounds. *)
Theorem crashing_inputs {S} (adapter : S -> node -> error_code -> outcome (S * error_code)) (s : S) :
  parse adapter reset (line "$" []) s None = Fault terminate /\
  parse adapter reset (line "!" []) s None = Fault terminate /\
  parse adapter reset (line "=" []) s None = Fault terminate /\
  parse adapter reset (line ";" (bs "0")) s None = Fault out_of_bounds /\
  parse collect reset (concat (repeat (line "*" (bs "1")) 5) ++ line "$" (bs "?")) [] None
    = Fault out_of_bounds.
Proof. by split_and!; vm_compute. Qed.

(** the announced length of a bulk is not checked before the separator is
    added to it: a bulk of [2^64 - 1] bytes is complete, with a value of one
    byte, as soon as one byte follows its header. *)
Theorem bulk_length_wraps (c : ascii) :
  exists p, parse collect reset (line "$" (bs "18446744073709551615") ++ [c]) [] None
    = Done (p, [mk_node type.blob_string 1 0 [c]], None, true) /\ done p = true.
Proof. eexists. by split; vm_compute. Qed.
