(* ===== verification/ParserTyping.v ===== *)
(** * What the parser accepts

    The converse of the correctness of the parser: whatever bytes it is given, a
    message it accepts without error, and without streamed strings, is a
    well-formed value, whose nodes it has emitted in pre-order. *)

From S2P Require Import Prelude Charconv Types Parser ParserSpec ParserSafety Resp3.

#[local] Open Scope string_scope.
#[local] Open Scope N_scope.
#[local] Open Scope list_scope.



(** ** One node *)








(** ** Values *)





Section Message.
Context (view : bytes) (Hview : len view < size_modulus).



End Message.

(** ** [parse] *)





(** The exception: the end of a streamed string closes whatever aggregate is
    open, here an array with two of three elements missing. *)
Lemma stray_stream_end :
  parse collect reset (crlf (bs "*3") ++ crlf (bs ":1") ++ crlf (bs ";0")) [] None =
  Done (mk_parser 0 [1; 0; 0; 0; 0; 0] 0 type.invalid 12,
    [mk_node type.array 3 0 []; mk_node type.number 1 1 (bs "1"); mk_node type.streamed_string_part 1 1 []], None, true).
Proof. vm_compute. reflexivity. Qed.
