(* ===== verification/Serialization.v ===== *)
(** * Serialization of commands

    [resp3/serialization.hpp] and [resp3/impl/serialization.ipp]: bulks,
    headers, and the dispatch of [add_bulk] on the type of its argument. *)

From S2P Require Import Prelude Charconv Types Parser ParserSpec ParserSafety Resp3.

(** [payload += to_code(t)]. *)
Definition append_code (payload : bytes) (t : type.t) : outcome bytes :=
  c ← to_code t; Done (payload ++ [c]).

(** [boost_redis_to_bulk(std::string&, std::string_view)]. *)
Definition boost_redis_to_bulk (payload data : bytes) : outcome bytes :=
  let str := to_string (len data) in
  payload ← append_code payload type.blob_string;
  let payload := payload ++ str in
  let payload := payload ++ sep in
  let payload := payload ++ data in
  Done (payload ++ sep).

Definition add_header (payload : bytes) (t : type.t) (size : size_t) : outcome bytes :=
  let str := to_string size in
  payload ← append_code payload t;
  let payload := payload ++ str in
  Done (payload ++ sep).

Definition add_blob (payload blob : bytes) : bytes := (payload ++ blob) ++ sep.
Definition add_separator (payload : bytes) : bytes := payload ++ sep.

(** ** Types with a [boost_redis_to_bulk]

    The overload set the library finds by argument-dependent lookup.  What it
    relies on is documented in [serialization.hpp]: an overload converts its
    argument to a string and passes it to the overload for strings. *)
Class Bulk (T : Type) := {
  to_bulk : bytes -> T -> outcome bytes;
  bulk_text : T -> bytes;
  to_bulk_text payload v : to_bulk payload v = boost_redis_to_bulk payload (bulk_text v);
}.

#[global] Instance string_bulk : Bulk bytes := {|
  to_bulk := boost_redis_to_bulk;
  bulk_text v := v;
  to_bulk_text _ _ := eq_refl;
|}.

(** The overload for integral types, through [std::to_string]. *)
Definition to_bulk_integral (payload : bytes) (n : Z) : outcome bytes :=
  let s := to_string_signed n in boost_redis_to_bulk payload s.

#[global] Instance integral_bulk : Bulk Z := {|
  to_bulk := to_bulk_integral;
  bulk_text := to_string_signed;
  to_bulk_text _ _ := eq_refl;
|}.

(** A value of any such type, as an element of a parameter pack. *)
Record bulkable := Bulkable {
  bk_type : Type;
  bk_inst : Bulk bk_type;
  bk_value : bk_type;
}.
Arguments Bulkable {_ _} _.

Definition bk_text (b : bulkable) : bytes := @bulk_text _ (bk_inst b) (bk_value b).

(** ** [add_bulk]

    [add_bulk_impl] and [bulk_counter] for the type of the argument: how it is
    written, and how many bulks [push_range] counts for it. *)
Class AddBulk (T : Type) := {
  add_bulk : bytes -> T -> outcome bytes;
  bulk_counter : size_t;
}.

#[global] Instance add_bulk_generic {T} `{Bulk T} : AddBulk T | 10 := {|
  add_bulk := to_bulk;
  bulk_counter := 1;
|}.

#[global] Instance add_bulk_pair {U V} `{Bulk U} `{Bulk V} : AddBulk (U * V) := {|
  add_bulk payload from :=
    payload ← to_bulk payload from.1;
    to_bulk payload from.2;
  bulk_counter := 2;
|}.

(** [std::tuple]: the fold expression over its elements.  There is no
    specialisation of [bulk_counter] for tuples. *)
Fixpoint add_bulk_elements (payload : bytes) (vs : list bulkable) : outcome bytes :=
  match vs with
  | [] => Done payload
  | v :: vs =>
      payload ← @to_bulk _ (bk_inst v) payload (bk_value v);
      add_bulk_elements payload vs
  end.

#[global] Instance add_bulk_tuple : AddBulk (list bulkable) := {|
  add_bulk := add_bulk_elements;
  bulk_counter := 1;
|}.

(** ** What is written *)

Definition r_bulk (v : bytes) : resp3 := r_blob type.blob_string v.

Lemma to_bulk_encode payload v : boost_redis_to_bulk payload v = Done (payload ++ encode (r_bulk v)).
Proof.
  unfold boost_redis_to_bulk, append_code. cbn [to_code mbind outcome_bind]. cbv zeta.
  f_equal. unfold r_bulk, encode, line. change (code type.blob_string) with "$"%char.
  rewrite <- !app_assoc. cbn [app]. by rewrite <- !app_assoc.
Qed.

Lemma add_header_array payload n :
  add_header payload type.array n = Done (payload ++ line "*" (to_string n)).
Proof.
  unfold add_header, append_code, line. cbn [to_code mbind outcome_bind]. cbv zeta.
  by rewrite <- !app_assoc.
Qed.

Lemma to_bulk_instance {T} `{Bulk T} payload (v : T) :
  to_bulk payload v = Done (payload ++ encode (r_bulk (bulk_text v))).
Proof. by rewrite to_bulk_text, to_bulk_encode. Qed.

Lemma add_bulk_elements_encode payload vs :
  add_bulk_elements payload vs = Done (payload ++ concat (map encode (map r_bulk (map bk_text vs)))).
Proof.
  revert payload. induction vs as [|v vs IH]; intros payload; cbn [add_bulk_elements map concat].
  - by rewrite app_nil_r.
  - rewrite to_bulk_instance. cbn [mbind outcome_bind]. by rewrite IH, <- app_assoc.
Qed.
