(* ===== verification/Request.v ===== *)
(** * Requests

    [request.hpp] and [impl/request.ipp]: a request is a pipeline of commands,
    built in place; it counts its commands, the responses it expects, and
    remembers whether a [HELLO] gives it priority. *)

From S2P Require Import Prelude Charconv Types Parser ParserSpec ParserSafety Resp3 ParserCorrect Serialization.

(** [request::config]. *)
Record request_config := mk_request_config {
  cancel_on_connection_lost : bool;
  cancel_if_not_connected : bool;
  cancel_if_unresponded : bool;
  hello_with_priority : bool;
}.

Definition default_request_config : request_config := mk_request_config true false true true.

Record request := mk_request {
  cfg_ : request_config;
  payload_ : bytes;
  commands_ : size_t;
  expected_responses_ : size_t;
  has_hello_priority_ : bool;
}.

(** The constructor. *)
Definition new_request (cfg : request_config) : request := mk_request cfg [] 0 0 false.

Definition get_expected_responses (r : request) : size_t := expected_responses_ r.
Definition get_commands (r : request) : size_t := commands_ r.
Definition payload (r : request) : bytes := payload_ r.
Definition has_hello_priority (r : request) : bool := has_hello_priority_ r.
Definition get_config (r : request) : request_config := cfg_ r.

Definition clear (r : request) : request := mk_request (cfg_ r) [] 0 0 false.

Definition with_payload (r : request) (p : bytes) : request :=
  mk_request (cfg_ r) p (commands_ r) (expected_responses_ r) (has_hello_priority_ r).

(** [detail::has_response]: true for the commands that are answered by pushes
    and not by a response. *)
Definition has_response (cmd : bytes) : bool :=
  if bool_decide (cmd = bs "SUBSCRIBE") then true
  else if bool_decide (cmd = bs "PSUBSCRIBE") then true
  else if bool_decide (cmd = bs "UNSUBSCRIBE") then true
  else false.

Definition check_cmd (r : request) (cmd : bytes) : request :=
  let commands := commands_ r +w 1 in
  let expected := if negb (has_response cmd) then expected_responses_ r +w 1
                  else expected_responses_ r in
  let hello := if bool_decide (cmd = bs "HELLO") then hello_with_priority (cfg_ r)
               else has_hello_priority_ r in
  mk_request (cfg_ r) (payload_ r) commands expected hello.

(** [push(cmd, args...)]: the arguments are tied into a tuple. *)
Definition push (r : request) (cmd : bytes) (args : list bulkable) : outcome request :=
  let pack_size := len args in
  p ← add_header (payload_ r) type.array (1 +w pack_size);
  p ← add_bulk p cmd;
  p ← add_bulk p args;
  Done (check_cmd (with_payload r p) cmd).

(** The loop over a range. *)
Fixpoint add_range {T} `{AddBulk T} (p : bytes) (range : list T) : outcome bytes :=
  match range with
  | [] => Done p
  | v :: range => p ← add_bulk p v; add_range p range
  end.

(** [push_range(cmd, key, begin, end)]. *)
Definition push_range_key {T} `{AddBulk T} (r : request) (cmd key : bytes) (range : list T)
    : outcome request :=
  match range with
  | [] => Done r
  | _ :: _ =>
    let size := bulk_counter (T := T) in
    let distance := len range in
    p ← add_header (payload_ r) type.array (2 +w size *w distance);
    p ← add_bulk p cmd;
    p ← add_bulk p key;
    p ← add_range p range;
    Done (check_cmd (with_payload r p) cmd)
  end.

(** [push_range(cmd, begin, end)]. *)
Definition push_range {T} `{AddBulk T} (r : request) (cmd : bytes) (range : list T)
    : outcome request :=
  match range with
  | [] => Done r
  | _ :: _ =>
    let size := bulk_counter (T := T) in
    let distance := len range in
    p ← add_header (payload_ r) type.array (1 +w size *w distance);
    p ← add_bulk p cmd;
    p ← add_range p range;
    Done (check_cmd (with_payload r p) cmd)
  end.

(** ** What a request stands for

    A list of commands, each a name followed by its arguments, all strings. *)

Definition command_value (c : list bytes) : resp3 := r_aggregate type.array (map r_bulk c).

Definition wire (cmds : list (list bytes)) : bytes := concat (map encode (map command_value cmds)).

Definition command_name (c : list bytes) : bytes := default [] (head c).

Definition responds (c : list bytes) : bool := negb (has_response (command_name c)).
Definition is_hello (c : list bytes) : bool := bool_decide (command_name c = bs "HELLO").

Record represents (r : request) (cmds : list (list bytes)) : Prop := {
  rep_payload : payload_ r = wire cmds;
  rep_commands : commands_ r = len cmds;
  rep_expected : expected_responses_ r = len (List.filter responds cmds);
  rep_hello : has_hello_priority_ r = existsb is_hello cmds && hello_with_priority (cfg_ r);
}.

Lemma wire_app a b : wire (a ++ b) = wire a ++ wire b.
Proof. unfold wire. by rewrite !map_app, concat_app. Qed.

Lemma wire_command name args :
  wire [name :: args] = line "*" (to_string (1 + len args)) ++ encode (r_bulk name)
    ++ concat (map encode (map r_bulk args)).
Proof.
  unfold wire, command_value. cbn [map concat]. rewrite app_nil_r. cbn [encode].
  unfold aggregate_count. change (element_multiplicity type.array) with 1.
  rewrite N.div_1_r, len_cons. unfold len. by rewrite length_map.
Qed.

Lemma filter_length_le {A} (f : A -> bool) l : len (List.filter f l) <= len l.
Proof. induction l as [|a l IH]; cbn; [done|]. destruct (f a); rewrite ?len_cons; lia. Qed.

(** Appending the bytes of one command and counting it. *)
Lemma check_cmd_represents r cmds c :
  represents r cmds -> c <> [] -> len cmds + 1 < size_modulus ->
  represents (check_cmd (with_payload r (payload_ r ++ wire [c])) (command_name c)) (cmds ++ [c]).
Proof.
  intros [Hp Hc He Hh] Hne Hlen. pose proof (filter_length_le responds cmds) as Hle.
  split; cbn [check_cmd with_payload payload_ commands_ expected_responses_ has_hello_priority_ cfg_].
  - by rewrite wire_app, Hp.
  - rewrite Hc, wadd_small, len_app by lia. done.
  - rewrite List.filter_app, len_app, He. cbn [List.filter]. fold (responds c).
    destruct (responds c); [rewrite wadd_small by lia; done|rewrite len_nil; lia].
  - rewrite existsb_app, Hh. cbn [existsb]. change (bool_decide _) with (is_hello c).
    destruct (is_hello c), (existsb is_hello cmds), (hello_with_priority _); done.
Qed.

Lemma new_request_represents cfg : represents (new_request cfg) [].
Proof. done. Qed.

Lemma push_represents r cmds name args :
  represents r cmds -> len cmds + 1 < size_modulus -> len args + 1 < size_modulus ->
  exists r', push r name args = Done r' /\ represents r' (cmds ++ [name :: map bk_text args]) /\
    cfg_ r' = cfg_ r.
Proof.
  intros Hr Hc Ha. unfold push. rewrite add_header_array, wadd_small by lia.
  cbn [mbind outcome_bind add_bulk add_bulk_generic add_bulk_tuple to_bulk string_bulk].
  rewrite to_bulk_encode. cbn [mbind outcome_bind]. rewrite add_bulk_elements_encode.
  cbn [mbind outcome_bind]. eexists. split; [done|]. split; [|done].
  pose proof (check_cmd_represents r cmds (name :: map bk_text args) Hr ltac:(done) Hc) as H.
  rewrite wire_command in H. unfold len at 1 in H. rewrite length_map in H. fold (len args) in H.
  rewrite <- !app_assoc. exact H.
Qed.

(** ** Ranges *)

(** What [push_range] needs of the elements of a range: they are written as
    strings, and [bulk_counter] counts them. *)
Class RangeElement (T : Type) `{AddBulk T} := {
  bulk_texts : T -> list bytes;
  add_bulk_texts p v : add_bulk p v = Done (p ++ concat (map encode (map r_bulk (bulk_texts v))));
  bulk_texts_count v : len (bulk_texts v) = bulk_counter;
  bulk_counter_small : bulk_counter <= 2;
}.

#[global] Program Instance generic_range {T} `{Bulk T} : RangeElement T := {|
  bulk_texts v := [bulk_text v];
|}.
Next Obligation. intros. cbn. by rewrite to_bulk_instance, app_nil_r. Qed.
Next Obligation. done. Qed.
Next Obligation. cbn. lia. Qed.

#[global] Program Instance pair_range {U V} `{Bulk U} `{Bulk V} : RangeElement (U * V) := {|
  bulk_texts v := [bulk_text v.1; bulk_text v.2];
|}.
Next Obligation.
  intros. cbn [add_bulk add_bulk_pair]. rewrite to_bulk_instance. cbn [mbind outcome_bind].
  rewrite to_bulk_instance. cbn [map concat]. by rewrite app_nil_r, <- app_assoc.
Qed.
Next Obligation. done. Qed.
Next Obligation. cbn. lia. Qed.

Section Range.
Context {T : Type} `{HA : AddBulk T} {HR : RangeElement T}.

Definition range_texts (range : list T) : list bytes := concat (map bulk_texts range).

Lemma add_range_encode p range :
  add_range p range = Done (p ++ concat (map encode (map r_bulk (range_texts range)))).
Proof.
  revert p. induction range as [|v range IH]; intros p; cbn [add_range].
  - cbn. by rewrite app_nil_r.
  - rewrite add_bulk_texts. cbn [mbind outcome_bind]. rewrite IH. unfold range_texts. cbn [map concat].
    by rewrite !map_app, concat_app, <- app_assoc.
Qed.

Lemma range_texts_count range : len (range_texts range) = bulk_counter * len range.
Proof.
  unfold range_texts. induction range as [|v range IH]; cbn [map concat]; [by rewrite N.mul_0_r|].
  rewrite len_app, bulk_texts_count, IH, len_cons. lia.
Qed.

Lemma range_count_small range n :
  2 * len range + n < size_modulus -> n +w bulk_counter *w len range = n + len (range_texts range).
Proof.
  intros H. pose proof bulk_counter_small. rewrite range_texts_count.
  rewrite (wmul_small bulk_counter) by nia. rewrite wadd_small by nia. done.
Qed.
End Range.

Lemma push_range_key_represents {T} `{HA : AddBulk T} {HR : RangeElement T} r cmds name key range :
  represents r cmds -> len cmds + 1 < size_modulus -> 2 * len range + 2 < size_modulus -> range <> [] ->
  exists r', push_range_key r name key range = Done r' /\
    represents r' (cmds ++ [name :: key :: range_texts range]).
Proof.
  intros Hr Hc Hl Hne. destruct range as [|v range]; [done|]. set (vs := v :: range) in *.
  pose proof (check_cmd_represents r cmds (name :: key :: range_texts vs) Hr ltac:(done) Hc) as H.
  rewrite wire_command, len_cons in H. cbn [map concat] in H.
  unfold push_range_key. rewrite add_header_array, range_count_small by lia.
  cbn [mbind outcome_bind add_bulk add_bulk_generic to_bulk string_bulk].
  rewrite to_bulk_encode. cbn [mbind outcome_bind]. rewrite to_bulk_encode. cbn [mbind outcome_bind].
  rewrite add_range_encode. cbn [mbind outcome_bind].
  eexists. split; [done|]. rewrite <- !app_assoc. by rewrite N.add_assoc in H.
Qed.

Lemma push_range_represents {T} `{HA : AddBulk T} {HR : RangeElement T} r cmds name range :
  represents r cmds -> len cmds + 1 < size_modulus -> 2 * len range + 2 < size_modulus -> range <> [] ->
  exists r', push_range r name range = Done r' /\
    represents r' (cmds ++ [name :: range_texts range]).
Proof.
  intros Hr Hc Hl Hne. destruct range as [|v range]; [done|]. set (vs := v :: range) in *.
  pose proof (check_cmd_represents r cmds (name :: range_texts vs) Hr ltac:(done) Hc) as H.
  rewrite wire_command in H. cbn [map concat] in H.
  unfold push_range. rewrite add_header_array, range_count_small by lia.
  cbn [mbind outcome_bind add_bulk add_bulk_generic to_bulk string_bulk].
  rewrite to_bulk_encode. cbn [mbind outcome_bind].
  rewrite add_range_encode. cbn [mbind outcome_bind].
  eexists. split; [done|]. by rewrite <- !app_assoc.
Qed.

(** ** Building and reading back *)

Lemma valid_command c :
  len c < size_modulus -> forallb blob_fits c = true ->
  valid (command_value c) = true /\ height (command_value c) <= max_embedded_depth.
Proof.
  intros Hl Hc. unfold max_embedded_depth. split.
  - cbn [valid command_value]. change (is_aggregate type.array) with true.
    change (element_multiplicity type.array) with 1.
    rewrite N.mod_1_r. unfold len in *. rewrite length_map. rewrite (proj2 (N.ltb_lt _ _) Hl). cbn [andb].
    change (0 =? 0) with true. cbn [andb].
    induction c as [|v c IH]; [done|]. cbn [map forallb] in *. apply andb_true_iff in Hc as [Hv Hc].
    rewrite IH; [|cbn [length] in Hl; lia|done]. rewrite andb_true_r. exact Hv.
  - assert (fold_right N.max 0 (map height (map r_bulk c)) = 0) as H.
    { clear. induction c as [|v c IH]; [done|]. cbn in *. by rewrite IH. }
    destruct c; cbn [command_value map height] in *; [lia|]. cbn [map] in H. rewrite H. lia.
Qed.

Lemma wire_parses cmds :
  Forall (fun c => len c < size_modulus /\ forallb blob_fits c = true) cmds ->
  len (wire cmds) < size_modulus ->
  parse_all (length cmds) (wire cmds) = Done (map (fun c => nodes 0 (command_value c)) cmds).
Proof.
  intros HF Hv. unfold wire in *. rewrite parse_all_encode; [by rewrite map_map|..|done|by rewrite length_map].
  apply Forall_map. eapply Forall_impl; [exact HF|]. intros c [? ?]. by apply valid_command.
Qed.

(** A sequence of calls of [push]. *)
Fixpoint push_all (r : request) (calls : list (bytes * list bulkable)) : outcome request :=
  match calls with
  | [] => Done r
  | (name, args) :: calls => r ← push r name args; push_all r calls
  end.

Definition call_texts (call : bytes * list bulkable) : list bytes := call.1 :: map bk_text call.2.

Lemma push_all_represents r cmds calls :
  represents r cmds -> len cmds + len calls < size_modulus ->
  Forall (fun call => len call.2 + 1 < size_modulus) calls ->
  exists r', push_all r calls = Done r' /\ represents r' (cmds ++ map call_texts calls) /\ cfg_ r' = cfg_ r.
Proof.
  revert r cmds. induction calls as [|[name args] calls IH]; intros r cmds Hr Hl HF; cbn [push_all map].
  - exists r. by rewrite app_nil_r.
  - rewrite len_cons in Hl. inversion HF as [|? ? Ha HF']; subst. cbn in Ha.
    destruct (push_represents r cmds name args Hr ltac:(lia) Ha) as (r1 & -> & H1 & Hc1).
    cbn [mbind outcome_bind].
    destruct (IH r1 _ H1) as (r' & -> & H' & Hc'); [rewrite len_app, len_cons, len_nil; lia|done|].
    exists r'. rewrite <- app_assoc in H'. by rewrite Hc', Hc1.
Qed.

(** ** What requests guarantee *)

(** C33: a request built by any sequence of calls of [push] holds exactly these
    commands: parsing its payload gives one array of blob strings per call,
    its name and arguments in order, and the counters are the number of
    commands, the number of those that are answered by a response, and whether
    a [HELLO] is among them and the configuration gives it priority. *)
Theorem request_roundtrip (cfg : request_config) (calls : list (bytes * list bulkable)) :
  len calls < size_modulus ->
  Forall (fun call => len (call_texts call) < size_modulus /\
                      forallb blob_fits (call_texts call) = true) calls ->
  len (wire (map call_texts calls)) < size_modulus ->
  exists r, push_all (new_request cfg) calls = Done r /\
    parse_all (length calls) (payload r)
      = Done (map (fun call => nodes 0 (command_value (call_texts call))) calls) /\
    get_commands r = len calls /\
    get_expected_responses r
      = len (List.filter (fun call => negb (has_response call.1)) calls) /\
    has_hello_priority r
      = existsb (fun call => bool_decide (call.1 = bs "HELLO")) calls && hello_with_priority cfg.
Proof.
  intros Hl HF Hv.
  destruct (push_all_represents (new_request cfg) [] calls) as (r & -> & [Hp Hc He Hh] & Hcfg);
    [done|done| |].
  { eapply Forall_impl; [exact HF|]. intros [n a] [Hn _]. unfold call_texts in Hn. cbn [fst snd] in *.
    rewrite len_cons in Hn. unfold len in Hn. rewrite length_map in Hn. unfold len. lia. }
  exists r. cbn [app] in *. split; [done|]. split; [|split; [|split]].
  - unfold payload. rewrite Hp. rewrite <- (length_map call_texts calls), wire_parses; [by rewrite map_map|..|done].
    by apply Forall_map.
  - unfold get_commands. rewrite Hc. unfold len. by rewrite length_map.
  - unfold get_expected_responses. rewrite He. clear. unfold len. f_equal.
    induction calls as [|[n a] calls IH]; [done|]. cbn.
    change (responds _) with (negb (has_response n)). destruct (negb _); cbn; by rewrite IH.
  - unfold has_hello_priority. rewrite Hh, Hcfg. f_equal. clear.
    induction calls as [|[n a] calls IH]; [done|]. cbn [map existsb]. by rewrite IH.
Qed.

Definition sample_calls : list (bytes * list bulkable) :=
  [ (bs "HELLO", [Bulkable 3%Z]); (bs "SET", [Bulkable (bs "k"); Bulkable (-7)%Z]);
    (bs "SUBSCRIBE", [Bulkable (bs "ch")]) ].

Lemma request_roundtrip_witness :
  exists r, push_all (new_request default_request_config) sample_calls = Done r /\
    parse_all 3 (payload r)
      = Done (map (fun call => nodes 0 (command_value (call_texts call))) sample_calls) /\
    get_commands r = 3 /\ get_expected_responses r = 2 /\ has_hello_priority r = true.
Proof.
  apply (request_roundtrip default_request_config sample_calls); [by vm_compute| |by vm_compute].
  repeat constructor.
Defined.

(** [push_range] appends nothing for an empty range, and otherwise exactly
    one command: the name, the key when there is one, and the strings of the
    elements, with a header that counts them all, for ranges of strings,
    integers and pairs of these. *)
Theorem push_range_builds_command {T} `{HA : AddBulk T} {HR : RangeElement T}
    (r : request) (cmds : list (list bytes)) (name key : bytes) (range : list T) :
  represents r cmds -> len cmds + 1 < size_modulus -> 2 * len range + 2 < size_modulus ->
  (range = [] -> push_range_key r name key range = Done r /\ push_range r name range = Done r) /\
  (range <> [] ->
   (exists r', push_range_key r name key range = Done r' /\
      represents r' (cmds ++ [name :: key :: range_texts range])) /\
   (exists r', push_range r name range = Done r' /\
      represents r' (cmds ++ [name :: range_texts range]))).
Proof.
  intros Hr Hc Hl. split; [by intros ->|].
  intros Hne. split; [by apply push_range_key_represents|by apply push_range_represents].
Qed.

Lemma push_range_builds_command_witness :
  exists r', push_range_key (new_request default_request_config) (bs "HSET") (bs "key")
      [(bs "f1", 1%Z); (bs "f2", 2%Z)] = Done r' /\
    represents r' [[bs "HSET"; bs "key"; bs "f1"; bs "1"; bs "f2"; bs "2"]].
Proof.
  destruct (push_range_builds_command (new_request default_request_config) [] (bs "HSET") (bs "key")
    [(bs "f1", 1%Z); (bs "f2", 2%Z)]) as [_ H]; [by vm_compute..|].
  destruct H as [H _]; [done|exact H].
Defined.

(** a range of tuples is written with a wrong header, because
    [bulk_counter] counts one bulk per tuple: for one pair written as a tuple
    the header announces two elements where three follow. *)
Theorem push_range_tuple_header (name a b : bytes) :
  exists r, push_range (new_request default_request_config) name [[Bulkable a; Bulkable b]] = Done r /\
    payload r = line "*" (bs "2") ++ encode (r_bulk name) ++ encode (r_bulk a) ++ encode (r_bulk b).
Proof.
  eexists. split.
  - unfold push_range. rewrite add_header_array. cbn [mbind outcome_bind].
    cbn [add_bulk add_bulk_generic to_bulk string_bulk]. rewrite to_bulk_encode. cbn [mbind outcome_bind].
    cbn [add_range add_bulk add_bulk_tuple]. rewrite add_bulk_elements_encode. cbn [mbind outcome_bind]. done.
  - cbn [payload check_cmd with_payload payload_ new_request map concat]. rewrite <- !app_assoc.
    cbn [app]. by rewrite app_nil_r.
Qed.
