(* ===== verification/Adapters.v ===== *)
(** * Adapters

    [adapter/detail/adapters.hpp]: conversion of node values to C++ values, one
    implementation class per kind of container, and the wrappers that handle
    RESP3 errors and nulls.  Template specialisation is instance resolution. *)

From stdpp Require Import gmap gmultiset.
From S2P Require Import Prelude Charconv Types Parser.

(** ** [adapter::result] *)

(** [system::result<T, adapter::error>]. *)
Inductive result (T : Type) :=
  | r_value (v : T)
  | r_error (e : adapter_error).
Arguments r_value {T} v.
Arguments r_error {T} e.

Definition result_has_error {T} (r : result T) : bool :=
  match r with r_error _ => true | r_value _ => false end.
Definition result_has_value {T} (r : result T) : bool := negb (result_has_error r).

(** [r.value()]: throws through [throw_exception_from_error] when there is an
    error. *)
Definition result_value {T} (r : result T) : outcome T :=
  match r with
  | r_value v => Done v
  | r_error e => _ ← throw_exception_from_error e; Throw bad_result_access
  end.

Definition error_of (nd : node) : adapter_error := mk_adapter_error (data_type nd) (value nd).

(** ** [converter] and [boost_redis_from_bulk] *)

(** [converter<T>::apply]: [convert t nd ec] are the new values of [t] and [ec];
    [value_init] is [T{}] and [default_init] what [T obj;] declares, which for an
    arithmetic type is an indeterminate value. *)
Class Converter (T : Type) := {
  value_init : T;
  default_init : T;
  convert : T -> node -> error_code -> outcome (T * error_code);
}.
#[global] Hint Mode Converter ! : typeclass_instances.

(** [boost_redis_from_bulk].  User types take part through their own overload,
    an instance of this class. *)
Class FromBulk (T : Type) := {
  bulk_value_init : T;
  bulk_default_init : T;
  from_bulk : T -> node -> error_code -> outcome (T * error_code);
}.
#[global] Hint Mode FromBulk ! : typeclass_instances.

(** [from_bulk_impl<T>]. *)
#[global] Instance converter_from_bulk {T} `{Converter T} : FromBulk T | 50 := {|
  bulk_value_init := value_init;
  bulk_default_init := default_init;
  from_bulk := convert;
|}.

(** [from_bulk_impl<std::optional<T>>]. *)
#[global] Instance optional_from_bulk {T} `{Converter T} : FromBulk (option T) := {|
  bulk_value_init := None;
  bulk_default_init := None;
  from_bulk op nd ec :=
    if negb (type.eqb (data_type nd) type.null) then
      '(v, ec) ← convert value_init nd ec; Done (Some v, ec)
    else Done (op, ec);
|}.

(** The value of an uninitialised arithmetic object. *)
Class Indeterminate := { indeterminate : Z }.

(** [converter<T, true>], integral types other than [bool] and characters,
    given by their range; unsigned types do not accept a minus sign. *)
Definition convert_integral (lo hi : Z) (i : Z) (nd : node) (ec : error_code)
    : outcome (Z * error_code) :=
  let res := if (lo <? 0)%Z then from_chars_signed lo hi (value nd)
             else match from_chars_unsigned (Z.to_N hi) (value nd) with
                  | fc_ok n => fc_ok (Z.of_N n)
                  | fc_invalid_argument => fc_invalid_argument
                  | fc_result_out_of_range => fc_result_out_of_range
                  end in
  match res with
  | fc_ok z => Done (z, ec)
  | _ => Done (i, make_error_code error.not_a_number)
  end.

(** An integral type. *)
Record int_type (lo hi : Z) := Int { int_value : Z }.
Arguments Int {lo hi} int_value.
Arguments int_value {lo hi} _.

#[global] Instance integral_converter lo hi `{Indeterminate} : Converter (int_type lo hi) := {|
  value_init := Int 0;
  default_init := Int indeterminate;
  convert i nd ec :=
    '(z, ec) ← convert_integral lo hi (int_value i) nd ec; Done (Int z, ec);
|}.

Abbreviation int32_t := (int_type (-2147483648) 2147483647).
Abbreviation int64_t := (int_type (-9223372036854775808) 9223372036854775807).
Abbreviation uint64_t := (int_type 0 18446744073709551615).

(** [converter<bool, false>]: [*node.value.data()] reads outside of an empty
    view. *)
#[global] Instance bool_converter : Converter bool := {|
  value_init := false;
  default_init := false;
  convert _ nd ec :=
    match value nd with
    | c :: _ => Done (Ascii.eqb c "t"%char, ec)
    | [] => Fault out_of_bounds
    end;
|}.

(** [converter<double, false>]: [std::from_chars] into a [double] is a
    parameter. *)
Class DoubleChars := {
  double : Type;
  double_zero : double;
  double_indeterminate : double;
  from_chars_double : bytes -> from_chars_result double;
}.

#[global] Instance double_converter `{DoubleChars} : Converter double := {|
  value_init := double_zero;
  default_init := double_indeterminate;
  convert d nd ec :=
    match from_chars_double (value nd) with
    | fc_ok x => Done (x, ec)
    | _ => Done (d, make_error_code error.not_a_double)
    end;
|}.

(** [converter<std::basic_string, false>]. *)
#[global] Instance string_converter : Converter bytes := {|
  value_init := [];
  default_init := [];
  convert s nd ec := Done (s ++ value nd, ec);
|}.

(** ** Generic adapters *)

Definition is_error_type (t : type.t) : bool :=
  match t with type.blob_error | type.simple_error => true | _ => false end.

(** [general_aggregate::operator()], the adapter of [generic_response]. *)
Definition general_aggregate (r : result (list node)) (nd : node) (ec : error_code)
    : outcome (result (list node) * error_code) :=
  match data_type nd with
  | type.blob_error | type.simple_error => Done (r_error (error_of nd), ec)
  | _ =>
      v ← result_value r;
      Done (r_value (v ++ [mk_node (data_type nd) (aggregate_size nd) (depth nd) (value nd)]), ec)
  end.

(** [general_simple::operator()]. *)
Definition general_simple (r : result node) (nd : node) (ec : error_code)
    : outcome (result node * error_code) :=
  match data_type nd with
  | type.blob_error | type.simple_error => Done (r_error (error_of nd), ec)
  | _ =>
      _ ← result_value r;
      Done (r_value (mk_node (data_type nd) (aggregate_size nd) (depth nd) (value nd)), ec)
  end.

(** ** Implementation classes

    [impl_map<T>::type]: its state, [on_value_available], and its call
    operator on the result. *)
Class Impl (R : Type) := {
  impl_state : Type;
  impl_init : impl_state;
  impl_default : R;
  on_value_available : impl_state -> R -> impl_state;
  impl_call : impl_state -> R -> node -> error_code -> outcome (impl_state * R * error_code);
}.

(** [simple_impl]. *)
Definition simple_impl {T} `{FromBulk T} (r : T) (nd : node) (ec : error_code)
    : outcome (T * error_code) :=
  if is_aggregate (data_type nd) then
    Done (r, make_error_code error.expects_resp3_simple_type)
  else from_bulk r nd ec.

#[global] Instance impl_simple {T} `{FromBulk T} : Impl T | 100 := {|
  impl_state := unit;
  impl_init := tt;
  impl_default := bulk_value_init;
  on_value_available s _ := s;
  impl_call s r nd ec := '(r, ec) ← simple_impl r nd ec; Done (s, r, ec);
|}.

(** [std::set], [std::multiset] and their unordered variants.  The hint given
    to [insert] is a position where the search starts and does not change
    what is inserted. *)
Class SetContainer (R K : Type) := {
  set_empty : R;
  set_insert : R -> K -> R;
}.

#[global] Instance std_set K `{Countable K} : SetContainer (gset K) K := {|
  set_empty := ∅;
  set_insert r k := {[ k ]} ∪ r;
|}.

#[global] Instance std_multiset K `{Countable K} : SetContainer (gmultiset K) K := {|
  set_empty := ∅;
  set_insert r k := {[+ k +]} ⊎ r;
|}.

(** [set_impl]. *)
Definition set_impl {R K} `{SetContainer R K} `{FromBulk K} (r : R) (nd : node) (ec : error_code)
    : outcome (R * error_code) :=
  if is_aggregate (data_type nd) then
    if negb (type.eqb (data_type nd) type.set) then
      Done (r, make_error_code error.expects_resp3_set)
    else Done (r, ec)
  else
    _ ← boost_assert (aggregate_size nd =? 1);
    if depth nd <? 1 then Done (r, make_error_code error.expects_resp3_set)
    else
      '(obj, ec) ← from_bulk (T := K) bulk_default_init nd ec;
      Done (set_insert r obj, ec).

#[global] Instance impl_set K `{Countable K} `{FromBulk K} : Impl (gset K) | 10 := {|
  impl_state := unit;
  impl_init := tt;
  impl_default := (set_empty (K := K) : gset K);
  on_value_available s _ := s;
  impl_call s r nd ec := '(r, ec) ← set_impl (K := K) r nd ec; Done (s, r, ec);
|}.

#[global] Instance impl_multiset K `{Countable K} `{FromBulk K} : Impl (gmultiset K) | 10 := {|
  impl_state := unit;
  impl_init := tt;
  impl_default := (set_empty (K := K) : gmultiset K);
  on_value_available s _ := s;
  impl_call s r nd ec := '(r, ec) ← set_impl (K := K) r nd ec; Done (s, r, ec);
|}.

(** [std::map], [std::multimap] and their unordered variants: [insert] returns
    the position of the element, through which its value is assigned later.
    In a map, an existing key keeps its element. *)
Class MapContainer (R K V : Type) := {
  map_iter : Type;
  map_none : R;
  map_insert_pos : R -> K -> V -> R * map_iter;
  map_assign : R -> map_iter -> V -> R;
}.

#[global] Instance std_map K V `{Countable K} : MapContainer (gmap K V) K V := {|
  map_iter := K;
  map_none := ∅;
  map_insert_pos r k v := (match r !! k with Some _ => r | None => <[k := v]> r end, k);
  map_assign r k v := <[k := v]> r;
|}.

(** A multimap as the list of its elements in order of insertion. *)
#[global] Instance std_multimap K V : MapContainer (list (K * V)) K V := {|
  map_iter := nat;
  map_none := [];
  map_insert_pos r k v := (r ++ [(k, v)], length r);
  map_assign r i v := alter (fun kv => (kv.1, v)) i r;
|}.

(** [map_impl]: [current_] is the position of the last key, [None] standing for
    [end()], and [on_key_] tells whether a key comes next. *)
Record map_state (I : Type) := mk_map_state { current_ : option I; on_key_ : bool }.
Arguments mk_map_state {I} _ _.
Arguments current_ {I} _.
Arguments on_key_ {I} _.

Definition map_impl {R K V} `{MapContainer R K V} `{FromBulk K} `{FromBulk V}
    (s : map_state map_iter) (r : R) (nd : node) (ec : error_code)
    : outcome (map_state map_iter * R * error_code) :=
  if is_aggregate (data_type nd) then
    if negb (element_multiplicity (data_type nd) =? 2) then
      Done (s, r, make_error_code error.expects_resp3_map)
    else Done (s, r, ec)
  else
    _ ← boost_assert (aggregate_size nd =? 1);
    if depth nd <? 1 then Done (s, r, make_error_code error.expects_resp3_map)
    else if on_key_ s then
      '(obj, ec) ← from_bulk (T := K) bulk_default_init nd ec;
      let '(r, pos) := map_insert_pos r obj (bulk_value_init (T := V)) in
      Done (mk_map_state (Some pos) (negb (on_key_ s)), r, ec)
    else
      '(obj, ec) ← from_bulk (T := V) bulk_default_init nd ec;
      match current_ s with
      | Some pos => Done (mk_map_state (current_ s) (negb (on_key_ s)), map_assign r pos obj, ec)
      | None => Fault out_of_bounds
      end.

#[global] Instance impl_map K V `{Countable K} `{FromBulk K} `{FromBulk V} : Impl (gmap K V) | 10 := {|
  impl_state := map_state K;
  impl_init := mk_map_state None true;
  impl_default := (∅ : gmap K V);
  on_value_available s _ := mk_map_state None (on_key_ s);
  impl_call s r nd ec := map_impl (R := gmap K V) (K := K) (V := V) s r nd ec;
|}.

(** The result type of a multimap, apart from vectors. *)
Record multimap (K V : Type) := Multimap { mm_elements : list (K * V) }.
Arguments Multimap {K V} _.
Arguments mm_elements {K V} _.

#[global] Instance impl_multimap K V `{FromBulk K} `{FromBulk V} : Impl (multimap K V) | 10 := {|
  impl_state := map_state nat;
  impl_init := mk_map_state None true;
  impl_default := Multimap [];
  on_value_available s _ := mk_map_state None (on_key_ s);
  impl_call s r nd ec :=
    '(s, r, ec) ← map_impl (R := list (K * V)) (K := K) (V := V) s (mm_elements r) nd ec; Done (s, Multimap r, ec);
|}.

(** ** Sequences *)

(** [std::vector<T>] whose [max_size()] is [n]. *)
Record vector (n : size_t) (T : Type) := Vector { vec : list T }.
Arguments Vector {n T} vec.
Arguments vec {n T} _.

(** [v.reserve(k)] throws [std::length_error] past [max_size()]. *)
Definition vector_reserve (n k : size_t) : outcome unit :=
  if k <=? n then Done tt else Throw std_length_error.

(** [vector_impl]. *)
Definition vector_impl {T} `{FromBulk T} (n : size_t) (r : list T) (nd : node) (ec : error_code)
    : outcome (list T * error_code) :=
  if is_aggregate (data_type nd) then
    let m := element_multiplicity (data_type nd) in
    _ ← vector_reserve n (len r +w m *w aggregate_size nd);
    Done (r, ec)
  else
    '(x, ec) ← from_bulk (T := T) bulk_value_init nd ec;
    Done (r ++ [x], ec).

#[global] Instance impl_vector n T `{FromBulk T} : Impl (vector n T) | 10 := {|
  impl_state := unit;
  impl_init := tt;
  impl_default := Vector [];
  on_value_available s _ := s;
  impl_call s r nd ec := '(r, ec) ← vector_impl n (vec r) nd ec; Done (s, Vector r, ec);
|}.

(** [std::array<T, n>], and its checked access. *)
Record array (n : nat) (T : Type) := Array { arr : list T }.
Arguments Array {n T} arr.
Arguments arr {n T} _.

Definition array_at {T} (r : list T) (i : Z) : outcome T :=
  if (i <? 0)%Z then Throw std_out_of_range
  else match r !! Z.to_nat i with Some x => Done x | None => Throw std_out_of_range end.

(** [array_impl], with its index [i_]. *)
Definition array_impl {T} `{FromBulk T} (i : Z) (r : list T) (nd : node) (ec : error_code)
    : outcome (Z * list T * error_code) :=
  if is_aggregate (data_type nd) then
    if negb (i =? -1)%Z then Done (i, r, make_error_code error.nested_aggregate_not_supported)
    else if negb (len r =? aggregate_size nd *w element_multiplicity (data_type nd)) then
      Done (i, r, make_error_code error.incompatible_size)
    else Done ((i + 1)%Z, r, ec)
  else
    if (i =? -1)%Z then Done (i, r, make_error_code error.expects_resp3_aggregate)
    else
      _ ← boost_assert (aggregate_size nd =? 1);
      x ← array_at r i;
      '(x, ec) ← from_bulk x nd ec;
      Done ((i + 1)%Z, <[Z.to_nat i := x]> r, ec).

#[global] Instance impl_array n T `{FromBulk T} : Impl (array n T) | 10 := {|
  impl_state := Z;
  impl_init := (-1)%Z;
  impl_default := Array (replicate n bulk_value_init);
  on_value_available s _ := s;
  impl_call s r nd ec :=
    '(s, r, ec) ← array_impl s (arr r) nd ec; Done (s, Array r, ec);
|}.

(** [std::list<T>] and [std::deque<T>]. *)
Record sequence (T : Type) := Sequence { elems : list T }.
Arguments Sequence {T} elems.
Arguments elems {T} _.

(** [list_impl]. *)
Definition list_impl {T} `{FromBulk T} (r : list T) (nd : node) (ec : error_code)
    : outcome (list T * error_code) :=
  if negb (is_aggregate (data_type nd)) then
    _ ← boost_assert (aggregate_size nd =? 1);
    if depth nd <? 1 then Done (r, make_error_code error.expects_resp3_aggregate)
    else
      '(x, ec) ← from_bulk (T := T) bulk_value_init nd ec;
      Done (r ++ [x], ec)
  else Done (r, ec).

#[global] Instance impl_list T `{FromBulk T} : Impl (sequence T) | 10 := {|
  impl_state := unit;
  impl_init := tt;
  impl_default := Sequence [];
  on_value_available s _ := s;
  impl_call s r nd ec := '(r, ec) ← list_impl (elems r) nd ec; Done (s, Sequence r, ec);
|}.

(** ** Wrappers *)

(** [wrapper<result<T>>], with the result it points to. *)
Record wrapper (T : Type) `{Impl T} := mk_wrapper {
  result_ : result T;
  impl_ : impl_state;
  called_once_ : bool;
}.
Arguments mk_wrapper {T _} _ _ _.
Arguments result_ {T _} _.
Arguments impl_ {T _} _.
Arguments called_once_ {T _} _.

(** The constructor: [result_->value() = T{}], which throws if the result
    holds an error. *)
Definition new_wrapper {T} `{Impl T} (r : result T) : outcome (wrapper T) :=
  _ ← result_value r;
  Done (mk_wrapper (r_value impl_default) (on_value_available impl_init impl_default) false).

Definition is_resp3_error (t : type.t) : bool :=
  match t with
  | type.null | type.simple_error | type.blob_error => true
  | _ => false
  end.

(** [wrapper<result<T>>::operator()]. *)
Definition wrapper_call {T} `{Impl T} (w : wrapper T) (nd : node) (ec : error_code)
    : outcome (wrapper T * error_code) :=
  if result_has_error (result_ w) then Done (w, ec)
  else
    let first := negb (called_once_ w) in
    let w := mk_wrapper (result_ w) (impl_ w) true in
    if first && is_resp3_error (data_type nd) then
      Done (mk_wrapper (r_error (error_of nd)) (impl_ w) true, ec)
    else
      v ← result_value (result_ w);
      '(s, v, ec) ← impl_call (impl_ w) v nd ec;
      Done (mk_wrapper (r_value v) s true, ec).

(** [wrapper<result<std::optional<T>>>]. *)
Record optional_wrapper (T : Type) `{Impl T} := mk_optional_wrapper {
  o_result_ : result (option T);
  o_impl_ : impl_state;
  o_called_once_ : bool;
}.
Arguments mk_optional_wrapper {T _} _ _ _.
Arguments o_result_ {T _} _.
Arguments o_impl_ {T _} _.
Arguments o_called_once_ {T _} _.

Definition new_optional_wrapper {T} `{Impl T} (r : result (option T)) : optional_wrapper T :=
  mk_optional_wrapper r impl_init false.

Definition optional_wrapper_call {T} `{Impl T} (w : optional_wrapper T) (nd : node) (ec : error_code)
    : outcome (optional_wrapper T * error_code) :=
  if result_has_error (o_result_ w) then Done (w, ec)
  else if is_error_type (data_type nd) then
    Done (mk_optional_wrapper (r_error (error_of nd)) (o_impl_ w) (o_called_once_ w), ec)
  else
    let first := negb (o_called_once_ w) in
    if first && type.eqb (data_type nd) type.null then
      Done (mk_optional_wrapper (o_result_ w) (o_impl_ w) true, ec)
    else
      o ← result_value (o_result_ w);
      let '(s, v) := match o with
                     | Some v => (o_impl_ w, v)
                     | None => (on_value_available (o_impl_ w) impl_default, impl_default)
                     end in
      '(s, v, ec) ← impl_call s v nd ec;
      Done (mk_optional_wrapper (r_value (Some v)) s true, ec).
