(* ===== verification/Traits.v ===== *)
(** * Traits

    [adapter/detail/result_traits.hpp], [adapter/detail/response_traits.hpp],
    [adapter/ignore.hpp], [adapter/adapt.hpp] and [adapter/any_adapter.hpp]: the
    adapter of a response object.  An adapter keeps a pointer to the object it
    fills; here it carries the object, and [contents] reads it back. *)

From stdpp Require Import gmap.
From S2P Require Import Prelude Charconv Types Parser Adapters.

(** ** Ignoring a response *)

(** [ignore_t]. *)
Inductive ignore_t := ignore_value.

(** [adapter::ignore::operator()]. *)
Definition ignore (nd : node) (ec : error_code) : error_code :=
  match data_type nd with
  | type.simple_error => make_error_code error.resp3_simple_error
  | type.blob_error => make_error_code error.resp3_blob_error
  | type.null => make_error_code error.resp3_null
  | _ => ec
  end.

(** [detail::ignore_adapter::operator()]. *)
Definition ignore_adapter (i : size_t) (nd : node) (ec : error_code) : error_code :=
  match data_type nd with
  | type.simple_error => make_error_code error.resp3_simple_error
  | type.blob_error => make_error_code error.resp3_blob_error
  | type.null => make_error_code error.resp3_null
  | _ => ec
  end.

(** ** [result_traits]: one element of a response *)

Class ResultTraits (R : Type) := {
  adapter_type : Type;
  (** the constructor of the adapter, which may throw *)
  adapter_new : R -> outcome adapter_type;
  adapter_call : adapter_type -> node -> error_code -> outcome (adapter_type * error_code);
  contents : adapter_type -> R;
}.
#[global] Hint Mode ResultTraits ! : typeclass_instances.

(** [internal_adapt], and the [adapt] of every traits class, are [noexcept]. *)
Definition internal_adapt {R} `{ResultTraits R} (r : R) : outcome (adapter_type (R := R)) :=
  noexcept (adapter_new r).

#[global] Instance result_traits_wrapper T `{Impl T} : ResultTraits (result T) | 100 := {|
  adapter_type := wrapper T;
  adapter_new r := new_wrapper r;
  adapter_call := wrapper_call;
  contents a := result_ a;
|}.

#[global] Instance result_traits_optional T `{Impl T} : ResultTraits (result (option T)) | 10 := {|
  adapter_type := optional_wrapper T;
  adapter_new r := Done (new_optional_wrapper r);
  adapter_call := optional_wrapper_call;
  contents a := o_result_ a;
|}.

#[global] Instance result_traits_result_ignore : ResultTraits (result ignore_t) | 1 := {|
  adapter_type := result ignore_t;
  adapter_new r := Done r;
  adapter_call r nd ec := Done (r, ignore nd ec);
  contents r := r;
|}.

#[global] Instance result_traits_ignore : ResultTraits ignore_t := {|
  adapter_type := ignore_t;
  adapter_new r := Done r;
  adapter_call r nd ec := Done (r, ignore nd ec);
  contents r := r;
|}.

#[global] Instance result_traits_node : ResultTraits (result node) | 1 := {|
  adapter_type := result node;
  adapter_new r := Done r;
  adapter_call := general_simple;
  contents r := r;
|}.

#[global] Instance result_traits_nodes : ResultTraits (result (list node)) | 1 := {|
  adapter_type := result (list node);
  adapter_new r := Done r;
  adapter_call := general_aggregate;
  contents r := r;
|}.

(** ** Arrays of adapters *)

(** A [std::tuple<R1, ..., Rn>] is [R1 * (... * (Rn * unit))]; its adapters are
    the array of variants whose [i]-th entry holds the alternative [i]. *)
Class TupleTraits (Rs : Type) := {
  tuple_size : nat;
  adapters_array_type : Type;
  (** [assigner::assign], from the last element to the first *)
  assign : Rs -> outcome adapters_array_type;
  (** [visit] on the entry [i], [None] past the end *)
  visit : nat -> adapters_array_type -> node -> error_code ->
          option (outcome (adapters_array_type * error_code));
  tuple_contents : adapters_array_type -> Rs;
}.
#[global] Hint Mode TupleTraits ! : typeclass_instances.

#[global] Instance tuple_traits_nil : TupleTraits unit := {|
  tuple_size := 0;
  adapters_array_type := unit;
  assign _ := Done tt;
  visit _ _ _ _ := None;
  tuple_contents a := a;
|}.

#[global] Instance tuple_traits_cons R Rs `{ResultTraits R} `{TupleTraits Rs}
    : TupleTraits (R * Rs) := {|
  tuple_size := S (tuple_size (Rs := Rs));
  adapters_array_type := adapter_type (R := R) * adapters_array_type (Rs := Rs);
  assign rs :=
    rest ← assign rs.2;
    a ← internal_adapt rs.1;
    Done (a, rest);
  visit i ads nd ec :=
    match i with
    | O => Some ('(a, ec) ← adapter_call (R := R) ads.1 nd ec; Done ((a, ads.2), ec))
    | S i =>
        match visit (Rs := Rs) i ads.2 nd ec with
        | Some m => Some ('(rest, ec) ← m; Done ((ads.1, rest), ec))
        | None => None
        end
    end;
  tuple_contents ads := (contents ads.1, tuple_contents ads.2);
|}.

(** ** Tuples inside a response *)

Record tuple (Rs : Type) := Tuple { tup : Rs }.
Arguments Tuple {Rs} tup.
Arguments tup {Rs} _.

(** [static_aggregate_adapter<result<Tuple>>]. *)
Record static_aggregate_adapter (Rs : Type) `{TupleTraits Rs} := mk_static_aggregate {
  i_ : size_t;
  aggregate_size_ : size_t;
  adapters_ : adapters_array_type (Rs := Rs);
}.
Arguments mk_static_aggregate {Rs _} _ _ _.
Arguments i_ {Rs _} _.
Arguments aggregate_size_ {Rs _} _.
Arguments adapters_ {Rs _} _.

Definition new_static_aggregate {Rs} `{TupleTraits Rs} (r : result (tuple Rs))
    : outcome (static_aggregate_adapter Rs) :=
  v ← result_value r;
  ads ← assign (tup v);
  Done (mk_static_aggregate 0 0 ads).

(** [count], on [i_] and [aggregate_size_]. *)
Definition count (i aggregate_size : size_t) (elem : node) : size_t * size_t :=
  let aggregate_size :=
    if (depth elem =? 1) && is_aggregate (data_type elem)
    then element_multiplicity (data_type elem) *w Types.aggregate_size elem
    else aggregate_size in
  if aggregate_size =? 0 then (i +w 1, aggregate_size)
  else (i, aggregate_size -w 1).

(** [static_aggregate_adapter::operator()]: [adapters_[i_]] is not checked. *)
Definition static_aggregate_call {Rs} `{TupleTraits Rs} (a : static_aggregate_adapter Rs)
    (elem : node) (ec : error_code) : outcome (static_aggregate_adapter Rs * error_code) :=
  if depth elem =? 0 then
    let multiplicity := element_multiplicity (data_type elem) in
    let real_aggr_size := Types.aggregate_size elem *w multiplicity in
    if negb (real_aggr_size =? N.of_nat (tuple_size (Rs := Rs)))
    then Done (a, make_error_code error.incompatible_size)
    else Done (a, ec)
  else
    match visit (N.to_nat (i_ a)) (adapters_ a) elem ec with
    | None => Fault out_of_bounds
    | Some m =>
        '(ads, ec) ← m;
        let '(i, n) := count (i_ a) (aggregate_size_ a) elem in
        Done (mk_static_aggregate i n ads, ec)
    end.

#[global] Instance result_traits_tuple Rs `{TupleTraits Rs} : ResultTraits (result (tuple Rs)) | 1 := {|
  adapter_type := static_aggregate_adapter Rs;
  adapter_new r := new_static_aggregate r;
  adapter_call := static_aggregate_call;
  contents a := r_value (Tuple (tuple_contents (adapters_ a)));
|}.

(** ** [response_traits]: a whole response *)

(** [static_cast<std::size_t>(-1)]. *)
Definition any_size : size_t := 0 -w 1.

(** An adapter refers to the response object and carries its value here.  Code
    that holds another reference to a [generic_response] reads and writes it
    through [response_object] and [response_assign]. *)
Class ResponseTraits (R : Type) := {
  response_adapter : Type;
  response_new : R -> outcome response_adapter;
  response_call : response_adapter -> size_t -> node -> error_code ->
                  outcome (response_adapter * error_code);
  get_supported_response_size : size_t;
  response_contents : response_adapter -> R;
  response_object : response_adapter -> option (result (list node));
  response_assign : result (list node) -> response_adapter -> response_adapter;
}.
#[global] Hint Mode ResponseTraits ! : typeclass_instances.

#[global] Instance response_traits_ignore : ResponseTraits ignore_t := {|
  response_adapter := ignore_t;
  response_new r := Done r;
  response_call r i nd ec := Done (r, ignore_adapter i nd ec);
  get_supported_response_size := any_size;
  response_contents r := r;
  response_object _ := None;
  response_assign _ r := r;
|}.

#[global] Instance response_traits_result_ignore : ResponseTraits (result ignore_t) := {|
  response_adapter := result ignore_t;
  response_new r := Done r;
  response_call r i nd ec := Done (r, ignore_adapter i nd ec);
  get_supported_response_size := any_size;
  response_contents r := r;
  response_object _ := None;
  response_assign _ r := r;
|}.

(** [generic_response], adapted by [vector_adapter]. *)
Definition generic_response : Type := result (list node).

Definition vector_adapter (r : generic_response) (i : size_t) (nd : node) (ec : error_code)
    : outcome (generic_response * error_code) :=
  general_aggregate r nd ec.

#[global] Instance response_traits_generic : ResponseTraits generic_response := {|
  response_adapter := generic_response;
  response_new r := internal_adapt (R := result (list node)) r;
  response_call := vector_adapter;
  get_supported_response_size := any_size;
  response_contents r := r;
  response_object r := Some r;
  response_assign r _ := r;
|}.

(** [response<Ts...>], adapted by [static_adapter]. *)
Record response (Rs : Type) := Response { results : Rs }.
Arguments Response {Rs} results.
Arguments results {Rs} _.

Definition static_adapter {Rs} `{TupleTraits Rs} (ads : adapters_array_type (Rs := Rs))
    (i : size_t) (nd : node) (ec : error_code)
    : outcome (adapters_array_type (Rs := Rs) * error_code) :=
  _ ← boost_assert (i <? N.of_nat (tuple_size (Rs := Rs)));
  match visit (N.to_nat i) ads nd ec with
  | Some m => m
  | None => Throw std_out_of_range
  end.

#[global] Instance response_traits_response Rs `{TupleTraits Rs} : ResponseTraits (response Rs) := {|
  response_adapter := adapters_array_type (Rs := Rs);
  response_new r := assign (results r);
  response_call := static_adapter;
  get_supported_response_size := N.of_nat (tuple_size (Rs := Rs));
  response_contents ads := Response (tuple_contents ads);
  response_object _ := None;
  response_assign _ ads := ads;
|}.

(** [boost_redis_adapt]. *)
Definition boost_redis_adapt {R} `{ResponseTraits R} (r : R) : outcome (response_adapter (R := R)) :=
  noexcept (response_new r).

(** [adapt2]. *)
Definition adapt2 {R} `{ResultTraits R} (r : R) : outcome (adapter_type (R := R)) :=
  noexcept (adapter_new r).

(** [wrapper::operator()] of [make_adapter_wrapper]. *)
Definition adapter_wrapper {R} `{ResponseTraits R} (a : response_adapter (R := R))
    (nd : node) (ec : error_code) : outcome (response_adapter (R := R) * error_code) :=
  response_call a 0 nd ec.

(** [any_adapter]: the call operator behind a [std::function], with its state. *)
Record any_adapter := mk_any_adapter {
  any_state : Type;
  state_ : any_state;
  adapt_fn : any_state -> size_t -> node -> error_code -> outcome (any_state * error_code);
  supported_response_size : size_t;
  object_ : any_state -> option generic_response;
  assign_ : generic_response -> any_state -> any_state;
}.

(** [any_adapter::create_impl]. *)
Definition create_impl {R} `{ResponseTraits R} (resp : R) : outcome any_adapter :=
  adapter ← boost_redis_adapt (R := R) resp;
  Done (mk_any_adapter (response_adapter (R := R)) adapter response_call (get_supported_response_size (R := R))
    response_object response_assign).

(** The response object of an adapter, and an assignment to it. *)
Definition any_object (a : any_adapter) : option generic_response := object_ a (state_ a).
Definition any_assign (r : generic_response) (a : any_adapter) : any_adapter :=
  mk_any_adapter (any_state a) (assign_ a r (state_ a)) (adapt_fn a) (supported_response_size a) (object_ a) (assign_ a).

Lemma create_impl_generic (r : generic_response) :
  create_impl r = Done (mk_any_adapter generic_response r vector_adapter any_size Some (fun r _ => r)).
Proof. done. Qed.
