(* ===== verification/AdapterTheorems.v ===== *)
(** * What the adapters store

    For each kind of response object, the contents an adapter leaves in it when
    it is fed the nodes of a RESP3 value, and the error paths. *)

From stdpp Require Import gmap gmultiset.
From S2P Require Import Prelude Charconv Types Parser ParserSpec ParserSafety Resp3 ParserCorrect.
From S2P Require Import Adapters Traits.

(** ** Scalars and leaves *)

(** The nodes a container stores. *)
Definition stored (nds : list node) : list node :=
  List.filter (fun nd => negb (is_aggregate (data_type nd))) nds.

Definition leaf (r : resp3) : bool :=
  match r with r_simple _ _ | r_blob _ _ => true | _ => false end.

(** The node of a leaf. *)
Definition leaf_node (d : N) (r : resp3) : node :=
  match r with
  | r_simple t v | r_blob t v => mk_node t 1 d v
  | _ => default_node
  end.

(** [f] is the conversion of the node. *)
Definition converts {T} `{FromBulk T} (init : T) (f : node -> T) (nd : node) : Prop :=
  from_bulk init nd None = Done (f nd, None).

(** ** Feeding *)

Section Feed.
Context {S : Type} (adapter : S -> node -> error_code -> outcome (S * error_code)).

Lemma feed_cons s nd nds s' :
  adapter s nd None = Done (s', None) -> feed adapter s (nd :: nds) = feed adapter s' nds.
Proof. intros H. cbn [feed]. by rewrite H. Qed.

Lemma feed_stop s nd nds s' e :
  adapter s nd None = Done (s', Some e) -> feed adapter s (nd :: nds) = Done (s', Some e).
Proof. intros H. cbn [feed]. by rewrite H. Qed.

Lemma feed_foldl (P : node -> Prop) f s nds :
  (forall s nd, P nd -> adapter s nd None = Done (f s nd, None)) ->
  Forall P nds -> feed adapter s nds = Done (foldl f s nds, None).
Proof.
  intros Hstep Hnds. revert s. induction Hnds as [|nd nds Hnd _ IH]; intros s; [done|].
  by rewrite (feed_cons _ _ _ _ (Hstep _ _ Hnd)), IH.
Qed.
End Feed.

(** The implementation class alone, with its result. *)
Definition impl_adapter {T} `{Impl T} (sv : impl_state * T) (nd : node) (ec : error_code)
    : outcome (impl_state * T * error_code) :=
  '(s, v, ec) ← impl_call sv.1 sv.2 nd ec; Done ((s, v), ec).

Section Wrapper.
Context {T : Type} `{Impl T}.

(** Past the first node, or when that is not a RESP3 error, the wrapper is its
    implementation class. *)
Lemma wrapper_feed v s b nds :
  (forall nd, head nds = Some nd -> b = true \/ is_resp3_error (data_type nd) = false) ->
  nds <> [] ->
  feed wrapper_call (mk_wrapper (r_value v) s b) nds =
    '(sv, ec) ← feed impl_adapter (s, v) nds;
    Done (mk_wrapper (r_value sv.2) sv.1 true, ec).
Proof.
  revert v s b. induction nds as [|nd nds IH]; intros v s b Hhd Hne; [done|].
  assert (wrapper_call (mk_wrapper (r_value v) s b) nd None =
          '(sv, ec) ← impl_adapter (s, v) nd None; Done (mk_wrapper (r_value sv.2) sv.1 true, ec)) as Hcall.
  { unfold wrapper_call, impl_adapter. cbn [result_ result_has_error called_once_ impl_ fst snd].
    assert (negb b && is_resp3_error (data_type nd) = false) as ->.
    { destruct (Hhd nd eq_refl) as [->| ->]; [done|apply andb_false_r]. }
    cbn. by destruct (impl_call s v nd None) as [[[s' v'] ec]|?|?]. }
  cbn [feed]. rewrite Hcall. destruct (impl_adapter (s, v) nd None) as [[[s' v'] [e|]]|?|?]; [done| |done..].
  cbn [mbind outcome_bind has_ec fst snd]. cbn.
  destruct nds as [|nd' nds]; [done|]. apply IH; [by left|done].
Qed.

Lemma wrapper_error_feed w e nds :
  result_ w = r_error e -> feed wrapper_call w nds = Done (w, None).
Proof.
  intros Hw. induction nds as [|nd nds IH]; [done|].
  rewrite (feed_cons _ _ _ _ w); [done|]. unfold wrapper_call. by rewrite Hw.
Qed.
End Wrapper.

(** The fresh adapter of a result that holds a value. *)
Definition fresh_wrapper {T} `{Impl T} : wrapper T :=
  mk_wrapper (r_value impl_default) (on_value_available impl_init impl_default) false.

(** ** Nodes of a value *)

(** A top-level value that is not an error. *)
Definition root_type (r : resp3) : type.t :=
  match r with
  | r_simple t _ | r_blob t _ | r_aggregate t _ => t
  | r_stream _ => type.streamed_string
  end.

Lemma nodes_cons d r : exists nd nds, nodes d r = nd :: nds /\ data_type nd = root_type r.
Proof. destruct r; cbn; eauto. Qed.

Lemma nodes_leaf d r : leaf r = true -> nodes d r = [leaf_node d r].
Proof. by destruct r. Qed.

Lemma nodes_leaves d rs : forallb leaf rs = true -> concat (map (nodes d) rs) = map (leaf_node d) rs.
Proof.
  induction rs as [|r rs IH]; [done|]. cbn [forallb map concat]. rewrite andb_true_iff.
  intros [Hr Hrs]. by rewrite nodes_leaf, IH.
Qed.

Lemma valid_leaf r d :
  valid r = true -> leaf r = true ->
  is_aggregate (data_type (leaf_node d r)) = false /\ aggregate_size (leaf_node d r) = 1 /\
  depth (leaf_node d r) = d.
Proof.
  destruct r as [t v|t v|t cs|ps]; cbn; try done.
  - unfold simple_ok. rewrite andb_true_iff. intros [_ Ht] _. by destruct t.
  - rewrite andb_true_iff. intros [Ht _] _. by destruct t.
Qed.

Lemma multiplicity_count t cs :
  len cs mod element_multiplicity t = 0 -> len cs < size_modulus ->
  element_multiplicity t *w aggregate_count t cs = len cs.
Proof.
  intros Hm Hl. unfold aggregate_count.
  assert (element_multiplicity t * (len cs / element_multiplicity t) = len cs) as E.
  { rewrite (N.div_mod (len cs) (element_multiplicity t)) at 2 by (by destruct t). lia. }
  by rewrite wmul_small; rewrite E.
Qed.

(** ** Vectors *)

Section Vector.
Context {T : Type} `{FromBulk T} (n : size_t) (f : node -> T).

Lemma vector_leaf acc nd :
  is_aggregate (data_type nd) = false -> converts bulk_value_init f nd ->
  impl_adapter (T := vector n T) (tt, Vector acc) nd None = Done ((tt, Vector (acc ++ [f nd])), None).
Proof.
  intros Ha Hc. unfold impl_adapter. cbn [impl_call impl_vector fst snd vec]. unfold vector_impl.
  rewrite Ha. by rewrite Hc.
Qed.

Lemma vector_leaves acc nds :
  Forall (fun nd => is_aggregate (data_type nd) = false) nds ->
  Forall (converts bulk_value_init f) nds ->
  feed (impl_adapter (T := vector n T)) (tt, Vector acc) nds = Done ((tt, Vector (acc ++ map f nds)), None).
Proof.
  intros Ha Hc. revert acc. induction Ha as [|nd nds Hnd Ha IH]; intros acc.
  - by rewrite app_nil_r.
  - inv Hc. rewrite (feed_cons _ _ _ _ (tt, Vector (acc ++ [f nd]))) by (by apply vector_leaf).
    rewrite IH by done. by rewrite <-(assoc_L (++)).
Qed.

Lemma nodes_length d cs : len cs <= len (concat (map (nodes d) cs)).
Proof.
  induction cs as [|c cs IH]; [done|]. cbn [map concat]. rewrite len_app, len_cons.
  destruct (nodes_cons d c) as (nd & nds & -> & _). rewrite len_cons. lia.
Qed.

Lemma stored_app a b : stored (a ++ b) = stored a ++ stored b.
Proof. apply List.filter_app. Qed.

Lemma stored_le nds : len (stored nds) <= len nds.
Proof.
  induction nds as [|nd nds IH]; [done|]. unfold stored in *. cbn [List.filter].
  destruct (negb _); rewrite ?len_cons; lia.
Qed.

Lemma stored_id nds : Forall (fun nd => is_aggregate (data_type nd) = false) nds -> stored nds = nds.
Proof. induction 1 as [|nd nds Hnd _ IH]; [done|]. unfold stored in *. cbn. rewrite Hnd. cbn. by rewrite IH. Qed.

(** The statement of the induction: the leaves of the value are appended. *)
Definition vector_appends (d : N) (nds : list node) : Prop :=
  forall acc, Forall (converts bulk_value_init f) (stored nds) -> len acc + len nds <= n ->
  feed (impl_adapter (T := vector n T)) (tt, Vector acc) nds =
    Done ((tt, Vector (acc ++ map f (stored nds))), None).

Lemma vector_appends_concat d cs :
  Forall (fun c => forall d, vector_appends d (nodes d c)) cs ->
  vector_appends d (concat (map (nodes d) cs)).
Proof.
  intros Hcs. induction Hcs as [|c cs Hc _ IH]; intros acc Hconv Hlen.
  - by rewrite app_nil_r.
  - cbn [map concat] in *. rewrite stored_app, Forall_app, len_app in *. destruct Hconv as [Hconv1 Hconv2].
    rewrite feed_app, Hc by (try done; lia). cbn [mbind outcome_bind has_ec]. cbn.
    rewrite IH; [by rewrite map_app, (assoc_L (++))|done|].
    rewrite len_app. pose proof (stored_le (nodes d c)). unfold len in *. rewrite length_map. lia.
Qed.

Lemma vector_appends_nodes r : n < size_modulus -> valid r = true -> forall d, vector_appends d (nodes d r).
Proof.
  intros Hn. induction r as [t v|t v|t cs IH|ps] using resp3_ind'; intros Hval d acc Hconv Hlen.
  1,2: destruct (valid_leaf _ d Hval eq_refl) as (Ha & _); cbn [leaf_node] in Ha;
    cbn [nodes] in *; rewrite stored_id in * by (repeat constructor; done); apply vector_leaves; [|done]; by repeat constructor.
  - cbn [valid] in Hval. rewrite !andb_true_iff, N.ltb_lt, N.eqb_eq in Hval. destruct Hval as [[[Ha Hl] Hm] Hv].
    cbn [nodes] in *. unfold stored in *. cbn [List.filter data_type] in *. rewrite Ha in *. cbn [negb] in *.
    rewrite len_cons in Hlen. pose proof (nodes_length (d + 1) cs) as Hle.
    rewrite (feed_cons _ _ _ _ (tt, Vector acc)).
    + apply vector_appends_concat; [|done|lia]. rewrite forallb_forall in Hv. apply Forall_forall.
      intros c Hc. rewrite Forall_forall in IH. intros d'. apply IH; [done|]. apply Hv. by apply list_elem_of_In.
    + unfold impl_adapter. cbn [impl_call impl_vector fst snd vec]. unfold vector_impl.
      cbn [data_type aggregate_size]. rewrite Ha, multiplicity_count by done. unfold vector_reserve.
      rewrite wadd_small by lia. rewrite (proj2 (N.leb_le _ _)) by lia. done.
  - assert (Forall (fun nd => is_aggregate (data_type nd) = false) (nodes d (r_stream ps))) as Ha.
    { cbn. constructor; [done|]. apply Forall_app. split; [|by repeat constructor].
      apply Forall_map, Forall_true. done. }
    rewrite stored_id in * by done. by apply vector_leaves.
Qed.
End Vector.

(** ** Sets and lists *)

(** A node that stores an element with conversion [f]. *)
Definition storable {T} `{FromBulk T} (init : T) (f : node -> T) (nd : node) : Prop :=
  is_aggregate (data_type nd) = false /\ aggregate_size nd = 1 /\ 1 <= depth nd /\ converts init f nd.

Lemma leaves_storable {T} `{FromBulk T} (init : T) (f : node -> T) cs :
  forallb valid cs = true -> forallb leaf cs = true ->
  Forall (converts init f) (map (leaf_node 1) cs) ->
  Forall (storable init f) (map (leaf_node 1) cs).
Proof.
  intros Hv Hl. rewrite !Forall_map. rewrite forallb_forall in Hv, Hl. intros Hc.
  rewrite Forall_forall in *. intros c Hin. assert (In c cs) as Hin' by (by apply list_elem_of_In).
  destruct (valid_leaf c 1 (Hv _ Hin') (Hl _ Hin')) as (? & ? & Hd).
  repeat split; [done..|by rewrite Hd|by apply Hc].
Qed.

Section Set_.
Context {K : Type} `{Countable K} `{FromBulk K} (f : node -> K).

Lemma set_feed (r : gset K) nds :
  Forall (storable bulk_default_init f) nds ->
  feed (impl_adapter (T := gset K)) (tt, r) nds = Done ((tt, foldl (fun r nd => {[ f nd ]} ∪ r) r nds), None).
Proof.
  intros Hnds. revert r. induction Hnds as [|nd nds (Ha & Hs & Hd & Hc) _ IH]; intros r; [done|].
  rewrite (feed_cons _ _ _ _ (tt, {[ f nd ]} ∪ r)); [apply IH|].
  unfold impl_adapter. cbn [impl_call impl_set fst snd]. unfold set_impl.
  rewrite Ha, Hs. cbn. rewrite (proj2 (N.ltb_ge _ _)) by done. by rewrite Hc.
Qed.

Lemma foldl_set (r : gset K) nds :
  foldl (fun r nd => {[ f nd ]} ∪ r) r nds = list_to_set (map f nds) ∪ r.
Proof.
  revert r. induction nds as [|nd nds IH]; intros r; cbn; [by rewrite (left_id_L ∅ (∪))|].
  rewrite IH, (assoc_L (∪)). by rewrite (comm_L (∪) _ {[ f nd ]}).
Qed.
End Set_.

Section List_.
Context {T : Type} `{FromBulk T} (f : node -> T).

Lemma list_feed acc nds :
  Forall (storable bulk_value_init f) nds ->
  feed (impl_adapter (T := sequence T)) (tt, Sequence acc) nds = Done ((tt, Sequence (acc ++ map f nds)), None).
Proof.
  intros Hnds. revert acc. induction Hnds as [|nd nds (Ha & Hs & Hd & Hc) _ IH]; intros acc.
  - by rewrite app_nil_r.
  - rewrite (feed_cons _ _ _ _ (tt, Sequence (acc ++ [f nd]))).
    + rewrite IH. by rewrite <-(assoc_L (++)).
    + unfold impl_adapter. cbn [impl_call impl_list fst snd]. unfold list_impl.
      rewrite Ha, Hs. cbn. rewrite (proj2 (N.ltb_ge _ _)) by done. by rewrite Hc.
Qed.
End List_.

(** ** Maps *)

Section Map_.
Context {K V : Type} `{Countable K} `{FromBulk K} `{FromBulk V} (f : node -> K) (g : node -> V).

Definition pair_nodes (kv : node * node) : list node := [kv.1; kv.2].

Lemma map_feed_pair c (r : gmap K V) kv :
  storable bulk_default_init f kv.1 -> storable bulk_default_init g kv.2 ->
  feed (impl_adapter (T := gmap K V)) (mk_map_state c true, r) (pair_nodes kv) =
    Done ((mk_map_state (Some (f kv.1)) true, <[f kv.1 := g kv.2]> r), None).
Proof.
  intros (Ha & Hs & Hd & Hc) (Ha' & Hs' & Hd' & Hc'). unfold pair_nodes.
  rewrite (feed_cons _ _ _ _ (mk_map_state (Some (f kv.1)) false,
    match r !! f kv.1 with Some _ => r | None => <[f kv.1 := bulk_value_init]> r end)).
  2: { unfold impl_adapter. cbn [impl_call impl_map fst snd]. unfold map_impl.
       rewrite Ha, Hs. cbn. rewrite (proj2 (N.ltb_ge _ _)) by done. by rewrite Hc. }
  cbn [feed]. unfold impl_adapter. cbn [impl_call impl_map fst snd]. unfold map_impl.
  rewrite Ha', Hs'. cbn. rewrite (proj2 (N.ltb_ge _ _)) by done. rewrite Hc'. cbn.
  destruct (r !! f kv.1); [done|]. by rewrite insert_insert_eq.
Qed.

Lemma map_feed c (r : gmap K V) kvs :
  Forall (fun kv => storable bulk_default_init f kv.1 /\ storable bulk_default_init g kv.2) kvs ->
  exists c', feed (impl_adapter (T := gmap K V)) (mk_map_state c true, r) (concat (map pair_nodes kvs)) =
    Done ((mk_map_state c' true, foldl (fun r kv => <[f kv.1 := g kv.2]> r) r kvs), None).
Proof.
  intros Hkvs. revert c r. induction Hkvs as [|kv kvs [Hk Hv] _ IH]; intros c r; [by exists c|].
  cbn [map concat]. rewrite feed_app, map_feed_pair by done. cbn. apply IH.
Qed.
End Map_.

(** ** Arrays *)

Section Array_.
Context {n : nat} {T : Type} `{FromBulk T} (f : node -> T).

Lemma array_feed pre nds i :
  Forall (storable bulk_value_init f) nds -> i = Z.of_nat (length pre) ->
  feed (impl_adapter (T := array n T)) (i, Array (pre ++ replicate (length nds) bulk_value_init)) nds =
    Done ((Z.of_nat (length pre + length nds), Array (pre ++ map f nds)), None).
Proof.
  intros Hnds ->. revert pre. induction Hnds as [|nd nds (Ha & Hs & Hd & Hc) _ IH]; intros pre.
  - cbn. by rewrite Nat.add_0_r.
  - cbn [length replicate].
    rewrite (feed_cons _ _ _ _ (Z.of_nat (length (pre ++ [f nd])), Array ((pre ++ [f nd]) ++ replicate (length nds) bulk_value_init))).
    + rewrite IH, length_app, <-(assoc_L (++)). cbn [length map app].
      by rewrite <-Nat.add_assoc.
    + unfold impl_adapter. cbn [impl_call impl_array fst snd arr]. unfold array_impl.
      rewrite Ha, Hs. rewrite (proj2 (Z.eqb_neq _ _)) by lia. cbn [boost_assert N.eqb Pos.eqb].
      unfold array_at. rewrite (proj2 (Z.ltb_ge _ _)) by lia. rewrite Nat2Z.id.
      rewrite lookup_app_r, Nat.sub_diag by lia. cbn. rewrite Hc. cbn.
      rewrite insert_app_r_alt, Nat.sub_diag by lia. cbn. rewrite length_app, <-(assoc_L (++)). cbn.
      by rewrite Nat2Z.inj_add.
Qed.
End Array_.

(** ** From bytes to the response object *)

(** [deserialize(view, adapt2(r), ec)]. *)
Definition deserialize_into {R} `{ResultTraits R} (view : bytes) (r : R) : outcome (R * error_code) :=
  a ← adapt2 r;
  '(a, ec) ← deserialize adapter_call view a None;
  Done (contents a, ec).

(** A message that fits the parser and the address space. *)
Definition message (r : resp3) : Prop :=
  valid r = true /\ height r <= max_embedded_depth /\ len (encode r) < size_modulus.

Section Into.
Context {T : Type} `{Impl T}.

Lemma deserialize_into_fresh view (v0 : T) :
  deserialize_into (R := result T) view (r_value v0) =
    '(w, ec) ← deserialize wrapper_call view fresh_wrapper None; Done (result_ w, ec).
Proof. done. Qed.

Lemma deserialize_into_impl r v0 :
  message r -> is_resp3_error (root_type r) = false ->
  deserialize_into (R := result T) (encode r) (r_value v0) =
    '(sv, ec) ← feed impl_adapter (on_value_available impl_init impl_default, impl_default) (nodes 0 r);
    Done (r_value sv.2, ec).
Proof.
  intros (Hv & Hh & Hl) Hroot. rewrite deserialize_into_fresh.
  destruct (nodes_cons 0 r) as (nd & nds & Hnds & Hnd).
  unfold fresh_wrapper. rewrite deserialize_encode_feed, wrapper_feed; [|rewrite Hnds..|done|done|done].
  - by destruct (feed impl_adapter _ _) as [[[? ?] ?]|?|?].
  - intros ? [= <-]. right. by rewrite Hnd.
  - done.
Qed.

Lemma deserialize_into_error r v0 :
  message r -> is_resp3_error (root_type r) = true ->
  deserialize_into (R := result T) (encode r) (r_value v0) =
    Done (r_error (error_of (leaf_node 0 r)), None).
Proof.
  intros (Hv & Hh & Hl) Hroot. rewrite deserialize_into_fresh.
  assert (leaf r = true) as Hleaf.
  { destruct r as [| |t cs|]; [done..| |done]. cbn in Hv, Hroot. by destruct t. }
  rewrite deserialize_encode_feed by done. rewrite nodes_leaf by done.
  assert (data_type (leaf_node 0 r) = root_type r) as Ht by (by destruct r).
  cbn [feed]. unfold wrapper_call.
  cbn [result_ result_has_error called_once_ negb andb impl_]. by rewrite Ht, Hroot.
Qed.
End Into.
