(* ===== verification/AdapterClaims.v ===== *)
(** * Claims about the adapters

    What a response object holds after a message has been parsed into it. *)

From stdpp Require Import gmap gmultiset.
From S2P Require Import Prelude Charconv Types Parser ParserSpec ParserSafety Resp3 ParserCorrect.
From S2P Require Import Adapters Traits AdapterTheorems.

#[local] Open Scope string_scope.
#[local] Open Scope list_scope.

(** ** Containers *)

Section Flat.
Context {T : Type} `{Impl T}.

(** An aggregate of leaves, whose header leaves the implementation class in
    state [s]. *)
Lemma deserialize_into_flat t cs v0 s :
  message (r_aggregate t cs) -> forallb leaf cs = true ->
  impl_adapter (on_value_available impl_init impl_default, impl_default)
    (mk_node t (aggregate_count t cs) 0 []) None = Done (s, None) ->
  deserialize_into (R := result T) (encode (r_aggregate t cs)) (r_value v0) =
    '(sv, ec) ← feed impl_adapter s (map (leaf_node 1) cs);
    Done (r_value sv.2, ec).
Proof.
  intros Hm Hleaf Hhd. rewrite deserialize_into_impl; [|done|].
  - cbn [nodes]. rewrite (feed_cons _ _ _ _ _ Hhd). by rewrite nodes_leaves.
  - destruct Hm as [Hv _]. cbn in Hv |- *. by destruct t.
Qed.

Lemma message_children t cs : message (r_aggregate t cs) -> forallb valid cs = true.
Proof. intros [Hv _]. cbn [valid] in Hv. apply andb_true_iff in Hv. tauto. Qed.

Lemma message_count t cs :
  message (r_aggregate t cs) -> aggregate_count t cs *w element_multiplicity t = len cs.
Proof.
  intros [Hv _]. cbn in Hv. rewrite !andb_true_iff, N.ltb_lt, N.eqb_eq in Hv.
  destruct Hv as [[[_ Hl] Hm] _]. unfold wmul. rewrite N.mul_comm. by apply multiplicity_count.
Qed.
End Flat.

(** C28: A [std::vector<T>] receives the converted leaves of any message,
    nested ones included, in their order; its earlier contents are dropped. *)
Theorem vector_response {T} `{FromBulk T} n (f : node -> T) r v0 :
  message r -> is_resp3_error (root_type r) = false ->
  n < size_modulus -> len (nodes 0 r) <= n ->
  Forall (converts bulk_value_init f) (stored (nodes 0 r)) ->
  deserialize_into (encode r) (r_value v0 : result (vector n T)) =
    Done (r_value (Vector (map f (stored (nodes 0 r)))), None).
Proof.
  intros Hm Hroot Hn Hlen Hconv. rewrite deserialize_into_impl by done.
  destruct Hm as [Hv _]. cbn [impl_init impl_default impl_vector on_value_available].
  by rewrite (vector_appends_nodes n f r Hn Hv 0 []).
Qed.

Definition nested_example : resp3 :=
  r_aggregate type.array
    [r_blob type.blob_string (bs "a"); r_aggregate type.array [r_blob type.blob_string (bs "b")]].

Lemma vector_response_witness :
  deserialize_into (encode nested_example) (r_value (Vector [bs "old"]) : result (vector 100 bytes)) =
    Done (r_value (Vector [bs "a"; bs "b"]), None).
Proof.
  apply (vector_response 100 value nested_example (Vector [bs "old"]));
    [split_and!; by vm_compute|done|by vm_compute|by vm_compute|].
  repeat constructor.
Defined.

(** C29: A map receives the pairs of a map response; for a repeated key the last
    value stays. *)
Theorem map_response {K V} `{Countable K} `{FromBulk K} `{FromBulk V}
    (f : node -> K) (g : node -> V) (kvs : list (resp3 * resp3)) (v0 : gmap K V) :
  let cs := concat (map (fun kv => [kv.1; kv.2]) kvs) in
  message (r_aggregate type.map cs) -> forallb leaf cs = true ->
  Forall (fun kv => converts bulk_default_init f (leaf_node 1 kv.1) /\
                    converts bulk_default_init g (leaf_node 1 kv.2)) kvs ->
  deserialize_into (encode (r_aggregate type.map cs)) (r_value v0) =
    Done (r_value (foldl (fun m kv => <[f (leaf_node 1 kv.1) := g (leaf_node 1 kv.2)]> m) ∅ kvs), None).
Proof.
  intros cs Hm Hleaf Hconv.
  rewrite (deserialize_into_flat (T := gmap K V) (H := impl_map K V) _ _ _ (mk_map_state None true, ∅) Hm Hleaf) by done.
  pose (ps := map (prod_map (leaf_node 1) (leaf_node 1)) kvs).
  assert (map (leaf_node 1) cs = concat (map pair_nodes ps)) as ->.
  { unfold cs, ps. clear. induction kvs as [|kv kvs IH]; [done|]. cbn. by rewrite IH. }
  destruct (map_feed f g None ∅ ps) as [c ->].
  - apply message_children in Hm. subst ps. apply Forall_map. clear -Hm Hleaf Hconv. subst cs.
    induction Hconv as [|kv kvs [Hk Hv] _ IH]; [done|].
    cbn [map concat app forallb] in Hm, Hleaf. rewrite !andb_true_iff in Hm, Hleaf.
    destruct Hm as (? & ? & ?), Hleaf as (? & ? & ?). constructor; [|by apply IH].
    destruct (valid_leaf kv.1 1) as (? & ? & E1); [done..|]. destruct (valid_leaf kv.2 1) as (? & ? & E2); [done..|].
    unfold storable. destruct kv as [k v]; cbn [prod_map fst snd] in *. rewrite E1, E2. by split_and!.
  - cbn. repeat f_equal. unfold ps. clear. generalize (∅ : gmap K V).
    induction kvs as [|kv kvs IH]; intros m; [done|]. cbn. apply IH.
Qed.

Lemma map_response_witness :
  let s v := r_blob type.blob_string (bs v) in
  deserialize_into (encode (r_aggregate type.map [s "k"; s "1"; s "l"; s "2"; s "k"; s "3"]))
    (r_value (∅ : gmap bytes bytes)) =
    Done (r_value (<[bs "k" := bs "3"]> (<[bs "l" := bs "2"]> (<[bs "k" := bs "1"]> ∅))), None).
Proof.
  intros s. apply (map_response value value [(s "k", s "1"); (s "l", s "2"); (s "k", s "3")]);
    [split_and!; by vm_compute|done|].
  repeat constructor.
Defined.

(** A set receives the elements of a set response. *)
Theorem set_response {K} `{Countable K} `{FromBulk K} (f : node -> K) cs (v0 : gset K) :
  message (r_aggregate type.set cs) -> forallb leaf cs = true ->
  Forall (converts bulk_default_init f) (map (leaf_node 1) cs) ->
  deserialize_into (encode (r_aggregate type.set cs)) (r_value v0) =
    Done (r_value (list_to_set (map f (map (leaf_node 1) cs))), None).
Proof.
  intros Hm Hleaf Hconv. rewrite (deserialize_into_flat (T := gset K) (H := impl_set K) _ _ _ (tt, ∅) Hm Hleaf) by done.
  rewrite (set_feed f) by (apply leaves_storable; [by eapply message_children|done|done]).
  cbn. by rewrite foldl_set, (right_id_L ∅ (∪)).
Qed.

(** A [std::array<T, n>] receives the elements of an aggregate of [n]
    leaves, and reports an aggregate of another size. *)
Theorem array_response {T} `{FromBulk T} n (f : node -> T) t cs (v0 : array n T) :
  message (r_aggregate t cs) -> forallb leaf cs = true -> N.of_nat n < size_modulus ->
  Forall (converts bulk_value_init f) (map (leaf_node 1) cs) ->
  deserialize_into (encode (r_aggregate t cs)) (r_value v0) =
    if decide (length cs = n) then Done (r_value (Array (map f (map (leaf_node 1) cs))), None)
    else Done (r_value (Array (replicate n bulk_value_init)), make_error_code error.incompatible_size).
Proof.
  intros Hm Hleaf Hn Hconv. pose proof (message_count _ _ Hm) as Hcount.
  assert (is_aggregate t = true) as Ht by (destruct Hm as [Hv _]; cbn in Hv; by destruct t).
  assert (len (replicate n (bulk_value_init (T := T))) = N.of_nat n) as Hrep by (unfold len; by rewrite length_replicate).
  case_decide as Hlen.
  - rewrite (deserialize_into_flat (T := array n T) (H := impl_array n T) _ _ _ (0%Z, Array (replicate n bulk_value_init)) Hm Hleaf).
    + pose proof (array_feed (n := n) f [] (map (leaf_node 1) cs) 0
        (leaves_storable _ _ _ (message_children _ _ Hm) Hleaf Hconv) eq_refl) as Hf.
      rewrite length_map, Hlen in Hf. cbn [app] in Hf. by rewrite Hf.
    + unfold impl_adapter. cbn [impl_call impl_array fst snd arr impl_default impl_init on_value_available].
      unfold array_impl. cbn [data_type aggregate_size]. rewrite Ht, Hrep, Hcount. unfold len.
      by rewrite Hlen, N.eqb_refl.
  - rewrite deserialize_into_impl by (done || (by destruct t)). cbn [nodes].
    rewrite (feed_stop _ _ _ _ ((-1)%Z, Array (replicate n bulk_value_init)) (redis_error error.incompatible_size)); [done|]. unfold impl_adapter.
    cbn [impl_call impl_array fst snd arr impl_default impl_init on_value_available].
    unfold array_impl. cbn [data_type aggregate_size]. rewrite Ht, Hrep, Hcount. unfold len.
    rewrite (proj2 (N.eqb_neq _ _)) by lia. done.
Qed.

Lemma array_response_witness :
  let s v := r_blob type.blob_string (bs v) in
  deserialize_into (encode (r_aggregate type.array [s "a"; s "b"])) (r_value (Array [[]; []] : array 2 bytes)) =
    Done (r_value (Array [bs "a"; bs "b"]), None).
Proof.
  intros s. apply (array_response 2 value type.array [s "a"; s "b"] (Array [[]; []]));
    [split_and!; by vm_compute|done|by vm_compute|].
  repeat constructor.
Defined.

(** ** Scalars and errors *)

Lemma from_chars_to_string_signed lo hi z :
  from_chars_signed lo hi (to_string_signed z) =
    if (lo <=? z)%Z && (z <=? hi)%Z then fc_ok z else fc_result_out_of_range.
Proof.
  assert (forall n, exists c l, take_digits (to_string n) = c :: l /\ decimal_value 0 (c :: l) = n) as Hds.
  { intros n. destruct (to_string_spec n) as (Hd & Hne & Hv).
    rewrite take_digits_all by done. destruct (to_string n); [done|]. eauto. }
  unfold from_chars_signed, to_string_signed. destruct (Z.ltb_spec z 0) as [Hz|Hz].
  - rewrite Ascii.eqb_refl. destruct (Hds (Z.to_N (- z))) as (c & l & -> & ->).
    rewrite Z2N.id by lia. by rewrite Z.opp_involutive.
  - destruct (to_string_head (Z.to_N z)) as (c & v & Hs & Hc).
    rewrite Hs. rewrite (proj2 (Ascii.eqb_neq c "-"%char)) by (by apply digit_not). rewrite <-Hs.
    destruct (Hds (Z.to_N z)) as (c' & l & -> & ->). by rewrite Z2N.id.
Qed.

(** A signed integer receives the number of a response when it is in the
    range of the type; otherwise the adapter reports [not_a_number] and the
    object is zero. *)
Theorem integer_response `{Indeterminate} lo hi z (v0 : int_type lo hi) :
  (lo < 0)%Z -> message (r_simple type.number (to_string_signed z)) ->
  deserialize_into (encode (r_simple type.number (to_string_signed z))) (r_value v0) =
    if (lo <=? z)%Z && (z <=? hi)%Z then Done (r_value (Int z), None)
    else Done (r_value (Int 0), make_error_code error.not_a_number).
Proof.
  intros Hlo Hm. rewrite deserialize_into_impl by done. cbn [nodes feed].
  unfold impl_adapter. cbn [impl_call impl_simple fst snd impl_default]. unfold simple_impl.
  cbn [data_type is_aggregate from_bulk converter_from_bulk convert integral_converter bulk_value_init value_init].
  unfold convert_integral. cbn [value]. rewrite (proj2 (Z.ltb_lt _ _) Hlo), from_chars_to_string_signed.
  by destruct ((lo <=? z)%Z && (z <=? hi)%Z).
Qed.

Lemma integer_response_witness :
  let _ := {| indeterminate := 7 |} in
  deserialize_into (encode (r_simple type.number (bs "-42"))) (r_value (Int 5) : result int32_t) =
    Done (r_value (Int (-42)), None).
Proof.
  intros ind. apply (integer_response (-2147483648) 2147483647 (-42) (Int 5));
    [lia|split_and!; by vm_compute].
Defined.



(** A message of the wrong shape is reported by the error of the container:
    an aggregate for a scalar, a leaf for an array, a set, a map or a list, an
    aggregate other than a set for a set, one without pairs for a map. *)
Theorem shape_errors {T} `{FromBulk T} `{Countable T} n r :
  message r -> is_resp3_error (root_type r) = false ->
  match r with
  | r_aggregate t _ =>
      deserialize_into (encode r) (r_value bulk_value_init : result T) =
        Done (r_value bulk_value_init, make_error_code error.expects_resp3_simple_type) /\
      (t <> type.set -> deserialize_into (encode r) (r_value ∅ : result (gset T)) =
        Done (r_value ∅, make_error_code error.expects_resp3_set)) /\
      (element_multiplicity t <> 2 -> deserialize_into (encode r) (r_value ∅ : result (gmap T T)) =
        Done (r_value ∅, make_error_code error.expects_resp3_map))
  | r_simple _ _ | r_blob _ _ =>
      deserialize_into (encode r) (r_value (Array []) : result (array n T)) =
        Done (r_value (Array (replicate n bulk_value_init)), make_error_code error.expects_resp3_aggregate) /\
      deserialize_into (encode r) (r_value ∅ : result (gset T)) =
        Done (r_value ∅, make_error_code error.expects_resp3_set) /\
      deserialize_into (encode r) (r_value ∅ : result (gmap T T)) =
        Done (r_value ∅, make_error_code error.expects_resp3_map) /\
      deserialize_into (encode r) (r_value (Sequence []) : result (sequence T)) =
        Done (r_value (Sequence []), make_error_code error.expects_resp3_aggregate)
  | r_stream _ => True
  end.
Proof.
  intros Hm Hroot. destruct r as [t v|t v|t cs|ps] eqn:Hr; [..|done].
  1,2: destruct (valid_leaf r 0) as (Ha & _); [by destruct Hm; rewrite Hr|by rewrite Hr|];
    rewrite Hr in Ha; cbn [leaf_node data_type] in Ha; split_and!;
    rewrite deserialize_into_impl by done; cbn [nodes feed]; unfold impl_adapter;
    cbn [impl_call impl_array impl_set impl_map impl_list fst snd arr elems impl_default impl_init on_value_available];
    unfold array_impl, set_impl, map_impl, list_impl; cbn [data_type]; by rewrite Ha.
  assert (is_aggregate t = true) as Ht by (destruct Hm as [Hv _]; cbn in Hv; by destruct t).
  split_and!; intros; rewrite deserialize_into_impl by done; cbn [nodes feed]; unfold impl_adapter;
    cbn [impl_call impl_simple impl_set impl_map fst snd impl_default impl_init on_value_available];
    unfold simple_impl, set_impl, map_impl; cbn [data_type]; rewrite Ht; destruct t; done.
Qed.

Lemma shape_errors_witness :
  deserialize_into (encode nested_example) (r_value [] : result bytes) =
    Done (r_value [], make_error_code error.expects_resp3_simple_type).
Proof.
  refine (proj1 (shape_errors (T := bytes) 2 nested_example _ _)); [split_and!; by vm_compute|done].
Defined.

(** ** Reused responses *)

(** Adapting a response whose first element still holds the error of an
    earlier request terminates the program: the constructor of its adapter
    calls [value()], and the functions around it are [noexcept]. *)
Theorem reused_error_terminates {T Rs} `{Impl T} `{TupleTraits Rs} e (rs : Rs) :
  is_resp3_error (err_data_type e) = true -> (exists ads, assign rs = Done ads) ->
  boost_redis_adapt (Response (r_error e : result T, rs)) = Fault terminate.
Proof.
  intros He [ads Hads]. unfold boost_redis_adapt. cbn [response_new response_traits_response results].
  cbn [assign tuple_traits_cons fst snd]. rewrite Hads. cbn [mbind outcome_bind].
  unfold internal_adapt. cbn [adapter_new result_traits_wrapper]. unfold new_wrapper, result_value, throw_exception_from_error.
  by destruct (err_data_type e).
Qed.

Lemma reused_error_terminates_witness :
  boost_redis_adapt (Response (r_error (mk_adapter_error type.simple_error (bs "ERR")) : result bytes, tt))
  = Fault terminate.
Proof. apply (reused_error_terminates (Rs := unit)); [done|by exists tt]. Defined.

(** ** Generic responses *)

(** A [generic_response] receives every node, in order, as long as none is
    an error, and an error node replaces the nodes before it. *)
Theorem generic_response_collects (l nds : list node) e :
  Forall (fun nd => is_error_type (data_type nd) = false) nds ->
  feed general_aggregate (r_value l) nds = Done (r_value (l ++ nds), None) /\
  (is_error_type (data_type e) = true ->
   feed general_aggregate (r_value l) (nds ++ [e]) = Done (r_error (error_of e), None)).
Proof.
  intros Hnds. assert (feed general_aggregate (r_value l) nds = Done (r_value (l ++ nds), None)) as Hfeed.
  { revert l. induction Hnds as [|nd nds Hnd _ IH]; intros l; [by rewrite app_nil_r|].
    rewrite (feed_cons _ _ _ _ (r_value (l ++ [nd]))).
    - rewrite IH. by rewrite <-(assoc_L (++)).
    - unfold general_aggregate. destruct nd as [t ? ? ?]. cbn in *. by destruct t. }
  split; [done|]. intros He. rewrite feed_app, Hfeed. cbn. unfold general_aggregate.
  by destruct (data_type e).
Qed.

(** In a pipeline read into a [generic_response], a response that follows
    an error throws from inside the adapter. *)
Theorem generic_response_after_error_throws (l : list node) e mid nd nds :
  is_error_type (data_type e) = true ->
  Forall (fun nd => is_error_type (data_type nd) = true) mid ->
  is_error_type (data_type nd) = false ->
  feed general_aggregate (r_value l) (e :: mid ++ nd :: nds) = Throw bad_result_access.
Proof.
  intros He Hmid Hnd.
  assert (forall r e, is_error_type (data_type e) = true ->
    general_aggregate r e None = Done (r_error (error_of e), None)) as Hstep.
  { intros r e' He'. unfold general_aggregate. by destruct (data_type e'). }
  rewrite (feed_cons _ _ _ _ _ (Hstep _ _ He)). revert e He.
  induction Hmid as [|e' mid He' _ IH]; intros e He; cbn [app].
  - cbn [feed]. unfold general_aggregate, result_value, throw_exception_from_error, error_of. cbn.
    destruct (data_type nd); try done; by destruct (data_type e).
  - rewrite (feed_cons _ _ _ _ _ (Hstep _ _ He')). by apply IH.
Qed.

Lemma generic_response_after_error_throws_witness :
  feed general_aggregate (r_value [])
    [mk_node type.simple_error 1 0 (bs "ERR"); mk_node type.simple_string 1 0 (bs "PONG")]
  = Throw bad_result_access.
Proof.
  apply (generic_response_after_error_throws [] (mk_node type.simple_error 1 0 (bs "ERR")) []); [done|constructor|done].
Defined.
