(* ===== verification/Response.v ===== *)
(** * Response

    [impl/response.ipp], the consumption of one response of a
    [generic_response], and the tuples of [static_aggregate_adapter]. *)

From S2P Require Import Prelude Charconv Types Parser ParserSpec ParserSafety Resp3 ParserCorrect.
From S2P Require Import Adapters Traits AdapterTheorems.

#[local] Open Scope string_scope.
#[local] Open Scope N_scope.
#[local] Open Scope list_scope.

(** ** [consume_one] *)

(** The suffix [std::find_if] stops at. *)
Fixpoint find_if (f : node -> bool) (l : list node) : list node :=
  match l with
  | [] => []
  | nd :: l' => if f nd then l else find_if f l'
  end.

(** [consume_one(r, ec)]. *)
Definition consume_one (r : generic_response) (ec : error_code) : generic_response * error_code :=
  match r with
  | r_error _ => (r, ec)
  | r_value [] => (r, ec)
  | r_value (front :: l) =>
      let d := depth front in
      if negb (d =? 0) then (r, make_error_code error.incompatible_node_depth)
      else (r_value (find_if (fun e => depth e =? d) l), ec)
  end.

(** [consume_one(r)]. *)
Definition consume_one_throwing (r : generic_response) : outcome generic_response :=
  let '(r, ec) := consume_one r None in
  if has_ec ec then Throw system_error else Done r.

(** Messages other than streamed strings, whose nodes all have depth 1. *)
Definition rooted (r : resp3) : bool :=
  match r with r_stream _ => false | _ => true end.

Lemma nodes_depth r d : Forall (fun nd => d <= depth nd) (nodes d r).
Proof.
  revert d. induction r as [t v|t v|t cs IH|ps] using resp3_ind'; intros d; cbn [nodes].
  1,2: by repeat constructor.
  - constructor; [done|]. induction IH as [|c cs Hc _ IHcs]; [constructor|].
    cbn [map concat]. apply Forall_app. split; [|done].
    eapply Forall_impl; [apply Hc|]. cbn. lia.
  - constructor; [cbn; lia|]. apply Forall_app. split; [|repeat constructor; cbn; lia].
    apply Forall_map, Forall_true. intros. cbn. lia.
Qed.

Lemma nodes_rooted r :
  rooted r = true -> exists nd nds, nodes 0 r = nd :: nds /\ depth nd = 0 /\
    Forall (fun nd => depth nd <> 0) nds.
Proof.
  destruct r as [t v|t v|t cs|]; [..|done]; intros _; cbn [nodes];
    eexists _, _; (split_and!; [done|done|]); [constructor..|].
  induction cs as [|c cs IH]; [constructor|]. cbn [map concat]. apply Forall_app. split; [|done].
  eapply Forall_impl; [apply nodes_depth|]. cbn. lia.
Qed.

Lemma find_if_skip a b :
  Forall (fun nd => depth nd <> 0) a ->
  find_if (fun nd => depth nd =? 0) (a ++ b) = find_if (fun nd => depth nd =? 0) b.
Proof.
  induction 1 as [|nd a Hnd _ IH]; [done|]. cbn [find_if app]. by rewrite (proj2 (N.eqb_neq _ _)).
Qed.

(** [consume_one] removes exactly the nodes of the first response of a
    [generic_response] that holds any number of them, and never reports an
    error on one. *)
Theorem consume_one_removes_first r rs :
  forallb rooted (r :: rs) = true ->
  consume_one_throwing (r_value (concat (map (nodes 0) (r :: rs)))) =
    Done (r_value (concat (map (nodes 0) rs))).
Proof.
  cbn [forallb map concat]. rewrite andb_true_iff. intros [Hr Hrs]. unfold consume_one_throwing, consume_one.
  destruct (nodes_rooted r Hr) as (nd & nds & -> & Hd & Hnds). cbn [app]. rewrite Hd. cbn [N.eqb negb].
  rewrite find_if_skip by done. cbn [has_ec].
  destruct rs as [|r' rs]; [done|]. cbn [forallb map concat] in *. apply andb_true_iff in Hrs as [Hr' _].
  destruct (nodes_rooted r' Hr') as (nd' & nds' & -> & Hd' & _). cbn [app find_if]. by rewrite Hd'.
Qed.

Lemma consume_one_removes_first_witness :
  let a := r_aggregate type.push [r_blob type.blob_string (bs "message"); r_blob type.blob_string (bs "c")] in
  let b := r_simple type.simple_string (bs "OK") in
  consume_one_throwing (r_value (concat (map (nodes 0) [a; b]))) = Done (r_value (concat (map (nodes 0) [b]))).
Proof. intros a b. apply (consume_one_removes_first a [b]). reflexivity. Defined.

(** ** Tuples *)

Section Tuple.
Context {Rs : Type} `{TupleTraits Rs}.
Abbreviation adapters := (adapters_array_type (Rs := Rs)).

(** The adapter of the element [i]. *)
Definition visit_at (i : nat) (ads : adapters) (nd : node) (ec : error_code)
    : outcome (adapters * error_code) :=
  match visit i ads nd ec with Some m => m | None => Fault out_of_bounds end.

(** The specification: element [i] receives the nodes of child [i]. *)
Fixpoint feed_children (i : nat) (ads : adapters) (cs : list resp3) : outcome (adapters * error_code) :=
  match cs with
  | [] => Done (ads, None)
  | c :: cs =>
      '(ads, ec) ← feed (visit_at i) ads (nodes 1 c);
      if has_ec ec then Done (ads, ec) else feed_children (S i) ads cs
  end.

(** A child that is a leaf or an aggregate of leaves. *)
Definition flat (r : resp3) : bool :=
  match r with
  | r_simple _ _ | r_blob _ _ => true
  | r_aggregate _ cs => forallb leaf cs
  | r_stream _ => false
  end.

(** The tuple adapter and the element adapter agree, and on success the
    counters are [i] and [n]. *)
Definition tracks (i n : N) (x : static_aggregate_adapter Rs * error_code) (y : adapters * error_code) : Prop :=
  adapters_ x.1 = y.1 /\ x.2 = y.2 /\ (x.2 = None -> i_ x.1 = i /\ aggregate_size_ x.1 = n).

Lemma static_aggregate_step i n ads nd ec :
  depth nd <> 0 ->
  static_aggregate_call (mk_static_aggregate i n ads) nd ec =
    '(ads, ec) ← visit_at (N.to_nat i) ads nd ec;
    Done (mk_static_aggregate (count i n nd).1 (count i n nd).2 ads, ec).
Proof.
  intros Hd. unfold static_aggregate_call, visit_at. rewrite (proj2 (N.eqb_neq _ _) Hd).
  cbn [i_ aggregate_size_ adapters_]. destruct (visit _ _ _ _) as [[[? ?]|?|?]|]; [|done..].
  cbn. by destruct (count i n nd).
Qed.

Lemma tracks_cons i n ads nd nds i' n' i2 n2 :
  depth nd <> 0 -> count i n nd = (i', n') ->
  (forall ads, orel (tracks i2 n2) (feed static_aggregate_call (mk_static_aggregate i' n' ads) nds)
                 (feed (visit_at (N.to_nat i)) ads nds)) ->
  orel (tracks i2 n2) (feed static_aggregate_call (mk_static_aggregate i n ads) (nd :: nds))
    (feed (visit_at (N.to_nat i)) ads (nd :: nds)).
Proof.
  intros Hd Hc IH. cbn [feed]. rewrite static_aggregate_step, Hc by done.
  destruct (visit_at _ ads nd None) as [[ads' [e|]]|?|?]; cbn; [by constructor|apply IH|done..].
Qed.

Lemma tracks_leaves i nds ads :
  i + 1 < size_modulus -> len nds < size_modulus -> nds <> [] ->
  Forall (fun nd => depth nd <> 0 /\ (depth nd <> 1 \/ is_aggregate (data_type nd) = false)) nds ->
  orel (tracks (i + 1) 0) (feed static_aggregate_call (mk_static_aggregate i (len nds - 1) ads) nds)
    (feed (visit_at (N.to_nat i)) ads nds).
Proof.
  intros Hi Hl Hne Hnds. revert ads. induction Hnds as [|nd nds [Hd Ha] _ IH]; intros ads; [done|].
  rewrite len_cons in *. replace (1 + len nds - 1) with (len nds) by lia.
  assert ((depth nd =? 1) && is_aggregate (data_type nd) = false) as Hagg.
  { destruct Ha as [Ha| ->]; [by rewrite (proj2 (N.eqb_neq _ _) Ha)|apply andb_false_r]. }
  destruct nds as [|nd' nds].
  - eapply tracks_cons; [done| |]; [unfold count; by rewrite Hagg|].
    intros ads'. cbn [feed orel]. unfold tracks. cbn [fst snd adapters_ i_ aggregate_size_]. by rewrite wadd_small.
  - eapply tracks_cons; [done| |].
    + unfold count. rewrite Hagg. rewrite (proj2 (N.eqb_neq _ _)) by (rewrite len_cons; lia). done.
    + intros ads'. rewrite wsub_small by (rewrite len_cons in *; lia). apply IH; [rewrite len_cons in *; lia|done].
Qed.

Lemma tracks_child i c ads :
  i + 1 < size_modulus -> valid c = true -> flat c = true ->
  orel (tracks (i + 1) 0) (feed static_aggregate_call (mk_static_aggregate i 0 ads) (nodes 1 c))
    (feed (visit_at (N.to_nat i)) ads (nodes 1 c)).
Proof.
  intros Hi Hv Hf. destruct (leaf c) eqn:Hleaf.
  - destruct (valid_leaf c 1 Hv Hleaf) as (Ha & _ & Hd). rewrite nodes_leaf by done.
    apply (tracks_leaves i [leaf_node 1 c] ads); [done..|]. constructor; [|constructor]. rewrite Hd. by split; [|right].
  - destruct c as [| |t cs|]; [done..| |done]. cbn [nodes]. change (1 + 1) with 2.
    cbn [flat] in Hf. rewrite nodes_leaves by done.
    cbn [valid] in Hv. rewrite !andb_true_iff, N.ltb_lt, N.eqb_eq in Hv. destruct Hv as [[[Ht Hl] Hm] Hcs].
    assert (count i 0 (mk_node t (aggregate_count t cs) 1 []) =
      if len cs =? 0 then (i +w 1, len cs) else (i, len cs -w 1)) as Hcount.
    { unfold count. cbn [depth data_type aggregate_size N.eqb Pos.eqb]. by rewrite Ht, multiplicity_count. }
    destruct cs as [|c cs].
    + eapply tracks_cons; [done|exact Hcount|]. intros ads'. cbn [map feed orel]. unfold tracks.
      cbn [fst snd adapters_ i_ aggregate_size_]. by rewrite wadd_small.
    + rewrite (proj2 (N.eqb_neq _ _)) in Hcount by (rewrite len_cons; lia).
      rewrite wsub_small in Hcount by (rewrite len_cons in *; lia).
      eapply tracks_cons; [done|exact Hcount|]. intros ads'.
      assert (len (map (leaf_node 2) (c :: cs)) = len (c :: cs)) as <- by (unfold len; by rewrite length_map).
      apply tracks_leaves; [done|unfold len in *; by rewrite length_map|done|].
      apply Forall_map, Forall_forall. intros x Hx. apply list_elem_of_In in Hx.
      rewrite forallb_forall in Hf, Hcs. destruct (valid_leaf x 2 (Hcs x Hx) (Hf x Hx)) as (_ & _ & ->).
      split; [done|by left].
Qed.

Lemma tracks_children i cs ads :
  i + len cs < size_modulus -> forallb valid cs = true -> forallb flat cs = true ->
  orel (tracks (i + len cs) 0) (feed static_aggregate_call (mk_static_aggregate i 0 ads) (concat (map (nodes 1) cs)))
    (feed_children (N.to_nat i) ads cs).
Proof.
  revert i ads. induction cs as [|c cs IH]; intros i ads Hi Hv Hf.
  - cbn. unfold tracks, len. cbn. by rewrite N.add_0_r.
  - cbn [forallb] in Hv, Hf. apply andb_true_iff in Hv as [Hv Hvs], Hf as [Hf Hfs].
    rewrite len_cons in *. cbn [map concat feed_children]. rewrite feed_app.
    eapply orel_bind; [apply tracks_child; [lia|done|done]|].
    intros [[i' n' ads1] ec] [ads2 ec2] (Ha & Hec & Hin). cbn in Ha, Hec, Hin. subst ads2 ec2.
    destruct ec as [e|]; cbn [has_ec]; [done|]. destruct (Hin eq_refl) as [-> ->].
    replace (S (N.to_nat i)) with (N.to_nat (i + 1)) by lia.
    replace (i + (1 + len cs)) with (i + 1 + len cs) by lia. apply IH; [lia|done|done].
Qed.

(** C31: A tuple in a response receives an aggregate of as many children, each
    element the nodes of its own child, when the children are leaves or
    aggregates of leaves; an aggregate of another size is reported. *)
Theorem tuple_response t cs ads :
  message (r_aggregate t cs) -> forallb flat cs = true -> N.of_nat (tuple_size (Rs := Rs)) < size_modulus ->
  ('(a, ec) ← deserialize static_aggregate_call (encode (r_aggregate t cs)) (mk_static_aggregate 0 0 ads) None;
   Done (adapters_ a, ec)) =
  if decide (length cs = tuple_size (Rs := Rs)) then feed_children 0 ads cs
  else Done (ads, make_error_code error.incompatible_size).
Proof.
  intros (Hv & Hh & Hl) Hf Hsize. rewrite deserialize_encode_feed by done. cbn [nodes feed].
  cbn [valid] in Hv. rewrite !andb_true_iff, N.ltb_lt, N.eqb_eq in Hv. destruct Hv as [[[Ht Hlen] Hm] Hcs].
  assert (forall a : static_aggregate_adapter Rs, static_aggregate_call a (mk_node t (aggregate_count t cs) 0 []) None =
    Done (a, if len cs =? N.of_nat (tuple_size (Rs := Rs)) then None else make_error_code error.incompatible_size)) as Hhd.
  { intros a. unfold static_aggregate_call. cbn [depth N.eqb data_type aggregate_size]. unfold wmul.
    rewrite N.mul_comm. fold (wmul (element_multiplicity t) (aggregate_count t cs)).
    rewrite multiplicity_count by done. by destruct (len cs =? _). }
  rewrite Hhd.
  case_decide as Hdec.
  - rewrite (proj2 (N.eqb_eq _ _)) by (unfold len; by rewrite Hdec).
    pose proof (tracks_children 0 cs ads Hlen Hcs Hf) as Htr. change (N.to_nat 0) with 0%nat in Htr.
    change (0 + 1) with 1. cbn.
    destruct (feed static_aggregate_call _ _) as [[a ec]|?|?], (feed_children 0 ads cs) as [[ads' ec']|?|?]; cbn in *; try done.
    + destruct Htr as (Ha & Hec & _). cbn in Ha, Hec. by subst.
    + by subst.
    + by subst.
  - rewrite (proj2 (N.eqb_neq _ _)) by (unfold len; lia). done.
Qed.
End Tuple.

Definition tuple_example : resp3 :=
  r_aggregate type.array
    [r_aggregate type.array [r_blob type.blob_string (bs "a"); r_blob type.blob_string (bs "b")];
     r_blob type.blob_string (bs "c")].

Abbreviation pair_of_vectors := (result (vector 100 bytes) * (result (vector 100 bytes) * unit))%type.

Definition fresh_pair : adapters_array_type (Rs := pair_of_vectors) :=
  (fresh_wrapper (T := vector 100 bytes), (fresh_wrapper (T := vector 100 bytes), tt)).

Lemma tuple_response_witness :
  exists ads,
  ('(a, ec) ← deserialize static_aggregate_call (encode tuple_example)
     (mk_static_aggregate (Rs := pair_of_vectors) 0 0 fresh_pair) None;
   Done (adapters_ a, ec)) = Done (ads, None) /\
  tuple_contents ads = (r_value (Vector [bs "a"; bs "b"]), (r_value (Vector [bs "c"]), tt)).
Proof.
  eexists. split.
  - etransitivity; [apply (tuple_response (Rs := pair_of_vectors)); [split_and!; by vm_compute|reflexivity|by vm_compute]|].
    vm_compute. reflexivity.
  - reflexivity.
Defined.

(** With an aggregate nested two levels below a tuple the element counter
    runs ahead, and [adapters_[i_]] is read past its end. *)
Theorem tuple_overrun :
  deserialize_into
    (encode (r_aggregate type.array
       [r_aggregate type.array [r_aggregate type.array [r_blob type.blob_string (bs "a"); r_blob type.blob_string (bs "b")]];
        r_blob type.blob_string (bs "c")]))
    (r_value (Tuple (r_value (Vector []), (r_value (Vector []), tt))) : result (tuple pair_of_vectors))
  = Fault out_of_bounds.
Proof. reflexivity. Qed.
