(* ===== verification/Multiplexer.v ===== *)
(** * Multiplexer

    [detail/multiplexer.hpp] and [impl/multiplexer.ipp]: the queue of requests of
    a connection.  The queue and the operations that wait for a request share
    its element through a [shared_ptr]; elements live in a store, under the
    identifier that stands for the pointer. *)

From stdpp Require Import gmap.
From S2P Require Import Prelude Charconv Types Parser Serialization Request Adapters Traits.

(** ** [multiplexer::elem] *)

Inductive status := waiting | staged | written.

#[global] Instance status_eq_dec : EqDecision status.
Proof. solve_decision. Defined.

(** [done_] is the callback of the operation that waits; [done_calls] counts its
    invocations. *)
Record elem := mk_elem {
  req_ : request;
  adapter_ : any_adapter;
  done_calls : nat;
  remaining_responses_ : size_t;
  status_ : status;
  ec_ : error_code;
  read_size_ : size_t;
}.

(** [elem::elem]. *)
Definition make_elem (req : request) (adapter : any_adapter) : elem :=
  mk_elem req adapter 0 (get_expected_responses req) waiting None 0.

Definition is_waiting (e : elem) : bool := bool_decide (status_ e = waiting).
Definition is_staged (e : elem) : bool := bool_decide (status_ e = staged).
Definition is_written (e : elem) : bool := bool_decide (status_ e = written).

Definition set_status (s : status) (e : elem) : elem :=
  mk_elem (req_ e) (adapter_ e) (done_calls e) (remaining_responses_ e) s (ec_ e) (read_size_ e).
Definition mark_written : elem -> elem := set_status written.
Definition mark_staged : elem -> elem := set_status staged.
Definition mark_waiting : elem -> elem := set_status waiting.

Definition notify_done (e : elem) : elem :=
  mk_elem (req_ e) (adapter_ e) (S (done_calls e)) (remaining_responses_ e) (status_ e) (ec_ e) (read_size_ e).

(** The first error is kept. *)
Definition notify_error (ec : error_code) (e : elem) : elem :=
  mk_elem (req_ e) (adapter_ e) (S (done_calls e)) (remaining_responses_ e) (status_ e)
    (if has_ec (ec_ e) then ec_ e else ec) (read_size_ e).

Definition commit_response (read_size : size_t) (e : elem) : elem :=
  mk_elem (req_ e) (adapter_ e) (done_calls e) (remaining_responses_ e -w 1) (status_ e) (ec_ e)
    (read_size_ e +w read_size).

Definition set_adapter (a : any_adapter) (e : elem) : elem :=
  mk_elem (req_ e) a (done_calls e) (remaining_responses_ e) (status_ e) (ec_ e) (read_size_ e).

(** A call of the type-erased adapter. *)
Definition any_call (a : any_adapter) (i : size_t) (nd : node) (ec : error_code)
    : outcome (any_adapter * error_code) :=
  '(s, ec) ← adapt_fn a (state_ a) i nd ec;
  Done (mk_any_adapter (any_state a) s (adapt_fn a) (supported_response_size a) (object_ a) (assign_ a), ec).

(** The position of the response that is read next. *)
Definition response_index (e : elem) : size_t :=
  get_expected_responses (req_ e) -w remaining_responses_ e.

(** The adapter the constructor builds around the one it is given. *)
Definition elem_adapter (e : elem) (a : any_adapter) (nd : node) (ec : error_code)
    : outcome (any_adapter * error_code) :=
  any_call a (response_index e) nd ec.

(** ** [usage] *)

Record usage := mk_usage {
  commands_sent : size_t;
  bytes_sent : size_t;
  responses_received : size_t;
  pushes_received : size_t;
  response_bytes_received : size_t;
  push_bytes_received : size_t;
}.

Definition zero_usage : usage := mk_usage 0 0 0 0 0 0.

(** ** [multiplexer] *)

Definition elem_id : Type := nat.

Record multiplexer := mk_multiplexer {
  store : gmap elem_id elem;
  read_buffer_ : bytes;
  write_buffer_ : bytes;
  reqs_ : list elem_id;
  parser_ : parser;
  on_push_ : bool;
  cancel_run_called_ : bool;
  usage_ : usage;
  receive_adapter_ : option any_adapter;
}.

Definition new_multiplexer : multiplexer :=
  mk_multiplexer ∅ [] [] [] Parser.reset false false zero_usage None.

(** Field updates. *)
Definition set_store (m : multiplexer) s :=
  mk_multiplexer s (read_buffer_ m) (write_buffer_ m) (reqs_ m) (parser_ m) (on_push_ m)
    (cancel_run_called_ m) (usage_ m) (receive_adapter_ m).
Definition set_read_buffer (m : multiplexer) b :=
  mk_multiplexer (store m) b (write_buffer_ m) (reqs_ m) (parser_ m) (on_push_ m)
    (cancel_run_called_ m) (usage_ m) (receive_adapter_ m).
Definition set_write_buffer (m : multiplexer) b :=
  mk_multiplexer (store m) (read_buffer_ m) b (reqs_ m) (parser_ m) (on_push_ m)
    (cancel_run_called_ m) (usage_ m) (receive_adapter_ m).
Definition set_reqs (m : multiplexer) l :=
  mk_multiplexer (store m) (read_buffer_ m) (write_buffer_ m) l (parser_ m) (on_push_ m)
    (cancel_run_called_ m) (usage_ m) (receive_adapter_ m).
Definition set_parser (m : multiplexer) p :=
  mk_multiplexer (store m) (read_buffer_ m) (write_buffer_ m) (reqs_ m) p (on_push_ m)
    (cancel_run_called_ m) (usage_ m) (receive_adapter_ m).
Definition set_on_push (m : multiplexer) b :=
  mk_multiplexer (store m) (read_buffer_ m) (write_buffer_ m) (reqs_ m) (parser_ m) b
    (cancel_run_called_ m) (usage_ m) (receive_adapter_ m).
Definition set_cancel_run_called (m : multiplexer) b :=
  mk_multiplexer (store m) (read_buffer_ m) (write_buffer_ m) (reqs_ m) (parser_ m) (on_push_ m)
    b (usage_ m) (receive_adapter_ m).
Definition set_usage (m : multiplexer) u :=
  mk_multiplexer (store m) (read_buffer_ m) (write_buffer_ m) (reqs_ m) (parser_ m) (on_push_ m)
    (cancel_run_called_ m) u (receive_adapter_ m).
Definition set_receive_adapter (m : multiplexer) a :=
  mk_multiplexer (store m) (read_buffer_ m) (write_buffer_ m) (reqs_ m) (parser_ m) (on_push_ m)
    (cancel_run_called_ m) (usage_ m) a.

(** [*ptr]. *)
Definition deref (m : multiplexer) (id : elem_id) : outcome elem :=
  match store m !! id with Some e => Done e | None => Fault out_of_bounds end.

(** A test of the element of a pointer; [false] for a null pointer. *)
Definition test (m : multiplexer) (f : elem -> bool) (id : elem_id) : bool :=
  match store m !! id with Some e => f e | None => false end.

Definition non_null (m : multiplexer) (id : elem_id) : bool := test m (fun _ => true) id.

(** [std::for_each(first, last, [](auto const& ptr) { f( *ptr ) })]. *)
Fixpoint for_each (f : elem -> elem) (ids : list elem_id) (s : gmap elem_id elem) : gmap elem_id elem :=
  match ids with
  | [] => s
  | id :: ids => for_each f ids (alter f id s)
  end.

(** [std::stable_partition]: the two parts. *)
Definition stable_partition (f : elem_id -> bool) (l : list elem_id) : list elem_id * list elem_id :=
  (List.filter f l, List.filter (fun x => negb (f x)) l).

(** [std::partition_point] of a partitioned range: the parts on its two sides. *)
Fixpoint partition_point (f : elem_id -> bool) (l : list elem_id) : list elem_id * list elem_id :=
  match l with
  | [] => ([], [])
  | x :: l' => if f x then let '(a, b) := partition_point f l' in (x :: a, b) else ([], l)
  end.

(** [std::make_shared<elem>(req, adapter)]: a pointer that is not in use. *)
Definition allocate (m : multiplexer) (req : request) (adapter : any_adapter) : multiplexer * elem_id :=
  let id := fresh (dom (store m)) in
  (set_store m (<[id := make_elem req adapter]> (store m)), id).

(** [set_receive_response]. *)
Definition set_receive_response {R} `{ResponseTraits R} (m : multiplexer) (r : R) : outcome multiplexer :=
  a ← boost_redis_adapt r;
  Done (set_receive_adapter m (Some (mk_any_adapter (response_adapter (R := R)) a
    (fun s _ nd ec => adapter_wrapper s nd ec) (get_supported_response_size (R := R)) response_object response_assign))).

(** [remove]: [erase] of the single position [std::remove] returns, the end of
    the queue when the pointer is not in it. *)
Definition remove (m : multiplexer) (ptr : elem_id) : outcome (multiplexer * bool) :=
  e ← deref m ptr;
  if is_waiting e then
    let rest := List.filter (fun x => negb (x =? ptr)%nat) (reqs_ m) in
    if (length rest + 1 =? length (reqs_ m))%nat then Done (set_reqs m rest, true)
    else Fault out_of_bounds
  else Done (m, false).

(** [add]: a request with [HELLO] priority is rotated in front of the waiting
    ones. *)
Definition add (m : multiplexer) (info : elem_id) : outcome multiplexer :=
  e ← deref m info;
  let reqs := reqs_ m ++ [info] in
  if has_hello_priority (req_ e) then
    let '(w, rest) := partition_point (test m is_waiting) (rev reqs) in
    match w with
    | [] => Done (set_reqs m reqs)
    | last :: w' => Done (set_reqs m (rev (w' ++ last :: rest)))
    end
  else Done (set_reqs m reqs).

(** The effect of staging one request. *)
Definition stage (m : multiplexer) (id : elem_id) : multiplexer :=
  match store m !! id with
  | None => m
  | Some e =>
      let u := usage_ m in
      set_usage
        (set_store (set_write_buffer m (write_buffer_ m ++ payload (req_ e)))
           (<[id := mark_staged e]> (store m)))
        (mk_usage (commands_sent u +w get_commands (req_ e)) (bytes_sent u) (responses_received u)
           (pushes_received u) (response_bytes_received u) (push_bytes_received u))
  end.

Definition prepare_write (m : multiplexer) : multiplexer * size_t :=
  let '(_, ids) := partition_point (fun id => negb (test m is_waiting id)) (reqs_ m) in
  let m := foldl stage m ids in
  let u := usage_ m in
  (set_usage m (mk_usage (commands_sent u) (bytes_sent u +w len (write_buffer_ m)) (responses_received u)
     (pushes_received u) (response_bytes_received u) (push_bytes_received u)), len ids).

(** [release_push_requests]. *)
Definition release_push_requests (m : multiplexer) : multiplexer * size_t :=
  let '(kept, released) := stable_partition
    (fun id => negb (test m (fun e => is_written e && (get_expected_responses (req_ e) =? 0)) id)) (reqs_ m) in
  (set_reqs (set_store m (for_each notify_done released (store m))) kept, len released).

(** [commit_write]. *)
Definition commit_write (m : multiplexer) : outcome (multiplexer * size_t) :=
  let m := set_write_buffer m [] in
  _ ← boost_assert (forallb (non_null m) (reqs_ m));
  let m := set_store m
    (for_each (fun e => if is_staged e then mark_written e else e) (reqs_ m) (store m)) in
  Done (release_push_requests m).

(** [is_next_push]. *)
Definition is_next_push (m : multiplexer) : outcome bool :=
  match read_buffer_ m with
  | [] => Fault assertion_failed
  | c :: _ =>
      if type.eqb (to_type c) type.push then Done true
      else
        match reqs_ m with
        | [] => Done true
        | id :: _ =>
            e ← deref m id;
            if remaining_responses_ e =? 0 then Done true else Done (is_waiting e)
        end
  end.

Definition is_waiting_response (m : multiplexer) : outcome bool :=
  match reqs_ m with
  | [] => Done false
  | id :: _ => e ← deref m id; Done (negb (is_waiting e))
  end.

Definition is_writing (m : multiplexer) : bool := negb (bool_decide (write_buffer_ m = [])).

Definition is_data_needed (m : multiplexer) : bool := bool_decide (read_buffer_ m = []).

(** [on_finish_parsing]. *)
Definition on_finish_parsing (m : multiplexer) (is_push : bool) : multiplexer * size_t :=
  let u := usage_ m in
  let n := get_consumed (parser_ m) in
  let u := if is_push
           then mk_usage (commands_sent u) (bytes_sent u) (responses_received u) (pushes_received u +w 1)
                  (response_bytes_received u) (push_bytes_received u +w n)
           else mk_usage (commands_sent u) (bytes_sent u) (responses_received u +w 1) (pushes_received u)
                  (response_bytes_received u +w n) (push_bytes_received u) in
  let m := set_on_push (set_usage m u) false in
  let m := set_read_buffer m (drop (N.to_nat n) (read_buffer_ m)) in
  (set_parser m Parser.reset, n).

(** [tribool]. *)
Definition tribool : Type := option bool.

(** The branch of [commit_read] for pushes. *)
Definition commit_read_push (m : multiplexer) (ec : error_code)
    : outcome (multiplexer * error_code * (tribool * size_t)) :=
  match receive_adapter_ m with
  | None => Throw std_bad_function_call
  | Some a =>
      '(p, a, ec, complete) ← parse (fun a nd ec => any_call a 0 nd ec) (parser_ m) (read_buffer_ m) a ec;
      let m := set_receive_adapter (set_parser m p) (Some a) in
      if negb complete then Done (m, ec, (None, 0))
      else if has_ec ec then Done (m, ec, (Some true, 0))
      else
        let '(m, size) := on_finish_parsing m true in
        Done (m, ec, (Some true, size))
  end.

(** The branch for responses. *)
Definition commit_read_response (m : multiplexer) (ec : error_code)
    : outcome (multiplexer * error_code * (tribool * size_t)) :=
  w ← is_waiting_response m;
  _ ← boost_assert w;
  match reqs_ m with
  | [] => Fault assertion_failed
  | front :: rest =>
      e ← deref m front;
      _ ← boost_assert (negb (remaining_responses_ e =? 0));
      '(p, a, ec, complete) ← parse (elem_adapter e) (parser_ m) (read_buffer_ m) (adapter_ e) ec;
      let e := set_adapter a e in
      let m := set_parser m p in
      if negb complete then Done (set_store m (<[front := e]> (store m)), ec, (None, 0))
      else if has_ec ec then
        Done (set_store m (<[front := notify_error ec e]> (store m)), ec, (Some false, 0))
      else
        let e := commit_response (get_consumed p) e in
        let m := if remaining_responses_ e =? 0
                 then set_reqs (set_store m (<[front := notify_done e]> (store m))) rest
                 else set_store m (<[front := e]> (store m)) in
        let '(m, size) := on_finish_parsing m false in
        Done (m, ec, (Some false, size))
  end.

(** [commit_read]. *)
Definition commit_read (m : multiplexer) (ec : error_code)
    : outcome (multiplexer * error_code * (tribool * size_t)) :=
  m ← (if negb (on_push_ m) then b ← is_next_push m; Done (set_on_push m b) else Done m);
  if on_push_ m then commit_read_push m ec else commit_read_response m ec.

(** [reset]. *)
Definition reset (m : multiplexer) : multiplexer :=
  mk_multiplexer (store m) [] [] (reqs_ m) Parser.reset false false (usage_ m) (receive_adapter_ m).

(** Notify the requests of the second part of a partition, and erase them. *)
Definition cancel_part (m : multiplexer) (kept cancelled : list elem_id) : multiplexer :=
  set_reqs (set_store m (for_each (notify_error (Some operation_aborted)) cancelled (store m))) kept.

(** [cancel_waiting]. *)
Definition cancel_waiting (m : multiplexer) : outcome (multiplexer * size_t) :=
  _ ← boost_assert (forallb (non_null m) (reqs_ m));
  let '(kept, cancelled) := stable_partition (fun id => negb (test m is_waiting id)) (reqs_ m) in
  Done (cancel_part m kept cancelled, len cancelled).

(** The condition under which a request survives the loss of the connection. *)
Definition survives (e : elem) : bool :=
  if is_waiting e then negb (cancel_on_connection_lost (get_config (req_ e)))
  else negb (cancel_if_unresponded (get_config (req_ e))).

(** [cancel_on_conn_lost]. *)
Definition cancel_on_conn_lost (m : multiplexer) : outcome (multiplexer * size_t) :=
  if cancel_run_called_ m then Done (m, 0)
  else
    let m := set_cancel_run_called m true in
    _ ← boost_assert (forallb (non_null m) (reqs_ m));
    let '(kept, cancelled) := stable_partition (test m survives) (reqs_ m) in
    let m := cancel_part m kept cancelled in
    Done (set_store m (for_each mark_waiting (reqs_ m) (store m)), len cancelled).
