(* ===== verification/MultiplexerInvariant.v ===== *)
(** * Invariant of the queue

    The queue holds written requests, then staged ones, then waiting ones, each
    once, and never one whose responses have all been read.  Every operation
    keeps this. *)

From stdpp Require Import gmap sorting.
From S2P Require Import Prelude Charconv Types Parser Serialization Request Adapters Traits Multiplexer.

(** ** Order by status *)

Definition rank (s : status) : nat :=
  match s with written => 0 | staged => 1 | waiting => 2 end.

(** The rank of a queued element. *)
Definition rank_at (s : gmap elem_id elem) (id : elem_id) : nat :=
  match s !! id with Some e => rank (status_ e) | None => 2 end.

Definition ordered (s : gmap elem_id elem) : list elem_id -> Prop :=
  StronglySorted (fun a b => rank_at s a <= rank_at s b)%nat.

(** A request in the queue has a response left to read, unless it expects
    none; one of those is not written, since [commit_write] releases it. *)
Record elem_ok (e : elem) : Prop := {
  ok_expected : get_expected_responses (req_ e) < size_modulus;
  ok_remaining : remaining_responses_ e <= get_expected_responses (req_ e);
  ok_left : remaining_responses_ e = 0 -> get_expected_responses (req_ e) = 0;
  ok_written : status_ e = written -> get_expected_responses (req_ e) <> 0;
}.

Record wf (m : multiplexer) : Prop := {
  wf_nodup : NoDup (reqs_ m);
  wf_ordered : ordered (store m) (reqs_ m);
  wf_elems : forall id, id ∈ reqs_ m -> exists e, store m !! id = Some e /\ elem_ok e;
}.

(** ** Operations as labels *)

Inductive mux_op :=
  | op_add (req : request) (adapter : any_adapter)
  | op_remove (id : elem_id)
  | op_prepare_write
  | op_commit_write
  | op_receive (data : bytes)
  | op_commit_read
  | op_reset
  | op_cancel_waiting
  | op_cancel_on_conn_lost.

(** One operation; [op_receive] is a read of the socket into the buffer. *)
Definition mux_apply (op : mux_op) (m : multiplexer) : outcome multiplexer :=
  match op with
  | op_add req a => let '(m, id) := allocate m req a in add m id
  | op_remove id => '(m, _) ← remove m id; Done m
  | op_prepare_write => Done (prepare_write m).1
  | op_commit_write => '(m, _) ← commit_write m; Done m
  | op_receive data => Done (set_read_buffer m (read_buffer_ m ++ data))
  | op_commit_read => '(m, _, _) ← commit_read m None; Done m
  | op_reset => Done (reset m)
  | op_cancel_waiting => '(m, _) ← cancel_waiting m; Done m
  | op_cancel_on_conn_lost => '(m, _) ← cancel_on_conn_lost m; Done m
  end.

(** The counters of a request fit their type. *)
Definition op_typed (op : mux_op) : Prop :=
  match op with op_add req _ => get_expected_responses req < size_modulus | _ => True end.

Inductive reachable : multiplexer -> Prop :=
  | reachable_new a : reachable (set_receive_adapter new_multiplexer a)
  | reachable_op op m m' :
      reachable m -> op_typed op -> mux_apply op m = Done m' -> reachable m'.

(** ** Stores *)

Lemma for_each_lookup f ids s id :
  NoDup ids -> for_each f ids s !! id = if decide (id ∈ ids) then f <$> s !! id else s !! id.
Proof.
  intros Hnd. revert s. induction Hnd as [|x ids Hx _ IH]; intros s; cbn [for_each].
  - by rewrite decide_False by apply not_elem_of_nil.
  - rewrite IH. destruct (decide (id = x)) as [->|Hne].
    + rewrite decide_False, decide_True by (done || apply elem_of_cons; by left). apply lookup_alter_eq.
    + rewrite lookup_alter_ne by done. by destruct (decide (id ∈ ids)), (decide (id ∈ x :: ids)); set_solver.
Qed.

Lemma ordered_change s s' l :
  (forall a b, a ∈ l -> b ∈ l -> rank_at s a <= rank_at s b -> rank_at s' a <= rank_at s' b)%nat ->
  ordered s l -> ordered s' l.
Proof.
  unfold ordered. intros Hr Hs. induction Hs as [|x l Hl IH Hx]; constructor.
  - apply IH. intros a b Ha Hb. apply Hr; by right.
  - rewrite Forall_forall in *. intros b Hb. apply Hr; [by left|by right|by apply Hx].
Qed.

Lemma ordered_filter s f l : ordered s l -> ordered s (List.filter f l).
Proof.
  unfold ordered. induction 1 as [|x l Hl IH Hx]; cbn; [constructor|]. destruct (f x); [|done].
  constructor; [done|]. rewrite Forall_forall in *. intros b Hb. apply Hx.
  apply list_elem_of_In in Hb. apply filter_In in Hb as [Hb _]. by apply list_elem_of_In.
Qed.

Lemma rank_at_le s id : (rank_at s id <= 2)%nat.
Proof. unfold rank_at. destruct (s !! id) as [e|]; [|done]. destruct (status_ e); cbn; lia. Qed.

(** A waiting element can be put anywhere among the waiting ones. *)
Lemma ordered_insert s a b x :
  ordered s (a ++ b) -> rank_at s x = 2%nat -> Forall (fun y => rank_at s y = 2%nat) b ->
  ordered s (a ++ x :: b).
Proof.
  unfold ordered. induction a as [|y a IH]; cbn [app]; intros Hs Hx Hb.
  - constructor; [done|]. eapply Forall_impl; [apply Hb|]. cbn. lia.
  - inversion Hs as [|? ? Hs' Hy]; subst. constructor; [by apply IH|].
    apply Forall_app in Hy as [Hya Hyb]. apply Forall_app. split; [done|].
    constructor; [rewrite Hx; apply rank_at_le|done].
Qed.

Lemma ordered_before s a b x y :
  ordered s (a ++ b) -> x ∈ a -> y ∈ b -> (rank_at s x <= rank_at s y)%nat.
Proof.
  unfold ordered. induction a as [|z a IH]; cbn [app]; intros Hs Hx Hy; [by apply not_elem_of_nil in Hx|].
  inversion Hs as [|? ? Hs' Hz]; subst. apply elem_of_cons in Hx as [->|Hx]; [|by apply IH].
  rewrite Forall_forall in Hz. apply Hz. apply elem_of_app. by right.
Qed.

Lemma elem_of_reverse_rev (x : elem_id) l : x ∈ l -> x ∈ rev l.
Proof. rewrite !list_elem_of_In. apply in_rev. Qed.

Lemma filter_elem f (l : list elem_id) x : x ∈ List.filter f l <-> x ∈ l /\ f x = true.
Proof. rewrite !list_elem_of_In. apply filter_In. Qed.

Lemma filter_nodup f (l : list elem_id) : NoDup l -> NoDup (List.filter f l).
Proof.
  induction 1 as [|x l Hx _ IH]; cbn; [constructor|]. destruct (f x); [|done].
  constructor; [|done]. rewrite filter_elem. tauto.
Qed.

Lemma partition_point_spec f l a b :
  partition_point f l = (a, b) ->
  l = a ++ b /\ Forall (fun x => f x = true) a /\ (forall x b', b = x :: b' -> f x = false).
Proof.
  revert a b. induction l as [|x l IH]; intros a b; cbn.
  - intros [= <- <-]. by split_and!.
  - destruct (f x) eqn:Hx.
    + destruct (partition_point f l) as [a' b']. intros [= <- <-].
      destruct (IH _ _ eq_refl) as (-> & Ha & Hb). split_and!; [done|by constructor|done].
    + intros [= <- <-]. split_and!; [done|done|]. by intros ? ? [= <- <-].
Qed.

Lemma test_true m f id : test m f id = true <-> exists e, store m !! id = Some e /\ f e = true.
Proof. unfold test. destruct (store m !! id); naive_solver. Qed.

Lemma rank_waiting e : is_waiting e = true <-> rank (status_ e) = 2%nat.
Proof. unfold is_waiting. rewrite bool_decide_eq_true. by destruct (status_ e). Qed.

Lemma test_waiting_rank m id : test m is_waiting id = true -> rank_at (store m) id = 2%nat.
Proof. rewrite test_true. intros (e & He & Hw). unfold rank_at. rewrite He. by apply rank_waiting. Qed.

(** ** Preservation *)

Lemma filter_true (l : list elem_id) : List.filter (fun _ => true) l = l.
Proof. induction l as [|x l IH]; cbn; [done|]. by rewrite IH. Qed.

(** The common case: some elements leave the queue, and the status of the
    others changes in a monotone way. *)
Lemma wf_change m m' f g :
  wf m -> reqs_ m' = List.filter f (reqs_ m) ->
  (forall a b, a <= b -> g a <= g b)%nat ->
  (forall id e, id ∈ reqs_ m' -> store m !! id = Some e -> elem_ok e ->
     exists e', store m' !! id = Some e' /\ elem_ok e' /\ rank (status_ e') = g (rank (status_ e))) ->
  wf m'.
Proof.
  intros [Hnd Hord Hel] Hreqs Hg Hst.
  assert (forall id, id ∈ reqs_ m' -> id ∈ reqs_ m) as Hsub.
  { intros id. rewrite Hreqs, filter_elem. tauto. }
  assert (forall id, id ∈ reqs_ m' -> rank_at (store m') id = g (rank_at (store m) id)) as Hrank.
  { intros id Hid. destruct (Hel _ (Hsub _ Hid)) as (e & He & Hok).
    destruct (Hst _ _ Hid He Hok) as (e' & He' & _ & Hr). unfold rank_at. by rewrite He, He'. }
  split.
  - rewrite Hreqs. by apply filter_nodup.
  - apply (ordered_change (store m)); [|rewrite Hreqs; by apply ordered_filter].
    intros a b Ha Hb Hab. rewrite !Hrank by done. by apply Hg.
  - intros id Hid. destruct (Hel _ (Hsub _ Hid)) as (e & He & Hok).
    destruct (Hst _ _ Hid He Hok) as (e' & ? & ? & _). eauto.
Qed.

(** Operations that touch neither the queue nor the store. *)
Lemma wf_same m m' : wf m -> reqs_ m' = reqs_ m -> store m' = store m -> wf m'.
Proof.
  intros Hwf Hr Hs. apply (wf_change m m' (fun _ => true) (fun x => x)); [done|by rewrite filter_true|done|].
  intros i e _ He Hok. rewrite Hs. eauto.
Qed.

Lemma set_status_ok s e : elem_ok e -> s <> written -> elem_ok (set_status s e).
Proof. intros [] Hs. by split. Qed.

Lemma wf_allocate m req a m' id :
  wf m -> allocate m req a = (m', id) ->
  wf m' /\ (id ∉ reqs_ m') /\ reqs_ m' = reqs_ m /\ store m' !! id = Some (make_elem req a).
Proof.
  unfold allocate. intros Hwf [= <- <-]. cbn [reqs_ set_store store].
  assert (fresh (dom (store m)) ∉ reqs_ m) as Hfresh.
  { intros Hin. destruct (wf_elems _ Hwf _ Hin) as (e & He & _).
    apply (is_fresh (dom (store m))), elem_of_dom. by exists e. }
  split_and!; [|done|done|apply lookup_insert_eq].
  apply (wf_change m _ (fun _ => true) (fun x => x)); [done|by rewrite filter_true|done|].
  intros i e Hi He Hok. cbn [store set_store reqs_] in *. exists e.
  rewrite lookup_insert_ne; [done|]. intros <-. done.
Qed.

(** Where [add] puts its element. *)
Lemma add_split m id e m' :
  wf m -> store m !! id = Some e -> is_waiting e = true -> add m id = Done m' ->
  exists a b, reqs_ m = a ++ b /\ reqs_ m' = a ++ id :: b /\ store m' = store m /\
    Forall (fun x => test m is_waiting x = true) b /\
    (if has_hello_priority (req_ e) then Forall (fun x => test m is_waiting x = false) a else b = []).
Proof.
  intros [_ Hord Hel] He Hw. unfold add, deref. rewrite He. cbn.
  destruct (has_hello_priority (req_ e)).
  2: { intros [= <-]. exists (reqs_ m), []. by rewrite app_nil_r. }
  destruct (partition_point _ _) as [w rest] eqn:Hpp.
  apply partition_point_spec in Hpp as (Heq & Hall & Hrest). rewrite rev_app_distr in Heq. cbn in Heq.
  destruct w as [|x w]; cbn in Heq.
  { specialize (Hrest id (rev (reqs_ m)) (eq_sym Heq)). unfold test in Hrest. rewrite He in Hrest. congruence. }
  injection Heq as <- Heq. intros [= <-]. exists (rev rest), (rev w). cbn [reqs_ set_reqs store].
  assert (reqs_ m = rev rest ++ rev w) as Hr by (by rewrite <-rev_app_distr, <-Heq, rev_involutive).
  rewrite rev_app_distr. cbn [rev]. rewrite <-(assoc_L (++)).
  split_and!; [done|done|done|by inv Hall; apply Forall_rev|]. apply Forall_rev.
  destruct rest as [|y rest]; [constructor|]. pose proof (Hrest y rest eq_refl) as Hy.
  constructor; [done|]. rewrite Hr in Hord. cbn [rev] in Hord. rewrite <-(assoc_L (++)) in Hord.
  apply Forall_forall. intros z Hz. destruct (test m is_waiting z) eqn:Hwz; [|done].
  apply test_waiting_rank in Hwz.
  assert (rank_at (store m) z <= rank_at (store m) y)%nat as Hle.
  { apply (ordered_before _ (rev rest) (y :: rev w)); [done|by apply elem_of_reverse_rev|by left]. }
  exfalso. destruct (Hel y) as (ey & Hey & _).
  { rewrite Hr. cbn [rev]. set_solver. }
  unfold test in Hy. rewrite Hey in Hy. pose proof (rank_at_le (store m) y).
  assert (rank_at (store m) y = 2%nat) as Hy2 by lia. unfold rank_at in Hy2. rewrite Hey in Hy2.
  apply rank_waiting in Hy2. congruence.
Qed.

Lemma wf_add m id e m' :
  wf m -> id ∉ reqs_ m -> store m !! id = Some e -> elem_ok e -> is_waiting e = true ->
  add m id = Done m' ->
  wf m' /\ store m' = store m /\
  exists a b, reqs_ m = a ++ b /\ reqs_ m' = a ++ id :: b /\ Forall (fun x => test m is_waiting x = true) b /\
    (if has_hello_priority (req_ e) then Forall (fun x => test m is_waiting x = false) a else b = []).
Proof.
  intros Hwf Hnin He Hok Hw Hadd.
  destruct (add_split m id e m') as (a & b & Hr & Hr' & Hs & Hb & Hprio); [done..|].
  split; [|split; [done|exists a, b; by split_and!]]. destruct Hwf as [Hnd Hord Hel].
  split; rewrite ?Hr', ?Hs.
  - rewrite Hr in Hnd, Hnin. apply NoDup_app in Hnd as (Ha & Hd & Hb'). apply NoDup_app.
    apply not_elem_of_app in Hnin as [Hna Hnb]. split_and!; [done| |by constructor].
    intros x Hx. rewrite not_elem_of_cons. split; [by intros ->|by apply Hd].
  - apply ordered_insert; [by rewrite <-Hr| |].
    + unfold rank_at. rewrite He. by apply rank_waiting.
    + eapply Forall_impl; [apply Hb|]. intros x. apply test_waiting_rank.
  - intros x Hx. rewrite elem_of_app, elem_of_cons in Hx. destruct (decide (x = id)) as [->|Hne]; [eauto|].
    apply Hel. rewrite Hr, elem_of_app. tauto.
Qed.

Lemma wf_remove m id m' b :
  wf m -> remove m id = Done (m', b) ->
  wf m' /\ store m' = store m /\
  reqs_ m' = if b then List.filter (fun x => negb (x =? id)%nat) (reqs_ m) else reqs_ m.
Proof.
  intros Hwf. unfold remove, deref. destruct (store m !! id) as [e|] eqn:He; [|done]. cbn.
  destruct (is_waiting e); [|by intros [= <- <-]].
  destruct (_ =? _)%nat; [|done]. intros [= <- <-]. split; [|done].
  eapply (wf_change m _ _ (fun x => x)); [done|reflexivity|done|]. intros i ei _ Hei Hok. eauto.
Qed.

(** The statuses of a queue that splits at a waiting element. *)
Lemma partition_waiting m a b :
  wf m -> partition_point (fun id => negb (test m is_waiting id)) (reqs_ m) = (a, b) ->
  reqs_ m = a ++ b /\ Forall (fun x => test m is_waiting x = false) a /\
  Forall (fun x => test m is_waiting x = true) b.
Proof.
  intros [_ Hord Hel] Hpp. apply partition_point_spec in Hpp as (Hr & Ha & Hb).
  split_and!; [done|eapply Forall_impl; [apply Ha|]; intros x; apply negb_true_iff|].
  destruct b as [|y b]; [constructor|]. pose proof (Hb y b eq_refl) as Hy. apply negb_false_iff in Hy.
  constructor; [done|]. apply Forall_forall. intros z Hz. apply test_waiting_rank in Hy.
  assert (rank_at (store m) y <= rank_at (store m) z)%nat as Hle.
  { apply (ordered_before _ (a ++ [y]) b); [rewrite <-(assoc_L (++)); cbn [app]; by rewrite <-Hr| |done].
    apply elem_of_app. right. by left. }
  destruct (Hel z) as (e & He & _); [rewrite Hr; set_solver|]. apply test_true. exists e. split; [done|].
  apply rank_waiting. pose proof (rank_at_le (store m) z). unfold rank_at in *. rewrite He in *. lia.
Qed.

(** The store and the buffer after staging. *)
Lemma stage_fold m ids :
  NoDup ids -> (forall id, id ∈ ids -> is_Some (store m !! id)) ->
  let m' := foldl stage m ids in
  reqs_ m' = reqs_ m /\ read_buffer_ m' = read_buffer_ m /\ parser_ m' = parser_ m /\
  on_push_ m' = on_push_ m /\
  (forall id, store m' !! id = if decide (id ∈ ids) then mark_staged <$> store m !! id else store m !! id) /\
  write_buffer_ m' = write_buffer_ m ++
    concat (map (fun id => from_option (fun e => payload (req_ e)) [] (store m !! id)) ids).
Proof.
  intros Hnd. revert m. induction Hnd as [|x ids Hx Hnd IH]; intros m Hin; cbn [foldl].
  - split_and!; [done..| |by rewrite app_nil_r]. intros id. by rewrite decide_False by apply not_elem_of_nil.
  - destruct (Hin x) as [e He]; [by left|].
    destruct (IH (stage m x)) as (Hr & Hb & Hp & Ho & Hs & Hw).
    { intros id Hid. unfold stage. rewrite He. cbn. rewrite lookup_insert_ne by (by intros ->). apply Hin. by right. }
    rewrite Hr, Hb, Hp, Ho, Hw. unfold stage in Hs |- *. rewrite He in Hs |- *. cbn in Hs |- *.
    split_and!; [done..| |].
    + intros id. rewrite Hs. destruct (decide (id = x)) as [->|Hne].
      * rewrite decide_False, decide_True, lookup_insert_eq, He by (done || by left). done.
      * rewrite lookup_insert_ne by done. by destruct (decide (id ∈ ids)), (decide (id ∈ x :: ids)); set_solver.
    + rewrite He. cbn. rewrite <-(assoc_L (++)). do 3 f_equal. apply map_ext_in. intros id Hid.
      rewrite lookup_insert_ne; [done|]. intros ->. by apply Hx, list_elem_of_In.
Qed.

Lemma wf_prepare_write m : wf m -> wf (prepare_write m).1.
Proof.
  intros Hwf. unfold prepare_write. destruct (partition_point _ _) as [a ids] eqn:Hpp.
  apply partition_waiting in Hpp as (Hr & Ha & Hb); [|done].
  assert (NoDup ids) as Hnd by (pose proof (wf_nodup _ Hwf) as H; rewrite Hr in H; apply NoDup_app in H; tauto).
  destruct (stage_fold m ids Hnd) as (Hr' & _ & _ & _ & Hs & _).
  { intros id Hid. destruct (wf_elems _ Hwf id) as (e & He & _); [rewrite Hr; set_solver|]. by exists e. }
  apply (wf_change m _ (fun _ => true) (fun x => x `min` 1)%nat); [done|by rewrite filter_true|lia|].
  cbn [fst reqs_ set_usage store]. intros i e Hi He Hok. rewrite Hs, He. rewrite Hr', Hr in Hi.
  destruct (decide (i ∈ ids)) as [Hin|Hin]; cbn.
  - rewrite Forall_forall in Hb. apply Hb, test_waiting_rank in Hin. unfold rank_at in Hin. rewrite He in Hin.
    eexists. split_and!; [done|by apply set_status_ok|by rewrite Hin].
  - exists e. split_and!; [done|done|]. apply elem_of_app in Hi as [Hi|Hi]; [|done].
    rewrite Forall_forall in Ha. apply Ha in Hi. unfold test in Hi. rewrite He in Hi.
    unfold is_waiting in Hi. apply bool_decide_eq_false in Hi. by destruct (status_ e).
Qed.

Lemma wf_non_null m : wf m -> forallb (non_null m) (reqs_ m) = true.
Proof.
  intros Hwf. apply forallb_forall. intros id Hid. apply list_elem_of_In in Hid.
  destruct (wf_elems _ Hwf _ Hid) as (e & He & _). unfold non_null, test. by rewrite He.
Qed.

(** The queue and the store after [commit_write]. *)
Definition written_after (e : elem) : elem := if is_staged e then mark_written e else e.

Definition released (e : elem) : bool :=
  is_written (written_after e) && (get_expected_responses (req_ e) =? 0).

Lemma written_after_req e : req_ (written_after e) = req_ e.
Proof. unfold written_after. by destruct (is_staged e). Qed.

Lemma commit_write_spec m :
  wf m ->
  exists m', commit_write m = Done (m', len (List.filter (test m released) (reqs_ m))) /\
  write_buffer_ m' = [] /\ read_buffer_ m' = read_buffer_ m /\
  (parser_ m' = parser_ m /\ on_push_ m' = on_push_ m) /\
  reqs_ m' = List.filter (fun id => negb (test m released id)) (reqs_ m) /\
  (forall id, store m' !! id =
     if decide (id ∈ reqs_ m) then
       (fun e => if released e then notify_done (written_after e) else written_after e) <$> store m !! id
     else store m !! id).
Proof.
  intros Hwf. unfold commit_write. change (forallb (non_null (set_write_buffer m [])) (reqs_ (set_write_buffer m [])))
    with (forallb (non_null m) (reqs_ m)). rewrite wf_non_null by done. cbn [boost_assert mbind outcome_bind].
  set (s1 := for_each written_after (reqs_ m) (store m)).
  assert (forall id, s1 !! id = if decide (id ∈ reqs_ m) then written_after <$> store m !! id else store m !! id)
    as Hs1 by (intros; apply for_each_lookup, Hwf).
  assert (forall id, id ∈ reqs_ m ->
    test (set_store (set_write_buffer m []) s1) (fun e => is_written e && (get_expected_responses (req_ e) =? 0)) id
    = test m released id) as Htest.
  { intros id Hid. unfold test. cbn [store set_store]. rewrite Hs1, decide_True by done.
    destruct (store m !! id) as [e|]; [|done]. cbn. unfold released. by rewrite written_after_req. }
  eexists. split; [|split_and!]; cbn.
  - do 2 f_equal. fold s1. unfold release_push_requests, stable_partition. cbn [reqs_ set_store set_write_buffer].
    f_equal. apply filter_ext_in. intros id Hid. rewrite negb_involutive. apply Htest. by apply list_elem_of_In.
  - done.
  - done.
  - done.
  - done.
  - apply filter_ext_in. intros id Hid. f_equal. apply Htest. by apply list_elem_of_In.
  - intros id. cbn [store set_store set_reqs]. rewrite for_each_lookup by apply filter_nodup, Hwf. fold s1. rewrite Hs1.
    destruct (decide (id ∈ reqs_ m)) as [Hid|Hid].
    + destruct (store m !! id) as [e|] eqn:He; cbn; [|by destruct (decide _)].
      assert (released e = test m released id) as -> by (unfold test; by rewrite He).
      destruct (decide _) as [Hd|Hd]; rewrite filter_elem, negb_involutive, Htest in Hd by done.
      * destruct Hd as [_ ->]. done.
      * destruct (test m released id); [|done]. by destruct Hd.
    + rewrite decide_False; [done|]. rewrite filter_elem. tauto.
Qed.

Lemma wf_commit_write m m' n : wf m -> commit_write m = Done (m', n) -> wf m'.
Proof.
  intros Hwf Hc. destruct (commit_write_spec m Hwf) as (m1 & Hm1 & _ & _ & _ & Hr & Hs).
  rewrite Hm1 in Hc. injection Hc as <- _.
  apply (wf_change m m1 (fun id => negb (test m released id)) (fun x => if (x =? 1)%nat then 0%nat else x)); [done|done| |].
  { intros a b Hab. destruct (Nat.eqb_spec a 1), (Nat.eqb_spec b 1); lia. }
  intros id e Hid He Hok. rewrite Hr, filter_elem in Hid. destruct Hid as [Hid Hrel].
  unfold test in Hrel. rewrite He in Hrel. apply negb_true_iff in Hrel.
  exists (written_after e). rewrite Hs, decide_True, He by done. cbn. rewrite Hrel. split_and!; [done| |].
  - unfold released in Hrel. destruct Hok as [H1 H2 H3 H4]. unfold written_after in *.
    destruct (is_staged e) eqn:Hst; [|done]. split; [done..|]. intros _.
    assert (is_written (mark_written e) = true) as Hw by done. rewrite Hw in Hrel. by apply N.eqb_neq.
  - by destruct e as [? ? ? ? [] ? ?].
Qed.

(** The two parts of a cancellation. *)
Lemma cancel_part_lookup m f kept cancelled id :
  wf m -> stable_partition f (reqs_ m) = (kept, cancelled) ->
  store (cancel_part m kept cancelled) !! id =
    if decide (id ∈ cancelled) then notify_error (Some operation_aborted) <$> store m !! id else store m !! id.
Proof.
  intros Hwf [= <- <-]. cbn. apply for_each_lookup, filter_nodup, Hwf.
Qed.

Lemma cancel_part_kept m f kept cancelled id :
  wf m -> stable_partition f (reqs_ m) = (kept, cancelled) -> id ∈ kept ->
  store (cancel_part m kept cancelled) !! id = store m !! id.
Proof.
  intros Hwf Hp Hid. rewrite (cancel_part_lookup _ _ _ _ _ Hwf Hp). injection Hp as <- <-.
  rewrite decide_False; [done|]. rewrite filter_elem in *. intros [_ Hn]. destruct Hid as [_ Hf].
  rewrite Hf in Hn. done.
Qed.

Lemma wf_cancel_part m f kept cancelled :
  wf m -> stable_partition f (reqs_ m) = (kept, cancelled) -> wf (cancel_part m kept cancelled).
Proof.
  intros Hwf Hp. pose proof Hp as [= Hk _].
  apply (wf_change m _ f (fun x => x)); [done|by rewrite Hk|done|].
  intros id e Hid He Hok. exists e. by rewrite (cancel_part_kept m f kept cancelled id Hwf Hp Hid).
Qed.

Lemma wf_cancel_waiting m m' n : wf m -> cancel_waiting m = Done (m', n) -> wf m'.
Proof.
  intros Hwf. unfold cancel_waiting. rewrite wf_non_null by done. cbn [boost_assert mbind outcome_bind].
  destruct (stable_partition _ _) as [kept cancelled] eqn:Hp. cbn. intros [= <- _]. by eapply wf_cancel_part.
Qed.

Lemma wf_mark_waiting m : wf m -> wf (set_store m (for_each mark_waiting (reqs_ m) (store m))).
Proof.
  intros Hwf. apply (wf_change m _ (fun _ => true) (fun _ => 2%nat)); [done|by rewrite filter_true|done|].
  intros id e Hid He Hok. cbn in *. rewrite for_each_lookup, decide_True, He by (done || apply Hwf).
  eexists. split_and!; [done|by apply set_status_ok|done].
Qed.

Lemma wf_cancel_on_conn_lost m m' n : wf m -> cancel_on_conn_lost m = Done (m', n) -> wf m'.
Proof.
  intros Hwf. unfold cancel_on_conn_lost. destruct (cancel_run_called_ m); [by intros [= <- _]|].
  assert (wf (set_cancel_run_called m true)) as Hwf' by (by eapply wf_same).
  rewrite wf_non_null by done. cbn [boost_assert mbind outcome_bind].
  destruct (stable_partition _ _) as [kept cancelled] eqn:Hp. cbn. intros [= <- _].
  apply wf_mark_waiting. by eapply wf_cancel_part.
Qed.

(** ** [commit_read] *)

Lemma wf_update m front e e' :
  wf m -> store m !! front = Some e -> status_ e' = status_ e -> elem_ok e' ->
  wf (set_store m (<[front := e']> (store m))).
Proof.
  intros Hwf He Hst Hok'. apply (wf_change m _ (fun _ => true) (fun x => x)); [done|by rewrite filter_true|done|].
  intros id x _ Hx Hok. cbn. destruct (decide (id = front)) as [->|Hne].
  - rewrite lookup_insert_eq. exists e'. split_and!; [done|done|]. rewrite He in Hx. injection Hx as <-. by rewrite Hst.
  - rewrite lookup_insert_ne by done. eauto.
Qed.

(** The front leaves the queue, whatever its element has become. *)
Lemma wf_pop m front rest e' :
  wf m -> reqs_ m = front :: rest -> wf (set_reqs (set_store m (<[front := e']> (store m))) rest).
Proof.
  intros Hwf Hr. pose proof (wf_nodup _ Hwf) as Hnd. rewrite Hr in Hnd. apply NoDup_cons in Hnd as [Hnin Hnd].
  apply (wf_change m _ (fun id => negb (id =? front)%nat) (fun x => x)); [done| |done|].
  - rewrite Hr. cbn. rewrite Nat.eqb_refl. cbn. symmetry. clear -Hnin.
    induction rest as [|y rest IH]; [done|]. apply not_elem_of_cons in Hnin as [Hy Hn]. cbn.
    rewrite (proj2 (Nat.eqb_neq y front)) by done. cbn. by rewrite IH.
  - intros id x Hid Hx Hok. cbn in *. exists x. rewrite lookup_insert_ne; [done|]. by intros ->.
Qed.

Lemma set_adapter_ok a e : elem_ok e -> elem_ok (set_adapter a e).
Proof. by intros []. Qed.

Lemma commit_response_ok n e :
  elem_ok e -> remaining_responses_ e <> 0 -> remaining_responses_ (commit_response n e) <> 0 ->
  elem_ok (commit_response n e).
Proof.
  intros [He Hr Hl Hw] Hne Hne'. split; [done| |done|done].
  cbn [commit_response remaining_responses_ req_]. rewrite wsub_small by lia. lia.
Qed.

Lemma wf_finish m b : wf m -> wf (on_finish_parsing m b).1.
Proof. intros Hwf. by eapply wf_same. Qed.

Lemma wf_commit_read_push m ec m' ec' r : wf m -> commit_read_push m ec = Done (m', ec', r) -> wf m'.
Proof.
  intros Hwf. unfold commit_read_push. destruct (receive_adapter_ m) as [a|]; [|done].
  destruct (parse _ _ _ _ _) as [[[[p a'] ec1] [|]]|?|?]; cbn; [|by intros [= <- _ _]; eapply wf_same|done..].
  destruct (has_ec ec1); cbn; intros [= <- _ _]; by eapply wf_same.
Qed.

Lemma wf_commit_read_response m ec m' ec' r : wf m -> commit_read_response m ec = Done (m', ec', r) -> wf m'.
Proof.
  intros Hwf. unfold commit_read_response, is_waiting_response, deref.
  destruct (reqs_ m) as [|front rest] eqn:Hreqs; [done|].
  destruct (wf_elems _ Hwf front) as (e & He & Hok); [rewrite Hreqs; by left|]. rewrite He. cbn [mbind outcome_bind].
  destruct (negb (is_waiting e)); [|done]. cbn [boost_assert mbind outcome_bind].
  destruct (N.eqb_spec (remaining_responses_ e) 0) as [?|Hrem]; [done|]. cbn [negb boost_assert mbind outcome_bind].
  destruct (parse _ _ _ _ _) as [[[[p a'] ec1] [|]]|?|?]; cbn [negb mbind outcome_bind]; [| |done..].
  2: { intros [= <- _ _]. eapply (wf_update (set_parser m p) front e); [by eapply wf_same|done|done|by apply set_adapter_ok]. }
  destruct (has_ec ec1).
  { intros [= <- _ _]. eapply (wf_update (set_parser m p) front e); [by eapply wf_same|done|done|by destruct Hok]. }
  destruct (N.eqb_spec (remaining_responses_ (commit_response (get_consumed p) (set_adapter a' e))) 0) as [Hz|Hz].
  - destruct (on_finish_parsing _ _) as [m2 n] eqn:Hfin. cbn. intros [= <- _ _].
    change m2 with (m2, n).1. rewrite <-Hfin. apply wf_finish, (wf_pop (set_parser m p)); [by eapply wf_same|done].
  - destruct (on_finish_parsing _ _) as [m2 n] eqn:Hfin. cbn. intros [= <- _ _].
    change m2 with (m2, n).1. rewrite <-Hfin. apply wf_finish.
    eapply (wf_update (set_parser m p) front e); [by eapply wf_same|done|done|].
    apply commit_response_ok; [by apply set_adapter_ok|done|done].
Qed.

Lemma wf_commit_read m ec m' ec' r : wf m -> commit_read m ec = Done (m', ec', r) -> wf m'.
Proof.
  intros Hwf. unfold commit_read.
  assert (forall m1, wf m1 -> (if on_push_ m1 then commit_read_push m1 ec else commit_read_response m1 ec)
    = Done (m', ec', r) -> wf m') as Hrest.
  { intros m1 Hwf1. destruct (on_push_ m1); [by apply wf_commit_read_push|by apply wf_commit_read_response]. }
  destruct (negb (on_push_ m)); [|by apply Hrest].
  destruct (is_next_push m) as [b|?|?]; [|done..]. apply (Hrest (set_on_push m b)). by eapply wf_same.
Qed.

Lemma wf_apply op m m' : wf m -> op_typed op -> mux_apply op m = Done m' -> wf m'.
Proof.
  intros Hwf Hty. destruct op as [req a|id| | |data| | | |]; cbn [mux_apply].
  - destruct (allocate m req a) as [m1 id] eqn:Hal. apply wf_allocate in Hal as (Hwf1 & Hnin & Hr & Hs); [|done].
    intros Hadd. by apply (wf_add m1 id (make_elem req a)).
  - destruct (remove m id) as [[m1 b]|?|?] eqn:Hrm; [|done..]. intros [= <-]. by eapply wf_remove.
  - intros [= <-]. by apply wf_prepare_write.
  - destruct (commit_write m) as [[m1 n]|?|?] eqn:Hc; [|done..]. intros [= <-]. by eapply wf_commit_write.
  - intros [= <-]. by eapply wf_same.
  - destruct (commit_read m None) as [[[m1 ec] r]|?|?] eqn:Hc; [|done..]. intros [= <-]. by eapply wf_commit_read.
  - intros [= <-]. by eapply wf_same.
  - destruct (cancel_waiting m) as [[m1 n]|?|?] eqn:Hc; [|done..]. intros [= <-]. by eapply wf_cancel_waiting.
  - destruct (cancel_on_conn_lost m) as [[m1 n]|?|?] eqn:Hc; [|done..]. intros [= <-]. by eapply wf_cancel_on_conn_lost.
Qed.

Lemma reachable_wf m : reachable m -> wf m.
Proof.
  induction 1 as [a|op m m' _ IH Hty Hop]; [|by eapply wf_apply].
  split; cbn; [constructor..|]. intros id Hid. by apply not_elem_of_nil in Hid.
Qed.
