(* ===== verification/MultiplexerRead.v ===== *)
(** * Reading

    [commit_read] on the bytes of RESP3 messages: responses go to the request at
    the front of the queue, at the position of the response in its pipeline;
    pushes go to the receive adapter. *)

From stdpp Require Import gmap.
From S2P Require Import Prelude Charconv Types Parser ParserSpec ParserSafety Resp3 ParserCorrect.
From S2P Require Import Serialization Request Adapters Traits AdapterTheorems Multiplexer MultiplexerInvariant.

(** Between two messages. *)
Definition idle (m : multiplexer) : Prop := parser_ m = Parser.reset /\ on_push_ m = false.

(** A message in front of the other bytes of the buffer. *)
Definition buffered (m : multiplexer) (r : resp3) (rest : bytes) : Prop :=
  read_buffer_ m = encode r ++ rest /\ valid r = true /\ height r <= max_embedded_depth /\
  len (encode r ++ rest) < size_modulus.

(** The request that answers go to. *)
Definition answering (m : multiplexer) (front : elem_id) (others : list elem_id) (e : elem) : Prop :=
  reqs_ m = front :: others /\ store m !! front = Some e /\ status_ e <> waiting /\
  remaining_responses_ e <> 0.

(** The front request after one of its responses. *)
Definition answered (e : elem) (a : any_adapter) (n : size_t) : elem :=
  let e' := commit_response n (set_adapter a e) in
  if remaining_responses_ e' =? 0 then notify_done e' else e'.

(** The queue after it. *)
Definition queue_after (front : elem_id) (others : list elem_id) (e : elem) : list elem_id :=
  if remaining_responses_ e -w 1 =? 0 then others else front :: others.

(** ** The first byte of a message *)

Lemma encode_head r :
  valid r = true -> exists c v, encode r = c :: v /\
    type.eqb (to_type c) type.push = match root_type r with type.push => true | _ => false end.
Proof.
  destruct r as [t v|t v|t cs|ps]; cbn [encode valid root_type]; unfold line.
  - unfold simple_ok. rewrite andb_true_iff. intros [_ Ht]. eexists _, _. split; [reflexivity|]. by destruct t.
  - rewrite andb_true_iff. intros [Ht _]. eexists _, _. split; [reflexivity|]. by destruct t.
  - intros Hv. eexists _, _. split; [reflexivity|]. by destruct t.
  - intros _. eexists _, _. by split.
Qed.

Lemma is_next_push_message m r rest :
  buffered m r rest ->
  is_next_push m =
    match root_type r with
    | type.push => Done true
    | _ => match reqs_ m with
           | [] => Done true
           | id :: _ => e ← deref m id; if remaining_responses_ e =? 0 then Done true else Done (is_waiting e)
           end
    end.
Proof.
  intros (Hb & Hv & _). destruct (encode_head r Hv) as (c & v & Hc & Hp).
  unfold is_next_push. rewrite Hb, Hc. cbn [app]. rewrite Hp. by destruct (root_type r).
Qed.

Lemma next_is_response m r rest front others e :
  buffered m r rest -> answering m front others e -> root_type r <> type.push ->
  is_next_push m = Done false.
Proof.
  intros Hbuf (Hr & He & Hst & Hrem) Hpush.
  rewrite (is_next_push_message m r rest Hbuf), Hr. unfold deref. rewrite He. cbn.
  rewrite (proj2 (N.eqb_neq _ _) Hrem). unfold is_waiting. rewrite bool_decide_false by done.
  by destruct (root_type r).
Qed.

(** What [commit_read] does with the outcome of [parse] on a response. *)
Definition response_parsed (m : multiplexer) (front : elem_id) (rest : list elem_id) (e : elem)
    (x : parser * any_adapter * error_code * bool)
    : outcome (multiplexer * error_code * (tribool * size_t)) :=
  let '(p, a, ec, complete) := x in
  let e := set_adapter a e in
  let m := set_parser m p in
  if negb complete then Done (set_store m (<[front := e]> (store m)), ec, (None, 0))
  else if has_ec ec then
    Done (set_store m (<[front := notify_error ec e]> (store m)), ec, (Some false, 0))
  else
    let e := commit_response (get_consumed p) e in
    let m := if remaining_responses_ e =? 0
             then set_reqs (set_store m (<[front := notify_done e]> (store m))) rest
             else set_store m (<[front := e]> (store m)) in
    let '(m, size) := on_finish_parsing m false in
    Done (m, ec, (Some false, size)).

(** The assertions of [commit_read] hold when a response can be read. *)
Lemma commit_read_answering m front others e :
  on_push_ m = false -> is_next_push m = Done false -> answering m front others e ->
  commit_read m None =
    parse (elem_adapter e) (parser_ m) (read_buffer_ m) (adapter_ e) None ≫=
      response_parsed (set_on_push m false) front others e.
Proof.
  intros Hpush0 Hnp (Hr & He & Hst & Hrem).
  unfold commit_read. rewrite Hpush0, Hnp. cbn [negb mbind outcome_bind on_push_ set_on_push].
  unfold commit_read_response, is_waiting_response, deref. cbn [reqs_ store set_on_push]. rewrite Hr, He.
  cbn [mbind outcome_bind]. unfold is_waiting. rewrite bool_decide_false by done. cbn [negb boost_assert mbind outcome_bind].
  rewrite (proj2 (N.eqb_neq _ _) Hrem). done.
Qed.

Lemma drop_message r rest : drop (N.to_nat (len (encode r))) (encode r ++ rest) = rest.
Proof. unfold len. by rewrite Nat2N.id, drop_app_length. Qed.

Lemma response_parsed_done m r rest front others e p a :
  read_buffer_ m = encode r ++ rest -> reqs_ m = front :: others -> consumed_ p = len (encode r) ->
  exists m', response_parsed (set_on_push m false) front others e (p, a, None, true)
      = Done (m', None, (Some false, len (encode r))) /\
    idle m' /\ read_buffer_ m' = rest /\ reqs_ m' = queue_after front others e /\
    store m' = <[front := answered e a (len (encode r))]> (store m).
Proof.
  intros Hb Hr Hcons. destruct p as [? ? ? ? n]. cbn [consumed_] in Hcons. subst n.
  unfold queue_after, answered. cbn [response_parsed negb has_ec]. unfold get_consumed. cbn [consumed_].
  change (remaining_responses_ (commit_response (len (encode r)) (set_adapter a e))) with (remaining_responses_ e -w 1).
  destruct (remaining_responses_ e -w 1 =? 0); eexists; (split; [reflexivity|]); unfold on_finish_parsing, get_consumed, idle;
    cbn [parser_ consumed_ set_store set_reqs set_parser set_on_push set_usage set_read_buffer read_buffer_ usage_ reqs_ store on_push_];
    rewrite Hb, drop_message; by split_and!.
Qed.

(** ** One message *)

Section Read.
Variables (m : multiplexer) (r : resp3) (rest : bytes).
Hypothesis Hidle : idle m.
Hypothesis Hbuf : buffered m r rest.

(** [parse] on the buffer. *)
Lemma parse_buffer {S} (adapter : S -> node -> error_code -> outcome (S * error_code)) s :
  orel (parsed (encode r ++ rest) (len (encode r)))
    (parse adapter (parser_ m) (read_buffer_ m) s None) (feed adapter s (nodes 0 r)).
Proof.
  destruct Hidle as [-> _], Hbuf as (-> & Hv & Hh & Hl). by apply parse_encode_feed.
Qed.

Lemma read_response front others e a :
  answering m front others e -> root_type r <> type.push ->
  feed (elem_adapter e) (adapter_ e) (nodes 0 r) = Done (a, None) ->
  exists m', commit_read m None = Done (m', None, (Some false, len (encode r))) /\
    idle m' /\ read_buffer_ m' = rest /\ reqs_ m' = queue_after front others e /\
    store m' = <[front := answered e a (len (encode r))]> (store m).
Proof.
  intros Hans Hpush Hfeed. rewrite (commit_read_answering m front others e); [|apply Hidle|by eapply next_is_response|done].
  pose proof (parse_buffer (elem_adapter e) (adapter_ e)) as Hp. rewrite Hfeed in Hp.
  apply orel_done_inv in Hp as ([[[p a'] ec] b] & -> & Hpd). destruct Hpd as ([= -> ->] & -> & Hc).
  destruct (Hc eq_refl) as [_ Hcons]. by apply response_parsed_done; [apply Hbuf|apply Hans|].
Qed.

Lemma read_response_error front others e a ev :
  answering m front others e -> root_type r <> type.push ->
  feed (elem_adapter e) (adapter_ e) (nodes 0 r) = Done (a, Some ev) ->
  exists m', commit_read m None = Done (m', Some ev, (Some false, 0)) /\ reqs_ m' = reqs_ m /\
    store m' = <[front := notify_error (Some ev) (set_adapter a e)]> (store m) /\
    cancel_run_called_ m' = cancel_run_called_ m.
Proof.
  intros Hans Hpush Hfeed. rewrite (commit_read_answering m front others e); [|apply Hidle|by eapply next_is_response|done].
  pose proof (parse_buffer (elem_adapter e) (adapter_ e)) as Hp. rewrite Hfeed in Hp.
  apply orel_done_inv in Hp as ([[[p a'] ec] b] & -> & Hpd). destruct Hpd as ([= -> ->] & -> & _).
  by eexists.
Qed.
End Read.

(** ** Pushes *)

Lemma read_push m r rest a0 a :
  idle m -> buffered m r rest -> is_next_push m = Done true -> receive_adapter_ m = Some a0 ->
  feed (fun a nd ec => any_call a 0 nd ec) a0 (nodes 0 r) = Done (a, None) ->
  exists m', commit_read m None = Done (m', None, (Some true, len (encode r))) /\
    idle m' /\ read_buffer_ m' = rest /\ reqs_ m' = reqs_ m /\ store m' = store m /\
    receive_adapter_ m' = Some a.
Proof.
  intros Hidle Hbuf Hnp Hra Hfeed. unfold commit_read. destruct (Hidle) as [Hpar Hp0]. rewrite Hp0, Hnp.
  cbn [negb mbind outcome_bind on_push_ set_on_push]. unfold commit_read_push.
  cbn [receive_adapter_ set_on_push parser_ read_buffer_]. rewrite Hra.
  pose proof (parse_buffer m r rest Hidle Hbuf (fun a nd ec => any_call a 0 nd ec) a0) as Hp. rewrite Hfeed in Hp.
  apply orel_done_inv in Hp as ([[[p a'] ec] b] & -> & Hpd). destruct Hpd as ([= -> ->] & -> & Hc).
  destruct (Hc eq_refl) as [_ Hcons]. destruct Hbuf as (Hb & _). clear Hc.
  destruct p as [? ? ? ? n]. cbn [consumed_] in Hcons. subst n.
  eexists. split; [reflexivity|]. unfold idle, get_consumed.
  cbn [parser_ consumed_ set_receive_adapter set_parser set_on_push set_usage set_read_buffer read_buffer_ usage_ reqs_ store on_push_].
  rewrite Hb, drop_message. by split_and!.
Qed.

(** ** Pipelines *)

(** [n] calls of [commit_read], up to the first error. *)
Fixpoint commit_reads (n : nat) (m : multiplexer) : outcome (multiplexer * error_code) :=
  match n with
  | O => Done (m, None)
  | S n =>
      '(m, ec, _) ← commit_read m None;
      if has_ec ec then Done (m, ec) else commit_reads n m
  end.

Lemma any_feed S (s : S) f sz o g i nds :
  feed (fun a nd ec => any_call a i nd ec) (mk_any_adapter S s f sz o g) nds =
  '(s', ec) ← feed (fun s nd ec => f s i nd ec) s nds; Done (mk_any_adapter S s' f sz o g, ec).
Proof.
  revert s. induction nds as [|nd nds IH]; intros s; [done|]. cbn [feed].
  change (any_call (mk_any_adapter S s f sz o g) i nd None)
    with ('(s', ec) ← f s i nd None; Done (mk_any_adapter S s' f sz o g, ec)). destruct (f s i nd None) as [[s1 ec]|?|?]; [|done..]. cbn [mbind outcome_bind].
  destruct (has_ec ec); [done|]. apply IH.
Qed.

(** The specification: the adapter of a request receives its responses in
    order, the [i]-th under index [i]. *)
Fixpoint feed_responses (a : any_adapter) (i : size_t) (rs : list resp3) : outcome (any_adapter * error_code) :=
  match rs with
  | [] => Done (a, None)
  | r :: rs =>
      '(a, ec) ← feed (fun a nd ec => any_call a i nd ec) a (nodes 0 r);
      if has_ec ec then Done (a, ec) else feed_responses a (i + 1) rs
  end.

Definition bytes_of (rs : list resp3) : bytes := concat (map encode rs).

(** A response the parser accepts. *)
Definition response_ok (r : resp3) : Prop :=
  valid r = true /\ height r <= max_embedded_depth /\ root_type r <> type.push.

(** The element of a request whose responses [rs] have all been read. *)
Record completed (e : elem) (a : any_adapter) (rs : list resp3) (e' : elem) : Prop := {
  completed_req : req_ e' = req_ e;
  completed_adapter : adapter_ e' = a;
  completed_done : done_calls e' = S (done_calls e);
  completed_remaining : remaining_responses_ e' = 0;
  completed_ec : ec_ e' = ec_ e;
  completed_size : read_size_ e' = read_size_ e +w len (bytes_of rs);
}.

Lemma wadd_assoc a b c : (a +w b) +w c = a +w (b + c).
Proof. unfold wadd. rewrite N.Div0.add_mod_idemp_l. f_equal. lia. Qed.
