(* ===== verification/MultiplexerStream.v ===== *)
(** * Messages that arrive in pieces

    [commit_read] on a stream of responses and pushes that is cut into pieces
    anywhere: whatever the pieces, each message is delivered once, when its last
    byte has arrived, with the effect it has when it arrives alone. *)

From stdpp Require Import gmap.
From S2P Require Import Prelude Charconv Types Parser ParserSpec ParserSafety Resp3 ParserCorrect.
From S2P Require Import Serialization Request Adapters Traits AdapterTheorems Multiplexer MultiplexerInvariant MultiplexerRead.

#[local] Open Scope N_scope.
#[local] Open Scope list_scope.

(** ** Specification *)

(** What messages change: the queue, the requests and the receive adapter. *)
Record world := mk_world {
  w_queue : list elem_id;
  w_store : gmap elem_id elem;
  w_receive : option any_adapter;
}.

Definition world_of (m : multiplexer) : world := mk_world (reqs_ m) (store m) (receive_adapter_ m).

Definition is_push (r : resp3) : bool := match root_type r with type.push => true | _ => false end.

(** The receive adapter, called with index 0. *)
Definition push_adapter (a : any_adapter) (nd : node) (ec : error_code) : outcome (any_adapter * error_code) :=
  any_call a 0 nd ec.

(** A push goes to the receive adapter; a response goes to the request at the
    front, which has been written and expects one. *)
Definition deliver (w : world) (r : resp3) : option world :=
  if is_push r then
    match w_receive w with
    | None => None
    | Some a =>
        match feed push_adapter a (nodes 0 r) with
        | Done (a, None) => Some (mk_world (w_queue w) (w_store w) (Some a))
        | _ => None
        end
    end
  else
    match w_queue w with
    | [] => None
    | front :: others =>
        match w_store w !! front with
        | None => None
        | Some e =>
            if is_waiting e || (remaining_responses_ e =? 0) then None
            else
              match feed (elem_adapter e) (adapter_ e) (nodes 0 r) with
              | Done (a, None) => Some (mk_world (queue_after front others e)
                  (<[front := answered e a (len (encode r))]> (w_store w)) (w_receive w))
              | _ => None
              end
        end
    end.

Fixpoint deliver_all (w : world) (rs : list resp3) : option world :=
  match rs with
  | [] => Some w
  | r :: rs => match deliver w r with Some w => deliver_all w rs | None => None end
  end.

Lemma deliver_all_app w rs rs' :
  deliver_all w (rs ++ rs') = match deliver_all w rs with Some w => deliver_all w rs' | None => None end.
Proof. revert w. induction rs as [|r rs IH]; intros w; [done|]. cbn. by destruct (deliver w r). Qed.

(** A message the parser accepts. *)
Definition message_ok (r : resp3) : Prop := valid r = true /\ height r <= max_embedded_depth.

(** ** In the middle of a message *)

(** The buffer holds [v] and the bytes to come are [t]; together they start with
    the message [r].  The parser and the adapter have seen a part of it, and what
    is left makes the world [w]. *)
Record mid (m : multiplexer) (v t : bytes) (r : resp3) (rest : bytes) (w : world) : Prop := {
  mid_split : v ++ t = encode r ++ rest;
  mid_parsing : parsing v (parser_ m);
  mid_nodes : exists nds, Resp3.run (encode r ++ rest) (abs (parser_ m)) nds (mk_machine [1] None (len (encode r))) /\
    ((is_push r = true /\ exists a0 a, receive_adapter_ m = Some a0 /\ feed push_adapter a0 nds = Done (a, None) /\
        w = mk_world (reqs_ m) (store m) (Some a)) \/
     (is_push r = false /\ on_push_ m = false /\ exists front others e a, answering m front others e /\
        feed (elem_adapter e) (adapter_ e) nds = Done (a, None) /\
        w = mk_world (queue_after front others e) (<[front := answered e a (len (encode r))]> (store m)) (receive_adapter_ m)));
}.

Lemma mid_start m r rest w :
  idle m -> message_ok r -> deliver (world_of m) r = Some w -> mid m [] (encode r ++ rest) r rest w.
Proof.
  intros [Hp Ho] [Hv Hh] Hd. split; [done|rewrite Hp; apply parsing_reset|]. exists (nodes 0 r). rewrite Hp.
  split; [by apply run_reset|]. unfold deliver in Hd. destruct (is_push r); [left|right]; (split; [done|]); cbn [world_of w_receive w_queue w_store] in Hd.
  - destruct (receive_adapter_ m) as [a0|]; [|done]. destruct (feed _ a0 _) as [[a [ev|]]|?|?] eqn:Hf; try done.
    injection Hd as <-. by exists a0, a.
  - split; [done|]. destruct (reqs_ m) as [|front others] eqn:Hr; [done|]. destruct (store m !! front) as [e|] eqn:He; [|done].
    destruct (is_waiting e) eqn:Hw; [done|]. destruct (N.eqb_spec (remaining_responses_ e) 0) as [|Hrem]; [done|]. cbn [orb] in Hd.
    destruct (feed _ (adapter_ e) _) as [[a [ev|]]|?|?] eqn:Hf; try done. injection Hd as <-.
    exists front, others, e, a. split_and!; [|done|done]. split_and!; [done|done| |done].
    intros Hst. unfold is_waiting in Hw. by rewrite bool_decide_true in Hw.
Qed.

(** The first byte tells pushes from responses. *)
Lemma mid_is_push m v t r rest w :
  mid m v t r rest w -> v <> [] -> valid r = true -> read_buffer_ m = v ->
  on_push_ m = true /\ is_push r = true \/ on_push_ m = false /\ is_next_push m = Done (is_push r).
Proof.
  intros [Hs _ (nds & _ & Hcase)] Hne Hv Hb. destruct (encode_head r Hv) as (c & v' & Hc & Hp).
  destruct Hcase as [(Hpush & _)|(Hpush & Ho & front & others & e & a & (Hr & He & Hst & Hrem) & _)].
  - destruct (on_push_ m); [by left|]. right. split; [done|]. unfold is_next_push. rewrite Hb. destruct v as [|c' v]; [done|].
    rewrite Hc in Hs. injection Hs as -> _. rewrite Hp.
    unfold is_push in Hpush |- *. by destruct (root_type r).
  - right. split; [done|]. unfold is_next_push. rewrite Hb. destruct v as [|c' v]; [done|]. rewrite Hc in Hs. injection Hs as -> _.
    rewrite Hp, Hr. unfold deref. rewrite He. cbn. rewrite (proj2 (N.eqb_neq _ _) Hrem). unfold is_waiting.
    rewrite bool_decide_false by done. unfold is_push in Hpush |- *. by destruct (root_type r).
Qed.

(** What [commit_read] does with the outcome of [parse] on a push. *)
Definition push_parsed (m : multiplexer) (x : parser * any_adapter * error_code * bool)
    : outcome (multiplexer * error_code * (tribool * size_t)) :=
  let '(p, a, ec, complete) := x in
  let m := set_receive_adapter (set_parser m p) (Some a) in
  if negb complete then Done (m, ec, (None, 0))
  else if has_ec ec then Done (m, ec, (Some true, 0))
  else let '(m, size) := on_finish_parsing m true in Done (m, ec, (Some true, size)).

Lemma commit_read_receiving m a0 :
  on_push_ m = true \/ is_next_push m = Done true -> receive_adapter_ m = Some a0 ->
  commit_read m None = parse push_adapter (parser_ m) (read_buffer_ m) a0 None ≫= push_parsed (set_on_push m true).
Proof.
  intros Hp Ha. assert ((if negb (on_push_ m) then b ← is_next_push m; Done (set_on_push m b) else Done m) = Done (set_on_push m true)) as Hm.
  { destruct (on_push_ m) eqn:Ho; [destruct m; cbn in Ho |- *; by subst|]. destruct Hp as [|Hp]; [done|]. cbn [negb]. by rewrite Hp. }
  unfold commit_read. rewrite Hm. cbn [mbind outcome_bind on_push_ set_on_push]. unfold commit_read_push.
  cbn [receive_adapter_ set_on_push parser_ read_buffer_]. by rewrite Ha.
Qed.

(** ** Parsing on *)

Lemma split_message r rest v t :
  v ++ t = encode r ++ rest -> len (encode r) <= len v -> exists v', v = encode r ++ v' /\ v' ++ t = rest.
Proof.
  intros Hv Hle. apply app_eq_inv in Hv as [(k & -> & ->)|(k & Hk & ->)]; [by exists k|].
  exists []. rewrite Hk, len_app in Hle. assert (k = []) as -> by (destruct k; [done|rewrite len_cons in Hle; lia]).
  by rewrite Hk, !app_nil_r.
Qed.

Lemma complete_bound v p : complete v p -> consumed_ p <= len v.
Proof. intros [_ (_ & _ & _ & Hl)]. exact Hl. Qed.

(** [parse] either completes the message, or takes everything and waits for
    more. *)
Inductive parse_step {S} (adapter : S -> node -> error_code -> outcome (S * error_code)) (v t : bytes) (r : resp3) (rest : bytes) (s' : S)
    : outcome (parser * S * error_code * bool) -> Prop :=
  | parse_complete p' v' :
      consumed_ p' = len (encode r) -> v = encode r ++ v' -> v' ++ t = rest ->
      parse_step adapter v t r rest s' (Done (p', s', None, true))
  | parse_more p' s1 nds :
      t <> [] -> parsing v p' -> Resp3.run (encode r ++ rest) (abs p') nds (mk_machine [1] None (len (encode r))) ->
      feed adapter s1 nds = Done (s', None) ->
      parse_step adapter v t r rest s' (Done (p', s1, None, false)).

Lemma parse_on {S} (adapter : S -> node -> error_code -> outcome (S * error_code)) p v t r rest nds s s' :
  v ++ t = encode r ++ rest -> len (encode r ++ rest) < size_modulus -> parsing v p ->
  Resp3.run (encode r ++ rest) (abs p) nds (mk_machine [1] None (len (encode r))) -> feed adapter s nds = Done (s', None) ->
  parse_step adapter v t r rest s' (parse adapter p v s None).
Proof.
  intros Hv Hlen Hp Hrun Hfeed.
  destruct (parse_loop_prefix adapter (parse_fuel v) p v t nds (mk_machine [1] None (len (encode r))) s)
    as (nds1 & nds2 & -> & Ho); [by rewrite Hv|by left|by rewrite Hv|rewrite Hv; apply finished_encode|apply parse_fuel_enough|].
  rewrite feed_app in Hfeed. fold (parse adapter p v s None) in Ho.
  destruct (feed adapter s nds1) as [[s1 [ev|]]|?|?]; [by injection Hfeed| |done|done].
  apply orel_done_inv in Ho as ([[[p1 s1'] ec1] b1] & -> & [= -> ->] & Hm). cbn [has_ec mbind outcome_bind] in *. destruct b1.
  - destruct Hm as (-> & Habs & Hcomp). cbn in Hfeed. injection Hfeed as ->.
    assert (consumed_ p1 = len (encode r)) as Hcons by (by change (position (abs p1) = len (encode r)); rewrite Habs).
    destruct (split_message r rest v t) as (v' & ? & ?); [done|by rewrite <-Hcons; apply complete_bound|]. by eapply parse_complete.
  - destruct Hm as (? & ? & Hrun1). rewrite Hv in Hrun1. by eapply parse_more.
Qed.

Lemma mid_more m v c t r rest w : mid m v (c ++ t) r rest w -> mid m (v ++ c) t r rest w.
Proof. intros [Hs Hp Hn]. split; [by rewrite <- (assoc_L (++))|by apply parsing_mono|done]. Qed.

(** ** [commit_read] *)

(** The outcome of [commit_read] in the middle of a message. *)
Inductive committed (t : bytes) (r : resp3) (rest : bytes) (w : world) (m : multiplexer)
    : outcome (multiplexer * error_code * (tribool * size_t)) -> Prop :=
  | committed_message m' :
      idle m' -> read_buffer_ m' ++ t = rest -> world_of m' = w -> (length (read_buffer_ m') < length (read_buffer_ m))%nat ->
      committed t r rest w m (Done (m', None, (Some (is_push r), len (encode r))))
  | committed_piece m' :
      t <> [] -> mid m' (read_buffer_ m) t r rest w -> read_buffer_ m' = read_buffer_ m ->
      committed t r rest w m (Done (m', None, (None, 0))).

Lemma commit_push m t r rest a0 a nds :
  on_push_ m = true \/ is_next_push m = Done true -> receive_adapter_ m = Some a0 -> is_push r = true ->
  read_buffer_ m ++ t = encode r ++ rest -> len (encode r ++ rest) < size_modulus -> parsing (read_buffer_ m) (parser_ m) ->
  Resp3.run (encode r ++ rest) (abs (parser_ m)) nds (mk_machine [1] None (len (encode r))) -> feed push_adapter a0 nds = Done (a, None) ->
  committed t r rest (mk_world (reqs_ m) (store m) (Some a)) m (commit_read m None).
Proof.
  intros Hnp Ha Hr Hv Hlen Hp Hrun Hf. rewrite (commit_read_receiving m a0 Hnp Ha).
  destruct (parse_on push_adapter _ _ _ _ _ _ _ _ Hv Hlen Hp Hrun Hf) as [p' v' Hc Hb Hrest|p' a1 nds' Ht Hp' Hrun' Hf'].
  - cbn [mbind outcome_bind push_parsed negb has_ec]. unfold on_finish_parsing, get_consumed.
    cbn [parser_ set_receive_adapter set_parser usage_ set_on_push]. rewrite Hc, <- Hr.
    apply committed_message; cbn; rewrite ?Hb, ?drop_message; try done.
    rewrite length_app. pose proof (encode_nonempty r). destruct (encode r); [done|]. cbn. lia.
  - cbn [mbind outcome_bind push_parsed negb]. apply committed_piece; [done| |done].
    split; [done|done|]. exists nds'. split; [done|]. left. split; [done|]. by exists a1, a.
Qed.

Lemma commit_response_piece m t r rest front others e a nds :
  on_push_ m = false -> is_next_push m = Done false -> answering m front others e -> is_push r = false ->
  read_buffer_ m ++ t = encode r ++ rest -> len (encode r ++ rest) < size_modulus -> parsing (read_buffer_ m) (parser_ m) ->
  Resp3.run (encode r ++ rest) (abs (parser_ m)) nds (mk_machine [1] None (len (encode r))) ->
  feed (elem_adapter e) (adapter_ e) nds = Done (a, None) ->
  committed t r rest (mk_world (queue_after front others e) (<[front := answered e a (len (encode r))]> (store m)) (receive_adapter_ m)) m
    (commit_read m None).
Proof.
  intros Ho Hnp Hans Hr Hv Hlen Hp Hrun Hf. rewrite (commit_read_answering m front others e Ho Hnp Hans).
  destruct (parse_on (elem_adapter e) _ _ _ _ _ _ _ _ Hv Hlen Hp Hrun Hf) as [p' v' Hc Hb Hrest|p' a1 nds' Ht Hp' Hrun' Hf'].
  - cbn [mbind outcome_bind]. destruct (response_parsed_done m r v' front others e p' a Hb (proj1 Hans) Hc) as (m' & Hm & Hi & Hb' & Hq & Hs).
    assert (receive_adapter_ m' = receive_adapter_ m) as Hra.
    { cbn [response_parsed negb has_ec] in Hm. destruct (_ =? 0); by injection Hm as <-. }
    rewrite Hm, <- Hr. apply committed_message; [done|by rewrite Hb'|unfold world_of; by rewrite Hq, Hs, Hra|].
    rewrite Hb, Hb', length_app. pose proof (encode_nonempty r). destruct (encode r); [done|]. cbn. lia.
  - cbn [mbind outcome_bind response_parsed negb]. apply committed_piece; [done| |done].
    split; [done|done|]. exists nds'. split; [done|]. right. split_and!; [done|done|].
    destruct Hans as (Hq & He & Hst & Hrem). exists front, others, (set_adapter a1 e), a. split_and!; [|done|].
    + split_and!; [done|apply lookup_insert_eq|done|done].
    + cbn [store set_store set_parser set_on_push]. by rewrite insert_insert_eq.
Qed.

Lemma commit_read_mid m t r rest w :
  mid m (read_buffer_ m) t r rest w -> read_buffer_ m <> [] -> valid r = true -> len (encode r ++ rest) < size_modulus ->
  committed t r rest w m (commit_read m None).
Proof.
  intros Hmid Hne Hv Hlen. pose proof (mid_is_push _ _ _ _ _ _ Hmid Hne Hv eq_refl) as Hnp.
  destruct Hmid as [Hs Hp (nds & Hrun & [(Hr & a0 & a & Ha & Hf & ->)|(Hr & Ho & front & others & e & a & Hans & Hf & ->)])].
  - eapply commit_push; try done. rewrite Hr in Hnp. destruct Hnp as [[? _]|[_ ?]]; [by left|by right].
  - eapply commit_response_piece; try done. rewrite Hr in Hnp. by destruct Hnp as [[? ?]|[_ ?]].
Qed.

(** [commit_read] on messages that are there. *)
Lemma commit_reads_deliver rs m rest w :
  idle m -> read_buffer_ m = bytes_of rs ++ rest -> len (read_buffer_ m) < size_modulus -> Forall message_ok rs ->
  deliver_all (world_of m) rs = Some w ->
  exists m', commit_reads (length rs) m = Done (m', None) /\ idle m' /\ read_buffer_ m' = rest /\ world_of m' = w.
Proof.
  revert m. induction rs as [|r rs IH]; intros m Hi Hb Hl Hok Hd; [injection Hd as <-; by exists m|].
  apply Forall_cons in Hok as [Hr Hok]. cbn [deliver_all] in Hd. destruct (deliver _ r) as [w1|] eqn:Hw; [|done].
  unfold bytes_of in Hb. cbn [map concat] in Hb. rewrite <- (assoc_L (++)) in Hb. fold (bytes_of rs) in Hb.
  assert (mid m (read_buffer_ m) [] r (bytes_of rs ++ rest) w1) as Hm.
  { apply (mid_more _ [] (read_buffer_ m)). rewrite app_nil_r, Hb. by apply mid_start. }
  cbn [length commit_reads]. rewrite Hb in Hl. destruct (commit_read_mid _ _ _ _ _ Hm) as [m' Hi' Hb' Hw' _|m' Ht _ _];
    [rewrite Hb; pose proof (encode_nonempty r); by destruct (encode r)|apply Hr|done| |done].
  rewrite app_nil_r in Hb'. cbn [mbind outcome_bind has_ec]. apply IH; [done|done| |done|by rewrite Hw'].
  rewrite Hb'. rewrite len_app in Hl. lia.
Qed.

(** ** Requests *)

(** The request at the front receives a response. *)
Lemma deliver_front r st ra front others e a :
  is_push r = false -> st !! front = Some e -> status_ e <> waiting -> remaining_responses_ e <> 0 ->
  feed (elem_adapter e) (adapter_ e) (nodes 0 r) = Done (a, None) ->
  deliver (mk_world (front :: others) st ra) r =
    Some (mk_world (queue_after front others e) (<[front := answered e a (len (encode r))]> st) ra).
Proof.
  intros Hr He Hst Hrem Hf. unfold deliver. rewrite Hr. cbn [w_queue w_store w_receive]. rewrite He.
  unfold is_waiting. rewrite bool_decide_false, (proj2 (N.eqb_neq _ _) Hrem) by done. cbn [orb]. by rewrite Hf.
Qed.

(** All its responses. *)
Lemma deliver_request rs st ra front others e a :
  st !! front = Some e -> status_ e <> waiting -> elem_ok e -> rs <> [] -> remaining_responses_ e = len rs ->
  Forall response_ok rs -> feed_responses (adapter_ e) (response_index e) rs = Done (a, None) ->
  exists e', deliver_all (mk_world (front :: others) st ra) rs = Some (mk_world others (<[front := e']> st) ra) /\ completed e a rs e'.
Proof.
  revert st e. induction rs as [|r rs IH]; intros st e He Hst Heok Hne Hrem Hok Hfeed; [done|]. clear Hne.
  apply Forall_cons in Hok as [(Hv & Hh & Hp) Hok]. cbn [feed_responses] in Hfeed.
  destruct (feed _ (adapter_ e) (nodes 0 r)) as [[a1 [ev|]]|?|?] eqn:Hf; [done| |done..]. cbn [has_ec mbind outcome_bind] in Hfeed.
  rewrite len_cons in Hrem. destruct Heok as [He1 He2 He3 He4].
  assert (remaining_responses_ e -w 1 = len rs) as Hrem' by (rewrite Hrem, wsub_small; lia).
  cbn [deliver_all]. rewrite (deliver_front r st ra front others e a1); [|unfold is_push; by destruct (root_type r)|done|done|lia|done].
  unfold queue_after, answered. cbn [commit_response set_adapter remaining_responses_]. rewrite Hrem'.
  destruct rs as [|r' rs].
  - cbn in Hfeed. injection Hfeed as ->. cbn [deliver_all]. eexists. split; [done|]. split; try done. cbn. by rewrite app_nil_r.
  - rewrite (proj2 (N.eqb_neq _ _)) by (rewrite len_cons; lia). set (e1 := commit_response (len (encode r)) (set_adapter a1 e)).
    destruct (IH (<[front := e1]> st) e1) as (e' & Hall & Hcomp); [apply lookup_insert_eq|done| |done|done|done| |].
    + split; cbn; rewrite ?Hrem'; [done|lia|rewrite len_cons; lia|done].
    + unfold response_index, e1. cbn [req_ remaining_responses_ commit_response set_adapter].
      unfold response_index in Hfeed. rewrite Hrem'. rewrite wsub_small in Hfeed |- * by lia.
      rewrite Hrem in Hfeed. rewrite <-Hfeed. f_equal. lia.
    + exists e'. rewrite Hall, insert_insert_eq. split; [done|]. destruct Hcomp as [H1 H2 H3 H4 H5 H6]. split; try done.
      rewrite H6. cbn. rewrite wadd_assoc. unfold bytes_of. cbn [map concat]. by rewrite !len_app.
Qed.

(** A queued request with the responses it receives, and its adapter after
    them. *)
Record slot := mk_slot { slot_id : elem_id; slot_responses : list resp3; slot_adapter : any_adapter }.

Definition slot_ok (st : gmap elem_id elem) (x : slot) : Prop :=
  exists e, st !! slot_id x = Some e /\ elem_ok e /\ status_ e <> waiting /\
    slot_responses x <> [] /\ remaining_responses_ e = len (slot_responses x) /\
    Forall response_ok (slot_responses x) /\
    feed_responses (adapter_ e) (response_index e) (slot_responses x) = Done (slot_adapter x, None).

Definition slot_done (st st' : gmap elem_id elem) (x : slot) : Prop :=
  exists e e', st !! slot_id x = Some e /\ st' !! slot_id x = Some e' /\
    completed e (slot_adapter x) (slot_responses x) e'.

(** The requests at the front receive theirs. *)
Lemma deliver_slots xs st ra others :
  NoDup (map slot_id xs) -> Forall (slot_ok st) xs ->
  exists st', deliver_all (mk_world (map slot_id xs ++ others) st ra) (concat (map slot_responses xs)) = Some (mk_world others st' ra) /\
    Forall (slot_done st st') xs /\ forall id, id ∉ map slot_id xs -> st' !! id = st !! id.
Proof.
  revert st. induction xs as [|x xs IH]; intros st Hnd Hok; [by exists st|].
  apply Forall_cons in Hok as [(e & He & Heok & Hst & Hne & Hrem & Hrs & Hfeed) Hok].
  cbn [map concat app] in *. apply NoDup_cons in Hnd as [Hnin Hnd].
  destruct (deliver_request (slot_responses x) st ra (slot_id x) (map slot_id xs ++ others) e (slot_adapter x)) as (e1 & Hd & Hcomp); try done.
  assert (forall y, y ∈ xs -> slot_id y <> slot_id x) as Hdiff.
  { intros y Hy E. apply Hnin. rewrite <- E. by apply list_elem_of_fmap_2. }
  destruct (IH (<[slot_id x := e1]> st)) as (st' & Hd' & Hdone & Hs'); [done| |].
  { rewrite Forall_forall in *. intros y Hy. destruct (Hok y Hy) as (ey & Hey & Hrest).
    exists ey. rewrite lookup_insert_ne; [done|]. by apply not_eq_sym, Hdiff. }
  exists st'. split_and!.
  - rewrite deliver_all_app, Hd. done.
  - constructor.
    + exists e, e1. rewrite Hs' by done. by rewrite lookup_insert_eq.
    + rewrite Forall_forall in *. intros y Hy. destruct (Hdone y Hy) as (ey & ey' & H1 & H2 & H3).
      exists ey, ey'. rewrite lookup_insert_ne in H1; [done|]. by apply not_eq_sym, Hdiff.
  - intros id Hid. apply not_elem_of_cons in Hid as [Hne' Hid]. rewrite Hs', lookup_insert_ne by done. done.
Qed.

(** ** Pushes in between *)

Definition responses (rs : list resp3) : list resp3 := List.filter (fun r => negb (is_push r)) rs.
Definition pushes (rs : list resp3) : list resp3 := List.filter is_push rs.

(** The receive adapter after some pushes. *)
Fixpoint receive_pushes (a : option any_adapter) (rs : list resp3) : option (option any_adapter) :=
  match rs with
  | [] => Some a
  | r :: rs =>
      match a with
      | None => None
      | Some a => match feed push_adapter a (nodes 0 r) with Done (a, None) => receive_pushes (Some a) rs | _ => None end
      end
  end.

Lemma deliver_response_any q st ra r w :
  is_push r = false -> deliver (mk_world q st ra) r = Some w ->
  forall ra', deliver (mk_world q st ra') r = Some (mk_world (w_queue w) (w_store w) ra') /\ w_receive w = ra.
Proof.
  intros Hr Hd ra'. unfold deliver in *. rewrite Hr in *. cbn [w_queue w_store w_receive] in *.
  destruct q as [|front others]; [done|]. destruct (st !! front) as [e|]; [|done]. destruct (_ || _); [done|].
  destruct (feed _ _ _) as [[a [ev|]]|?|?]; [done| |done..]. by injection Hd as <-.
Qed.

(** Pushes do not affect the requests, nor responses the receive adapter. *)
Lemma deliver_merge rs q st ra ra0 q' st' ra' :
  deliver_all (mk_world q st ra0) (responses rs) = Some (mk_world q' st' ra0) -> receive_pushes ra (pushes rs) = Some ra' ->
  deliver_all (mk_world q st ra) rs = Some (mk_world q' st' ra').
Proof.
  revert q st ra. induction rs as [|r rs IH]; intros q st ra; unfold responses, pushes; cbn [List.filter].
  { cbn. by intros [= -> ->] [= ->]. }
  cbn [deliver_all]. destruct (is_push r) eqn:Hr; cbn [negb]; fold (responses rs) (pushes rs).
  - intros Hd. cbn [receive_pushes]. destruct ra as [a|]; [|done]. unfold deliver. rewrite Hr. cbn [w_receive w_queue w_store].
    destruct (feed _ a _) as [[a1 [ev|]]|?|?]; [done| |done..]. by apply IH.
  - cbn [deliver_all]. destruct (deliver (mk_world q st ra0) r) as [w|] eqn:Hw; [|done].
    destruct (deliver_response_any _ _ _ _ _ Hr Hw ra) as [-> Hra]. destruct w as [q1 st1 ra1]. cbn [w_receive w_queue w_store] in *.
    subst ra1. apply IH.
Qed.
