(* ===== verification/Evolution.v ===== *)
(** * How operations change the queue

    What every operation of the multiplexer does to an element, as one relation:
    an element leaves the queue only when it is notified and settled, elements
    outside of the queue stay as they are, and new elements are new.  The
    relation is a preorder, so that it holds of sequences of operations. *)

From stdpp Require Import gmap.
From S2P Require Import Prelude Charconv Types Parser Serialization Request Adapters Traits Multiplexer MultiplexerInvariant.

(** The result of the request is known: an error, or all responses. *)
Definition settled (e : elem) : Prop :=
  is_Some (ec_ e) \/ (status_ e <> waiting /\ remaining_responses_ e = 0).

(** The waiting operation has not been called. *)
Definition unnotified (e : elem) : Prop := ec_ e = None -> done_calls e = 0%nat.

(** What happens to an element that is in the queue, and to one that is not. *)
Definition queued_becomes (m' : multiplexer) (id : elem_id) (e e' : elem) : Prop :=
  (id ∈ reqs_ m' /\ (unnotified e -> unnotified e')) \/
  ((id ∉ reqs_ m') /\ (done_calls e < done_calls e')%nat /\ settled e').

Definition left_becomes (m' : multiplexer) (id : elem_id) (e e' : elem) : Prop :=
  (id ∉ reqs_ m') /\ exists a, e' = set_adapter a e.

Record evolves (m m' : multiplexer) : Prop := {
  evolves_wf : wf m -> wf m';
  evolves_elem id e : wf m -> store m !! id = Some e ->
    exists e', store m' !! id = Some e' /\ req_ e' = req_ e /\ (done_calls e <= done_calls e')%nat /\
      (id ∈ reqs_ m -> queued_becomes m' id e e') /\
      ((id ∉ reqs_ m) -> left_becomes m' id e e');
}.

Lemma set_adapter_same e : set_adapter (adapter_ e) e = e.
Proof. by destruct e. Qed.

Lemma left_same m id e : (id ∉ reqs_ m) -> left_becomes m id e e.
Proof. intros Hid. split; [done|]. exists (adapter_ e). by rewrite set_adapter_same. Qed.

#[export] Hint Resolve left_same : redis.

#[export] Instance evolves_preorder : PreOrder evolves.
Proof.
  split.
  - intros m. split; [done|]. intros id e _ He. exists e. split_and!; [done|done|lia|intros ?; by left|auto with redis].
  - intros m1 m2 m3 [W1 E1] [W2 E2]. split; [auto|]. intros id e Hwf He.
    destruct (E1 id e Hwf He) as (e' & He' & Hr1 & Hd1 & Hin1 & Hout1).
    destruct (E2 id e' (W1 Hwf) He') as (e'' & He'' & Hr2 & Hd2 & Hin2 & Hout2).
    exists e''. split_and!; [done|congruence|lia| |].
    + intros Hq. destruct (Hin1 Hq) as [[Hq' Hu]|(Hq' & Hlt & Hs)].
      * destruct (Hin2 Hq') as [[Hq'' Hu']|(Hq'' & Hlt & Hs)]; [left; auto|right; split_and!; [done|lia|done]].
      * destruct (Hout2 Hq') as (Hq'' & a & ->). right. by split_and!.
    + intros Hq. destruct (Hout1 Hq) as (Hq' & a & ->). destruct (Hout2 Hq') as (Hq'' & a' & ->).
      split; [done|]. by exists a'.
Qed.

(** ** Operations that keep the queue and the store *)

Lemma evolves_same m m' : reqs_ m' = reqs_ m -> store m' = store m -> evolves m m'.
Proof.
  intros Hr Hs. split; [intros Hwf; by eapply wf_same|]. intros id e _ He. exists e. rewrite <-Hr, Hs. split_and!; [done|done|lia|intros ?; by left|auto with redis].
Qed.

(** The queue stays, and elements change without being notified. *)
Lemma evolves_store m m' :
  (wf m -> wf m') -> reqs_ m' = reqs_ m ->
  (forall id e, wf m -> store m !! id = Some e -> exists e', store m' !! id = Some e' /\ req_ e' = req_ e /\
     done_calls e' = done_calls e /\ ec_ e' = ec_ e /\ ((id ∉ reqs_ m) -> exists a, e' = set_adapter a e)) ->
  evolves m m'.
Proof.
  intros Hwf' Hr Hst. split; [done|]. intros id e Hwf He. destruct (Hst id e Hwf He) as (e' & He' & Hreq & Hd & Hec & Hout).
  exists e'. unfold queued_becomes, left_becomes, unnotified, settled. rewrite Hr, Hd, Hec.
  split_and!; [done|done|lia|intros ?; by left|]. intros Hq. split; [done|by apply Hout].
Qed.

(** ** Every operation *)

Lemma evolves_new m req a m' id m'' :
  allocate m req a = (m', id) -> get_expected_responses req < size_modulus ->
  add m' id = Done m'' \/ m'' = m' -> evolves m m''.
Proof.
  intros Hal Hexp Hadd. split.
  - intros Hwf. pose proof Hal as (Hwf' & Hnin & Hr & Hs)%wf_allocate; [|done].
    destruct Hadd as [Hadd| ->]; [|done]. by apply (wf_add m' id (make_elem req a)).
  - intros x e Hwf He. pose proof Hal as (Hwf' & Hnin & Hr & Hs)%wf_allocate; [|done].
    assert (x <> id) as Hne.
    { intros ->. unfold allocate in Hal. injection Hal as _ <-.
      apply (is_fresh (dom (store m))), elem_of_dom. by exists e. }
    assert (store m' !! x = Some e) as He'.
    { unfold allocate in Hal. injection Hal as <- <-. cbn. by rewrite lookup_insert_ne. }
    assert (store m'' = store m' /\ (forall y, y <> id -> y ∈ reqs_ m'' <-> y ∈ reqs_ m)) as [Hs'' Hr''].
    { destruct Hadd as [Hadd| ->]; [|rewrite Hr; by split].
      destruct (wf_add m' id (make_elem req a) m'') as (_ & Hst & p & q & Hp & Hq & _); try done.
      split; [done|]. intros y Hy. rewrite Hq, <-Hr, Hp, !elem_of_app, elem_of_cons. naive_solver. }
    exists e. rewrite Hs'', He'. rewrite <-(Hr'' x Hne).
    split_and!; [done|done|lia|intros ?; by left|auto with redis].
Qed.

Lemma prepare_write_lookup m id :
  wf m -> exists f, (forall e, req_ (f e) = req_ e /\ done_calls (f e) = done_calls e /\ ec_ (f e) = ec_ e /\
                         remaining_responses_ (f e) = remaining_responses_ e) /\
    store (prepare_write m).1 !! id = f <$> store m !! id /\
    ((id ∉ reqs_ m) -> forall e, f e = e) /\ reqs_ (prepare_write m).1 = reqs_ m.
Proof.
  intros Hwf. unfold prepare_write. destruct (partition_point _ _) as [a ids] eqn:Hpp.
  apply partition_waiting in Hpp as (Hr & Ha & Hb); [|done].
  assert (NoDup ids) as Hnd by (pose proof (wf_nodup _ Hwf) as H; rewrite Hr in H; apply NoDup_app in H; tauto).
  destruct (stage_fold m ids Hnd) as (Hr' & _ & _ & _ & Hs & _).
  { intros x Hx. destruct (wf_elems _ Hwf x) as (e & He & _); [rewrite Hr; set_solver|]. by exists e. }
  cbn [fst store set_usage reqs_]. rewrite Hs, Hr'. destruct (decide (id ∈ ids)) as [Hid|Hid].
  - exists mark_staged. split_and!; [done|done| |done]. rewrite Hr. set_solver.
  - exists (fun e => e). split_and!; [done| |done|done]. by destruct (store m !! id).
Qed.

Lemma evolves_prepare_write m : evolves m (prepare_write m).1.
Proof.
  destruct (decide (reqs_ (prepare_write m).1 = reqs_ m)) as [Hr|Hr].
  - apply evolves_store; [apply wf_prepare_write|done|].
    intros id e Hwf He. destruct (prepare_write_lookup m id Hwf) as (f & Hf & Hs & Hout & _).
    exists (f e). rewrite Hs, He. destruct (Hf e) as (? & ? & ? & Hrem). split_and!; [done..|].
    intros Hq. exists (adapter_ e). by rewrite set_adapter_same, (Hout Hq).
  - split; [apply wf_prepare_write|]. intros id e Hwf _. destruct (prepare_write_lookup m id Hwf) as (f & _ & _ & _ & ?). done.
Qed.

Lemma evolves_commit_write m m' n : commit_write m = Done (m', n) -> evolves m m'.
Proof.
  intros Hc. split; [intros Hwf; by eapply wf_commit_write|]. intros id e Hwf He.
  destruct (commit_write_spec m Hwf) as (m1 & Hm1 & _ & _ & _ & Hr & Hs). rewrite Hm1 in Hc. injection Hc as <- _.
  assert (id ∈ reqs_ m1 <-> id ∈ reqs_ m /\ negb (released e) = true) as Hin.
  { rewrite Hr, filter_elem. unfold test. by rewrite He. }
  rewrite Hs, He. unfold queued_becomes, left_becomes. setoid_rewrite Hin.
  destruct (decide (id ∈ reqs_ m)) as [Hid|Hid]; cbn.
  - destruct (wf_elems _ Hwf id Hid) as (e0 & He0 & Hok). rewrite He in He0. injection He0 as <-.
    eexists. split; [done|]. destruct (released e) eqn:Hrel; cbn [negb].
    + split_and!; [apply written_after_req|unfold written_after; destruct (is_staged e); cbn; lia| |done].
      intros _. right. split_and!; [naive_solver|unfold written_after; destruct (is_staged e); cbn; lia|].
      unfold released in Hrel. apply andb_true_iff in Hrel as [Hw Hz]. apply N.eqb_eq in Hz. right.
      unfold is_written in Hw. apply bool_decide_eq_true in Hw. cbn [status_ remaining_responses_ notify_done]. rewrite Hw.
      split; [done|]. pose proof (ok_remaining _ Hok). unfold written_after. destruct (is_staged e); cbn; lia.
    + split_and!; [apply written_after_req|unfold written_after; by destruct (is_staged e)| |done].
      intros _. left. split; [done|]. unfold unnotified, written_after. by destruct (is_staged e).
  - exists e. split_and!; [done|done|lia|done|]. intros _. split; [naive_solver|]. exists (adapter_ e). by rewrite set_adapter_same.
Qed.

(** The parts of a cancellation. *)
Lemma evolves_cancel_part m f kept cancelled :
  stable_partition f (reqs_ m) = (kept, cancelled) -> evolves m (cancel_part m kept cancelled).
Proof.
  intros Hp. split; [intros Hwf; by eapply wf_cancel_part|]. intros id e Hwf He.
  rewrite (cancel_part_lookup m f kept cancelled id Hwf Hp), He.
  injection Hp as Hk Hc.
  assert (id ∈ kept <-> id ∈ reqs_ m /\ f id = true) as Hin by (rewrite <-Hk; apply filter_elem).
  assert (id ∈ cancelled <-> id ∈ reqs_ m /\ negb (f id) = true) as Hca by (rewrite <-Hc; apply filter_elem).
  unfold queued_becomes, left_becomes. cbn [reqs_ cancel_part set_reqs]. setoid_rewrite Hin.
  destruct (decide _) as [Hd|Hd]; cbn [fmap option_fmap option_map]; rewrite Hca in Hd.
  - destruct Hd as [Hq Hf]. eexists. split; [done|]. split_and!; [done|cbn; lia| |done].
    intros _. right. split_and!; [|cbn; lia|].
    + intros [_ Hf']. by rewrite Hf' in Hf.
    + left. cbn. destruct (ec_ e); by eexists.
  - exists e. split_and!; [done|done|lia| |].
    + intros Hq. left. split; [|done]. split; [done|]. destruct (f id) eqn:Hf; [done|]. by destruct Hd.
    + intros Hq. split; [by intros [? _]|]. exists (adapter_ e). by rewrite set_adapter_same.
Qed.

Lemma evolves_mark_waiting m : evolves m (set_store m (for_each mark_waiting (reqs_ m) (store m))).
Proof.
  apply evolves_store; [apply wf_mark_waiting|done|]. intros id e Hwf He. cbn [store set_store].
  rewrite for_each_lookup by apply Hwf. destruct (decide (id ∈ reqs_ m)); rewrite He; eexists; split_and!; try done.
  intros _. exists (adapter_ e). by rewrite set_adapter_same.
Qed.

Lemma evolves_cancel_waiting m m' n : cancel_waiting m = Done (m', n) -> evolves m m'.
Proof.
  unfold cancel_waiting. intros Hc. inv_done. destruct (stable_partition _ _) as [kept cancelled] eqn:Hp.
  injection Hc as <- _. by eapply evolves_cancel_part.
Qed.

Lemma evolves_cancel_on_conn_lost m m' n : cancel_on_conn_lost m = Done (m', n) -> evolves m m'.
Proof.
  unfold cancel_on_conn_lost. destruct (cancel_run_called_ m); [by intros [= <- _]|]. intros Hc. inv_done.
  destruct (stable_partition _ _) as [kept cancelled] eqn:Hp. injection Hc as <- _.
  etransitivity; [|apply evolves_mark_waiting]. etransitivity; [by apply (evolves_same m (set_cancel_run_called m true))|].
  by eapply evolves_cancel_part.
Qed.

(** The front of the queue changes and stays, or leaves settled. *)
Lemma evolves_update m m' front e e' :
  front ∈ reqs_ m -> store m !! front = Some e -> reqs_ m' = reqs_ m -> store m' = <[front := e']> (store m) ->
  (wf m -> wf m') -> req_ e' = req_ e -> (done_calls e <= done_calls e')%nat -> (unnotified e -> unnotified e') ->
  evolves m m'.
Proof.
  intros Hq He Hr Hs Hwf Hreq Hd Hu. split; [done|]. intros id x _ Hx. rewrite <-Hr, Hs. rewrite <-Hr in Hq.
  destruct (decide (id = front)) as [->|Hne].
  - rewrite lookup_insert_eq. rewrite He in Hx. injection Hx as <-. exists e'.
    split_and!; [done|done|done|intros _; by left|done].
  - rewrite lookup_insert_ne by done. exists x. split_and!; [done|done|lia|intros ?; by left|auto with redis].
Qed.

Lemma evolves_pop m m' front rest e e' :
  reqs_ m = front :: rest -> store m !! front = Some e -> reqs_ m' = rest -> store m' = <[front := e']> (store m) ->
  (wf m -> wf m') -> req_ e' = req_ e -> (done_calls e < done_calls e')%nat -> settled e' ->
  evolves m m'.
Proof.
  intros Hq He Hr Hs Hwf Hreq Hd Hset. split; [done|]. intros id x Hwfm Hx. unfold queued_becomes, left_becomes.
  rewrite Hr, Hs, Hq. pose proof (wf_nodup _ Hwfm) as Hnd. rewrite Hq in Hnd. apply NoDup_cons in Hnd as [Hnin _].
  destruct (decide (id = front)) as [->|Hne].
  - rewrite lookup_insert_eq. rewrite He in Hx. injection Hx as <-. exists e'. split_and!; [done|done|lia|intros _; by right|].
    rewrite not_elem_of_cons. by intros [? _].
  - rewrite lookup_insert_ne by done. exists x. rewrite elem_of_cons.
    split_and!; [done|done|lia| |]; [intros [?|?]; [done|by left]|intros Hn]. split; [tauto|].
    exists (adapter_ x). by rewrite set_adapter_same.
Qed.

Lemma evolves_commit_read_push m ec m' ec' r : commit_read_push m ec = Done (m', ec', r) -> evolves m m'.
Proof.
  unfold commit_read_push. destruct (receive_adapter_ m) as [a|]; [|done].
  destruct (parse _ _ _ _ _) as [[[[p a'] ec1] [|]]|?|?]; cbn; [|by intros [= <- _ _]; apply evolves_same|done..].
  destruct (has_ec ec1); cbn; intros [= <- _ _]; by apply evolves_same.
Qed.

Lemma evolves_commit_read_response m ec m' ec' r : commit_read_response m ec = Done (m', ec', r) -> evolves m m'.
Proof.
  intros Hc. assert (wf m -> wf m') as Hwf by (intros ?; by eapply wf_commit_read_response).
  revert Hc. unfold commit_read_response, is_waiting_response, deref.
  destruct (reqs_ m) as [|front rest] eqn:Hr; [done|]. destruct (store m !! front) as [e|] eqn:He; [|done].
  cbn [mbind outcome_bind]. destruct (is_waiting e) eqn:Hw; [done|]. cbn [negb boost_assert mbind outcome_bind].
  destruct (N.eqb_spec (remaining_responses_ e) 0) as [?|Hrem]; [done|]. cbn [negb boost_assert mbind outcome_bind].
  assert (front ∈ reqs_ m) as Hin by (rewrite Hr; by left).
  destruct (parse _ _ _ _ _) as [[[[p a'] ec1] [|]]|?|?]; cbn [negb mbind outcome_bind]; [| |done..].
  2: { intros [= <- _ _]. by eapply (evolves_update m _ front e (set_adapter a' e)). }
  destruct ec1 as [ev|]; cbn [has_ec].
  { intros [= <- _ _]. eapply (evolves_update m _ front e); [done|done|done|done|done|done|cbn; lia|].
    intros _. unfold unnotified. cbn. by destruct (ec_ e). }
  destruct (N.eqb_spec (remaining_responses_ (commit_response (get_consumed p) (set_adapter a' e))) 0) as [Hz|Hz].
  - intros [= <- _ _]. eapply (evolves_pop m _ front rest e); [done|done|done|reflexivity|done|done|cbn; lia|].
    right. unfold is_waiting in Hw. by apply bool_decide_eq_false in Hw.
  - intros [= <- _ _]. by eapply (evolves_update m _ front e).
Qed.

Lemma evolves_commit_read m ec m' ec' r : commit_read m ec = Done (m', ec', r) -> evolves m m'.
Proof.
  unfold commit_read.
  assert (forall m1, (if on_push_ m1 then commit_read_push m1 ec else commit_read_response m1 ec)
    = Done (m', ec', r) -> evolves m1 m') as Hrest.
  { intros m1. destruct (on_push_ m1); [apply evolves_commit_read_push|apply evolves_commit_read_response]. }
  destruct (negb (on_push_ m)); [|by apply Hrest].
  destruct (is_next_push m) as [b|?|?]; [|done..]. intros Hc%(Hrest (set_on_push m b)).
  etransitivity; [by apply (evolves_same m (set_on_push m b))|done].
Qed.

(** An assignment to the response object of an element. *)
Lemma evolves_assign m id r :
  evolves m (set_store m (alter (fun e => set_adapter (any_assign r (adapter_ e)) e) id (store m))).
Proof.
  assert (forall x, alter (fun e => set_adapter (any_assign r (adapter_ e)) e) id (store m) !! x =
    (if decide (x = id) then (fun e => set_adapter (any_assign r (adapter_ e)) e) <$> store m !! x else store m !! x)) as Hl.
  { intros x. destruct (decide (x = id)) as [->|Hne]; [apply lookup_alter_eq|by rewrite lookup_alter_ne]. }
  apply evolves_store; [|done|].
  - intros Hwf. apply (wf_change m _ (fun _ => true) (fun x => x)); [done|by rewrite filter_true|done|].
    intros x e _ He Hok. cbn [store set_store]. rewrite Hl, He. destruct (decide _); cbn; [|eauto].
    eexists. split_and!; [done|by apply set_adapter_ok|done].
  - intros x e _ He. cbn [store set_store]. rewrite Hl, He. destruct (decide _); eexists; (split_and!; [done..|]); intros _.
    + by eexists.
    + exists (adapter_ e). by rewrite set_adapter_same.
Qed.

#[export] Hint Resolve evolves_prepare_write evolves_commit_write evolves_commit_read evolves_cancel_waiting
  evolves_cancel_on_conn_lost evolves_assign : redis.
