(* ===== verification/ClientSpec.v ===== *)
(** * An abstract client

    What the queue of a connection promises, without its data structures: three
    lists of requests, those sent, those in the current write and those not sent,
    and what the waiting operations were told.  [client_apply] says what every
    action does to them; a monitor of the outputs says that responses go to the
    requests in the order in which they were sent. *)

From stdpp Require Import gmap.
From S2P Require Import Prelude Charconv Types Parser Serialization Request Adapters Traits Multiplexer.

#[local] Open Scope N_scope.
#[local] Open Scope list_scope.

(** ** States *)

(** A request and the responses it still expects. *)
Record ticket := mk_ticket { ticket_id : elem_id; ticket_req : request; ticket_left : size_t }.

(** A request that was made: its notifications, its first error, and the
    responses it still expects. *)
Record report := mk_report { asked : request; calls : nat; failure : error_code; left : size_t }.

(** [told] are the requests that were made and what was reported about them;
    [started] and [lost] say whether a session was started, and whether it was
    lost since. *)
Record client := mk_client {
  in_flight : list ticket;
  in_write : list ticket;
  unsent : list ticket;
  outgoing : bytes;
  told : gmap elem_id report;
  started : bool;
  lost : bool;
}.

Definition new_client : client := mk_client [] [] [] [] ∅ false false.

(** A session is on. *)
Definition live (c : client) : bool := started c && negb (lost c).

(** ** Actions *)

Definition tell (ec : error_code) (r : report) : report :=
  mk_report (asked r) (S (calls r)) (if has_ec (failure r) then failure r else ec) (left r).
Definition hear (r : report) : report := mk_report (asked r) (calls r) (failure r) (left r - 1).
Fixpoint tell_all (ec : error_code) (ts : list ticket) (m : gmap elem_id report) :=
  match ts with [] => m | t :: ts => tell_all ec ts (alter (tell ec) (ticket_id t) m) end.

Definition with_queues (c : client) f w u t := mk_client f w u (outgoing c) t (started c) (lost c).

(** One response less. *)
Definition answered (t : ticket) : ticket := mk_ticket (ticket_id t) (ticket_req t) (ticket_left t - 1).

(** The requests that are sent and wait for a response. *)
Definition expects (t : ticket) : bool := negb (get_expected_responses (ticket_req t) =? 0).

(** Which requests survive the loss of the connection. *)
Definition kept_sent (t : ticket) : bool := negb (cancel_if_unresponded (get_config (ticket_req t))).
Definition kept_unsent (t : ticket) : bool := negb (cancel_on_connection_lost (get_config (ticket_req t))).

Inductive action :=
  | act_submit (id : elem_id) (req : request)
  | act_refuse (id : elem_id) (req : request)
  | act_withdraw (id : elem_id)
  | act_start
  | act_write
  | act_wrote
  | act_reply
  | act_malformed (ec : error_code)
  | act_drop
  | act_lose.

(** What others see: a session begins or ends, a request is sent, a response
    reaches a request. *)
Inductive output := out_started | out_sent (t : ticket) | out_response (id : elem_id) | out_lost.

(** The front of the queue gets a response; with its last one it leaves. *)
Definition reply_queue (q : list ticket) (m : gmap elem_id report) : list ticket * gmap elem_id report :=
  match q with
  | [] => ([], m)
  | t :: q =>
      let m := alter hear (ticket_id t) m in
      if ticket_left t =? 1 then (q, alter (tell None) (ticket_id t) m) else (answered t :: q, m)
  end.

Definition lose_queues (c : client) : client :=
  let sent := in_flight c ++ in_write c in
  let gone := List.filter (fun t => negb (kept_sent t)) sent ++ List.filter (fun t => negb (kept_unsent t)) (unsent c) in
  mk_client [] [] (List.filter kept_sent sent ++ List.filter kept_unsent (unsent c)) (outgoing c)
    (tell_all (Some operation_aborted) gone (told c)) (started c) true.

Definition client_apply (a : action) (c : client) : option (client * list output) :=
  match a with
  | act_submit id req =>
      match told c !! id with
      | Some _ => None
      | None =>
          let t := mk_ticket id req (get_expected_responses req) in
          let u := if has_hello_priority req then t :: unsent c else unsent c ++ [t] in
          Some (with_queues c (in_flight c) (in_write c) u (<[id := mk_report req 0 None (get_expected_responses req)]> (told c)), [])
      end
  | act_refuse id req =>
      match told c !! id with
      | Some _ => None
      | None => Some (with_queues c (in_flight c) (in_write c) (unsent c) (<[id := mk_report req 0 None (get_expected_responses req)]> (told c)), [])
      end
  | act_withdraw id =>
      Some (with_queues c (in_flight c) (in_write c) (List.filter (fun t => negb (ticket_id t =? id)%nat) (unsent c)) (told c), [])
  | act_start =>
      if live c then None
      else Some (mk_client (in_flight c) (in_write c) (unsent c) [] (told c) true false, [out_started])
  | act_write =>
      if live c then
        Some (mk_client (in_flight c) (in_write c ++ unsent c) []
          (outgoing c ++ concat (map (fun t => payload (ticket_req t)) (unsent c))) (told c) (started c) (lost c),
          map out_sent (unsent c))
      else None
  | act_wrote =>
      Some (mk_client (in_flight c ++ List.filter expects (in_write c)) [] (unsent c) []
        (tell_all None (List.filter (fun t => negb (expects t)) (in_write c)) (told c)) (started c) (lost c), [])
  | act_reply =>
      match in_flight c, in_write c with
      | t :: _, _ =>
          if ticket_left t =? 0 then None
          else let '(f, m) := reply_queue (in_flight c) (told c) in
               Some (with_queues c f (in_write c) (unsent c) m, [out_response (ticket_id t)])
      | [], t :: _ =>
          if ticket_left t =? 0 then None
          else let '(w, m) := reply_queue (in_write c) (told c) in
               Some (with_queues c [] w (unsent c) m, [out_response (ticket_id t)])
      | [], [] => None
      end
  | act_malformed ec =>
      match in_flight c ++ in_write c with
      | t :: _ => Some (with_queues c (in_flight c) (in_write c) (unsent c) (alter (tell ec) (ticket_id t) (told c)), [])
      | [] => None
      end
  | act_drop =>
      Some (with_queues c (in_flight c) (in_write c) [] (tell_all (Some operation_aborted) (unsent c) (told c)), [])
  | act_lose => if lost c then Some (c, []) else Some (lose_queues c, [out_lost])
  end.

Fixpoint client_run (acts : list action) (c : client) : option (client * list output) :=
  match acts with
  | [] => Some (c, [])
  | a :: acts =>
      match client_apply a c with
      | None => None
      | Some (c1, o1) =>
          match client_run acts c1 with
          | None => None
          | Some (c2, o2) => Some (c2, o1 ++ o2)
          end
      end
  end.

Lemma client_run_app a b c c1 c2 o1 o2 :
  client_run a c = Some (c1, o1) -> client_run b c1 = Some (c2, o2) -> client_run (a ++ b) c = Some (c2, o1 ++ o2).
Proof.
  revert c o1. induction a as [|x a IH]; intros c o1; cbn [client_run app]; [by intros [= -> <-]|].
  destruct (client_apply x c) as [[c' o]|]; [|done]. destruct (client_run a c') as [[c'' o']|] eqn:Ha; [|done].
  intros [= -> <-] Hb. rewrite (IH c' o' Ha Hb). by rewrite app_assoc.
Qed.

Lemma client_run_one a c c' o : client_apply a c = Some (c', o) -> client_run [a] c = Some (c', o).
Proof. intros Ha. cbn. rewrite Ha. by rewrite app_nil_r. Qed.

(** ** The order of responses

    The server answers the commands of a connection in order.  [owed] are the
    requests its next answers belong to. *)

Definition due (t : ticket) : list elem_id := repeat (ticket_id t) (N.to_nat (get_expected_responses (ticket_req t))).

Fixpoint monitor (outs : list output) (owed : list elem_id) : option (list elem_id) :=
  match outs with
  | [] => Some owed
  | out_started :: outs => match owed with [] => monitor outs [] | _ => None end
  | out_sent t :: outs => monitor outs (owed ++ due t)
  | out_response id :: outs =>
      match owed with
      | x :: owed => if (x =? id)%nat then monitor outs owed else None
      | [] => None
      end
  | out_lost :: outs => monitor outs []
  end.

(** What the client waits for. *)
Definition waits_for (t : ticket) : list elem_id := repeat (ticket_id t) (N.to_nat (ticket_left t)).
Definition owed (c : client) : list elem_id := concat (map waits_for (in_flight c ++ in_write c)).

(** Nothing is in flight between sessions.  A request that is not sent expects
    all its responses, as long as none that was sent is sent again. *)
Record client_ok (c : client) : Prop := {
  cok_idle : live c = false -> in_flight c = [] /\ in_write c = [];
  cok_left : Forall (fun t => ticket_left t <= get_expected_responses (ticket_req t)) (in_write c);
  cok_fresh : Forall (fun t => ticket_left t = get_expected_responses (ticket_req t)) (unsent c);
  cok_once : Forall (fun t => kept_sent t = false) (in_flight c ++ in_write c ++ unsent c);
}.

(** Requests that are not sent again after the loss of a connection. *)
Definition sent_once (a : action) : bool :=
  match a with act_submit _ req | act_refuse _ req => cancel_if_unresponded (get_config req) | _ => true end.

Lemma monitor_app a b o o' : monitor a o = Some o' -> monitor (a ++ b) o = monitor b o'.
Proof.
  revert o. induction a as [|[|t|id|] a IH]; intros o; cbn [monitor app]; [by intros [= ->]| | | |].
  - destruct o; [apply IH|done].
  - apply IH.
  - destruct o as [|x o]; [done|]. destruct (_ =? _)%nat; [apply IH|done].
  - apply IH.
Qed.

Lemma filter_all {A} f (l : list A) : Forall (fun x => f x = true) l -> List.filter f l = l.
Proof. induction 1 as [|x l Hx _ IH]; [done|]. cbn. by rewrite Hx, IH. Qed.
Lemma filter_none {A} f (l : list A) : Forall (fun x => f x = false) l -> List.filter f l = [].
Proof. induction 1 as [|x l Hx _ IH]; [done|]. cbn. by rewrite Hx. Qed.
Lemma Forall_filter {A} (P : A -> Prop) f l : Forall P l -> Forall P (List.filter f l).
Proof. induction 1 as [|x l Hx _ IH]; [constructor|]. cbn. destruct (f x); [by constructor|done]. Qed.

Lemma monitor_sent ts o :
  Forall (fun t => ticket_left t = get_expected_responses (ticket_req t)) ts ->
  monitor (map out_sent ts) o = Some (o ++ concat (map waits_for ts)).
Proof.
  intros Hf. revert o. induction Hf as [|t ts Ht _ IH]; intros o; cbn; [by rewrite app_nil_r|].
  rewrite IH, <- app_assoc. unfold due, waits_for. by rewrite Ht.
Qed.

(** Requests without responses are not waited for. *)
Lemma waits_for_expects ts :
  Forall (fun t => ticket_left t <= get_expected_responses (ticket_req t)) ts ->
  concat (map waits_for (List.filter expects ts)) = concat (map waits_for ts).
Proof.
  induction 1 as [|t ts Ht _ IH]; [done|]. cbn [List.filter map concat]. unfold expects at 1.
  destruct (N.eqb_spec (get_expected_responses (ticket_req t)) 0) as [Hz|Hz]; cbn [negb map concat]; rewrite IH; [|done].
  unfold waits_for at 2. assert (ticket_left t = 0) as -> by lia. done.
Qed.

Lemma waits_for_answered t :
  ticket_left t <> 0 -> waits_for t = ticket_id t :: waits_for (answered t).
Proof.
  intros Ht. unfold waits_for, answered. cbn [ticket_id ticket_left].
  replace (N.to_nat (ticket_left t)) with (S (N.to_nat (ticket_left t - 1))) by lia. done.
Qed.

(** The front of the queue is answered. *)
Lemma reply_queue_waits t q m q' m' :
  ticket_left t <> 0 -> reply_queue (t :: q) m = (q', m') ->
  concat (map waits_for (t :: q)) = ticket_id t :: concat (map waits_for q').
Proof.
  intros Ht. cbn [reply_queue map concat]. rewrite (waits_for_answered t Ht).
  destruct (N.eqb_spec (ticket_left t) 1) as [H1|H1]; intros [= <- <-]; [|done].
  unfold waits_for at 1, answered. by rewrite H1.
Qed.

Lemma reply_queue_Forall P t q m q' m' :
  Forall P (t :: q) -> (P t -> P (answered t)) -> reply_queue (t :: q) m = (q', m') -> Forall P q'.
Proof.
  intros [Ht Hq]%Forall_cons Ha. cbn [reply_queue]. destruct (_ =? 1); intros [= <- <-]; [done|]. constructor; auto.
Qed.

(** ** Every action *)

Lemma apply_idle a c c' o : client_apply a c = Some (c', o) ->
  (live c = false -> in_flight c = [] /\ in_write c = []) -> live c' = false -> in_flight c' = [] /\ in_write c' = [].
Proof.
  intros Ha Hi. destruct a; cbn [client_apply] in Ha.
  - destruct (told c !! id); [done|]. injection Ha as <- <-. exact Hi.
  - destruct (told c !! id); [done|]. injection Ha as <- <-. exact Hi.
  - injection Ha as <- <-. exact Hi.
  - destruct (live c); [done|]. by injection Ha as <- <-.
  - destruct (live c) eqn:Hl; [|done]. injection Ha as <- <-. unfold live in *. cbn. congruence.
  - injection Ha as <- <-. unfold live in *. cbn. intros Hl. destruct (Hi Hl) as [-> ->]. done.
  - destruct (in_flight c) as [|t f]; [destruct (in_write c) as [|t w]; [done|]|];
      (destruct (_ =? 0); [done|]); destruct (reply_queue _ _); injection Ha as <- <-;
      intros Hl; by destruct (Hi Hl).
  - destruct (in_flight c ++ in_write c); [done|]. injection Ha as <- <-. exact Hi.
  - injection Ha as <- <-. exact Hi.
  - destruct (lost c); injection Ha as <- <-; [exact Hi|done].
Qed.

(** What holds of the requests in the three lists. *)
Record tickets_ok (f w u : list ticket) : Prop := {
  tok_left : Forall (fun t => ticket_left t <= get_expected_responses (ticket_req t)) w;
  tok_fresh : Forall (fun t => ticket_left t = get_expected_responses (ticket_req t)) u;
  tok_once : Forall (fun t => kept_sent t = false) (f ++ w ++ u);
}.

Lemma client_ok_tickets c : client_ok c -> tickets_ok (in_flight c) (in_write c) (unsent c).
Proof. by intros []. Qed.

Lemma reply_ok c c' o : client_apply act_reply c = Some (c', o) ->
  tickets_ok (in_flight c) (in_write c) (unsent c) -> tickets_ok (in_flight c') (in_write c') (unsent c').
Proof.
  intros Ha [Hl Hf Ho]. rewrite !Forall_app in Ho. destruct Ho as (Ho1 & Ho2 & Ho3). cbn [client_apply] in Ha.
  destruct (in_flight c) as [|t f]; [destruct (in_write c) as [|t w]; [done|]|];
    (destruct (_ =? 0); [done|]); destruct (reply_queue _ _) as [q m] eqn:Hq; injection Ha as <- <-;
    cbn [in_flight in_write unsent with_queues app].
  - split; [|done|].
    + eapply reply_queue_Forall; [exact Hl| |exact Hq]. cbn [answered ticket_left ticket_req]. lia.
    + rewrite !Forall_app. split_and!; [constructor| |done]. by eapply reply_queue_Forall; [exact Ho2| |exact Hq].
  - split; [done|done|]. rewrite !Forall_app. split; [|done]. by eapply reply_queue_Forall; [exact Ho1| |exact Hq].
Qed.

Lemma submit_tickets f w u id req :
  tickets_ok f w u -> cancel_if_unresponded (get_config req) = true ->
  let t := mk_ticket id req (get_expected_responses req) in
  tickets_ok f w (if has_hello_priority req then t :: u else u ++ [t]).
Proof.
  intros [Hl Hf Ho] Hc t. assert (kept_sent t = false) as Ht by (unfold kept_sent; cbn; by rewrite Hc).
  rewrite !Forall_app in Ho. destruct Ho as (? & ? & ?).
  destruct (has_hello_priority req); (split; [done| |]); rewrite ?Forall_app; auto 8.
Qed.

Lemma apply_ok a c c' o : client_apply a c = Some (c', o) -> sent_once a = true -> client_ok c -> client_ok c'.
Proof.
  intros Ha Hs Hok. cut (tickets_ok (in_flight c') (in_write c') (unsent c')).
  { intros []. split; [|done..]. eapply apply_idle; [exact Ha|apply Hok]. }
  apply client_ok_tickets in Hok as Ht. destruct a; cbn [client_apply sent_once] in *.
  - destruct (told c !! id); [done|]. injection Ha as <- <-. by apply submit_tickets.
  - destruct (told c !! id); [done|]. by injection Ha as <- <-.
  - injection Ha as <- <-. destruct Ht as [Hl Hf Ho]. rewrite !Forall_app in Ho. destruct Ho as (? & ? & ?).
    split; cbn; rewrite ?Forall_app; auto using Forall_filter.
  - destruct (live c); [done|]. by injection Ha as <- <-.
  - destruct (live c); [|done]. injection Ha as <- <-. destruct Ht as [Hl Hf Ho].
    split; cbn; [|constructor|by rewrite app_nil_r]. rewrite Forall_app. split; [done|].
    eapply Forall_impl; [exact Hf|]. cbn. lia.
  - injection Ha as <- <-. destruct Ht as [Hl Hf Ho]. rewrite !Forall_app in Ho. destruct Ho as (? & ? & ?).
    split; cbn; [constructor|done|]. rewrite !Forall_app. auto using Forall_filter.
  - by eapply reply_ok.
  - destruct (in_flight c ++ in_write c); [done|]. by injection Ha as <- <-.
  - injection Ha as <- <-. destruct Ht as [Hl Hf Ho]. rewrite !Forall_app in Ho. destruct Ho as (? & ? & ?).
    split; cbn; rewrite ?Forall_app; auto.
  - destruct (lost c); injection Ha as <- <-; [done|]. destruct Ht as [Hl Hf Ho].
    rewrite app_assoc, Forall_app in Ho. destruct Ho as [Ho1 Ho2].
    split; cbn; [constructor|..]; rewrite (filter_none kept_sent) by done; cbn; auto using Forall_filter.
Qed.

Lemma apply_monitor a c c' o :
  client_apply a c = Some (c', o) -> client_ok c -> monitor o (owed c) = Some (owed c').
Proof.
  intros Ha Hok. pose proof (client_ok_tickets _ Hok) as [Hl Hf _]. unfold owed. destruct a; cbn [client_apply] in Ha.
  1,2: destruct (told c !! id); [done|]; by injection Ha as <- <-.
  - by injection Ha as <- <-.
  - destruct (live c) eqn:Hlive; [done|]. injection Ha as <- <-. destruct (cok_idle _ Hok Hlive) as [-> ->]. done.
  - destruct (live c); [|done]. injection Ha as <- <-. cbn. rewrite monitor_sent by done.
    by rewrite !map_app, !concat_app, app_assoc.
  - injection Ha as <- <-. cbn. rewrite app_nil_r, !map_app, !concat_app. by rewrite waits_for_expects.
  - destruct (in_flight c) as [|t f]; [destruct (in_write c) as [|t w]; [done|]|];
      (destruct (N.eqb_spec (ticket_left t) 0); [done|]); destruct (reply_queue _ _) as [q m] eqn:Hq; injection Ha as <- <-.
    + cbn [app]. rewrite (reply_queue_waits _ _ _ _ _ n Hq). cbn. by rewrite Nat.eqb_refl.
    + cbn [in_flight in_write with_queues]. rewrite !map_app, !concat_app, (reply_queue_waits _ _ _ _ _ n Hq).
      cbn. by rewrite Nat.eqb_refl.
  - destruct (in_flight c ++ in_write c) eqn:E; [done|]. injection Ha as <- <-. cbn [in_flight in_write with_queues monitor]. by rewrite E.
  - by injection Ha as <- <-.
  - destruct (lost c); by injection Ha as <- <-.
Qed.

(** In every run each response goes to the request whose turn it is. *)
Lemma run_monitor acts c c' o :
  client_run acts c = Some (c', o) -> forallb sent_once acts = true -> client_ok c ->
  monitor o (owed c) = Some (owed c') /\ client_ok c'.
Proof.
  revert c o. induction acts as [|a acts IH]; intros c o; cbn [client_run forallb]; [by intros [= -> <-]|].
  destruct (client_apply a c) as [[c1 o1]|] eqn:Ha; [|done]. destruct (client_run acts c1) as [[c2 o2]|] eqn:Hr; [|done].
  intros [= -> <-] [Hs Hss]%andb_true_iff Hok. destruct (IH c1 o2 Hr Hss) as [Hm Hok']; [by eapply apply_ok|].
  split; [|done]. by rewrite (monitor_app _ _ _ _ (apply_monitor _ _ _ _ Ha Hok)).
Qed.

Lemma new_client_ok : client_ok new_client.
Proof. split; by constructor. Qed.

(** Only [act_start] starts a session, and only [act_lose] ends it. *)
Lemma run_started acts c c' o :
  client_run acts c = Some (c', o) -> (forall a, a ∈ acts -> a <> act_start) -> started c' = started c.
Proof.
  revert c o. induction acts as [|a acts IH]; intros c o; cbn [client_run]; [by intros [= -> <-]|].
  destruct (client_apply a c) as [[c1 o1]|] eqn:Ha; [|done]. destruct (client_run acts c1) as [[c2 o2]|] eqn:Hr; [|done].
  intros [= -> <-] Hn. rewrite (IH c1 o2 Hr) by (intros x Hx; apply Hn; by right).
  specialize (Hn a ltac:(by left)). destruct a; cbn [client_apply] in Ha; try (by injection Ha as <- <-).
  1,2: destruct (told c !! id); [done|]; by injection Ha as <- <-.
  - by destruct Hn.
  - destruct (live c); [|done]. by injection Ha as <- <-.
  - destruct (in_flight c) as [|t f]; [destruct (in_write c) as [|t w]; [done|]|];
      (destruct (_ =? 0); [done|]); destruct (reply_queue _ _) as [q m]; by injection Ha as <- <-.
  - destruct (in_flight c ++ in_write c); [done|]. by injection Ha as <- <-.
  - destruct (lost c); by injection Ha as <- <-.
Qed.

(** ** Requests are remembered *)

(** [rd]: whether responses may arrive. *)
Definition remembers (rd : bool) (m m' : gmap elem_id report) : Prop :=
  forall id r, m !! id = Some r ->
  exists r', m' !! id = Some r' /\ asked r' = asked r /\ (rd = false -> left r' = left r).

#[export] Instance remembers_preorder rd : PreOrder (remembers rd).
Proof.
  split.
  - intros m id r Hr. by exists r.
  - intros m1 m2 m3 H1 H2 id r Hr. destruct (H1 id r Hr) as (r' & Hr' & Ha & Hl). destruct (H2 id r' Hr') as (r'' & ? & ? & Hl').
    exists r''. split_and!; [done|congruence|]. intros Hrd. by rewrite Hl', Hl.
Qed.

Lemma remembers_alter rd f id m :
  (forall r, asked (f r) = asked r /\ (rd = false -> left (f r) = left r)) -> remembers rd m (alter f id m).
Proof.
  intros Hf i r Hr. destruct (decide (i = id)) as [->|Hne].
  - rewrite lookup_alter_eq, Hr. eexists. split; [done|apply Hf].
  - rewrite lookup_alter_ne by done. by exists r.
Qed.

Lemma remembers_tell rd ec id m : remembers rd m (alter (tell ec) id m).
Proof. by apply remembers_alter. Qed.

Lemma remembers_tell_all rd ec ts m : remembers rd m (tell_all ec ts m).
Proof. revert m. induction ts as [|t ts IH]; intros m; [done|]. cbn. etransitivity; [|apply IH]. apply remembers_tell. Qed.

Lemma remembers_new rd id r m : m !! id = None -> remembers rd m (<[id := r]> m).
Proof. intros Hn i x Hx. exists x. rewrite lookup_insert_ne; [done|]. congruence. Qed.

Lemma remembers_reply t q m q' m' : reply_queue (t :: q) m = (q', m') -> remembers true m m'.
Proof.
  cbn [reply_queue]. destruct (_ =? 1); intros [= _ <-]; [etransitivity; [|apply remembers_tell]|]; by apply remembers_alter.
Qed.

#[export] Hint Resolve remembers_tell remembers_tell_all remembers_new remembers_reply : redis.

Definition made (a : action) (id : elem_id) (req : request) : Prop := a = act_submit id req \/ a = act_refuse id req.

Definition hears (a : action) : bool := match a with act_reply => true | _ => false end.

Lemma apply_remembers a c c' o :
  client_apply a c = Some (c', o) ->
  remembers (hears a) (told c) (told c') /\ forall id req, made a id req -> exists r, told c' !! id = Some r /\ asked r = req.
Proof.
  unfold made. destruct a; cbn [client_apply hears]; intros Ha; (split; [|try (intros ? ? [?|?]; discriminate)]).
  1,3: destruct (told c !! id) eqn:Hn; [done|]; injection Ha as <- <-; cbn; auto with redis.
  1,2: destruct (told c !! id) eqn:Hn; [done|]; injection Ha as <- <-; cbn; intros i q [[= <- <-]|[= <- <-]];
    rewrite lookup_insert_eq; by eexists.
  - by injection Ha as <- <-.
  - destruct (live c); [done|]. by injection Ha as <- <-.
  - destruct (live c); [|done]. by injection Ha as <- <-.
  - injection Ha as <- <-. cbn. auto with redis.
  - destruct (in_flight c) as [|t f]; [destruct (in_write c) as [|t w]; [done|]|]; (destruct (_ =? 0); [done|]);
      destruct (reply_queue _ _) as [q m] eqn:Hq; injection Ha as <- <-; by eapply remembers_reply.
  - destruct (in_flight c ++ in_write c); [done|]. injection Ha as <- <-. cbn. auto with redis.
  - injection Ha as <- <-. cbn. auto with redis.
  - destruct (lost c); injection Ha as <- <-; [done|]. cbn. auto with redis.
Qed.

Lemma remembers_weaken rd m m' : remembers false m m' -> remembers rd m m'.
Proof. intros Hr id r Hi. destruct (Hr id r Hi) as (r' & ? & ? & ?). exists r'. split_and!; auto. Qed.

Lemma run_remembers rd acts c c' o :
  client_run acts c = Some (c', o) -> (rd = false -> forallb (fun a => negb (hears a)) acts = true) ->
  remembers rd (told c) (told c') /\
  forall a id req, a ∈ acts -> made a id req -> exists r, told c' !! id = Some r /\ asked r = req.
Proof.
  revert c o. induction acts as [|a acts IH]; intros c o; cbn [client_run].
  { intros [= -> <-] _. split; [done|]. by intros a id req Hin%not_elem_of_nil. }
  destruct (client_apply a c) as [[c1 o1]|] eqn:Ha; [|done]. destruct (client_run acts c1) as [[c2 o2]|] eqn:Hr; [|done].
  intros [= -> <-] Hrd. destruct (apply_remembers _ _ _ _ Ha) as [R1 M1]. cbn [forallb] in Hrd.
  destruct (IH c1 o2 Hr) as [R2 M2]; [intros E; by apply andb_true_iff in Hrd as [_ ?]|].
  assert (remembers rd (told c) (told c1)) as R1'.
  { destruct rd; [|by destruct (hears a); [specialize (Hrd eq_refl)|]]. destruct (hears a); [done|by apply remembers_weaken]. }
  split; [by etransitivity|]. intros x id req [->|Hin]%elem_of_cons Hm; [|by eapply M2].
  destruct (M1 id req Hm) as (r & Hr1 & <-). destruct (R2 id r Hr1) as (r' & ? & ? & _). by exists r'.
Qed.

(** Without [act_start] a session that is lost stays lost. *)
Lemma run_lost acts c c' o :
  client_run acts c = Some (c', o) -> (forall a, a ∈ acts -> a <> act_start) -> lost c = true -> lost c' = true.
Proof.
  revert c o. induction acts as [|a acts IH]; intros c o; cbn [client_run]; [by intros [= -> <-]|].
  destruct (client_apply a c) as [[c1 o1]|] eqn:Ha; [|done]. destruct (client_run acts c1) as [[c2 o2]|] eqn:Hr; [|done].
  intros [= -> <-] Hn Hl. apply (IH c1 o2 Hr); [intros x Hx; apply Hn; by right|].
  specialize (Hn a ltac:(by left)). destruct a; cbn [client_apply] in Ha; try (by injection Ha as <- <-).
  1,2: destruct (told c !! id); [done|]; by injection Ha as <- <-.
  - by destruct Hn.
  - destruct (live c); [|done]. by injection Ha as <- <-.
  - destruct (in_flight c) as [|t f]; [destruct (in_write c) as [|t w]; [done|]|];
      (destruct (_ =? 0); [done|]); destruct (reply_queue _ _) as [q m]; by injection Ha as <- <-.
  - destruct (in_flight c ++ in_write c); [done|]. by injection Ha as <- <-.
  - rewrite Hl in Ha. by injection Ha as <- <-.
Qed.

(** If no request of the client is sent again, each was sent once. *)
Lemma run_sent_once acts c c' o :
  client_run acts c = Some (c', o) ->
  map_Forall (fun _ r => cancel_if_unresponded (get_config (asked r)) = true) (told c') -> forallb sent_once acts = true.
Proof.
  intros Hr Hf. destruct (run_remembers true _ _ _ _ Hr) as [_ Hm]; [done|]. apply forallb_forall. intros a Ha%list_elem_of_In.
  destruct a; try done; (destruct (Hm _ id req Ha) as (r & Hr' & <-); [by (left + right)|]); exact (Hf id r Hr').
Qed.
