(* ===== verification/ClientRefinement.v ===== *)
(** * The multiplexer implements the abstract client

    The queue shows three lists of requests, by their status; every operation of
    the multiplexer is an action of the client on them. *)

From stdpp Require Import gmap.
From S2P Require Import Prelude Charconv Types Parser Serialization Request Adapters Traits.
From S2P Require Import Multiplexer MultiplexerInvariant Evolution ClientSpec.

#[local] Open Scope N_scope.
#[local] Open Scope list_scope.

(** ** The relation *)

Definition told_of (e : elem) : report := mk_report (req_ e) (done_calls e) (ec_ e) (remaining_responses_ e).

(** The element of a ticket, in the status of its list. *)
Definition holds (s : gmap elem_id elem) (st : status) (t : ticket) : Prop :=
  exists e, s !! ticket_id t = Some e /\ status_ e = st /\ req_ e = ticket_req t /\ remaining_responses_ e = ticket_left t.

Record implements (m : multiplexer) (c : client) : Prop := {
  imp_queue : reqs_ m = map ticket_id (in_flight c) ++ map ticket_id (in_write c) ++ map ticket_id (unsent c);
  imp_flight : Forall (holds (store m) written) (in_flight c);
  imp_write : Forall (holds (store m) staged) (in_write c);
  imp_unsent : Forall (holds (store m) waiting) (unsent c);
  imp_told : told c = told_of <$> store m;
  imp_outgoing : outgoing c = write_buffer_ m;
  imp_lost : lost c = cancel_run_called_ m;
}.

(** ** Stores *)

Lemma told_alter (f : elem -> elem) ec id (s : gmap elem_id elem) :
  (forall e, told_of (f e) = tell ec (told_of e)) -> told_of <$> alter f id s = alter (tell ec) id (told_of <$> s).
Proof.
  intros Hf. apply map_eq. intros i. rewrite lookup_fmap. destruct (decide (i = id)) as [->|Hne].
  - rewrite !lookup_alter_eq, lookup_fmap. destruct (s !! id); cbn; [by rewrite Hf|done].
  - by rewrite !lookup_alter_ne, lookup_fmap.
Qed.

Lemma told_for_each f ec ts s :
  (forall e, told_of (f e) = tell ec (told_of e)) ->
  told_of <$> for_each f (map ticket_id ts) s = tell_all ec ts (told_of <$> s).
Proof.
  intros Hf. revert s. induction ts as [|t ts IH]; intros s; [done|]. cbn [map for_each tell_all].
  by rewrite IH, (told_alter _ ec) by done.
Qed.

(** Changes that nobody is told about. *)
Lemma told_same (s s' : gmap elem_id elem) :
  (forall id, told_of <$> s' !! id = told_of <$> s !! id) -> told_of <$> s' = told_of <$> s.
Proof. intros Hs. apply map_eq. intros i. by rewrite !lookup_fmap. Qed.

Lemma told_for_each_same f ids s : (forall e, told_of (f e) = told_of e) -> told_of <$> for_each f ids s = told_of <$> s.
Proof.
  intros Hf. revert s. induction ids as [|id ids IH]; intros s; [done|]. cbn [for_each]. rewrite IH. apply told_same.
  intros i. destruct (decide (i = id)) as [->|Hne]; [|by rewrite lookup_alter_ne].
  rewrite lookup_alter_eq. destruct (s !! id); cbn; [by rewrite Hf|done].
Qed.

(** Tickets whose elements change to another status. *)
Lemma holds_change s s' st st' ts :
  (forall t e, t ∈ ts -> s !! ticket_id t = Some e -> status_ e = st ->
     exists e', s' !! ticket_id t = Some e' /\ status_ e' = st' /\ req_ e' = req_ e /\ remaining_responses_ e' = remaining_responses_ e) ->
  Forall (holds s st) ts -> Forall (holds s' st') ts.
Proof.
  rewrite !Forall_forall. intros Hc Hts t Ht. destruct (Hts t Ht) as (e & He & Hst & Hr & Hl).
  destruct (Hc t e Ht He Hst) as (e' & He' & Hst' & Hr' & Hl'). exists e'. split_and!; congruence.
Qed.

Lemma holds_test m st ts f b :
  Forall (holds (store m) st) ts -> (forall e, status_ e = st -> f e = b) ->
  Forall (fun id => test m f id = b) (map ticket_id ts).
Proof.
  intros Hts Hf. apply Forall_map. eapply Forall_impl; [exact Hts|]. intros t (e & He & Hst & _). cbn.
  unfold test. rewrite He. auto.
Qed.

(** A list has one partition by a test. *)
Lemma partition_unique (f : elem_id -> bool) a b a' b' :
  a ++ b = a' ++ b' -> Forall (fun x => f x = false) a -> Forall (fun x => f x = true) b ->
  Forall (fun x => f x = false) a' -> Forall (fun x => f x = true) b' -> a = a' /\ b = b'.
Proof.
  intros E Ha Hb Ha' Hb'. revert a' E Ha'. induction Ha as [|x a Hx Ha IH]; intros [|y a'] E Ha'; cbn in E.
  - done.
  - exfalso. subst b. apply Forall_cons in Ha' as [Hy _]. apply Forall_cons in Hb as [Hy' _]. congruence.
  - exfalso. subst b'. apply Forall_cons in Hb' as [Hy _]. congruence.
  - injection E as -> E. apply Forall_cons in Ha' as [_ Ha']. destruct (IH a' E Ha') as [-> ->]. done.
Qed.

Section Queue.
Context (m : multiplexer) (c : client) (Himp : implements m c).

Lemma sent_not_waiting :
  Forall (fun id => test m is_waiting id = false) (map ticket_id (in_flight c) ++ map ticket_id (in_write c)).
Proof.
  apply Forall_app. split; (eapply holds_test; [apply Himp|]); intros e He; unfold is_waiting; by rewrite He.
Qed.

Lemma unsent_waiting : Forall (fun id => test m is_waiting id = true) (map ticket_id (unsent c)).
Proof. eapply holds_test; [apply Himp|]. intros e He. unfold is_waiting. by rewrite He. Qed.

(** The waiting part of the queue is the unsent part. *)
Lemma waiting_part a b :
  reqs_ m = a ++ b -> Forall (fun id => test m is_waiting id = false) a -> Forall (fun id => test m is_waiting id = true) b ->
  a = map ticket_id (in_flight c) ++ map ticket_id (in_write c) /\ b = map ticket_id (unsent c).
Proof.
  intros E Ha Hb. rewrite (imp_queue _ _ Himp), app_assoc in E.
  apply (partition_unique (test m is_waiting)); [done|done|done|apply sent_not_waiting|apply unsent_waiting].
Qed.
End Queue.

(** Changes outside of what is shown. *)
Lemma implements_same m m' c :
  reqs_ m' = reqs_ m -> store m' = store m -> write_buffer_ m' = write_buffer_ m ->
  cancel_run_called_ m' = cancel_run_called_ m -> implements m c -> implements m' c.
Proof. intros Hr Hs Hw Hc [Q F W U T O L]. split; rewrite ?Hr, ?Hs, ?Hw, ?Hc; done. Qed.

(** ** Every operation *)

Lemma allocate_new m req a m' id :
  allocate m req a = (m', id) ->
  store m !! id = None /\ store m' = <[id := make_elem req a]> (store m) /\ reqs_ m' = reqs_ m /\
  write_buffer_ m' = write_buffer_ m /\ cancel_run_called_ m' = cancel_run_called_ m.
Proof.
  unfold allocate. intros [= <- <-]. split_and!; [|done..]. apply not_elem_of_dom, is_fresh.
Qed.

Lemma holds_insert s id e st ts : s !! id = None -> Forall (holds s st) ts -> Forall (holds (<[id := e]> s) st) ts.
Proof.
  intros Hid. apply holds_change. intros t e' _ He Hst. exists e'. rewrite lookup_insert_ne; [done|]. by intros ->; congruence.
Qed.

(** A new element that is not queued. *)
Lemma refuse_implements m req a m' id c :
  allocate m req a = (m', id) -> implements m c ->
  exists c', client_apply (act_refuse id req) c = Some (c', []) /\ implements m' c' /\
    in_flight c' = in_flight c /\ in_write c' = in_write c /\ unsent c' = unsent c.
Proof.
  intros (Hnew & Hs & Hr & Hw & Hc)%allocate_new [Q F W U T O L]. cbn [client_apply].
  assert (told c !! id = None) as -> by (rewrite T, lookup_fmap, Hnew; done).
  eexists. split; [done|]. split; [|done].
  split; cbn; rewrite ?Hs, ?Hr, ?Hw, ?Hc; [done|by apply holds_insert..| |done|done].
  by rewrite T, fmap_insert.
Qed.

(** [add] changes only the queue. *)
Lemma add_keeps m id m' :
  add m id = Done m' -> write_buffer_ m' = write_buffer_ m /\ cancel_run_called_ m' = cancel_run_called_ m.
Proof.
  unfold add. intros Ha. apply bind_done in Ha as (e & _ & Ha). destruct (has_hello_priority _); [|by injection Ha as <-].
  destruct (partition_point _ _) as [[|x w] rest]; by injection Ha as <-.
Qed.

Lemma submit_implements m req a m1 id m' c :
  wf m -> allocate m req a = (m1, id) -> add m1 id = Done m' -> implements m c ->
  exists c', client_apply (act_submit id req) c = Some (c', []) /\ implements m' c'.
Proof.
  intros Hwf Hal Hadd Himp. pose proof Hal as (Hwf1 & Hnin & _ & Hid)%wf_allocate; [|done].
  destruct (refuse_implements _ _ _ _ _ _ Hal Himp) as (c1 & Hc1 & Himp1 & E1 & E2 & E3).
  destruct (add_split m1 id _ m' Hwf1 Hid eq_refl Hadd) as (x & y & Hxy & Hq & Hst & Hy & Hx).
  cbn [client_apply] in *. destruct (told c !! id); [done|]. injection Hc1 as Hc1. eexists. split; [done|].
  destruct (add_keeps _ _ _ Hadd) as [Hw Hl]. pose proof Himp1 as [Q F W U T O L].
  set (t := mk_ticket id req (get_expected_responses req)).
  assert (holds (store m1) waiting t) as Ht by (by exists (make_elem req a)).
  rewrite E1 in F. rewrite E2 in W. rewrite E3 in U.
  split; rewrite ?Hst, ?Hw, ?Hl; cbn [in_flight in_write unsent with_queues told outgoing lost].
  - rewrite Hq. cbn [req_ make_elem] in Hx. destruct (has_hello_priority req).
    + destruct (waiting_part m1 c1 Himp1 x y Hxy Hx Hy) as [-> ->]. rewrite E1, E2, E3, <- app_assoc. done.
    + subst y. rewrite app_nil_r in Hxy. rewrite <- Hxy, Q, E1, E2, E3, map_app, <- !app_assoc. done.
  - done.
  - done.
  - destruct (has_hello_priority req); [by constructor|]. apply Forall_app. split; [done|by constructor].
  - by rewrite <- T, <- Hc1.
  - by rewrite <- O, <- Hc1.
  - by rewrite <- L, <- Hc1.
Qed.

(** ** Removal of a waiting request *)

Lemma filter_map_ids f ts :
  List.filter f (map ticket_id ts) = map ticket_id (List.filter (fun t => f (ticket_id t)) ts).
Proof. induction ts as [|t ts IH]; [done|]. cbn. destruct (f (ticket_id t)); cbn; by rewrite IH. Qed.

Lemma holds_filter s st f ts : Forall (holds s st) ts -> Forall (holds s st) (List.filter f ts).
Proof. apply Forall_filter. Qed.

Lemma filter_other (s : gmap elem_id elem) st ts (id : elem_id) e :
  Forall (holds s st) ts -> s !! id = Some e -> status_ e <> st ->
  List.filter (fun x => negb (x =? id)%nat) (map ticket_id ts) = map ticket_id ts.
Proof.
  intros Hts He Hst. apply filter_all, Forall_map. eapply Forall_impl; [exact Hts|]. intros t (e' & He' & Hst' & _). cbn.
  destruct (Nat.eqb_spec (ticket_id t) id) as [E|]; [|done]. subst id.
  rewrite He in He'. injection He' as <-. by destruct Hst.
Qed.

Lemma withdraw_implements m id m' c :
  wf m -> remove m id = Done (m', true) -> implements m c ->
  exists c', client_apply (act_withdraw id) c = Some (c', []) /\ implements m' c'.
Proof.
  intros Hwf Hrm [Q F W U T O L]. pose proof (wf_remove _ _ _ _ Hwf Hrm) as (_ & Hs & Hq). cbn [client_apply].
  assert (exists e, store m !! id = Some e /\ status_ e = waiting /\ write_buffer_ m' = write_buffer_ m /\
    cancel_run_called_ m' = cancel_run_called_ m) as (e & He & Hst & Hw & Hl).
  { unfold remove, deref in Hrm. destruct (store m !! id) as [e|] eqn:He; [|done]. exists e. split; [done|]. cbn in Hrm.
    destruct (is_waiting e) eqn:Hwait; [|done]. unfold is_waiting in Hwait. apply bool_decide_eq_true in Hwait.
    destruct (_ =? _)%nat; [|done]. by injection Hrm as <-. }
  eexists. split; [done|]. split; cbn; rewrite ?Hs, ?Hw, ?Hl; try done; [|by apply holds_filter].
  rewrite Hq, Q, !List.filter_app. f_equal; [by eapply filter_other; [exact F|exact He|rewrite Hst]|].
  f_equal; [by eapply filter_other; [exact W|exact He|rewrite Hst]|apply filter_map_ids].
Qed.

(** ** Writing *)

Lemma wf_ids m a b : wf m -> reqs_ m = a ++ b -> NoDup b /\ forall id, id ∈ b -> is_Some (store m !! id).
Proof.
  intros Hwf E. pose proof (wf_nodup _ Hwf) as Hnd. rewrite E in Hnd. apply NoDup_app in Hnd as (_ & _ & Hnd).
  split; [done|]. intros id Hid. destruct (wf_elems _ Hwf id) as (e & He & _); [rewrite E; apply elem_of_app; by right|].
  by exists e.
Qed.

Lemma stage_keeps ids m : cancel_run_called_ (foldl stage m ids) = cancel_run_called_ m.
Proof.
  revert m. induction ids as [|id ids IH]; intros m; [done|]. cbn [foldl]. rewrite IH. unfold stage. by destruct (store m !! id).
Qed.

Lemma unsent_payload m c :
  implements m c ->
  concat (map (fun id => from_option (fun e => payload (req_ e)) [] (store m !! id)) (map ticket_id (unsent c))) =
  concat (map (fun t => payload (ticket_req t)) (unsent c)).
Proof.
  intros Himp. pose proof (imp_unsent _ _ Himp) as U. clear Himp. induction U as [|t ts (e & He & _ & Hr & _) _ IH]; [done|].
  cbn. by rewrite He, IH, <- Hr.
Qed.

Lemma write_implements m c :
  wf m -> implements m c -> live c = true ->
  exists c' o, client_apply act_write c = Some (c', o) /\ implements (prepare_write m).1 c'.
Proof.
  intros Hwf Himp Hlive. cbn [client_apply]. rewrite Hlive. eexists _, _. split; [done|]. unfold prepare_write.
  destruct (partition_point _ _) as [a ids] eqn:Hpp. apply partition_waiting in Hpp as (Hr & Ha & Hb); [|done].
  destruct (waiting_part m c Himp a ids Hr Ha Hb) as [-> ->]. destruct (wf_ids m _ _ Hwf Hr) as [Hnd Hin].
  destruct (stage_fold m _ Hnd Hin) as (Hr' & _ & _ & _ & Hs & Hw). cbn [fst].
  assert (forall t, t ∈ in_flight c ++ in_write c -> ticket_id t ∉ map ticket_id (unsent c)) as Hout.
  { intros t Ht Hin'. pose proof (wf_nodup _ Hwf) as Hn. rewrite Hr in Hn. apply NoDup_app in Hn as (_ & Hd & _).
    apply (Hd (ticket_id t)); [|done]. rewrite <- map_app. by apply list_elem_of_fmap_2. }
  destruct Himp as [Q F W U T O L].
  split; cbn [reqs_ store write_buffer_ cancel_run_called_ set_usage in_flight in_write unsent told outgoing lost].
  - rewrite Hr', Q, map_app. cbn. by rewrite app_nil_r.
  - eapply holds_change; [|exact F]. intros t e Ht He Hst. rewrite Hs, decide_False; [by exists e|].
    apply Hout, elem_of_app. by left.
  - apply Forall_app. split.
    + eapply holds_change; [|exact W]. intros t e Ht He Hst. rewrite Hs, decide_False; [by exists e|].
      apply Hout, elem_of_app. by right.
    + eapply holds_change; [|exact U]. intros t e Ht He Hst. rewrite Hs, decide_True, He; [by eexists|].
      by apply list_elem_of_fmap_2.
  - constructor.
  - rewrite T. apply told_same. intros id. rewrite Hs. destruct (decide _); [|done]. by destruct (store m !! id).
  - rewrite Hw, O. f_equal. symmetry. apply unsent_payload. by split.
  - by rewrite stage_keeps.
Qed.

Lemma tell_all_lookup ec ts M id :
  NoDup (map ticket_id ts) ->
  tell_all ec ts M !! id = if decide (id ∈ map ticket_id ts) then tell ec <$> M !! id else M !! id.
Proof.
  revert M. induction ts as [|t ts IH]; intros M; cbn [map tell_all]; [by rewrite decide_False by apply not_elem_of_nil|].
  intros [Hx Hnd]%NoDup_cons. rewrite IH by done. destruct (decide (id = ticket_id t)) as [->|Hne].
  - rewrite decide_False, decide_True, lookup_alter_eq by (done || by left). done.
  - rewrite lookup_alter_ne by done. destruct (decide (id ∈ map ticket_id ts)) as [Hd|Hd].
    + by rewrite decide_True by (by right).
    + by rewrite decide_False by (by rewrite elem_of_cons; intros [?|?]).
Qed.

(** The ids of the three lists are different. *)
Lemma implements_nodup m c :
  wf m -> implements m c -> NoDup (map ticket_id (in_flight c ++ in_write c ++ unsent c)).
Proof. intros Hwf Himp. rewrite !map_app, <- (imp_queue _ _ Himp). apply Hwf. Qed.

Lemma filter_ticket f (ts : list ticket) t : t ∈ List.filter f ts <-> t ∈ ts /\ f t = true.
Proof. rewrite !list_elem_of_In. apply filter_In. Qed.

Lemma nodup_filter f ts : NoDup (map ticket_id ts) -> NoDup (map ticket_id (List.filter f ts)).
Proof.
  induction ts as [|x ts IH]; cbn [map List.filter]; [done|]. intros [Hx Hnd]%NoDup_cons. destruct (f x); [|by apply IH].
  cbn. constructor; [|by apply IH]. intros (t & E & Ht)%list_elem_of_fmap. apply filter_ticket in Ht as [Ht _].
  apply Hx. rewrite E. by apply list_elem_of_fmap_2.
Qed.

(** The element of a ticket. *)
Lemma ticket_elem m c t :
  wf m -> implements m c -> t ∈ in_flight c ++ in_write c ++ unsent c ->
  exists e, store m !! ticket_id t = Some e /\ elem_ok e /\ req_ e = ticket_req t /\ remaining_responses_ e = ticket_left t /\
    (t ∈ in_flight c -> status_ e = written) /\ (t ∈ in_write c -> status_ e = staged) /\ (t ∈ unsent c -> status_ e = waiting).
Proof.
  intros Hwf Himp Ht. assert (ticket_id t ∈ reqs_ m) as Hid.
  { rewrite (imp_queue _ _ Himp), <- !map_app. by apply list_elem_of_fmap_2. }
  destruct (wf_elems _ Hwf _ Hid) as (e & He & Hok). exists e. destruct Himp as [_ F W U _ _ _]. rewrite Forall_forall in F, W, U.
  assert (forall st, holds (store m) st t -> req_ e = ticket_req t /\ remaining_responses_ e = ticket_left t /\ status_ e = st) as Hh.
  { intros st (e' & He' & Hst & Hr & Hl). rewrite He in He'. by injection He' as <-. }
  split; [done|]. split; [done|]. rewrite !elem_of_app in Ht.
  assert (req_ e = ticket_req t /\ remaining_responses_ e = ticket_left t) as [Hr Hl].
  { destruct Ht as [Ht|[Ht|Ht]]; [destruct (Hh written (F t Ht))|destruct (Hh staged (W t Ht))|destruct (Hh waiting (U t Ht))]; tauto. }
  split_and!; [done|done|intros Hx; by apply Hh, F|intros Hx; by apply Hh, W|intros Hx; by apply Hh, U].
Qed.

Lemma commit_write_keeps m m' n : commit_write m = Done (m', n) -> cancel_run_called_ m' = cancel_run_called_ m.
Proof. unfold commit_write. intros Hc. apply bind_done in Hc as (u & _ & Hc). by injection Hc as <- _. Qed.

(** Which requests [commit_write] releases. *)
Lemma released_tickets m c t :
  wf m -> implements m c -> t ∈ in_flight c ++ in_write c ++ unsent c ->
  exists e, store m !! ticket_id t = Some e /\ test m released (ticket_id t) = released e /\
    (t ∈ in_flight c -> released e = false /\ written_after e = e) /\
    (t ∈ in_write c -> released e = negb (expects t) /\ written_after e = mark_written e) /\
    (t ∈ unsent c -> released e = false /\ written_after e = e).
Proof.
  intros Hwf Himp Ht. destruct (ticket_elem m c t Hwf Himp Ht) as (e & He & Hok & Hr & Hl & Hf & Hw & Hu).
  exists e. split; [done|]. split; [unfold test; by rewrite He|].
  unfold released, written_after, is_staged, is_written, expects. split_and!; intros Hin.
  - rewrite (Hf Hin), (bool_decide_false (written = staged)) by done. split; [|done]. rewrite (Hf Hin), bool_decide_true by done.
    apply N.eqb_neq, Hok, Hf, Hin.
  - rewrite (Hw Hin), (bool_decide_true (staged = staged)) by done. split; [|done]. cbn. by rewrite Hr, negb_involutive.
  - rewrite (Hu Hin), (bool_decide_false (waiting = staged)) by done. split; [|done]. by rewrite (Hu Hin), bool_decide_false by done.
Qed.

(** Whether a request is notified by [commit_write]. *)
Lemma released_iff m c id e :
  wf m -> implements m c -> id ∈ reqs_ m -> store m !! id = Some e ->
  id ∈ map ticket_id (List.filter (fun t => negb (expects t)) (in_write c)) <-> released e = true.
Proof.
  intros Hwf Himp Hid He. split.
  - intros (t & -> & [Ht Hex]%filter_ticket)%list_elem_of_fmap.
    destruct (released_tickets m c t Hwf Himp) as (e' & He' & _ & _ & Hw & _); [set_solver|].
    rewrite He in He'. injection He' as <-. by destruct (Hw Ht) as [-> _].
  - intros Hre. rewrite (imp_queue _ _ Himp), <- !map_app in Hid. apply list_elem_of_fmap in Hid as (t & -> & Ht).
    destruct (released_tickets m c t Hwf Himp Ht) as (e' & He' & _ & Hf & Hw & Hu).
    rewrite He in He'. injection He' as <-. apply list_elem_of_fmap_2, filter_ticket.
    apply elem_of_app in Ht as [Ht|[Ht|Ht]%elem_of_app].
    + destruct (Hf Ht). congruence.
    + destruct (Hw Ht). split; congruence.
    + destruct (Hu Ht). congruence.
Qed.

Lemma told_written e : told_of (written_after e) = told_of e.
Proof. unfold written_after. by destruct (is_staged e). Qed.

Lemma wrote_implements m m' n c :
  wf m -> commit_write m = Done (m', n) -> implements m c ->
  exists c', client_apply act_wrote c = Some (c', []) /\ implements m' c'.
Proof.
  intros Hwf Hc Himp. eexists. split; [done|]. pose proof (commit_write_keeps _ _ _ Hc) as Hl.
  destruct (commit_write_spec m Hwf) as (m1 & Hm1 & Hb & _ & _ & Hr & Hs). rewrite Hm1 in Hc. injection Hc as <- _.
  pose proof (fun t => released_tickets m c t Hwf Himp) as Hrel. pose proof (implements_nodup m c Hwf Himp) as Hnd.
  pose proof Himp as [Q F W U T O L].
  assert (forall t, t ∈ in_flight c ++ in_write c ++ unsent c -> ticket_id t ∈ reqs_ m) as Hin.
  { intros t Ht. rewrite Q, <- !map_app. by apply list_elem_of_fmap_2. }
  split; cbn [reqs_ in_flight in_write unsent told outgoing lost with_queues].
  - rewrite Hr, Q, !List.filter_app, !filter_map_ids, map_app, <- app_assoc.
    cbn [map app]. f_equal; [f_equal|f_equal; f_equal].
    + apply filter_all, Forall_forall. intros t Ht. destruct (Hrel t) as (e & _ & -> & Hf & _); [set_solver|]. by destruct (Hf Ht) as [-> _].
    + apply filter_ext_in. intros t Ht%list_elem_of_In. destruct (Hrel t) as (e & _ & -> & _ & Hw & _); [set_solver|].
      destruct (Hw Ht) as [-> _]. by rewrite negb_involutive.
    + apply filter_all, Forall_forall. intros t Ht. destruct (Hrel t) as (e & _ & -> & _ & _ & Hu); [set_solver|]. by destruct (Hu Ht) as [-> _].
  - apply Forall_app. split.
    + eapply holds_change; [|exact F]. intros t e Ht He Hst. destruct (Hrel t) as (e' & He' & _ & Hf & _); [set_solver|].
      rewrite He in He'. injection He' as <-. rewrite Hs, decide_True, He by (apply Hin; set_solver).
      destruct (Hf Ht) as [Hre Hwa]. cbn. rewrite Hre, Hwa. by exists e.
    + apply (holds_change (store m) _ staged); [|by apply Forall_filter]. intros t e [Ht Hex]%filter_ticket He Hst.
      destruct (Hrel t) as (e' & He' & _ & _ & Hw & _); [set_solver|].
      rewrite He in He'. injection He' as <-. rewrite Hs, decide_True, He by (apply Hin; set_solver).
      destruct (Hw Ht) as [Hre Hwa]. cbn. rewrite Hre, Hwa, Hex. by eexists.
  - constructor.
  - eapply holds_change; [|exact U]. intros t e Ht He Hst. destruct (Hrel t) as (e' & He' & _ & _ & _ & Hu); [set_solver|].
    rewrite He in He'. injection He' as <-. rewrite Hs, decide_True, He by (apply Hin; set_solver).
    destruct (Hu Ht) as [Hre Hwa]. cbn. rewrite Hre, Hwa. by exists e.
  - apply map_eq. intros id. rewrite tell_all_lookup, T, !lookup_fmap, Hs.
    2: { rewrite !map_app in Hnd. apply NoDup_app in Hnd as (_ & _ & (Hnd & _ & _)%NoDup_app). by apply nodup_filter. }
    destruct (decide (id ∈ reqs_ m)) as [Hid|Hid].
    + destruct (wf_elems _ Hwf id Hid) as (e & He & _). pose proof (released_iff m c id e Hwf Himp Hid He) as Hiff. rewrite He. cbn.
      destruct (decide _) as [Hd|Hd]; [rewrite (proj1 Hiff Hd)|destruct (released e); [by destruct Hd; apply Hiff|]]; cbn.
      * f_equal. unfold tell. change (told_of (notify_done (written_after e))) with
          (let r := told_of (written_after e) in mk_report (asked r) (S (calls r)) (failure r) (left r)). rewrite told_written.
        unfold told_of. cbn. by destruct (ec_ e).
      * by rewrite told_written.
    + rewrite decide_False; [done|]. intros (t & -> & [Ht _]%filter_ticket)%list_elem_of_fmap. apply Hid, Hin. set_solver.
  - done.
  - by rewrite Hl.
Qed.

(** ** Cancellation *)

Lemma told_notify_error ec e : told_of (notify_error ec e) = tell ec (told_of e).
Proof. done. Qed.

Lemma drop_implements m m' n c :
  wf m -> cancel_waiting m = Done (m', n) -> implements m c ->
  exists c', client_apply act_drop c = Some (c', []) /\ implements m' c'.
Proof.
  intros Hwf Hc Himp. eexists. split; [done|]. unfold cancel_waiting in Hc. apply bind_done in Hc as (u & _ & Hc).
  destruct (stable_partition _ _) as [kept cancelled] eqn:Hp. injection Hc as <- _.
  assert (kept = map ticket_id (in_flight c) ++ map ticket_id (in_write c) /\ cancelled = map ticket_id (unsent c)) as [Ek Ec].
  { unfold stable_partition in Hp. injection Hp as <- <-. rewrite (imp_queue _ _ Himp), app_assoc.
    pose proof (sent_not_waiting m c Himp) as Hs. pose proof (unsent_waiting m c Himp) as Hu.
    split; rewrite List.filter_app; [rewrite filter_all, filter_none, app_nil_r|rewrite filter_none, filter_all]; try done;
      (eapply Forall_impl; [done|]); cbn; by intros x ->. }
  pose proof (fun id => cancel_part_kept m _ kept cancelled id Hwf Hp) as Hk. destruct Himp as [Q F W U T O L].
  assert (forall st ts, Forall (holds (store m) st) ts -> (forall t, t ∈ ts -> ticket_id t ∈ kept) ->
    Forall (holds (store (cancel_part m kept cancelled)) st) ts) as Hkeep.
  { intros st ts Hts Hin. eapply holds_change; [|exact Hts]. intros t e Ht He Hst. exists e.
    by rewrite (Hk _ (Hin t Ht)). }
  split; cbn [with_queues in_flight in_write unsent told outgoing lost].
  - cbn. by rewrite Ek, app_nil_r.
  - apply Hkeep; [done|]. intros t Ht. rewrite Ek. apply elem_of_app. left. by apply list_elem_of_fmap_2.
  - apply Hkeep; [done|]. intros t Ht. rewrite Ek. apply elem_of_app. right. by apply list_elem_of_fmap_2.
  - constructor.
  - rewrite T, Ec. symmetry. apply told_for_each. intros e. apply told_notify_error.
  - done.
  - done.
Qed.

(** The survivors of a list of tickets, in the queue. *)
Lemma survives_filter m st ts keep b :
  Forall (holds (store m) st) ts ->
  (forall t e, status_ e = st -> req_ e = ticket_req t -> survives e = keep t) ->
  List.filter (fun id => if (b : bool) then test m survives id else negb (test m survives id)) (map ticket_id ts) =
  map ticket_id (List.filter (fun t => if b then keep t else negb (keep t)) ts).
Proof.
  intros Hts Hk. rewrite filter_map_ids. f_equal. apply filter_ext_in. intros t Ht%list_elem_of_In.
  rewrite Forall_forall in Hts. destruct (Hts t Ht) as (e & He & Hst & Hr & _). unfold test. rewrite He. by rewrite (Hk t e Hst Hr).
Qed.

Lemma survives_tickets m c b :
  implements m c ->
  List.filter (fun id => if (b : bool) then test m survives id else negb (test m survives id)) (reqs_ m) =
  map ticket_id (List.filter (fun t => if b then kept_sent t else negb (kept_sent t)) (in_flight c ++ in_write c) ++
                 List.filter (fun t => if b then kept_unsent t else negb (kept_unsent t)) (unsent c)).
Proof.
  intros [Q F W U T O L]. rewrite Q, !List.filter_app, !map_app.
  rewrite (survives_filter m written (in_flight c) kept_sent), (survives_filter m staged (in_write c) kept_sent),
    (survives_filter m waiting (unsent c) kept_unsent); [by rewrite app_assoc|done| |done| |done|];
    intros t e Hst Hr; unfold survives, is_waiting; rewrite Hst, Hr; done.
Qed.

Lemma lose_implements m m' n c :
  wf m -> cancel_on_conn_lost m = Done (m', n) -> implements m c ->
  exists c' o, client_apply act_lose c = Some (c', o) /\ implements m' c' /\ lost c' = true.
Proof.
  intros Hwf Hc Himp. pose proof Himp as [Q F W U T O L]. cbn [client_apply]. rewrite L. unfold cancel_on_conn_lost in Hc.
  destruct (cancel_run_called_ m) eqn:Hflag; [injection Hc as <- _; by eexists _, _|].
  eexists _, _. split; [done|]. split; [|done]. set (m1 := set_cancel_run_called m true) in *.
  assert (wf m1) as Hwf1 by (by eapply wf_same). apply bind_done in Hc as (u & _ & Hc).
  destruct (stable_partition _ _) as [kept cancelled] eqn:Hp. injection Hc as <- _. pose proof Hp as [= Hk Hd].
  pose proof (survives_tickets m c true Himp) as Ek. pose proof (survives_tickets m c false Himp) as Ed. cbn in Ek, Ed.
  pose proof (eq_trans (eq_sym Hk) Ek) as Hk'. pose proof (eq_trans (eq_sym Hd) Ed) as Hd'. clear Hk Hd Ek Ed. subst kept cancelled.
  pose proof (wf_cancel_part m1 _ _ _ Hwf1 Hp) as Hwf2. set (m2 := cancel_part m1 _ _) in *.
  assert (forall st ts keep, Forall (holds (store m) st) ts ->
    (forall t, t ∈ List.filter keep ts -> ticket_id t ∈ reqs_ m2) ->
    Forall (holds (for_each mark_waiting (reqs_ m2) (store m2)) waiting) (List.filter keep ts)) as Hsurv.
  { intros st ts keep Hts Hin. apply (holds_change (store m) _ st); [|by apply Forall_filter]. intros t e Ht He Hst.
    rewrite for_each_lookup, decide_True by (apply Hwf2 || by apply Hin).
    unfold m2. rewrite (cancel_part_kept m1 _ _ _ _ Hwf1 Hp (Hin t Ht)). change (store m1) with (store m). rewrite He. by eexists. }
  assert (forall t, t ∈ unsent (lose_queues c) -> ticket_id t ∈ reqs_ m2) as Hin by (intros t Ht; by apply list_elem_of_fmap_2).
  assert (Forall (holds (for_each mark_waiting (reqs_ m2) (store m2)) waiting) (unsent (lose_queues c))) as Hu.
  { clear Hp. clearbody m2. cbn [lose_queues unsent] in *. rewrite List.filter_app in *.
    rewrite !Forall_app. split_and!; (eapply Hsurv; [done|]); intros t Ht; apply Hin; rewrite !elem_of_app; auto. }
  split; cbn [lose_queues in_flight in_write unsent told outgoing lost].
  - done.
  - constructor.
  - constructor.
  - exact Hu.
  - cbn [store set_store]. rewrite told_for_each_same by done. rewrite T. symmetry. apply told_for_each. intros e. apply told_notify_error.
  - done.
  - done.
Qed.

(** ** Reading *)

(** What a call of [commit_read] does, by its result. *)
Definition read_actions (ec : error_code) (r : tribool * size_t) : list action :=
  match r.1 with
  | Some false => if has_ec ec then [act_malformed ec] else [act_reply]
  | _ => []
  end.

Lemma holds_insert_ne (s : gmap elem_id elem) id e st ts :
  id ∉ map ticket_id ts -> Forall (holds s st) ts -> Forall (holds (<[id := e]> s) st) ts.
Proof.
  intros Hid. apply holds_change. intros t e' Ht He Hst. exists e'. rewrite lookup_insert_ne; [done|].
  intros ->. by apply Hid, list_elem_of_fmap_2.
Qed.

Lemma told_insert (s : gmap elem_id elem) id e e' :
  s !! id = Some e -> told_of <$> <[id := e']> s = <[id := told_of e']> (told_of <$> s).
Proof. intros He. apply fmap_insert. Qed.

(** The front of the queue after a response. *)
Lemma reply_holds (s : gmap elem_id elem) st t q e a n :
  s !! ticket_id t = Some e -> elem_ok e -> status_ e = st -> req_ e = ticket_req t -> remaining_responses_ e = ticket_left t ->
  ticket_left t <> 0 -> ticket_id t ∉ map ticket_id q -> Forall (holds s st) q ->
  let e1 := commit_response n (set_adapter a e) in
  let last := remaining_responses_ e1 =? 0 in
  let s' := <[ticket_id t := if last then notify_done e1 else e1]> s in
  (ticket_left t =? 1) = last /\
  forall M, M = told_of <$> s ->
  exists q' M', reply_queue (t :: q) M = (q', M') /\ Forall (holds s' st) q' /\ M' = told_of <$> s' /\
    map ticket_id q' = (if last then [] else [ticket_id t]) ++ map ticket_id q.
Proof.
  intros He Hok Hst Hr Hl Hne Hnin Hq e1 last s'.
  assert (remaining_responses_ e1 = ticket_left t - 1) as Hrem.
  { cbn. rewrite Hl, wsub_small; [done|lia|]. rewrite <- Hl. pose proof (ok_remaining _ Hok). pose proof (ok_expected _ Hok). lia. }
  assert ((ticket_left t =? 1) = last) as Hlast.
  { unfold last. rewrite Hrem. destruct (N.eqb_spec (ticket_left t) 1), (N.eqb_spec (ticket_left t - 1) 0); try done; lia. }
  assert (remaining_responses_ e -w 1 = remaining_responses_ e - 1) as Hrem' by (cbn in Hrem; by rewrite Hl in Hrem |- *).
  split; [done|]. intros M ->. cbn [reply_queue]. rewrite Hlast. unfold s'. destruct last eqn:E.
  - eexists _, _. split; [done|]. split_and!; [by apply holds_insert_ne| |done].
    rewrite (told_insert s _ e) by done. apply map_eq. intros i. destruct (decide (i = ticket_id t)) as [->|Hi].
    + rewrite !lookup_alter_eq, lookup_insert_eq, lookup_fmap, He. cbn. unfold told_of, tell, hear. cbn. rewrite <- Hrem'. by destruct (ec_ e).
    + by rewrite !lookup_alter_ne, lookup_insert_ne.
  - eexists _, _. split; [done|]. split_and!; [| |done].
    + constructor; [|by apply holds_insert_ne]. exists e1. cbn [answered ticket_id ticket_req ticket_left].
      rewrite lookup_insert_eq. by split_and!.
    + rewrite (told_insert s _ e) by done. apply map_eq. intros i. destruct (decide (i = ticket_id t)) as [->|Hi].
      * rewrite lookup_alter_eq, lookup_insert_eq, lookup_fmap, He. cbn. unfold told_of, hear. cbn. by rewrite <- Hrem'.
      * by rewrite lookup_alter_ne, lookup_insert_ne.
Qed.

Lemma finish_implements m b c : implements m c -> implements (on_finish_parsing m b).1 c.
Proof. by apply implements_same. Qed.

(** The front of the queue, which is in flight or in the current write. *)
Lemma front_ticket m c front rest e :
  wf m -> implements m c -> reqs_ m = front :: rest -> store m !! front = Some e -> is_waiting e = false ->
  exists t, ticket_id t = front /\ elem_ok e /\ req_ e = ticket_req t /\ remaining_responses_ e = ticket_left t /\
    (ticket_id t ∉ rest) /\
    ((exists f, in_flight c = t :: f /\ status_ e = written) \/
     (in_flight c = [] /\ exists w, in_write c = t :: w /\ status_ e = staged)).
Proof.
  intros Hwf Himp Hr He Hw. pose proof (wf_nodup _ Hwf) as Hnd. rewrite Hr in Hnd. apply NoDup_cons in Hnd as [Hnin _].
  pose proof (imp_queue _ _ Himp) as Q. rewrite Hr in Q. pose proof (fun t => ticket_elem m c t Hwf Himp) as Hel.
  destruct (in_flight c) as [|t f]; [destruct (in_write c) as [|t w]; [destruct (unsent c) as [|t u]; [done|]|]|];
    injection Q as -> _; (destruct (Hel t) as (e' & He' & Hok & Hreq & Hl & Hf & Hwr & Hu); [set_solver|]);
    rewrite He in He'; injection He' as <-; exists t.
  - exfalso. unfold is_waiting in Hw. apply bool_decide_eq_false in Hw. apply Hw, Hu. by left.
  - split_and!; try done. right. split; [done|]. exists w. split; [done|]. apply Hwr. by left.
  - split_and!; try done. left. exists f. split; [done|]. apply Hf. by left.
Qed.

(** A new element at the front of the queue, which nobody is told about. *)
Lemma update_implements m c front e e' :
  wf m -> implements m c -> store m !! front = Some e -> status_ e' = status_ e -> req_ e' = req_ e ->
  remaining_responses_ e' = remaining_responses_ e -> told_of e' = told_of e ->
  implements (set_store m (<[front := e']> (store m))) c.
Proof.
  intros Hwf [Q F W U T O L] He Hst Hr Hl Ht.
  assert (forall st ts, Forall (holds (store m) st) ts -> Forall (holds (<[front := e']> (store m)) st) ts) as Hh.
  { intros st ts. apply holds_change. intros t x Hin Hx Hs. destruct (decide (ticket_id t = front)) as [Ei|Hne].
    - rewrite Ei, lookup_insert_eq. rewrite Ei, He in Hx. injection Hx as <-. exists e'. split_and!; congruence.
    - rewrite lookup_insert_ne by done. by exists x. }
  split; cbn [reqs_ store write_buffer_ cancel_run_called_ set_store]; auto.
  rewrite T, (told_insert (store m) front e) by done. symmetry. apply insert_id. by rewrite lookup_fmap, He, Ht.
Qed.

Lemma malformed_implements m c front rest e a ec :
  wf m -> implements m c -> reqs_ m = front :: rest -> store m !! front = Some e -> is_waiting e = false ->
  exists c', client_apply (act_malformed ec) c = Some (c', []) /\
    implements (set_store m (<[front := notify_error ec (set_adapter a e)]> (store m))) c'.
Proof.
  intros Hwf Himp Hr He Hw. destruct (front_ticket m c front rest e Hwf Himp Hr He Hw) as (t & <- & _ & Hreq & Hl & _ & Hcase).
  assert (exists q, in_flight c ++ in_write c = t :: q) as [q Hq].
  { destruct Hcase as [(f & -> & _)|(-> & w & -> & _)]; by eexists. }
  cbn [client_apply]. rewrite Hq. eexists. split; [done|]. destruct Himp as [Q F W U T O L].
  assert (forall st ts, Forall (holds (store m) st) ts ->
    Forall (holds (<[ticket_id t := notify_error ec (set_adapter a e)]> (store m)) st) ts) as Hh.
  { intros st ts. apply holds_change. intros t' x _ Hx Hs. destruct (decide (ticket_id t' = ticket_id t)) as [Ei|Hne].
    - rewrite Ei, lookup_insert_eq. rewrite Ei, He in Hx. injection Hx as <-. by eexists.
    - rewrite lookup_insert_ne by done. by exists x. }
  split; cbn [reqs_ store write_buffer_ cancel_run_called_ set_store with_queues in_flight in_write unsent told outgoing lost]; auto.
  rewrite T, (told_insert (store m) _ e) by done. apply map_eq. intros i. destruct (decide (i = ticket_id t)) as [->|Hi].
  - by rewrite lookup_alter_eq, lookup_insert_eq, lookup_fmap, He.
  - by rewrite lookup_alter_ne, lookup_insert_ne.
Qed.

Lemma reply_implements m c front rest e a n :
  wf m -> implements m c -> reqs_ m = front :: rest -> store m !! front = Some e -> is_waiting e = false ->
  remaining_responses_ e <> 0 ->
  let e1 := commit_response n (set_adapter a e) in
  exists c' o, client_apply act_reply c = Some (c', o) /\
    implements (if remaining_responses_ e1 =? 0
                then set_reqs (set_store m (<[front := notify_done e1]> (store m))) rest
                else set_store m (<[front := e1]> (store m))) c'.
Proof.
  intros Hwf Himp Hr He Hw Hne e1. destruct (front_ticket m c front rest e Hwf Himp Hr He Hw) as (t & <- & Hok & Hreq & Hl & Hnin & Hcase).
  pose proof Himp as [Q F W U T O L]. rewrite Hl in Hne. apply N.eqb_neq in Hne as Hne'. cbn [client_apply].
  pose proof (fun st q => reply_holds (store m) st t q e a n He Hok) as Hreply.
  destruct Hcase as [(f & Ef & Hst)|(Ef & w & Ew & Hst)].
  - rewrite Ef, Hne'. rewrite Ef in F, Q. apply Forall_cons in F as [_ F]. cbn [map app] in Q. rewrite Hr in Q. injection Q as Q.
    rewrite Q in Hnin. rewrite !elem_of_app in Hnin.
    destruct (Hreply written f Hst Hreq Hl Hne) as (Hlast & Hrq); [tauto|done|]. destruct (Hrq (told c) T) as (q' & M' & -> & Hq' & HM' & Hids).
    eexists _, _. split; [done|]. fold e1 in Hq', HM', Hids. destruct (remaining_responses_ e1 =? 0); split;
      cbn [reqs_ store write_buffer_ cancel_run_called_ set_store set_reqs with_queues in_flight in_write unsent told outgoing lost]; try done;
      try (apply holds_insert_ne; [tauto|done]); rewrite Hids; cbn [app]; [done|by rewrite Hr, Q].
  - rewrite Ef, Ew, Hne'. rewrite Ew in W. rewrite Ef, Ew in Q. apply Forall_cons in W as [_ W]. cbn [map app] in Q. rewrite Hr in Q. injection Q as Q.
    rewrite Q in Hnin. rewrite !elem_of_app in Hnin.
    destruct (Hreply staged w Hst Hreq Hl Hne) as (Hlast & Hrq); [tauto|done|]. destruct (Hrq (told c) T) as (q' & M' & -> & Hq' & HM' & Hids).
    eexists _, _. split; [done|]. fold e1 in Hq', HM', Hids. destruct (remaining_responses_ e1 =? 0); split;
      cbn [reqs_ store write_buffer_ cancel_run_called_ set_store set_reqs with_queues in_flight in_write unsent told outgoing lost]; try done;
      try (apply holds_insert_ne; [tauto|done]); rewrite Hids; cbn [map app]; [done|by rewrite Hr, Q].
Qed.

Lemma read_implements m m' ec r c :
  wf m -> commit_read m None = Done (m', ec, r) -> implements m c ->
  exists c' o, client_run (read_actions ec r) c = Some (c', o) /\ implements m' c'.
Proof.
  intros Hwf Hc Himp. unfold commit_read in Hc.
  assert (exists m1, wf m1 /\ implements m1 c /\
    (if on_push_ m1 then commit_read_push m1 None else commit_read_response m1 None) = Done (m', ec, r)) as (m1 & Hwf1 & Himp1 & Hc1).
  { destruct (negb (on_push_ m)); [|by exists m]. apply bind_done in Hc as (m1 & Hm1 & Hc).
    apply bind_done in Hm1 as (b & _ & [= <-]). exists (set_on_push m b). split_and!; [by eapply wf_same|by apply (implements_same m)|done]. }
  clear Hc Hwf Himp m. destruct (on_push_ m1).
  - assert (implements m' c /\ r.1 <> Some false) as [Himp' Hr].
    { revert Hc1. unfold commit_read_push. destruct (receive_adapter_ m1) as [a|]; [|done].
      destruct (parse _ _ _ _ _) as [[[[p a'] ec1] [|]]|?|?]; cbn; [|by intros [= <- _ <-]; split; [apply (implements_same m1)|]|done..].
      destruct (has_ec ec1); cbn; intros [= <- _ <-]; (split; [by apply (implements_same m1)|done]). }
    exists c, []. split; [|done]. unfold read_actions. by destruct r as [[[|]|] ?].
  - revert Hc1. unfold commit_read_response, is_waiting_response, deref.
    destruct (reqs_ m1) as [|front rest] eqn:Hq; [done|]. destruct (store m1 !! front) as [e|] eqn:He; [|done].
    cbn [mbind outcome_bind]. destruct (is_waiting e) eqn:Hw; [done|]. cbn [negb boost_assert mbind outcome_bind].
    destruct (N.eqb_spec (remaining_responses_ e) 0) as [?|Hrem]; [done|]. cbn [negb boost_assert mbind outcome_bind].
    destruct (parse _ _ _ _ _) as [[[[p a'] ec1] [|]]|?|?]; cbn [negb mbind outcome_bind]; [| |done..].
    2: { intros [= <- <- <-]. exists c, []. split; [done|]. eapply (implements_same (set_store m1 (<[front := set_adapter a' e]> (store m1)))); try done.
         by apply (update_implements _ _ _ e). }
    destruct (has_ec ec1) eqn:Hec.
    { intros [= <- <- <-]. destruct (malformed_implements m1 c front rest e a' ec1) as (c' & Ha & Himp'); [done..|].
      exists c', []. unfold read_actions. cbn [fst]. rewrite Hec. split; [by apply client_run_one|].
      eapply implements_same; [..|exact Himp']; done. }
    destruct (reply_implements m1 c front rest e a' (get_consumed p)) as (c' & o & Ha & Himp'); [done..|].
    set (e1 := commit_response _ _) in *. cbn zeta in Himp'.
    destruct (remaining_responses_ e1 =? 0); intros [= <- <- <-]; exists c', o; unfold read_actions; cbn [fst]; rewrite Hec;
      (split; [by apply client_run_one|]); (eapply implements_same; [..|exact Himp']); done.
Qed.

(** ** The start of a session, and assignments to response objects *)

Lemma start_implements m c :
  implements m c -> live c = false ->
  exists c' o, client_apply act_start c = Some (c', o) /\ implements (Multiplexer.reset m) c' /\ started c' = true.
Proof.
  intros [Q F W U T O L] Hl. cbn [client_apply]. rewrite Hl. eexists _, _. split; [done|]. split; [|done]. by split.
Qed.

Lemma assign_implements m c id r :
  implements m c -> implements (set_store m (alter (fun e => set_adapter (any_assign r (adapter_ e)) e) id (store m))) c.
Proof.
  intros [Q F W U T O L].
  assert (forall st ts, Forall (holds (store m) st) ts ->
    Forall (holds (alter (fun e => set_adapter (any_assign r (adapter_ e)) e) id (store m)) st) ts) as Hh.
  { intros st ts. apply holds_change. intros t e _ He Hst. destruct (decide (ticket_id t = id)) as [<-|Hne].
    - rewrite lookup_alter_eq, He. by eexists.
    - rewrite lookup_alter_ne by done. by exists e. }
  split; cbn [reqs_ store write_buffer_ cancel_run_called_ set_store]; auto.
  rewrite T. symmetry. apply told_same. intros i. destruct (decide (i = id)) as [->|Hne]; [|by rewrite lookup_alter_ne].
  rewrite lookup_alter_eq. by destruct (store m !! id).
Qed.

(** ** Simulation

    [rd] and [wr]: whether responses may arrive, and whether requests may be
    sent. *)
Definition allowed (rd wr : bool) (a : action) : bool :=
  match a with
  | act_reply | act_malformed _ => rd
  | act_write | act_wrote => wr
  | act_start => false
  | _ => true
  end.

Definition simulated (rd wr : bool) (m m' : multiplexer) : Prop :=
  forall c, implements m c -> (wr = true -> started c = true) ->
  exists acts o c', forallb (allowed rd wr) acts = true /\ client_run acts c = Some (c', o) /\ implements m' c'.

Lemma allowed_started rd wr acts c c' o :
  client_run acts c = Some (c', o) -> forallb (allowed rd wr) acts = true -> started c' = started c.
Proof.
  intros Hr Ha. eapply run_started; [exact Hr|]. intros a Hin ->. rewrite forallb_forall in Ha.
  by specialize (Ha act_start ltac:(by apply list_elem_of_In)).
Qed.

#[export] Instance simulated_preorder rd wr : PreOrder (simulated rd wr).
Proof.
  split.
  - intros m c Hc _. by exists [], [], c.
  - intros m1 m2 m3 H1 H2 c Hc Hs. destruct (H1 c Hc Hs) as (a1 & o1 & c1 & A1 & R1 & I1).
    destruct (H2 c1 I1) as (a2 & o2 & c2 & A2 & R2 & I2).
    { intros Hw. rewrite (allowed_started _ _ _ _ _ _ R1 A1). auto. }
    exists (a1 ++ a2), (o1 ++ o2), c2. rewrite forallb_app, A1, A2. split_and!; [done|by eapply client_run_app|done].
Qed.

Lemma simulated_weaken rd wr m m' : simulated false false m m' -> simulated rd wr m m'.
Proof.
  intros Hs c Hc _. destruct (Hs c Hc) as (acts & o & c' & Ha & Hr & Hi); [done|]. exists acts, o, c'. split_and!; [|done..].
  rewrite forallb_forall in *. intros a Hin. specialize (Ha a Hin). by destruct a.
Qed.

Lemma simulated_same rd wr m m' :
  reqs_ m' = reqs_ m -> store m' = store m -> write_buffer_ m' = write_buffer_ m ->
  cancel_run_called_ m' = cancel_run_called_ m -> simulated rd wr m m'.
Proof. intros Hr Hs Hw Hc c Himp _. exists [], [], c. split_and!; [done|done|by apply (implements_same m)]. Qed.

(** One action. *)
Lemma simulated_one rd wr m m' a :
  allowed rd wr a = true ->
  (forall c, implements m c -> (wr = true -> started c = true) -> exists c' o, client_apply a c = Some (c', o) /\ implements m' c') ->
  simulated rd wr m m'.
Proof.
  intros Ha Hs c Hc Hst. destruct (Hs c Hc Hst) as (c' & o & Hap & Hi). exists [a], o, c'.
  split_and!; [cbn; by rewrite Ha|by apply client_run_one|done].
Qed.

Lemma simulated_new rd wr m req a m1 id m' :
  wf m -> allocate m req a = (m1, id) -> add m1 id = Done m' \/ m' = m1 -> simulated rd wr m m'.
Proof.
  intros Hwf Hal [Hadd| ->].
  - apply (simulated_one _ _ _ _ (act_submit id req)); [done|]. intros c Hc _.
    destruct (submit_implements _ _ _ _ _ _ _ Hwf Hal Hadd Hc) as (c' & ? & ?). by exists c', [].
  - apply (simulated_one _ _ _ _ (act_refuse id req)); [done|]. intros c Hc _.
    destruct (refuse_implements _ _ _ _ _ _ Hal Hc) as (c' & ? & ? & _). by exists c', [].
Qed.

Lemma simulated_remove rd wr m id m' : wf m -> remove m id = Done (m', true) -> simulated rd wr m m'.
Proof.
  intros Hwf Hrm. apply (simulated_one _ _ _ _ (act_withdraw id)); [done|]. intros c Hc _.
  destruct (withdraw_implements _ _ _ _ Hwf Hrm Hc) as (c' & ? & ?). by exists c', [].
Qed.

Lemma simulated_write rd m : wf m -> cancel_run_called_ m = false -> simulated rd true m (prepare_write m).1.
Proof.
  intros Hwf Hf. apply (simulated_one _ _ _ _ act_write); [done|]. intros c Hc Hs. apply write_implements; [done|done|].
  unfold live. by rewrite Hs, (imp_lost _ _ Hc), Hf.
Qed.

Lemma simulated_wrote rd m m' n : wf m -> commit_write m = Done (m', n) -> simulated rd true m m'.
Proof.
  intros Hwf Hm. apply (simulated_one _ _ _ _ act_wrote); [done|]. intros c Hc _.
  destruct (wrote_implements _ _ _ _ Hwf Hm Hc) as (c' & ? & ?). by exists c', [].
Qed.

Lemma simulated_read wr m m' ec r : wf m -> commit_read m None = Done (m', ec, r) -> simulated true wr m m'.
Proof.
  intros Hwf Hm c Hc _. destruct (read_implements _ _ _ _ _ Hwf Hm Hc) as (c' & o & Hr & Hi).
  exists (read_actions ec r), o, c'. split_and!; [|done..]. unfold read_actions. destruct r.1 as [[|]|]; [done| |done]. by destruct (has_ec ec).
Qed.

Lemma simulated_cancel_waiting rd wr m m' n : wf m -> cancel_waiting m = Done (m', n) -> simulated rd wr m m'.
Proof.
  intros Hwf Hm. apply (simulated_one _ _ _ _ act_drop); [done|]. intros c Hc _.
  destruct (drop_implements _ _ _ _ Hwf Hm Hc) as (c' & ? & ?). by exists c', [].
Qed.

Lemma simulated_cancel_on_conn_lost rd wr m m' n : wf m -> cancel_on_conn_lost m = Done (m', n) -> simulated rd wr m m'.
Proof.
  intros Hwf Hm. apply (simulated_one _ _ _ _ act_lose); [done|]. intros c Hc _.
  destruct (lose_implements _ _ _ _ Hwf Hm Hc) as (c' & o & ? & ? & _). by exists c', o.
Qed.

Lemma simulated_assign rd wr m id r :
  simulated rd wr m (set_store m (alter (fun e => set_adapter (any_assign r (adapter_ e)) e) id (store m))).
Proof. intros c Hc _. exists [], [], c. split_and!; [done|done|by apply assign_implements]. Qed.

#[export] Hint Resolve simulated_new simulated_remove simulated_write simulated_wrote simulated_read simulated_cancel_waiting
  simulated_cancel_on_conn_lost simulated_assign : redis.
