(* ===== verification/MultiplexerClaims.v ===== *)
(** * Claims about the multiplexer *)

From stdpp Require Import gmap.
From S2P Require Import Prelude Charconv Types Parser ParserSpec ParserSafety Resp3 ParserCorrect.
From S2P Require Import Serialization Request Adapters Traits AdapterTheorems.
From S2P Require Import Multiplexer MultiplexerInvariant MultiplexerRead MultiplexerStream.

#[local] Open Scope string_scope.
#[local] Open Scope N_scope.
#[local] Open Scope list_scope.

(** ** Examples *)

(** An adapter that records what it is given. *)
Definition recorder : any_adapter :=
  mk_any_adapter (list (size_t * node)) [] (fun s i nd ec => Done (s ++ [(i, nd)], ec)) any_size
    (fun _ => None) (fun _ s => s).

Definition recorded (l : list (size_t * node)) : any_adapter :=
  mk_any_adapter (list (size_t * node)) l (fun s i nd ec => Done (s ++ [(i, nd)], ec)) any_size
    (fun _ => None) (fun _ s => s).

(** Requests of two commands, of one command, and without a response. *)
Definition two_commands : request := mk_request default_request_config (bs "GET a;GET b;") 2 2 false.
Definition one_command : request := mk_request default_request_config (bs "GET c;") 1 1 false.
Definition subscribe : request := mk_request default_request_config (bs "SUBSCRIBE d;") 1 0 false.

Definition bulk (v : bytes) : resp3 := r_blob type.blob_string v.
Definition bulk_node (v : bytes) : node := mk_node type.blob_string 1 0 v.

(** A sequence of operations. *)
Fixpoint mux_run (ops : list mux_op) (m : multiplexer) : outcome multiplexer :=
  match ops with
  | [] => Done m
  | op :: ops => m ← mux_apply op m; mux_run ops m
  end.

Lemma reachable_run ops m m' :
  reachable m -> Forall op_typed ops -> mux_run ops m = Done m' -> reachable m'.
Proof.
  intros Hm Hty. revert m Hm. induction Hty as [|op ops Hop _ IH]; intros m Hm; cbn; [by intros [= <-]|].
  destruct (mux_apply op m) as [m1|?|?] eqn:H1; [|done..]. apply IH. by eapply reachable_op.
Qed.

Definition start : multiplexer := set_receive_adapter new_multiplexer (Some recorder).

Definition run_ops (ops : list mux_op) : multiplexer :=
  match mux_run ops start with Done m => m | _ => start end.

(** ** The queue *)



(** ** Reading *)

(** When the buffer holds the responses of the requests at the front of the
    queue, in the order of the requests, and pushes anywhere between them, the
    calls of [commit_read] hand each request its own responses, the [i]-th under
    index [i], and the pushes to the receive adapter; every request is notified
    once and leaves the queue, and the bytes behind stay in the buffer. *)
Theorem pipeline_fifo m xs others rs rest ra :
  wf m -> idle m -> reqs_ m = map slot_id xs ++ others -> Forall (slot_ok (store m)) xs ->
  responses rs = concat (map slot_responses xs) -> Forall message_ok rs -> receive_pushes (receive_adapter_ m) (pushes rs) = Some ra ->
  read_buffer_ m = bytes_of rs ++ rest -> len (read_buffer_ m) < size_modulus ->
  exists m', commit_reads (length rs) m = Done (m', None) /\
    idle m' /\ reqs_ m' = others /\ read_buffer_ m' = rest /\ receive_adapter_ m' = ra /\
    Forall (slot_done (store m) (store m')) xs.
Proof.
  intros Hwf Hidle Hr Hok Hrs Hms Hra Hb Hl.
  destruct (deliver_slots xs (store m) (receive_adapter_ m) others) as (st & Hd & Hdone & _); [|done|].
  { pose proof (wf_nodup _ Hwf) as Hn. rewrite Hr in Hn. by apply NoDup_app in Hn as [? _]. }
  rewrite <- Hr, <- Hrs in Hd. destruct (commit_reads_deliver rs m rest (mk_world others st ra)) as (m' & Hc & Hi & Hb' & Hw); try done.
  { by apply (deliver_merge rs _ _ _ (receive_adapter_ m)). }
  exists m'. injection Hw as Hq <- <-. by split_and!.
Qed.

Definition a_push : resp3 := r_aggregate type.push [bulk (bs "x")].

Definition two_requests : multiplexer :=
  run_ops [op_add two_commands recorder; op_add one_command recorder; op_prepare_write; op_commit_write;
           op_receive (bytes_of [bulk (bs "A"); a_push; bulk (bs "B"); bulk (bs "C")] ++ bs "$")].

Lemma two_requests_wf : wf two_requests.
Proof.
  apply reachable_wf, (reachable_run [op_add two_commands recorder; op_add one_command recorder; op_prepare_write; op_commit_write;
           op_receive (bytes_of [bulk (bs "A"); a_push; bulk (bs "B"); bulk (bs "C")] ++ bs "$")] start).
  - apply reachable_new.
  - repeat constructor; by vm_compute.
  - vm_compute. reflexivity.
Qed.

Lemma pipeline_fifo_witness :
  exists m', commit_reads 4 two_requests = Done (m', None) /\ idle m' /\ reqs_ m' = [] /\
    read_buffer_ m' = bs "$" /\
    receive_adapter_ m' = Some (recorded [(0, mk_node type.push 1 0 []); (0, mk_node type.blob_string 1 1 (bs "x"))]) /\
    Forall (slot_done (store two_requests) (store m'))
      [mk_slot 0%nat [bulk (bs "A"); bulk (bs "B")] (recorded [(0, bulk_node (bs "A")); (1, bulk_node (bs "B"))]);
       mk_slot 1%nat [bulk (bs "C")] (recorded [(0, bulk_node (bs "C"))])].
Proof.
  apply (pipeline_fifo two_requests
      [mk_slot 0%nat [bulk (bs "A"); bulk (bs "B")] (recorded [(0, bulk_node (bs "A")); (1, bulk_node (bs "B"))]);
       mk_slot 1%nat [bulk (bs "C")] (recorded [(0, bulk_node (bs "C"))])] [] [bulk (bs "A"); a_push; bulk (bs "B"); bulk (bs "C")] (bs "$")).
  - exact two_requests_wf.
  - by vm_compute.
  - by vm_compute.
  - repeat apply Forall_cons_2; [..|apply Forall_nil_2]; eexists; (split; [vm_compute; reflexivity|]);
      (split; [split; by vm_compute|]); (split; [by vm_compute|]); (split; [done|]); (split; [by vm_compute|]);
      (split; [repeat constructor; by vm_compute|by vm_compute]).
  - by vm_compute.
  - repeat constructor; by vm_compute.
  - by vm_compute.
  - by vm_compute.
  - by vm_compute.
Defined.

Definition one_request : multiplexer := run_ops [op_add one_command recorder; op_prepare_write].

(** A message goes to the receive adapter, and no request changes, when it
    is a push, or when no request can be answered by it: the queue is empty, or
    its front is not sent yet or expects no response. *)
Theorem push_to_receive_adapter m r rest a0 a :
  wf m -> idle m -> buffered m r rest -> receive_adapter_ m = Some a0 ->
  root_type r = type.push \/ reqs_ m = [] \/
    (exists front others e, reqs_ m = front :: others /\ store m !! front = Some e /\
       (status_ e = waiting \/ remaining_responses_ e = 0)) ->
  feed (fun a nd ec => any_call a 0 nd ec) a0 (nodes 0 r) = Done (a, None) ->
  exists m', commit_read m None = Done (m', None, (Some true, len (encode r))) /\
    idle m' /\ read_buffer_ m' = rest /\ reqs_ m' = reqs_ m /\ store m' = store m /\
    receive_adapter_ m' = Some a.
Proof.
  intros Hwf Hidle Hbuf Hra Hpush Hfeed. apply (read_push m r rest a0 a); try done.
  rewrite (is_next_push_message m r rest Hbuf).
  destruct Hpush as [->|[->|(front & others & e & -> & He & Hw)]]; [done|by destruct (root_type r)|].
  unfold deref. rewrite He. cbn.
  destruct (N.eqb_spec (remaining_responses_ e) 0) as [Hz|Hz]; [by destruct (root_type r)|].
  destruct Hw as [Hw|]; [|done]. unfold is_waiting. rewrite bool_decide_true by done. by destruct (root_type r).
Qed.

Lemma push_to_receive_adapter_witness :
  let r := r_aggregate type.push [bulk (bs "x")] in
  let m := set_read_buffer one_request (encode r ++ bs ":") in
  exists m', commit_read m None = Done (m', None, (Some true, len (encode r))) /\
    idle m' /\ read_buffer_ m' = bs ":" /\ reqs_ m' = reqs_ m /\ store m' = store m /\
    receive_adapter_ m' = Some (recorded [(0, mk_node type.push 1 0 []); (0, mk_node type.blob_string 1 1 (bs "x"))]).
Proof.
  intros r m. apply (push_to_receive_adapter m r (bs ":") recorder).
  - apply reachable_wf, (reachable_run [op_add one_command recorder; op_prepare_write; op_receive (encode r ++ bs ":")] start).
    + apply reachable_new.
    + repeat constructor; by vm_compute.
    + vm_compute. reflexivity.
  - by vm_compute.
  - split_and!; by vm_compute.
  - by vm_compute.
  - by left.
  - by vm_compute.
Defined.

(** ** Writing *)

(** [prepare_write] appends the payloads of the waiting requests to the
    write buffer, in the order of the queue, stages exactly those, and returns
    their number. *)
Theorem prepare_write_payload m :
  wf m ->
  let ids := List.filter (test m is_waiting) (reqs_ m) in
  let m' := (prepare_write m).1 in
  (prepare_write m).2 = len ids /\ reqs_ m' = reqs_ m /\
  write_buffer_ m' = write_buffer_ m ++
    concat (map (fun id => from_option (fun e => payload (req_ e)) [] (store m !! id)) ids) /\
  (forall id, store m' !! id = if decide (id ∈ ids) then mark_staged <$> store m !! id else store m !! id).
Proof.
  intros Hwf ids m'. unfold m', prepare_write.
  destruct (partition_point _ _) as [a b] eqn:Hpp. apply partition_waiting in Hpp as (Hr & Ha & Hb); [|done].
  assert (ids = b) as Hids.
  { unfold ids. rewrite Hr, List.filter_app.
    assert (List.filter (test m is_waiting) a = []) as ->.
    { clear -Ha. induction Ha as [|x a Hx _ IH]; [done|]. cbn. by rewrite Hx. }
    cbn. clear -Hb. induction Hb as [|x b Hx _ IH]; [done|]. cbn. by rewrite Hx, IH. }
  rewrite Hids. destruct (stage_fold m b) as (Hr' & _ & _ & _ & Hs & Hw).
  - rewrite <-Hids. apply filter_nodup, Hwf.
  - intros id Hid. destruct (wf_elems _ Hwf id) as (e & He & _); [rewrite Hr; apply elem_of_app; by right|]. by exists e.
  - cbn [fst snd reqs_ write_buffer_ store set_usage]. by split_and!.
Qed.

Lemma prepare_write_payload_witness :
  let m := run_ops [op_add two_commands recorder; op_add one_command recorder] in
  write_buffer_ (prepare_write m).1 = bs "GET a;GET b;GET c;".
Proof.
  intros m.
  refine (eq_trans (proj1 (proj2 (proj2 (prepare_write_payload m _)))) _).
  - apply reachable_wf, (reachable_run [op_add two_commands recorder; op_add one_command recorder] start).
    + apply reachable_new.
    + repeat constructor; by vm_compute.
    + vm_compute. reflexivity.
  - by vm_compute.
Defined.

(** A request with [HELLO] priority goes in front of all the requests that
    are not sent yet and behind the others; any other request goes to the end. *)
Theorem add_position m req a m' :
  wf m -> get_expected_responses req < size_modulus -> mux_apply (op_add req a) m = Done m' ->
  exists id pre post, (id ∉ reqs_ m) /\ store m' !! id = Some (make_elem req a) /\
    reqs_ m = pre ++ post /\ reqs_ m' = pre ++ id :: post /\
    Forall (fun x => test m' is_waiting x = true) post /\
    (if has_hello_priority req then Forall (fun x => test m' is_waiting x = false) pre else post = []).
Proof.
  intros Hwf Hreq. cbn [mux_apply]. destruct (allocate m req a) as [m1 id] eqn:Hal.
  apply wf_allocate in Hal as (Hwf1 & Hnin & Hr & Hs); [|done]. intros Hadd.
  destruct (wf_add m1 id (make_elem req a) m') as (_ & Hst & pre & post & H1 & H2 & H3 & H4); try done.
  exists id, pre, post. rewrite Hr in H1, Hnin. rewrite Hst. unfold test in *. rewrite Hst. by split_and!.
Qed.

Definition hello_request : request := mk_request default_request_config (bs "HELLO 3;") 1 1 true.

Lemma add_position_witness :
  let m := run_ops [op_add two_commands recorder; op_prepare_write; op_add one_command recorder] in
  exists id pre post, (id ∉ [0%nat; 1%nat]) /\
    store (run_ops [op_add two_commands recorder; op_prepare_write; op_add one_command recorder; op_add hello_request recorder]) !! id
      = Some (make_elem hello_request recorder) /\
    [0%nat; 1%nat] = pre ++ post /\ [0%nat; 2%nat; 1%nat] = pre ++ id :: post /\
    Forall (fun x => test (run_ops [op_add two_commands recorder; op_prepare_write; op_add one_command recorder; op_add hello_request recorder]) is_waiting x = true) post /\
    Forall (fun x => test (run_ops [op_add two_commands recorder; op_prepare_write; op_add one_command recorder; op_add hello_request recorder]) is_waiting x = false) pre.
Proof.
  intros m. apply (add_position m hello_request recorder
    (run_ops [op_add two_commands recorder; op_prepare_write; op_add one_command recorder; op_add hello_request recorder])).
  - apply reachable_wf, (reachable_run [op_add two_commands recorder; op_prepare_write; op_add one_command recorder] start).
    + apply reachable_new.
    + repeat constructor; by vm_compute.
    + vm_compute. reflexivity.
  - by vm_compute.
  - vm_compute. reflexivity.
Defined.

(** ** Completion and cancellation *)

(** What an operation other than [remove] does to the notifications: an element
    is notified once when it leaves the queue, and not otherwise. *)
Definition notifies_removed (m m' : multiplexer) : Prop :=
  forall id e, store m !! id = Some e ->
  exists e', store m' !! id = Some e' /\
    done_calls e' = (if decide (id ∈ reqs_ m /\ id ∉ reqs_ m') then S (done_calls e) else done_calls e).

(** [commit_write] empties the write buffer, marks the staged requests
    written, and completes exactly the written requests that expect no
    response: those leave the queue and are notified once. *)
Theorem commit_write_releases m :
  wf m ->
  exists m', commit_write m = Done (m', len (List.filter (test m released) (reqs_ m))) /\
    write_buffer_ m' = [] /\
    reqs_ m' = List.filter (fun id => negb (test m released id)) (reqs_ m) /\
    Forall (fun id => test m' is_staged id = false) (reqs_ m') /\ notifies_removed m m'.
Proof.
  intros Hwf. destruct (commit_write_spec m Hwf) as (m' & Hc & Hw & _ & _ & Hr & Hs).
  exists m'. split_and!; [done|done|done| |].
  - apply Forall_forall. intros id Hid. rewrite Hr, filter_elem in Hid. destruct Hid as [Hid Hrel].
    destruct (wf_elems _ Hwf id Hid) as (e & He & _). unfold test in *. rewrite He in Hrel. apply negb_true_iff in Hrel.
    rewrite Hs, decide_True, He by done. cbn. rewrite Hrel. by destruct e as [? ? ? ? [] ? ?].
  - intros id e He. rewrite Hs, He, Hr. destruct (decide (id ∈ reqs_ m)) as [Hid|Hid]; cbn.
    + assert (test m released id = released e) as Ht by (unfold test; by rewrite He).
      eexists. split; [done|]. destruct (released e) eqn:Hrel; cbn.
      * rewrite decide_True by (split; [done|rewrite filter_elem, Ht; by intros [_ ?]]).
        unfold written_after. by destruct (is_staged e).
      * rewrite decide_False by (rewrite filter_elem, Ht; tauto). unfold written_after. by destruct (is_staged e).
    + exists e. split; [done|]. by rewrite decide_False by tauto.
Qed.

Lemma commit_write_releases_witness :
  let m := run_ops [op_add subscribe recorder; op_add one_command recorder; op_prepare_write] in
  exists m', commit_write m = Done (m', 1) /\ write_buffer_ m' = [] /\ reqs_ m' = [1%nat] /\
    Forall (fun id => test m' is_staged id = false) (reqs_ m') /\ notifies_removed m m'.
Proof.
  intros m. apply (commit_write_releases m).
  apply reachable_wf, (reachable_run [op_add subscribe recorder; op_add one_command recorder; op_prepare_write] start).
  - apply reachable_new.
  - repeat constructor; by vm_compute.
  - vm_compute. reflexivity.
Defined.

Lemma cancel_part_notifies m f kept cancelled :
  wf m -> stable_partition f (reqs_ m) = (kept, cancelled) ->
  notifies_removed m (cancel_part m kept cancelled).
Proof.
  intros Hwf Hp id e He. rewrite (cancel_part_lookup _ _ _ _ _ Hwf Hp), He. injection Hp as <- <-. cbn.
  destruct (decide (id ∈ List.filter _ _)) as [Hc|Hc]; cbn; eexists; (split; [done|]).
  - rewrite filter_elem in Hc. destruct Hc as [Hid Hf]. apply negb_true_iff in Hf.
    rewrite decide_True; [done|]. split; [done|]. rewrite filter_elem. intros [_ Hf']. congruence.
  - rewrite decide_False; [done|]. intros [Hid Hn]. rewrite filter_elem in Hc, Hn. apply Hn. split; [done|].
    destruct (f id); [done|]. by destruct Hc.
Qed.



Definition persistent : request_config := mk_request_config false false false true.
Definition persistent_two : request := mk_request persistent (bs "GET a;GET b;") 2 2 false.


(** [cancel_waiting] cancels exactly the requests that are not sent yet. *)
Theorem cancel_waiting_exact m :
  wf m ->
  exists m', cancel_waiting m = Done (m', len (List.filter (test m is_waiting) (reqs_ m))) /\
    reqs_ m' = List.filter (fun id => negb (test m is_waiting id)) (reqs_ m) /\
    (forall id e, id ∈ reqs_ m -> store m !! id = Some e ->
       store m' !! id = Some (if is_waiting e then notify_error (Some operation_aborted) e else e)) /\
    notifies_removed m m'.
Proof.
  intros Hwf. unfold cancel_waiting. rewrite wf_non_null by done. cbn [boost_assert mbind outcome_bind].
  destruct (stable_partition _ _) as [kept cancelled] eqn:Hp.
  assert (List.filter (test m is_waiting) (reqs_ m) = cancelled) as ->.
  { injection Hp as _ <-. apply filter_ext. intros x. by rewrite negb_involutive. }
  eexists. split; [reflexivity|split_and!].
  - by injection Hp as <- _.
  - intros id e Hid He. rewrite (cancel_part_lookup _ _ _ _ _ Hwf Hp), He. injection Hp as _ <-.
    assert (is_waiting e = test m is_waiting id) as -> by (unfold test; by rewrite He).
    destruct (decide _) as [Hd|Hd]; rewrite filter_elem, negb_involutive in Hd.
    + destruct Hd as [_ ->]. done.
    + destruct (test m is_waiting id); [|done]. by destruct Hd.
  - by eapply cancel_part_notifies.
Qed.

Lemma cancel_waiting_exact_witness :
  let m := run_ops [op_add two_commands recorder; op_prepare_write; op_add one_command recorder] in
  exists m', cancel_waiting m = Done (m', 1) /\ reqs_ m' = [0%nat] /\
    (forall id e, id ∈ reqs_ m -> store m !! id = Some e ->
       store m' !! id = Some (if is_waiting e then notify_error (Some operation_aborted) e else e)) /\
    notifies_removed m m'.
Proof.
  intros m. apply (cancel_waiting_exact m).
  apply reachable_wf, (reachable_run [op_add two_commands recorder; op_prepare_write; op_add one_command recorder] start).
  - apply reachable_new.
  - repeat constructor; by vm_compute.
  - vm_compute. reflexivity.
Defined.

Lemma conn_lost_survivor m id e :
  wf m -> cancel_run_called_ m = false -> id ∈ reqs_ m -> store m !! id = Some e -> test m survives id = true ->
  exists m' n, cancel_on_conn_lost m = Done (m', n) /\ id ∈ reqs_ m' /\ store m' !! id = Some (mark_waiting e).
Proof.
  intros Hwf Hcalled Hid He Hsurv. unfold cancel_on_conn_lost. rewrite Hcalled.
  set (m0 := set_cancel_run_called m true). assert (wf m0) as Hwf0 by (by eapply wf_same).
  rewrite wf_non_null by done. cbn [boost_assert mbind outcome_bind].
  destruct (stable_partition (test m0 survives) (reqs_ m0)) as [kept cancelled] eqn:Hp.
  assert (id ∈ kept) as Hk by (injection Hp as <- _; by apply filter_elem).
  assert (NoDup kept) as Hnd by (injection Hp as <- _; apply filter_nodup, Hwf).
  eexists _, _. split; [reflexivity|]. change (reqs_ (cancel_part m0 kept cancelled)) with kept. split; [done|].
  cbn [store set_store]. rewrite for_each_lookup, decide_True by done.
  rewrite (cancel_part_kept m0 _ _ _ _ Hwf0 Hp Hk). change (store m0) with (store m). by rewrite He.
Qed.

(** ** Defects *)







(** An adapter that rejects every node. *)
Definition rejecting : any_adapter :=
  mk_any_adapter unit tt (fun s i nd ec => Done (s, make_error_code error.not_a_number)) any_size
    (fun _ => None) (fun _ s => s).

(** A request completed by an error of its adapter stays at the front of
    the queue; when [cancel_if_unresponded] is off, it is still queued after the
    connection is lost and is sent again, although the operation that owns it
    was notified of its end. *)
Theorem failed_request_stays_queued m r rest front others e a ev :
  wf m -> idle m -> buffered m r rest -> response_ok r -> answering m front others e ->
  cancel_run_called_ m = false -> cancel_if_unresponded (get_config (req_ e)) = false ->
  feed (elem_adapter e) (adapter_ e) (nodes 0 r) = Done (a, Some ev) ->
  exists m1 m2 n e2, commit_read m None = Done (m1, Some ev, (Some false, 0)) /\
    cancel_on_conn_lost m1 = Done (m2, n) /\ front ∈ reqs_ m2 /\ store m2 !! front = Some e2 /\
    is_waiting e2 = true /\ has_ec (ec_ e2) = true /\ done_calls e2 = S (done_calls e).
Proof.
  intros Hwf Hidle Hbuf (Hv & Hh & Hp) Hans Hcalled Hcfg Hfeed.
  destruct (read_response_error m r rest Hidle Hbuf front others e a ev Hans Hp Hfeed) as (m1 & Hc & Hr1 & Hs1 & Hcr1).
  pose proof (wf_commit_read _ _ _ _ _ Hwf Hc) as Hwf1.
  destruct Hans as (Hr & He & Hst & Hrem).
  set (e1 := notify_error (Some ev) (set_adapter a e)).
  assert (store m1 !! front = Some e1) as He1 by (rewrite Hs1; apply lookup_insert_eq).
  assert (test m1 survives front = true) as Hsurv.
  { unfold test. rewrite He1. unfold survives, is_waiting. cbn. rewrite bool_decide_false by done. by rewrite Hcfg. }
  destruct (conn_lost_survivor m1 front e1 Hwf1) as (m2 & n & Hlost & Hin & He2); [by rewrite Hcr1|by rewrite Hr1, Hr; left|done|done|].
  exists m1, m2, n, (mark_waiting e1). split_and!; try done. cbn. by destruct (has_ec (ec_ e)) eqn:E; rewrite ?E.
Qed.

Lemma failed_request_stays_queued_witness :
  let m := run_ops [op_add persistent_two rejecting; op_prepare_write; op_commit_write; op_receive (encode (bulk (bs "A")))] in
  exists m1 m2 n e2, commit_read m None = Done (m1, make_error_code error.not_a_number, (Some false, 0)) /\
    cancel_on_conn_lost m1 = Done (m2, n) /\ 0%nat ∈ reqs_ m2 /\ store m2 !! 0%nat = Some e2 /\
    is_waiting e2 = true /\ has_ec (ec_ e2) = true /\ done_calls e2 = 1%nat.
Proof.
  intros m. apply (failed_request_stays_queued m (bulk (bs "A")) [] 0%nat [] (mark_written (make_elem persistent_two rejecting)) rejecting).
  - apply reachable_wf, (reachable_run [op_add persistent_two rejecting; op_prepare_write; op_commit_write; op_receive (encode (bulk (bs "A")))] start).
    + apply reachable_new.
    + repeat constructor; by vm_compute.
    + vm_compute. reflexivity.
  - by vm_compute.
  - split_and!; by vm_compute.
  - split_and!; by vm_compute.
  - split_and!; by vm_compute.
  - by vm_compute.
  - by vm_compute.
  - by vm_compute.
Defined.
