(* ===== verification/Logger.v ===== *)
(** * Logger

    [logger.hpp] and [impl/logger.ipp]: what the operations of a connection print
    on [std::clog].  The prefix of a logger is a [std::string_view], which does
    not own its characters: strings are objects of the console's store, and a
    view of a string that was destroyed is undefined behaviour.  The text of an
    endpoint and of the error codes of other categories is the platform's. *)

From stdpp Require Import gmap.
From S2P Require Import Prelude Charconv Types Adapters Traits.

#[local] Open Scope string_scope.
#[local] Open Scope N_scope.
#[local] Open Scope list_scope.

(** ** [logger::level] *)

Module level.
Inductive t := disabled | emerg | alert | crit | err | warning | notice | info | debug.

Definition to_int (l : t) : Z :=
  match l with
  | disabled => 0 | emerg => 1 | alert => 2 | crit => 3 | err => 4
  | warning => 5 | notice => 6 | info => 7 | debug => 8
  end.

(** [operator<] of the enumeration. *)
Definition ltb (a b : t) : bool := (to_int a <? to_int b)%Z.
End level.

(** ** The calls of the interface *)

(** One constructor for each member function the operations call. *)
Inductive log_call (Ep : Type) :=
  | on_resolve (ec : error_code) (res : list Ep)
  | on_connect (ec : error_code) (ep : Ep)
  | on_ssl_handshake (ec : error_code)
  | on_write (ec : error_code) (payload : bytes)
  | on_read (ec : error_code) (n : size_t)
  | on_hello (ec : error_code) (resp : generic_response)
  | trace (message : bytes)
  | trace_ec (op : bytes) (ec : error_code).
Arguments on_resolve {Ep} ec res.
Arguments on_connect {Ep} ec ep.
Arguments on_ssl_handshake {Ep} ec.
Arguments on_write {Ep} ec payload.
Arguments on_read {Ep} ec n.
Arguments on_hello {Ep} ec resp.
Arguments trace {Ep} message.
Arguments trace_ec {Ep} op ec.

(** What the program takes from the platform: [endpoint{}], [operator<<] of
    endpoints, and [message()] of the codes that are not of this library. *)
Class Platform (Ep : Type) := {
  default_endpoint : Ep;
  print_endpoint : Ep -> bytes;
  category_message : error_code -> bytes;
}.

(** ** The console *)

Record console := mk_console { strings : gmap nat bytes; clog : bytes }.

(** A [std::string_view]: the object it points into, and its size. *)
Record string_view := mk_view { sv_object : nat; sv_size : size_t }.

Definition view_of (k : console) (s : nat) : string_view :=
  mk_view s (from_option len 0 (strings k !! s)).

Definition destroy (s : nat) (k : console) : console := mk_console (delete s (strings k)) (clog k).

(** [std::clog << s] and [std::endl]. *)
Definition put (s : bytes) (k : console) : console := mk_console (strings k) (clog k ++ s).
Definition endl (k : console) : console := put [LF] k.

(** [std::clog << view]. *)
Definition put_view (v : string_view) (k : console) : outcome console :=
  match strings k !! sv_object v with
  | Some s => Done (put (take (N.to_nat (sv_size v)) s) k)
  | None => Fault out_of_bounds
  end.

(** ** [logger] *)

Record logger := mk_logger { level_ : level.t; prefix_ : string_view }.

(** The constructor, and [set_prefix]. *)
Definition new_logger (l : level.t) : logger := mk_logger l (mk_view 0 0).
Definition set_prefix (l : logger) (v : string_view) : logger := mk_logger (level_ l) v.

Definition write_prefix (l : logger) (k : console) : outcome console :=
  if negb (sv_size (prefix_ l) =? 0) then put_view (prefix_ l) k else Done k.

Section WithPlatform.
Context {Ep : Type} `{Platform Ep}.

(** [ec.message()]. *)
Definition message_of (ec : error_code) : outcome bytes :=
  match ec with
  | Some (redis_error e) => s ← error_message (error.to_int e); Done (bs s)
  | _ => Done (category_message ec)
  end.

(** The loop over the other endpoints. *)
Definition put_endpoints (res : list Ep) (k : console) : console :=
  foldl (fun k ep => put (print_endpoint ep) (put (bs ", ") k)) k res.

Definition logger_on_resolve (l : logger) (ec : error_code) (res : list Ep) (k : console) : outcome console :=
  if level.ltb (level_ l) level.info then Done k
  else
    k ← write_prefix l k;
    let k := put (bs "resolve results: ") k in
    if has_ec ec then msg ← message_of ec; Done (endl (endl (put msg k)))
    else
      match res with
      | [] => Done k
      | ep :: res => Done (endl (put_endpoints res (put (print_endpoint ep) k)))
      end.

Definition logger_on_connect (l : logger) (ec : error_code) (ep : Ep) (k : console) : outcome console :=
  if level.ltb (level_ l) level.info then Done k
  else
    k ← write_prefix l k;
    let k := put (bs "connected to ") k in
    k ← (if has_ec ec then msg ← message_of ec; Done (endl (put msg k)) else Done (put (print_endpoint ep) k));
    Done (endl k).

Definition logger_on_ssl_handshake (l : logger) (ec : error_code) (k : console) : outcome console :=
  if level.ltb (level_ l) level.info then Done k
  else
    k ← write_prefix l k;
    msg ← message_of ec;
    Done (endl (put msg (put (bs "SSL handshake: ") k))).

Definition logger_on_write (l : logger) (ec : error_code) (payload : bytes) (k : console) : outcome console :=
  if level.ltb (level_ l) level.info then Done k
  else
    k ← write_prefix l k;
    k ← (if has_ec ec then msg ← message_of ec; Done (put msg (put (bs "writer_op: ") k))
         else Done (put (bs " bytes written.") (put (to_string (len payload)) (put (bs "writer_op: ") k))));
    Done (endl k).

Definition logger_on_read (l : logger) (ec : error_code) (n : size_t) (k : console) : outcome console :=
  if level.ltb (level_ l) level.info then Done k
  else
    k ← write_prefix l k;
    k ← (if has_ec ec then msg ← message_of ec; Done (put msg (put (bs "reader_op: ") k))
         else Done (put (bs " bytes read.") (put (to_string n) (put (bs "reader_op: ") k))));
    Done (endl k).

Definition logger_on_hello (l : logger) (ec : error_code) (resp : generic_response) (k : console) : outcome console :=
  if level.ltb (level_ l) level.info then Done k
  else
    k ← write_prefix l k;
    k ← (if has_ec ec then
           msg ← message_of ec;
           let k := put msg (put (bs "hello_op: ") k) in
           match resp with
           | r_error e => Done (put (bs ")") (put (diagnostic e) (put (bs " (") k)))
           | r_value _ => Done k
           end
         else Done (put (bs "hello_op: Success") k));
    Done (endl k).

Definition logger_trace (l : logger) (message : bytes) (k : console) : outcome console :=
  if level.ltb (level_ l) level.debug then Done k
  else k ← write_prefix l k; Done (endl (put message k)).

Definition logger_trace_ec (l : logger) (op : bytes) (ec : error_code) (k : console) : outcome console :=
  if level.ltb (level_ l) level.debug then Done k
  else
    k ← write_prefix l k;
    msg ← message_of ec;
    Done (endl (put msg (put (bs ": ") (put op k)))).

(** A call of the interface on this class. *)
Definition log (l : logger) (call : log_call Ep) (k : console) : outcome console :=
  match call with
  | on_resolve ec res => logger_on_resolve l ec res k
  | on_connect ec ep => logger_on_connect l ec ep k
  | on_ssl_handshake ec => logger_on_ssl_handshake l ec k
  | on_write ec payload => logger_on_write l ec payload k
  | on_read ec n => logger_on_read l ec n k
  | on_hello ec resp => logger_on_hello l ec resp k
  | trace message => logger_trace l message k
  | trace_ec op ec => logger_trace_ec l op ec k
  end.

(** The calls of a run, in order. *)
Fixpoint log_all (l : logger) (calls : list (log_call Ep)) (k : console) : outcome console :=
  match calls with
  | [] => Done k
  | call :: calls => k ← log l call k; log_all l calls k
  end.
End WithPlatform.

(** ** What a call prints *)

Section Printing.
Context {Ep : Type} `{Platform Ep}.

(** The level a call needs. *)
Definition required (call : log_call Ep) : level.t :=
  match call with trace _ | trace_ec _ _ => level.debug | _ => level.info end.

Definition enabled (l : logger) (call : log_call Ep) : bool := negb (level.ltb (level_ l) (required call)).

(** The message of a code, as text. *)
Definition message_text (ec : error_code) : bytes :=
  match message_of ec with Done s => s | _ => [] end.

(** The endpoints, separated by commas. *)
Definition endpoints_text (res : list Ep) : bytes :=
  match res with
  | [] => []
  | ep :: res => print_endpoint ep ++ concat (map (fun ep => bs ", " ++ print_endpoint ep) res)
  end.

(** The text of a call behind the prefix, without its line ends. *)
Definition text (call : log_call Ep) : bytes :=
  match call with
  | on_resolve ec res =>
      bs "resolve results: " ++
      (if has_ec ec then message_text ec else endpoints_text res)
  | on_connect ec ep => bs "connected to " ++ (if has_ec ec then message_text ec else print_endpoint ep)
  | on_ssl_handshake ec => bs "SSL handshake: " ++ message_text ec
  | on_write ec p =>
      bs "writer_op: " ++ (if has_ec ec then message_text ec else to_string (len p) ++ bs " bytes written.")
  | on_read ec n =>
      bs "reader_op: " ++ (if has_ec ec then message_text ec else to_string n ++ bs " bytes read.")
  | on_hello ec resp =>
      bs "hello_op: " ++
      (if has_ec ec then
         message_text ec ++
         match resp with r_error e => bs " (" ++ diagnostic e ++ bs ")" | r_value _ => [] end
       else bs "Success")
  | trace m => m
  | trace_ec op ec => op ++ bs ": " ++ message_text ec
  end.

(** The number of line ends behind it. *)
Definition line_ends (call : log_call Ep) : nat :=
  match call with
  | on_resolve ec res => if has_ec ec then 2 else match res with [] => 0 | _ => 1 end
  | on_connect ec _ => if has_ec ec then 2 else 1
  | _ => 1
  end.

(** The prefix a logger prints; its string must be alive. *)
Definition prefix_alive (l : logger) (k : console) (s : bytes) : Prop :=
  if sv_size (prefix_ l) =? 0 then s = []
  else exists str, strings k !! sv_object (prefix_ l) = Some str /\ s = take (N.to_nat (sv_size (prefix_ l))) str.

Lemma message_of_text ec : message_of ec = Done (message_text ec).
Proof. unfold message_text. by destruct ec as [[[]| |]|]. Qed.

Lemma put_put s t k : put t (put s k) = put (s ++ t) k.
Proof. unfold put. cbn. by rewrite (assoc_L (++)). Qed.

Lemma put_endpoints_text res k :
  put_endpoints res k = put (concat (map (fun ep => bs ", " ++ print_endpoint ep) res)) k.
Proof.
  revert k. induction res as [|ep res IH]; intros k; cbn [put_endpoints foldl map concat].
  - unfold put. rewrite app_nil_r. by destruct k.
  - fold (put_endpoints res (put (print_endpoint ep) (put (bs ", ") k))). by rewrite IH, !put_put.
Qed.

Lemma write_prefix_alive l k s : prefix_alive l k s -> write_prefix l k = Done (put s k).
Proof.
  unfold prefix_alive, write_prefix, put_view. destruct (sv_size (prefix_ l) =? 0); cbn [negb].
  - intros ->. unfold put. rewrite app_nil_r. by destruct k.
  - by intros (str & -> & ->).
Qed.

(** A call of a logger whose prefix is alive, in closed form. *)
Lemma log_prints l call k s :
  prefix_alive l k s ->
  log l call k = Done (if enabled l call then put (s ++ text call ++ repeat LF (line_ends call)) k else k).
Proof.
  intros Hs%write_prefix_alive. unfold enabled.
  destruct call as [ec res|ec ep|ec|ec p|ec n|ec resp|m|op ec]; cbn [log required text line_ends];
    unfold logger_on_resolve, logger_on_connect, logger_on_ssl_handshake, logger_on_write, logger_on_read,
      logger_on_hello, logger_trace, logger_trace_ec;
    (destruct (level.ltb _ _); cbn [negb]; [done|]); rewrite Hs; cbn [mbind outcome_bind];
    try (destruct (has_ec ec) eqn:Hec); try destruct res as [|ep res]; try destruct resp as [nds|e];
    rewrite ?message_of_text; cbn [mbind outcome_bind endpoints_text]; unfold endl;
    rewrite ?put_endpoints_text, ?put_put; cbn [repeat]; rewrite ?app_nil_r, <-?(assoc_L (++)); reflexivity.
Qed.

(** With a live prefix, a call prints exactly when the level of the logger
    admits it; it prints the prefix, the text of the call and its line ends, and
    neither fails nor touches the strings of the program. *)
Theorem log_output l calls k s :
  prefix_alive l k s ->
  log_all l calls k =
    Done (put (concat (map (fun call => s ++ text call ++ repeat LF (line_ends call)) (List.filter (enabled l) calls))) k).
Proof.
  revert k. induction calls as [|call calls IH]; intros k Hs; cbn [log_all List.filter].
  - unfold put. cbn. rewrite app_nil_r. by destruct k.
  - rewrite (log_prints _ _ _ _ Hs). cbn [mbind outcome_bind].
    rewrite IH by (by destruct (enabled l call)). destruct (enabled l call); [|done].
    cbn [map concat]. by rewrite put_put.
Qed.

(** The prefix of a logger is a view of a string it does not own.  Once the
    configuration that [async_run] took it from is destroyed, the first call the
    level admits reads freed memory. *)
Theorem log_prefix_dangles l p str k call :
  strings k !! p = Some str -> str <> [] -> enabled (set_prefix l (view_of k p)) call = true ->
  log (set_prefix l (view_of k p)) call (destroy p k) = Fault out_of_bounds.
Proof.
  intros Hp Hne. unfold enabled. cbn [level_ set_prefix].
  assert (write_prefix (set_prefix l (view_of k p)) (destroy p k) = Fault out_of_bounds) as Hw.
  { unfold write_prefix, put_view, view_of. cbn [prefix_ set_prefix sv_size sv_object strings destroy].
    rewrite Hp. cbn [from_option]. rewrite (proj2 (N.eqb_neq _ _)) by (unfold len; destruct str; [done|cbn; lia]).
    cbn [negb]. by rewrite lookup_delete_eq. }
  destruct call; cbn [log required];
    unfold logger_on_resolve, logger_on_connect, logger_on_ssl_handshake, logger_on_write, logger_on_read,
      logger_on_hello, logger_trace, logger_trace_ec; cbn [level_ set_prefix];
    rewrite negb_true_iff; intros ->; by rewrite Hw.
Qed.
End Printing.

(** Endpoints by their text. *)
#[export] Instance text_platform : Platform bytes := {|
  default_endpoint := [];
  print_endpoint ep := ep;
  category_message ec := if has_ec ec then bs "Operation canceled" else bs "Success";
|}.

Definition example_console : console := mk_console {[ 1%nat := bs "(Boost.Redis) " ]} [].
Definition example_logger (l : level.t) : logger := set_prefix (new_logger l) (view_of example_console 1).

Lemma log_output_witness :
  log_all (example_logger level.info)
    [on_connect None (bs "127.0.0.1:6379"); trace (bs "ping_op (1): timeout disabled.");
     on_connect (make_error_code error.connect_timeout) []] example_console =
  Done (put (bs "(Boost.Redis) connected to 127.0.0.1:6379" ++ [LF] ++
             bs "(Boost.Redis) connected to Connect timeout." ++ [LF; LF]) example_console).
Proof.
  refine (eq_trans (log_output (example_logger level.info)
    [on_connect None (bs "127.0.0.1:6379"); trace (bs "ping_op (1): timeout disabled.");
     on_connect (make_error_code error.connect_timeout) []] example_console (bs "(Boost.Redis) ") _) _).
  - eexists. by split.
  - reflexivity.
Defined.

Lemma log_prefix_dangles_witness :
  log (example_logger level.debug) (trace (bs "reader_op (2): connection is closed."))
    (destroy 1 example_console) = Fault out_of_bounds.
Proof. apply (log_prefix_dangles (new_logger level.debug) 1 (bs "(Boost.Redis) ") example_console); done. Defined.
