(* ===== verification/Session.v ===== *)
(** * Session

    [config.hpp], [operation.hpp], [detail/resp3_handshaker.hpp] with
    [impl/resp3_handshaker.ipp], the state of [detail/health_checker.hpp], and
    [detail/resolver.hpp] and [detail/connector.hpp]: the parts of a connection
    that prepare a session and the [HELLO] and [PING] requests it sends on its
    own account. *)

From S2P Require Import Prelude Charconv Types Parser ParserSpec ParserSafety Resp3 ParserCorrect.
From S2P Require Import Serialization Request Adapters Traits AdapterTheorems.

#[local] Open Scope string_scope.
#[local] Open Scope N_scope.
#[local] Open Scope list_scope.

(** ** [config] *)

(** A [steady_clock::duration], in nanoseconds. *)
Definition duration : Type := Z.
Definition seconds (n : Z) : duration := (n * 1000000000)%Z.

Record address := mk_address { host : bytes; port : bytes }.

Record config := mk_config {
  use_ssl : bool;
  addr : address;
  username : bytes;
  password : bytes;
  clientname : bytes;
  database_index : option Z;
  health_check_id : bytes;
  log_prefix : bytes;
  resolve_timeout : duration;
  connect_timeout : duration;
  ssl_handshake_timeout : duration;
  health_check_interval : duration;
  reconnect_wait_interval : duration;
  max_read_size : size_t;
}.

Definition default_config : config :=
  mk_config false (mk_address (bs "127.0.0.1") (bs "6379")) (bs "default") [] (bs "Boost.Redis") (Some 0%Z)
    (bs "Boost.Redis") (bs "(Boost.Redis) ") (seconds 10) (seconds 10) (seconds 10) (seconds 2) (seconds 1)
    size_max.

(** A wait that may be outstanding at a timer or at the resolver.  [cancel]
    completes an outstanding wait with [operation_aborted]; it has no effect on
    one that has completed and whose handler is queued. *)
Inductive wait := quiet | armed | fired (ec : error_code).

Definition wait_cancel (w : wait) : wait :=
  match w with armed => fired (Some operation_aborted) | _ => w end.

(** [operation]. *)
Module operation.
Inductive t :=
  | resolve | connect | ssl_handshake | exec | run | receive | reconnection | health_check | all.
End operation.

(** ** [push_hello] *)

Definition is_empty (s : bytes) : bool := bool_decide (s = []).

(** A string and an [int] in a parameter pack. *)
Definition str (s : bytes) : bulkable := Bulkable s.
Definition int_arg (z : Z) : bulkable := Bulkable z.

(** The choice of the [HELLO] command. *)
Definition push_hello_command (cfg : config) (req : request) : outcome request :=
  if negb (is_empty (username cfg)) && negb (is_empty (password cfg)) && negb (is_empty (clientname cfg)) then
    push req (bs "HELLO")
      [str (bs "3"); str (bs "AUTH"); str (username cfg); str (password cfg); str (bs "SETNAME"); str (clientname cfg)]
  else if is_empty (password cfg) && is_empty (clientname cfg) then
    push req (bs "HELLO") [str (bs "3")]
  else if is_empty (clientname cfg) then
    push req (bs "HELLO") [str (bs "3"); str (bs "AUTH"); str (username cfg); str (password cfg)]
  else
    push req (bs "HELLO") [str (bs "3"); str (bs "SETNAME"); str (clientname cfg)].

Definition push_hello (cfg : config) (req : request) : outcome request :=
  req ← push_hello_command cfg req;
  match database_index cfg with
  | Some i => if negb (i =? 0)%Z then push req (bs "SELECT") [int_arg i] else Done req
  | None => Done req
  end.

(** ** [resp3_handshaker] *)

Record resp3_handshaker := mk_handshaker {
  hello_req_ : request;
  hello_resp_ : generic_response;
  hello_cfg_ : config;
}.

Definition new_handshaker : resp3_handshaker :=
  mk_handshaker (new_request default_request_config) (r_value []) default_config.

Definition handshaker_set_config (h : resp3_handshaker) (cfg : config) : resp3_handshaker :=
  mk_handshaker (hello_req_ h) (hello_resp_ h) cfg.

(** [add_hello]. *)
Definition add_hello (h : resp3_handshaker) : outcome resp3_handshaker :=
  let req := clear (hello_req_ h) in
  let resp := if result_has_value (hello_resp_ h) then r_value [] else hello_resp_ h in
  req ← push_hello (hello_cfg_ h) req;
  Done (mk_handshaker req resp (hello_cfg_ h)).

(** [has_error_in_response]. *)
Definition has_error_in_response (h : resp3_handshaker) : bool :=
  match hello_resp_ h with
  | r_error _ => true
  | r_value nds => existsb (fun e => is_error_type (data_type e)) nds
  end.

(** ** [health_checker] *)

Record health_checker := mk_health_checker {
  ping_req_ : request;
  ping_resp_ : generic_response;
  ping_interval_ : duration;
  checker_has_exited_ : bool;
  ping_timer_ : wait;
  wait_timer_ : wait;
}.

Definition set_ping_resp (r : generic_response) (h : health_checker) : health_checker :=
  mk_health_checker (ping_req_ h) r (ping_interval_ h) (checker_has_exited_ h) (ping_timer_ h) (wait_timer_ h).
Definition set_exited (b : bool) (h : health_checker) : health_checker :=
  mk_health_checker (ping_req_ h) (ping_resp_ h) (ping_interval_ h) b (ping_timer_ h) (wait_timer_ h).
Definition set_ping_timer (w : wait) (h : health_checker) : health_checker :=
  mk_health_checker (ping_req_ h) (ping_resp_ h) (ping_interval_ h) (checker_has_exited_ h) w (wait_timer_ h).
Definition set_wait_timer (w : wait) (h : health_checker) : health_checker :=
  mk_health_checker (ping_req_ h) (ping_resp_ h) (ping_interval_ h) (checker_has_exited_ h) (ping_timer_ h) w.

Definition new_health_checker : outcome health_checker :=
  req ← push (new_request default_request_config) (bs "PING") [str (bs "Boost.Redis")];
  Done (mk_health_checker req (r_value []) (seconds 5) false quiet quiet).

Definition checker_set_config (h : health_checker) (cfg : config) : outcome health_checker :=
  req ← push (clear (ping_req_ h)) (bs "PING") [str (health_check_id cfg)];
  Done (mk_health_checker req (ping_resp_ h) (health_check_interval cfg) (checker_has_exited_ h)
    (ping_timer_ h) (wait_timer_ h)).

(** [health_checker::cancel]. *)
Definition checker_cancel (h : health_checker) : health_checker :=
  set_wait_timer (wait_cancel (wait_timer_ h)) (set_ping_timer (wait_cancel (ping_timer_ h)) h).

(** ** [resolver] and [connector] *)

Section WithEndpoint.
Context {Ep : Type}.

(** [timeout_] has no value before [set_config]; zero stands for it. *)
Record resolver := mk_resolver {
  resolver_addr_ : address;
  resolver_timeout_ : duration;
  results_ : list Ep;
  resv_ : wait;
}.

Definition new_resolver : resolver := mk_resolver (mk_address (bs "127.0.0.1") (bs "6379")) 0%Z [] quiet.

Definition resolver_set_config (r : resolver) (cfg : config) : resolver :=
  mk_resolver (addr cfg) (resolve_timeout cfg) (results_ r) (resv_ r).

Definition resolver_cancel (r : resolver) : resolver :=
  mk_resolver (resolver_addr_ r) (resolver_timeout_ r) (results_ r) (wait_cancel (resv_ r)).

Definition aborted (ec : error_code) : bool :=
  match ec with Some operation_aborted => true | _ => false end.

(** [resolve_op]: suspended in [async_resolve], and its completion. *)
Definition resolve_start (r : resolver) : resolver :=
  mk_resolver (resolver_addr_ r) (resolver_timeout_ r) (results_ r) armed.

Definition resolve_resume (r : resolver) (ec : error_code) (res : list Ep) : resolver * error_code :=
  (mk_resolver (resolver_addr_ r) (resolver_timeout_ r) res quiet,
   if aborted ec then make_error_code error.resolve_timeout else ec).

Record connector := mk_connector { connector_timeout_ : duration; endpoint_ : Ep }.

Definition connector_set_config (ct : connector) (cfg : config) : connector :=
  mk_connector (connect_timeout cfg) (endpoint_ ct).

(** [connect_op] after [async_connect]. *)
Definition connect_resume (ct : connector) (ec : error_code) (ep : Ep) : connector * error_code :=
  (mk_connector (connector_timeout_ ct) ep,
   if aborted ec then make_error_code error.connect_timeout else ec).
End WithEndpoint.
Arguments resolver : clear implicits.
Arguments connector : clear implicits.

(** ** What the handshake sends *)

(** The commands, as lists of strings. *)
Definition hello_command (cfg : config) : list bytes :=
  match is_empty (username cfg), is_empty (password cfg), is_empty (clientname cfg) with
  | false, false, false => [bs "HELLO"; bs "3"; bs "AUTH"; username cfg; password cfg; bs "SETNAME"; clientname cfg]
  | _, true, true => [bs "HELLO"; bs "3"]
  | _, false, true => [bs "HELLO"; bs "3"; bs "AUTH"; username cfg; password cfg]
  | _, _, false => [bs "HELLO"; bs "3"; bs "SETNAME"; clientname cfg]
  end.

Definition select_command (cfg : config) : list (list bytes) :=
  match database_index cfg with
  | Some i => if (i =? 0)%Z then [] else [[bs "SELECT"; to_string_signed i]]
  | None => []
  end.

Lemma push_hello_command_represents cfg r :
  represents r [] ->
  exists r', push_hello_command cfg r = Done r' /\ represents r' [hello_command cfg] /\ cfg_ r' = cfg_ r.
Proof.
  intros Hr. unfold push_hello_command, hello_command.
  destruct (is_empty (username cfg)), (is_empty (password cfg)), (is_empty (clientname cfg));
    cbn [negb andb]; by apply (push_represents r []).
Qed.

Lemma push_hello_represents cfg r :
  represents r [] ->
  exists r', push_hello cfg r = Done r' /\ represents r' (hello_command cfg :: select_command cfg) /\ cfg_ r' = cfg_ r.
Proof.
  intros Hr. unfold push_hello.
  destruct (push_hello_command_represents cfg r Hr) as (r1 & -> & H1 & Hc1). cbn [mbind outcome_bind].
  unfold select_command. destruct (database_index cfg) as [i|]; [|by exists r1].
  destruct (i =? 0)%Z; cbn [negb]; [by exists r1|].
  destruct (push_represents r1 [hello_command cfg] (bs "SELECT") [int_arg i]) as (r2 & -> & H2 & Hc2); [done..|].
  exists r2. by rewrite Hc2, Hc1.
Qed.

Lemma clear_represents r : represents (clear r) [].
Proof. done. Qed.

(** C32: Whatever an earlier handshake left behind, [add_hello] prepares one
    request with the [HELLO] command of the configuration and, for a database
    other than 0, a [SELECT]; it has priority over the requests that are not
    sent yet, and authenticates exactly when the password is set and either
    the client name is empty or the user name is set. *)
Theorem hello_request_contents h :
  hello_with_priority (cfg_ (hello_req_ h)) = true ->
  exists h', add_hello h = Done h' /\
    represents (hello_req_ h') (hello_command (hello_cfg_ h) :: select_command (hello_cfg_ h)) /\
    has_hello_priority (hello_req_ h') = true /\
    (bs "AUTH" ∈ take 3 (hello_command (hello_cfg_ h)) <->
       password (hello_cfg_ h) <> [] /\ (clientname (hello_cfg_ h) = [] \/ username (hello_cfg_ h) <> [])).
Proof.
  intros Hprio. unfold add_hello.
  destruct (push_hello_represents (hello_cfg_ h) (clear (hello_req_ h)) (clear_represents _)) as (r & -> & Hr & Hc).
  cbn [mbind outcome_bind]. eexists. split; [done|]. cbn [hello_req_]. split_and!; [done| |].
  - unfold has_hello_priority. rewrite (rep_hello _ _ Hr), Hc. cbn [cfg_ clear existsb]. rewrite Hprio.
    unfold is_hello at 1, hello_command.
    by destruct (is_empty (username _)), (is_empty (password _)), (is_empty (clientname _)).
  - rewrite <-(bool_decide_eq_true (bs "AUTH" ∈ _)). unfold hello_command, is_empty.
    destruct (username (hello_cfg_ h)), (password (hello_cfg_ h)), (clientname (hello_cfg_ h)); cbn [take];
      match goal with
      | |- context [bool_decide ?P] => let b := eval vm_compute in (bool_decide P) in change (bool_decide P) with b
      end; (split; [intros Hb; try discriminate Hb; split; auto; by right|intros [? [?|?]]; done]).
Qed.

Lemma hello_request_contents_witness :
  exists h', add_hello new_handshaker = Done h' /\
    represents (hello_req_ h') [[bs "HELLO"; bs "3"; bs "SETNAME"; bs "Boost.Redis"]] /\
    has_hello_priority (hello_req_ h') = true /\
    (bs "AUTH" ∈ [bs "HELLO"; bs "3"; bs "SETNAME"] <->
       [] <> ([] : bytes) /\ (bs "Boost.Redis" = [] \/ bs "default" <> [])).
Proof. apply (hello_request_contents new_handshaker). reflexivity. Defined.

(** C39: An error of one handshake is never cleared from [hello_resp_]: the
    adapter of the next handshake throws on its first node that is not an
    error, and a handshake that were answered would still count as failed. *)
Theorem failed_handshake_sticks h e :
  hello_resp_ h = r_error e -> is_error_type (err_data_type e) = true ->
  exists h', add_hello h = Done h' /\ hello_resp_ h' = r_error e /\ has_error_in_response h' = true /\
    forall nd nds, is_error_type (data_type nd) = false ->
      feed general_aggregate (hello_resp_ h') (nd :: nds) = Throw bad_result_access.
Proof.
  intros Hresp He. unfold add_hello. rewrite Hresp.
  destruct (push_hello_represents (hello_cfg_ h) (clear (hello_req_ h)) (clear_represents _)) as (r & -> & _ & _).
  cbn [mbind outcome_bind]. eexists. split; [done|]. split_and!; [done|done|].
  intros nd nds Hnd. cbn [feed hello_resp_]. unfold general_aggregate, result_value, throw_exception_from_error. cbn.
  destruct (data_type nd); try done; by destruct (err_data_type e).
Qed.

Lemma failed_handshake_sticks_witness :
  let e := mk_adapter_error type.simple_error (bs "WRONGPASS") in
  let h := mk_handshaker (new_request default_request_config) (r_error e) default_config in
  exists h', add_hello h = Done h' /\ hello_resp_ h' = r_error e /\ has_error_in_response h' = true /\
    forall nd nds, is_error_type (data_type nd) = false ->
      feed general_aggregate (hello_resp_ h') (nd :: nds) = Throw bad_result_access.
Proof. intros e h. apply (failed_handshake_sticks h e); reflexivity. Defined.
