(* ===== verification/Connection.v ===== *)
(** * Connection

    [connection.hpp]: the state of a connection, [cancel], [receive], and the
    operations [exec_op], [writer_op], [append_some_op] and [reader_op].  Each
    composed operation is a coroutine: a function from the point where it is
    suspended, the state, and the completion it is resumed with, to the next
    suspension or to its completion.  The runtime, the sockets and the channel
    are Boost.Asio's. *)

From stdpp Require Import gmap.
From S2P Require Import Prelude Charconv Types Parser Serialization Request Adapters Traits Multiplexer Logger Session.

#[local] Open Scope string_scope.
#[local] Open Scope N_scope.
#[local] Open Scope list_scope.

(** Suspended at a point, or complete. *)
Inductive co (P R : Type) :=
  | co_yield (p : P)
  | co_complete (r : R).
Arguments co_yield {P R} p.
Arguments co_complete {P R} r.

(** [asio::experimental::channel<void(error_code, size_t)>]. *)
Class Channel (Ch : Type) := {
  channel_new : Ch;
  channel_try_send : Ch -> error_code -> size_t -> option Ch;
  channel_try_receive : Ch -> option (error_code * size_t * Ch);
  channel_cancel : Ch -> Ch;
}.

Section WithChannel.
Context {Ch Ep : Type} `{Channel Ch} `{Platform Ep}.

(** ** [basic_connection] *)

(** [hello_elem_] and [ping_elem_] are the elements whose adapters refer to the
    response objects of the handshake and of the health check; [logged] are the
    calls of the logger. *)
Record connection := mk_connection {
  stream_open : bool;
  writer_timer_ : wait;
  reconnect_timer_ : wait;
  receive_channel_ : Ch;
  resolver_ : resolver Ep;
  connector_ : connector Ep;
  health_checker_ : health_checker;
  handshaker_ : resp3_handshaker;
  conn_cfg_ : config;
  mpx_ : multiplexer;
  hello_elem_ : option elem_id;
  ping_elem_ : option elem_id;
  logged : list (log_call Ep);
}.

Definition set_open (c : connection) b : connection :=
  mk_connection b (writer_timer_ c) (reconnect_timer_ c) (receive_channel_ c) (resolver_ c) (connector_ c)
    (health_checker_ c) (handshaker_ c) (conn_cfg_ c) (mpx_ c) (hello_elem_ c) (ping_elem_ c) (logged c).
Definition set_writer_timer (c : connection) w : connection :=
  mk_connection (stream_open c) w (reconnect_timer_ c) (receive_channel_ c) (resolver_ c) (connector_ c)
    (health_checker_ c) (handshaker_ c) (conn_cfg_ c) (mpx_ c) (hello_elem_ c) (ping_elem_ c) (logged c).
Definition set_reconnect_timer (c : connection) w : connection :=
  mk_connection (stream_open c) (writer_timer_ c) w (receive_channel_ c) (resolver_ c) (connector_ c)
    (health_checker_ c) (handshaker_ c) (conn_cfg_ c) (mpx_ c) (hello_elem_ c) (ping_elem_ c) (logged c).
Definition set_channel (c : connection) ch : connection :=
  mk_connection (stream_open c) (writer_timer_ c) (reconnect_timer_ c) ch (resolver_ c) (connector_ c)
    (health_checker_ c) (handshaker_ c) (conn_cfg_ c) (mpx_ c) (hello_elem_ c) (ping_elem_ c) (logged c).
Definition set_resolver (c : connection) r : connection :=
  mk_connection (stream_open c) (writer_timer_ c) (reconnect_timer_ c) (receive_channel_ c) r (connector_ c)
    (health_checker_ c) (handshaker_ c) (conn_cfg_ c) (mpx_ c) (hello_elem_ c) (ping_elem_ c) (logged c).
Definition set_connector (c : connection) ct : connection :=
  mk_connection (stream_open c) (writer_timer_ c) (reconnect_timer_ c) (receive_channel_ c) (resolver_ c) ct
    (health_checker_ c) (handshaker_ c) (conn_cfg_ c) (mpx_ c) (hello_elem_ c) (ping_elem_ c) (logged c).
Definition set_checker (c : connection) h : connection :=
  mk_connection (stream_open c) (writer_timer_ c) (reconnect_timer_ c) (receive_channel_ c) (resolver_ c) (connector_ c)
    h (handshaker_ c) (conn_cfg_ c) (mpx_ c) (hello_elem_ c) (ping_elem_ c) (logged c).
Definition set_handshaker (c : connection) h : connection :=
  mk_connection (stream_open c) (writer_timer_ c) (reconnect_timer_ c) (receive_channel_ c) (resolver_ c) (connector_ c)
    (health_checker_ c) h (conn_cfg_ c) (mpx_ c) (hello_elem_ c) (ping_elem_ c) (logged c).
Definition set_cfg (c : connection) cfg : connection :=
  mk_connection (stream_open c) (writer_timer_ c) (reconnect_timer_ c) (receive_channel_ c) (resolver_ c) (connector_ c)
    (health_checker_ c) (handshaker_ c) cfg (mpx_ c) (hello_elem_ c) (ping_elem_ c) (logged c).
Definition set_mpx (c : connection) m : connection :=
  mk_connection (stream_open c) (writer_timer_ c) (reconnect_timer_ c) (receive_channel_ c) (resolver_ c) (connector_ c)
    (health_checker_ c) (handshaker_ c) (conn_cfg_ c) m (hello_elem_ c) (ping_elem_ c) (logged c).
Definition set_hello_elem (c : connection) e : connection :=
  mk_connection (stream_open c) (writer_timer_ c) (reconnect_timer_ c) (receive_channel_ c) (resolver_ c) (connector_ c)
    (health_checker_ c) (handshaker_ c) (conn_cfg_ c) (mpx_ c) e (ping_elem_ c) (logged c).
Definition set_ping_elem (c : connection) e : connection :=
  mk_connection (stream_open c) (writer_timer_ c) (reconnect_timer_ c) (receive_channel_ c) (resolver_ c) (connector_ c)
    (health_checker_ c) (handshaker_ c) (conn_cfg_ c) (mpx_ c) (hello_elem_ c) e (logged c).

(** A call of the logger. *)
Definition logc (c : connection) (call : log_call Ep) : connection :=
  mk_connection (stream_open c) (writer_timer_ c) (reconnect_timer_ c) (receive_channel_ c) (resolver_ c) (connector_ c)
    (health_checker_ c) (handshaker_ c) (conn_cfg_ c) (mpx_ c) (hello_elem_ c) (ping_elem_ c) (logged c ++ [call]).

(** The constructor. *)
Definition new_connection : outcome connection :=
  hc ← new_health_checker;
  m ← set_receive_response new_multiplexer ignore_value;
  Done (mk_connection false quiet quiet channel_new new_resolver (mk_connector (seconds 2) default_endpoint)
    hc new_handshaker default_config m None None []).

Definition is_open (c : connection) : bool := stream_open c.
Definition trigger_write (c : connection) : bool := is_open c && negb (is_writing (mpx_ c)).
Definition will_reconnect (c : connection) : bool :=
  negb (reconnect_wait_interval (conn_cfg_ c) =? 0)%Z.
Definition run_is_canceled (c : connection) : bool := cancel_run_called_ (mpx_ c).
Definition get_usage (c : connection) : usage := usage_ (mpx_ c).

(** [set_receive_response]. *)
Definition conn_set_receive_response {R} `{ResponseTraits R} (c : connection) (r : R) : outcome connection :=
  m ← set_receive_response (mpx_ c) r; Done (set_mpx c m).

(** Its effect, given the adapter it creates. *)
Definition receive_into (c : connection) (a : any_adapter) : connection :=
  set_mpx c (set_receive_adapter (mpx_ c) (Some a)).

Lemma set_receive_response_effect {R} `{ResponseTraits R} (c c' : connection) (r : R) :
  conn_set_receive_response c r = Done c' -> exists a, c' = receive_into c a.
Proof.
  unfold conn_set_receive_response, set_receive_response. intros Hc. apply bind_done in Hc as (m & Hm & [= <-]).
  apply bind_done in Hm as (a & _ & [= <-]). by eexists.
Qed.

(** [close] and [reset_stream]: a new socket is closed. *)
Definition close (c : connection) : connection := if is_open c then set_open c false else c.
Definition reset_stream (c : connection) : connection := set_open c false.

(** [cancel_run]. *)
Definition cancel_run (c : connection) : outcome connection :=
  let c := close c in
  let c := set_writer_timer c (wait_cancel (writer_timer_ c)) in
  let c := set_channel c (channel_cancel (receive_channel_ c)) in
  '(m, _) ← cancel_on_conn_lost (mpx_ c);
  Done (set_mpx c m).

(** [cfg_.reconnect_wait_interval = zero()]. *)
Definition disable_reconnection (c : connection) : connection :=
  let cfg := conn_cfg_ c in
  set_cfg c (mk_config (use_ssl cfg) (addr cfg) (username cfg) (password cfg) (clientname cfg)
    (database_index cfg) (health_check_id cfg) (log_prefix cfg) (resolve_timeout cfg) (connect_timeout cfg)
    (ssl_handshake_timeout cfg) (health_check_interval cfg) 0%Z (max_read_size cfg)).

Definition exec_cancel (c : connection) : outcome connection :=
  '(m, _) ← cancel_waiting (mpx_ c); Done (set_mpx c m).

(** [cancel]. *)
Definition cancel (c : connection) (op : operation.t) : outcome connection :=
  match op with
  | operation.resolve => Done (set_resolver c (resolver_cancel (resolver_ c)))
  | operation.exec => exec_cancel c
  | operation.reconnection => Done (disable_reconnection c)
  | operation.run => cancel_run c
  | operation.receive => Done (set_channel c (channel_cancel (receive_channel_ c)))
  | operation.health_check => Done (set_checker c (checker_cancel (health_checker_ c)))
  | operation.all =>
      let c := set_resolver c (resolver_cancel (resolver_ c)) in
      let c := disable_reconnection c in
      let c := set_checker c (checker_cancel (health_checker_ c)) in
      c ← cancel_run c;
      let c := set_channel c (channel_cancel (receive_channel_ c)) in
      exec_cancel c
  | _ => Done c
  end.

(** [receive(ec)]: the new channel, error code and size. *)
Definition receive (c : connection) (ec : error_code) : connection * error_code * size_t :=
  match channel_try_receive (receive_channel_ c) with
  | Some (ec2, n, ch) => (set_channel c ch, ec2, if has_ec ec2 then 0 else n)
  | None => (c, if has_ec ec then ec else make_error_code error.sync_receive_push_failed, 0)
  end.

(** [async_receive]: completes with a buffered push, or waits for the next. *)
Definition async_receive (c : connection) : connection * co unit (error_code * size_t) :=
  match channel_try_receive (receive_channel_ c) with
  | Some (ec, n, ch) => (set_channel c ch, co_complete (ec, n))
  | None => (c, co_yield tt)
  end.

(** ** [exec_op] *)

(** Suspended in [asio::dispatch], or in [notifier_->async_receive]. *)
Inductive exec_point := exec_dispatched | exec_waiting.

(** [get_cancellation_state().cancelled()]. *)
Inductive cancellation := not_cancelled | cancelled_terminal | cancelled_other.

Definition is_cancelled (x : cancellation) : bool :=
  match x with not_cancelled => false | _ => true end.

Definition exec_result : Type := error_code * size_t.

(** The first part, which always suspends. *)
Definition exec_start (c : connection) (info : elem_id) : outcome (connection * exec_point) :=
  e ← deref (mpx_ c) info;
  if cancel_if_not_connected (get_config (req_ e)) && negb (is_open c) then Done (c, exec_dispatched)
  else
    m ← add (mpx_ c) info;
    let c := set_mpx c m in
    let c := if trigger_write c then set_writer_timer c (wait_cancel (writer_timer_ c)) else c in
    Done (c, exec_waiting).

(** The rest, after a notification or a cancellation. *)
Definition exec_resume (p : exec_point) (c : connection) (info : elem_id) (x : cancellation)
    : outcome (connection * co exec_point exec_result) :=
  match p with
  | exec_dispatched => Done (c, co_complete (make_error_code error.not_connected, 0))
  | exec_waiting =>
      e ← deref (mpx_ c) info;
      if has_ec (ec_ e) then Done (c, co_complete (ec_ e, 0))
      else if is_cancelled x then
        '(m, removed) ← remove (mpx_ c) info;
        let c := set_mpx c m in
        if (removed : bool) then Done (c, co_complete (Some operation_aborted, 0))
        else
          match x with
          | cancelled_terminal => c ← cancel c operation.run; Done (c, co_complete (Some operation_aborted, 0))
          | _ => Done (c, co_yield exec_waiting)
          end
      else Done (c, co_complete (ec_ e, read_size_ e))
  end.

(** [async_exec]. *)
Definition async_exec (c : connection) (req : request) (adapter : any_adapter)
    : outcome (connection * elem_id * exec_point) :=
  _ ← boost_assert (get_expected_responses req <=? supported_response_size adapter);
  let '(m, info) := allocate (mpx_ c) req adapter in
  '(c, p) ← exec_start (set_mpx c m) info;
  Done (c, info, p).

(** ** [writer_op] *)

(** Suspended in [async_write] of the buffer, or in [writer_timer_]. *)
Inductive writer_point := writer_writing (payload : bytes) | writer_idle.

(** The head of the loops. *)
Definition writer_loop (c : connection) : connection * co writer_point error_code :=
  let '(m, n) := prepare_write (mpx_ c) in
  let c := set_mpx c m in
  if n =? 0 then (set_writer_timer c armed, co_yield writer_idle) else (c, co_yield (writer_writing (write_buffer_ m))).

Definition writer_resume (p : writer_point) (c : connection) (ec : error_code)
    : outcome (connection * co writer_point error_code) :=
  match p with
  | writer_writing _ =>
      let c := logc c (on_write ec (write_buffer_ (mpx_ c))) in
      if has_ec ec then
        let c := logc c (trace_ec (bs "writer_op (1)") ec) in
        c ← cancel c operation.run; Done (c, co_complete ec)
      else
        '(m, _) ← commit_write (mpx_ c);
        let c := set_mpx c m in
        if negb (is_open c) then
          Done (logc c (trace (bs "writer_op (2): connection is closed.")), co_complete None)
        else Done (writer_loop c)
  | writer_idle =>
      let c := set_writer_timer c quiet in
      if negb (is_open c) then
        Done (logc c (trace (bs "writer_op (3): connection is closed.")), co_complete None)
      else Done (writer_loop c)
  end.

(** ** [append_some_op] *)

(** [grow] of the dynamic buffer over the read buffer, which is limited by
    [max_read_size]. *)
Definition append_some_start (c : connection) (size : size_t) : outcome connection :=
  let b := read_buffer_ (mpx_ c) in
  if max_read_size (conn_cfg_ c) <? len b + size then Throw std_length_error
  else Done (set_mpx c (set_read_buffer (mpx_ c) (b ++ repeat "000"%char (N.to_nat size)))).

(** The completion of the read: [data] is what it stored behind the first [tmp]
    bytes, and [shrink] drops the rest. *)
Definition append_some_complete (c : connection) (tmp : size_t) (ec : error_code) (data : bytes) : connection :=
  if has_ec ec then c
  else set_mpx c (set_read_buffer (mpx_ c) (take (N.to_nat tmp) (read_buffer_ (mpx_ c)) ++ data)).

(** ** [reader_op] *)

Definition buffer_growth_hint : size_t := 4096.

(** Suspended in [async_append_some], or in [async_send] on the channel. *)
Inductive reader_point := reader_reading (tmp size : size_t) | reader_sending (n : size_t).

(** The first half of an iteration, which may start a read. *)
Definition reader_read (c : connection) : outcome (connection * co reader_point error_code) :=
  let size := get_suggested_buffer_growth (parser_ (mpx_ c)) buffer_growth_hint in
  let tmp := len (read_buffer_ (mpx_ c)) in
  c ← append_some_start c size;
  Done (c, co_yield (reader_reading tmp size)).

(** The iterations from [commit_read] on; every complete message shortens the
    buffer, so its length bounds those without a suspension. *)
Fixpoint reader_loop (fuel : nat) (c : connection) : outcome (connection * co reader_point error_code) :=
  match fuel with
  | O => Fault out_of_fuel
  | S fuel =>
      '(m, ec, res) ← commit_read (mpx_ c) None;
      let c := set_mpx c m in
      if has_ec ec then
        let c := logc c (trace_ec (bs "reader_op (3)") ec) in
        c ← cancel c operation.run; Done (c, co_complete ec)
      else
        match res.1 with
        | None => reader_read c
        | Some true =>
            match channel_try_send (receive_channel_ c) None res.2 with
            | None => Done (c, co_yield (reader_sending res.2))
            | Some ch =>
                let c := set_channel c ch in
                if negb (is_open c) then
                  Done (logc c (trace (bs "reader_op (5): connection is closed.")), co_complete (Some operation_aborted))
                else if is_data_needed (mpx_ c) then reader_read c else reader_loop fuel c
            end
        | Some false => if is_data_needed (mpx_ c) then reader_read c else reader_loop fuel c
        end
  end.

Definition reader_next (c : connection) : outcome (connection * co reader_point error_code) :=
  if is_data_needed (mpx_ c) then reader_read c
  else reader_loop (S (length (read_buffer_ (mpx_ c)))) c.

(** The start: [res_] holds [false], so data is read if the buffer is empty. *)
Definition reader_start (c : connection) : outcome (connection * co reader_point error_code) := reader_next c.

Definition reader_resume (p : reader_point) (c : connection) (ec : error_code) (data : bytes)
    : outcome (connection * co reader_point error_code) :=
  match p with
  | reader_reading tmp _ =>
      let c := append_some_complete c tmp ec data in
      let c := logc c (on_read ec (if has_ec ec then 0 else len data)) in
      if has_ec ec then
        let c := logc c (trace_ec (bs "reader_op (1)") ec) in
        c ← cancel c operation.run; Done (c, co_complete ec)
      else if negb (is_open c) then
        Done (logc c (trace (bs "reader_op (2): connection is closed.")), co_complete ec)
      else reader_loop (S (length (read_buffer_ (mpx_ c)))) c
  | reader_sending _ =>
      if has_ec ec then
        let c := logc c (trace_ec (bs "reader_op (4)") ec) in
        c ← cancel c operation.run; Done (c, co_complete ec)
      else if negb (is_open c) then
        Done (logc c (trace (bs "reader_op (5): connection is closed.")), co_complete (Some operation_aborted))
      else reader_next c
  end.
End WithChannel.
Arguments connection : clear implicits.
