(* ===== verification/ReaderStream.v ===== *)
(** * The reader on a stream

    [reader_op] on the bytes of responses and pushes that arrive in pieces: the
    reader delivers every message, announces the pushes on the receive channel,
    and waits for the next bytes. *)

From stdpp Require Import gmap.
From S2P Require Import Prelude Charconv Types Parser ParserSpec ParserSafety Resp3 ParserCorrect.
From S2P Require Import Serialization Request Adapters Traits AdapterTheorems.
From S2P Require Import Multiplexer MultiplexerInvariant MultiplexerRead MultiplexerStream Logger Session Connection.

#[local] Open Scope N_scope.
#[local] Open Scope list_scope.

(** The suggested growth is what the message still needs. *)
Lemma growth_bound m v t r rest w :
  mid m v t r rest w -> get_suggested_buffer_growth (parser_ m) buffer_growth_hint <= N.max buffer_growth_hint (len (encode r ++ rest)).
Proof.
  intros [Hs Hp (nds & Hrun & _)]. unfold get_suggested_buffer_growth. destruct (bulk_expected (parser_ m)) eqn:Hb; [|cbn; lia].
  cbn [negb]. destruct (_ <? _); [|lia]. inversion Hrun as [|? m1 ? nd nds' Hbusy Hfit Hc Hrun']; subst.
  - apply (parsing_mono _ t) in Hp. rewrite Hs in Hp. by destruct (parsing_run _ _ _ _ Hp Hrun (finished_encode r rest)).
  - unfold machine_consume in Hc. cbn [abs pending] in Hc. rewrite Hb in Hc. unfold machine_bulk in Hc.
    destruct (N.ltb_spec (len (encode r ++ rest) - position (abs (parser_ m))) (bulk_length_ (parser_ m) +w 2)); [done|].
    cbn [position abs] in *. lia.
Qed.

Section WithChannel.
Context {Ch Ep : Type} `{Channel Ch} `{Platform Ep}.
Abbreviation connection := (connection Ch Ep).

(** The notifications of the pushes, by their sizes. *)
Fixpoint announce (ch : Ch) (rs : list resp3) : option Ch :=
  match rs with
  | [] => Some ch
  | r :: rs =>
      if is_push r
      then match channel_try_send ch None (len (encode r)) with Some ch => announce ch rs | None => None end
      else announce ch rs
  end.

(** The parts that serve the requests of the connection itself. *)
Definition own_parts (c : connection) := (handshaker_ c, health_checker_ c, hello_elem_ c, ping_elem_ c).

(** What the reader leaves alone. *)
Record undisturbed (c c' : connection) : Prop := {
  und_open : is_open c' = is_open c;
  und_timer : writer_timer_ c' = writer_timer_ c;
  und_cfg : conn_cfg_ c' = conn_cfg_ c;
  und_own : own_parts c' = own_parts c;
}.

#[export] Instance undisturbed_preorder : PreOrder undisturbed.
Proof. split; [done|]. intros c1 c2 c3 [? ? ?] [? ? ?]. split; congruence. Qed.

Lemma bytes_of_cons r rs : bytes_of (r :: rs) = encode r ++ bytes_of rs.
Proof. done. Qed.

Section Stream.
(** A bound for the length of the stream. *)
Variable n : N.
Hypothesis n_small : n < size_modulus.

(** The connection is open, and the buffer may hold a message of which a part is
    to come, if one is. *)
Definition room (c : connection) (t : bytes) : Prop :=
  is_open c = true /\ buffer_growth_hint <= max_read_size (conn_cfg_ c) /\
  (t <> [] -> buffer_growth_hint + 2 * n <= max_read_size (conn_cfg_ c)).

Lemma room_undisturbed (c c' : connection) t : undisturbed c c' -> room c t -> room c' t.
Proof. intros [Ho _ Hc]. unfold room. by rewrite Ho, Hc. Qed.

(** The reader has the bytes [v] of the stream; [t] are the bytes to come, after
    which the world is [w] and the channel [ch]. *)
Record in_message (c : connection) (v t : bytes) (w : world) (ch : Ch) (r : resp3) (rs : list resp3) (w1 : world) : Prop := {
  in_mid : mid (mpx_ c) v t r (bytes_of rs) w1;
  in_length : len (bytes_of (r :: rs)) <= n;
  in_ok : Forall message_ok (r :: rs);
  in_deliver : deliver_all w1 rs = Some w;
  in_announce : announce (receive_channel_ c) (r :: rs) = Some ch;
}.

Definition awaits (c : connection) (v t : bytes) (w : world) (ch : Ch) : Prop :=
  (v = [] /\ t = [] /\ idle (mpx_ c) /\ world_of (mpx_ c) = w /\ receive_channel_ c = ch) \/
  (t <> [] /\ exists r rs w1, in_message c v t w ch r rs w1).

(** It waits for a read behind these bytes. *)
Definition waits_at (c : connection) (k : co reader_point error_code) (t : bytes) (w : world) (ch : Ch) : Prop :=
  exists v junk, k = co_yield (reader_reading (len v) (get_suggested_buffer_growth (parser_ (mpx_ c)) buffer_growth_hint)) /\
    read_buffer_ (mpx_ c) = v ++ junk /\ awaits c v t w ch.

Lemma reader_read_waits (c : connection) v t w ch :
  read_buffer_ (mpx_ c) = v -> room c t -> awaits c v t w ch ->
  exists c' k, reader_read c = Done (c', k) /\ waits_at c' k t w ch /\ undisturbed c c'.
Proof.
  intros Hb (_ & Hr & Hr') Ha. unfold reader_read, append_some_start.
  assert (len v + get_suggested_buffer_growth (parser_ (mpx_ c)) buffer_growth_hint <= max_read_size (conn_cfg_ c)) as Hl.
  { destruct Ha as [(-> & _ & [-> _] & _)|(Ht & r & rs & w1 & [Hm Hn _ _ _])]; [exact Hr|]. specialize (Hr' Ht).
    pose proof (growth_bound _ _ _ _ _ _ Hm) as Hg. rewrite bytes_of_cons in Hn.
    pose proof (f_equal len (mid_split _ _ _ _ _ _ Hm)) as Hs. rewrite len_app in Hs. lia. }
  rewrite Hb, (proj2 (N.ltb_ge _ _) Hl). cbn [mbind outcome_bind]. eexists _, _. split; [done|]. split; [|done].
  eexists v, _. split_and!; [done|done|]. destruct Ha as [Ha|(Ht & r & rs & w1 & [[Hs Hp Hn] ? ? ? ?])]; [by left|].
  right. split; [done|]. exists r, rs, w1. split; [by split|done..].
Qed.

(** Between two messages. *)
Lemma awaits_next (c : connection) rs w ch :
  idle (mpx_ c) -> len (bytes_of rs) <= n -> Forall message_ok rs -> deliver_all (world_of (mpx_ c)) rs = Some w ->
  announce (receive_channel_ c) rs = Some ch -> awaits c [] (bytes_of rs) w ch.
Proof.
  intros Hi Hr Hok Hd Ha. destruct rs as [|r rs].
  - left. injection Hd as <-. injection Ha as <-. by split_and!.
  - right. cbn [deliver_all] in Hd. destruct (deliver _ r) as [w1|] eqn:Hw; [|done].
    split; [rewrite bytes_of_cons; pose proof (encode_nonempty r); by destruct (encode r)|].
    exists r, rs, w1. pose proof Hok as [Hr1 _]%Forall_cons. split; [by apply mid_start|done..].
Qed.

(** ** The loop *)

(** The loop ends waiting for [t]. *)
Definition ends_waiting (t : bytes) (w : world) (ch : Ch) (c : connection) (o : outcome (connection * co reader_point error_code)) : Prop :=
  exists c' k, o = Done (c', k) /\ waits_at c' k t w ch /\ undisturbed c c'.

Lemma ends_waiting_from t w ch c c1 o : undisturbed c c1 -> ends_waiting t w ch c1 o -> ends_waiting t w ch c o.
Proof. intros Hu (c' & k & Ho & Hw & Hu'). exists c', k. split_and!; [done|done|by etransitivity]. Qed.

(** The loop with some fuel. *)
Definition loop_waits (fuel : nat) : Prop :=
  forall t w ch c r rs w1, in_message c (read_buffer_ (mpx_ c)) t w ch r rs w1 -> read_buffer_ (mpx_ c) <> [] ->
  (length (read_buffer_ (mpx_ c)) <= fuel)%nat -> room c t -> ends_waiting t w ch c (reader_loop fuel c).

Lemma next_message fuel t w ch (c : connection) rs :
  loop_waits fuel -> idle (mpx_ c) -> read_buffer_ (mpx_ c) ++ t = bytes_of rs -> (length (read_buffer_ (mpx_ c)) <= fuel)%nat ->
  room c t -> len (bytes_of rs) <= n -> Forall message_ok rs -> deliver_all (world_of (mpx_ c)) rs = Some w ->
  announce (receive_channel_ c) rs = Some ch ->
  ends_waiting t w ch c (if is_data_needed (mpx_ c) then reader_read c else reader_loop fuel c).
Proof.
  intros IH Hi Hb Hf Hr Hn Hok Hd Ha. unfold is_data_needed. destruct (decide (read_buffer_ (mpx_ c) = [])) as [He|He].
  - rewrite bool_decide_true by done. rewrite He in Hb. cbn [app] in Hb. apply (reader_read_waits c []); [done|done|].
    rewrite Hb. by apply awaits_next.
  - rewrite bool_decide_false by done. destruct rs as [|r rs]; [by destruct (read_buffer_ (mpx_ c))|].
    pose proof Hd as Hd'. cbn [deliver_all] in Hd'. destruct (deliver _ r) as [w1|] eqn:Hw; [|done].
    apply (IH t w ch c r rs w1); try done. split; [|done..]. apply (mid_more _ [] (read_buffer_ (mpx_ c))). rewrite Hb, bytes_of_cons.
    apply Forall_cons in Hok as [Hok _]. by apply mid_start.
Qed.

Lemma reader_loop_waits fuel : loop_waits fuel.
Proof.
  induction fuel as [|fuel IH]; intros t w ch c r rs w1 [Hmid Hlen Hok Hd Ha] Hne Hf Hroom.
  { destruct (read_buffer_ (mpx_ c)); [done|cbn in Hf; lia]. }
  cbn [reader_loop]. pose proof Hok as Hoks. apply Forall_cons in Hoks as [[Hv Hh] Hoks]. rewrite bytes_of_cons in Hlen.
  destruct (commit_read_mid _ _ _ _ _ Hmid Hne Hv) as [m' Hi Hb Hw Hlt|m' Ht Hm' Hb]; [lia| |]; cbn [mbind outcome_bind has_ec fst snd].
  - assert (forall c1 : connection, mpx_ c1 = m' -> undisturbed c c1 -> announce (receive_channel_ c1) rs = Some ch ->
      ends_waiting t w ch c (if is_data_needed m' then reader_read c1 else reader_loop fuel c1)) as Hnext.
    { intros c1 <- Hu Ha1. apply (ends_waiting_from _ _ _ _ c1); [done|]. apply (next_message fuel t w ch c1 rs); try done.
      - lia.
      - by eapply room_undisturbed.
      - rewrite len_app in Hlen. lia.
      - by rewrite Hw. }
    cbn [announce] in Ha. destruct (is_push r); [|by apply Hnext].
    cbn [receive_channel_ set_mpx]. destruct (channel_try_send (receive_channel_ c) None _) as [ch1|]; [|done].
    replace (is_open (set_channel (set_mpx c m') ch1)) with true by (symmetry; apply Hroom). cbn [negb]. by apply Hnext.
  - eapply ends_waiting_from; [|apply (reader_read_waits _ (read_buffer_ (mpx_ c)))]; [done|done|done|].
    right. split; [done|]. exists r, rs, w1. by split.
Qed.

(** ** Reads *)

(** One completion of the read. *)
Lemma read_piece (c : connection) v junk data t w ch size :
  read_buffer_ (mpx_ c) = v ++ junk -> data <> [] -> room c t -> awaits c v (data ++ t) w ch ->
  exists c' k, reader_resume (reader_reading (len v) size) c None data = Done (c', k) /\ waits_at c' k t w ch /\ undisturbed c c'.
Proof.
  intros Hb Hd Hroom [(_ & Ht & _)|(_ & r & rs & w1 & [Hmid ? ? ? ?])]; [by destruct data|].
  unfold reader_resume, append_some_complete. cbn [has_ec].
  assert (take (N.to_nat (len v)) (read_buffer_ (mpx_ c)) = v) as -> by (rewrite Hb; unfold len; by rewrite Nat2N.id, take_app_length).
  match goal with |- context [is_open ?x] => set (c1 := x) end.
  replace (is_open c1) with true by (symmetry; apply Hroom). cbn [negb].
  change (read_buffer_ (mpx_ c1)) with (v ++ data).
  apply (ends_waiting_from t w ch c c1); [done|]. apply (reader_loop_waits _ t w ch c1 r rs w1); [|by intros [_ ?]%app_eq_nil|cbn; lia|exact Hroom].
  apply mid_more in Hmid. destruct Hmid as [? ? ?]. split; [by split|done..].
Qed.
End Stream.
End WithChannel.
