(* ===== verification/Run.v ===== *)
(** * Running a connection

    [async_run]: the operations of [detail/resp3_handshaker.hpp] and
    [detail/health_checker.hpp], and [run_op] of [connection.hpp], which resolves,
    connects, starts the five operations of a session, and reconnects. *)

From stdpp Require Import gmap.
From S2P Require Import Prelude Charconv Types Parser Serialization Request Adapters Traits Multiplexer Logger Session Connection.

#[local] Open Scope string_scope.
#[local] Open Scope N_scope.
#[local] Open Scope list_scope.

Section WithChannel.
Context {Ch Ep : Type} `{Channel Ch} `{Platform Ep}.
Abbreviation connection := (connection Ch Ep).

(** ** Response objects shared with elements *)

(** The object an element refers to, seen by another reference; [r] if no
    element refers to it. *)
Definition shared_response (c : connection) (el : option elem_id) (r : generic_response) : generic_response :=
  match el with
  | None => r
  | Some id => from_option (fun e => default r (any_object (adapter_ e))) r (store (mpx_ c) !! id)
  end.

Definition assign_shared (c : connection) (el : option elem_id) (r : generic_response) : connection :=
  match el with
  | None => c
  | Some id => set_mpx c (set_store (mpx_ c)
      (alter (fun e => set_adapter (any_assign r (adapter_ e)) e) id (store (mpx_ c))))
  end.

(** [hello_resp_] and [resp_] of the health checker. *)
Definition hello_response (c : connection) : generic_response :=
  shared_response c (hello_elem_ c) (hello_resp_ (handshaker_ c)).
Definition ping_response (c : connection) : generic_response :=
  shared_response c (ping_elem_ c) (ping_resp_ (health_checker_ c)).

Definition assign_ping_response (c : connection) (r : generic_response) : connection :=
  set_checker (assign_shared c (ping_elem_ c) r) (set_ping_resp r (health_checker_ c)).

(** The handshaker with the present value of its response object. *)
Definition handshaker_now (c : connection) : resp3_handshaker :=
  let h := handshaker_ c in mk_handshaker (hello_req_ h) (hello_response c) (hello_cfg_ h).

(** ** [hello_op] *)

(** Suspended in [async_exec] of the element. *)
Definition hello_start (c : connection) : outcome (connection * (elem_id * exec_point)) :=
  h ← add_hello (handshaker_now c);
  let c := set_handshaker c h in
  a ← create_impl (hello_resp_ h);
  '(c, info, p) ← async_exec c (hello_req_ h) a;
  Done (set_hello_elem c (Some info), (info, p)).

(** Resumed when [async_exec] completes with [ec]. *)
Definition hello_resume (c : connection) (ec : error_code) : outcome (connection * error_code) :=
  let h := handshaker_now c in
  let c := logc c (on_hello ec (hello_resp_ h)) in
  if has_ec ec then c ← cancel c operation.run; Done (c, ec)
  else if has_error_in_response h then
    c ← cancel c operation.run; Done (c, make_error_code error.resp3_hello)
  else Done (c, None).

(** ** [ping_op] *)

(** Suspended in [asio::post], in [async_exec], started at a point, or in
    [ping_timer_]. *)
Inductive ping_point := ping_posted | ping_executing (info : elem_id) (p : exec_point) | ping_waiting (d : duration).

(** The head of the loop, also the start. *)
Definition ping_loop (c : connection) : outcome (connection * co ping_point error_code) :=
  let h := health_checker_ c in
  if (ping_interval_ h =? 0)%Z then
    Done (logc c (trace (bs "ping_op (1): timeout disabled.")), co_yield ping_posted)
  else if checker_has_exited_ h then
    Done (logc c (trace (bs "ping_op (2): checker has exited.")), co_complete None)
  else
    a ← create_impl (ping_response c);
    '(c, info, p) ← async_exec c (ping_req_ h) a;
    Done (set_ping_elem c (Some info), co_yield (ping_executing info p)).

Definition ping_resume (p : ping_point) (c : connection) (ec : error_code)
    : outcome (connection * co ping_point error_code) :=
  match p with
  | ping_posted => Done (c, co_complete None)
  | ping_executing _ _ =>
      if has_ec ec then
        let c := logc c (trace_ec (bs "ping_op (3)") ec) in
        let h := health_checker_ c in
        Done (set_checker c (set_wait_timer (wait_cancel (wait_timer_ h)) h), co_complete ec)
      else
        let h := health_checker_ c in
        Done (set_checker c (set_ping_timer armed h), co_yield (ping_waiting (ping_interval_ h)))
  | ping_waiting _ =>
      let c := set_checker c (set_ping_timer quiet (health_checker_ c)) in
      if has_ec ec then Done (logc c (trace_ec (bs "ping_op (4)") ec), co_complete ec)
      else ping_loop c
  end.

(** ** [check_timeout_op] *)

Inductive check_point := check_posted | check_waiting (d : duration).

Definition check_loop (c : connection) : connection * co check_point error_code :=
  let h := health_checker_ c in
  if (ping_interval_ h =? 0)%Z then
    (logc c (trace (bs "check_timeout_op (1): timeout disabled.")), co_yield check_posted)
  else (set_checker c (set_wait_timer armed h), co_yield (check_waiting (2 * ping_interval_ h)%Z)).

(** [async_check_timeout]. *)
Definition check_start (c : connection) : connection * co check_point error_code :=
  check_loop (set_checker c (set_exited false (health_checker_ c))).

Definition check_resume (p : check_point) (c : connection) (ec : error_code)
    : outcome (connection * co check_point error_code) :=
  match p with
  | check_posted => Done (c, co_complete None)
  | check_waiting _ =>
      let c := set_checker c (set_wait_timer quiet (health_checker_ c)) in
      if has_ec ec then Done (logc c (trace_ec (bs "check_timeout_op (2)") ec), co_complete ec)
      else
        match ping_response c with
        | r_error _ => Done (logc c (trace (bs "check_timeout_op (3): Response error.")), co_complete None)
        | r_value [] =>
            let c := logc c (trace (bs "check_timeout_op (4): pong timeout.")) in
            let h := health_checker_ c in
            let c := set_checker c (set_ping_timer (wait_cancel (ping_timer_ h)) h) in
            c ← cancel c operation.run;
            Done (set_checker c (set_exited true (health_checker_ c)), co_complete (make_error_code error.pong_timeout))
        | r_value (_ :: _) => Done (check_loop (assign_ping_response c (r_value [])))
        end
  end.

(** ** [run_op] *)

(** The operations of the group, in the order in which it starts them. *)
Record session := mk_session {
  session_hello : co (elem_id * exec_point) error_code;
  session_ping : co ping_point error_code;
  session_check : co check_point error_code;
  session_reader : co reader_point error_code;
  session_writer : co writer_point error_code;
}.

Definition start_session (c : connection) : outcome (connection * session) :=
  let c := set_mpx c (Multiplexer.reset (mpx_ c)) in
  '(c, hello) ← hello_start c;
  '(c, ping) ← ping_loop c;
  let '(c, check) := check_start c in
  '(c, reader) ← reader_start c;
  let '(c, writer) := writer_loop c in
  Done (c, mk_session (co_yield hello) ping check reader writer).

(** Suspended in the resolver, in the connector, in the TLS handshake, in the
    parallel group, or in [reconnect_timer_]. *)
Inductive run_point :=
  | run_resolving | run_connecting | run_ssl_handshake | run_group (s : session) | run_reconnecting (d : duration).

(** The head of the loop. *)
Definition run_loop (c : connection) : connection * co run_point error_code :=
  (set_resolver c (resolve_start (resolver_ c)), co_yield run_resolving).

(** [async_run]: the configuration of the parts, and the start of the loop. *)
Definition async_run_config (c : connection) (cfg : config) : outcome connection :=
  let c := set_cfg c cfg in
  let c := set_resolver c (resolver_set_config (resolver_ c) cfg) in
  let c := set_connector c (connector_set_config (connector_ c) cfg) in
  hc ← checker_set_config (health_checker_ c) cfg;
  let c := set_checker c hc in
  Done (set_handshaker c (handshaker_set_config (handshaker_ c) cfg)).

Definition async_run (c : connection) (cfg : config) : outcome (connection * co run_point error_code) :=
  c ← async_run_config c cfg; Done (run_loop c).

(** The completion of the group: the index of the operation that completed
    first, and the errors of the first four. *)
Record group_result := mk_group_result {
  order0 : nat;
  ec0 : error_code;
  ec1 : error_code;
  ec2 : error_code;
  ec3 : error_code;
}.

Definition is_error (ec : error_code) (e : error.t) : bool :=
  match ec with Some (redis_error e') => bool_decide (error.to_int e' = error.to_int e) | _ => false end.

(** After the group. *)
Definition run_group_done (c : connection) (g : group_result) : outcome (connection * co run_point error_code) :=
  if (order0 g =? 0)%nat && has_ec (ec0 g) then Done (c, co_complete (ec0 g))
  else if (order0 g =? 2)%nat && is_error (ec2 g) error.pong_timeout then Done (c, co_complete (ec1 g))
  else
    c ← cancel c operation.receive;
    if negb (will_reconnect c) then
      c ← cancel c operation.reconnection;
      Done (c, co_complete (ec3 g))
    else Done (set_reconnect_timer c armed, co_yield (run_reconnecting (reconnect_wait_interval (conn_cfg_ c)))).

(** What an operation completes with at each point.  The connector may leave the
    socket open when it fails, and [cancel] may close it before the handler of a
    success runs, so the runtime also tells whether it is open then. *)
Definition run_input (p : run_point) : Type :=
  match p with
  | run_resolving => error_code * list Ep
  | run_connecting => error_code * Ep * bool
  | run_group _ => group_result
  | _ => error_code
  end.

Definition run_session (c : connection) : outcome (connection * co run_point error_code) :=
  '(c, s) ← start_session c; Done (c, co_yield (run_group s)).

(** [run_op]. *)
Definition run_resume (p : run_point) (c : connection)
    : run_input p -> outcome (connection * co run_point error_code) :=
  match p with
  | run_resolving => fun '(ec, res) =>
      let '(r, ec) := resolve_resume (resolver_ c) ec res in
      let c := set_resolver c r in
      let c := logc c (on_resolve ec (results_ r)) in
      if has_ec ec then Done (c, co_complete ec) else Done (c, co_yield run_connecting)
  | run_connecting => fun '(ec, ep, opened) =>
      let '(ct, ec) := connect_resume (connector_ c) ec ep in
      let c := set_connector (set_open c opened) ct in
      let c := logc c (on_connect ec (endpoint_ ct)) in
      if has_ec ec then Done (c, co_complete ec)
      else if use_ssl (conn_cfg_ c) then Done (c, co_yield run_ssl_handshake) else run_session c
  | run_ssl_handshake => fun ec =>
      let c := logc c (on_ssl_handshake ec) in
      if has_ec ec then Done (c, co_complete ec) else run_session c
  | run_group _ => fun g => run_group_done c g
  | run_reconnecting _ => fun ec =>
      let c := set_reconnect_timer c quiet in
      if has_ec ec then Done (c, co_complete ec)
      else if negb (will_reconnect c) then Done (c, co_complete (Some operation_aborted))
      else Done (run_loop (reset_stream c))
  end.
End WithChannel.
