(* ===== verification/Facade.v ===== *)
(** * The type-erased connection

    The class [connection] of [connection.hpp] and [impl/connection.ipp], which
    forwards to a [basic_connection] over [any_io_executor]; the overloads of
    [async_exec] that take a response object; and the functions of
    [detail/write.hpp], which send a request without a connection. *)

From stdpp Require Import gmap.
From S2P Require Import Prelude Charconv Types Parser Serialization Request Adapters Traits Multiplexer Logger Session Connection Run.

#[local] Open Scope N_scope.
#[local] Open Scope list_scope.

Section WithChannel.
Context {Ch Ep : Type} `{Channel Ch} `{Platform Ep}.

(** [basic_connection::async_exec] with a response object: the adapter refers to
    it. *)
Definition async_exec_response {R} `{ResponseTraits R} (c : connection Ch Ep) (req : request) (resp : R)
    : outcome (connection Ch Ep * elem_id * exec_point) :=
  a ← create_impl resp;
  async_exec c req a.

Record facade := mk_facade { impl_ : connection Ch Ep }.

Definition facade_new : outcome facade := c ← new_connection; Done (mk_facade c).

(** [async_run_impl]. *)
Definition facade_async_run (f : facade) (cfg : config) : outcome (facade * co run_point error_code) :=
  '(c, k) ← async_run (impl_ f) cfg; Done (mk_facade c, k).

Definition facade_async_receive (f : facade) : facade * co unit (error_code * size_t) :=
  let '(c, r) := async_receive (impl_ f) in (mk_facade c, r).

Definition facade_receive (f : facade) (ec : error_code) : facade * error_code * size_t :=
  let '(c, ec, n) := receive (impl_ f) ec in (mk_facade c, ec, n).

(** [async_exec_impl]. *)
Definition facade_async_exec (f : facade) (req : request) (adapter : any_adapter)
    : outcome (facade * elem_id * exec_point) :=
  '(c, id, p) ← async_exec (impl_ f) req adapter; Done (mk_facade c, id, p).

Definition facade_async_exec_response {R} `{ResponseTraits R} (f : facade) (req : request) (resp : R)
    : outcome (facade * elem_id * exec_point) :=
  a ← create_impl resp;
  facade_async_exec f req a.

Definition facade_cancel (f : facade) (op : operation.t) : outcome facade :=
  c ← cancel (impl_ f) op; Done (mk_facade c).

Definition facade_will_reconnect (f : facade) : bool := will_reconnect (impl_ f).
Definition facade_reset_stream (f : facade) : facade := mk_facade (reset_stream (impl_ f)).

Definition facade_set_receive_response {R} `{ResponseTraits R} (f : facade) (resp : R) : outcome facade :=
  c ← conn_set_receive_response (impl_ f) resp; Done (mk_facade c).

Definition facade_get_usage (f : facade) : usage := get_usage (impl_ f).

(** A typed response and its adapter are interchangeable, through either class. *)
Lemma facade_exec_same {R} `{ResponseTraits R} (f : facade) req (resp : R) :
  facade_async_exec_response f req resp =
  '(c, id, p) ← async_exec_response (impl_ f) req resp; Done (mk_facade c, id, p).
Proof. unfold facade_async_exec_response, async_exec_response. by destruct (create_impl resp). Qed.
End WithChannel.
Arguments facade : clear implicits.

(** ** [detail/write.hpp] *)

Section WithStream.
(** [asio::write] and [asio::async_write] of a buffer: the stream behind it, the
    error and the number of bytes. *)
Context {Stream : Type} (asio_write : Stream -> bytes -> Stream * error_code * size_t).

Definition write (s : Stream) (req : request) : Stream * error_code * size_t := asio_write s (payload req).

(** The overload without an error code throws it. *)
Definition write_throwing (s : Stream) (req : request) : outcome (Stream * size_t) :=
  let '(s, ec, n) := asio_write s (payload req) in
  if has_ec ec then Throw system_error else Done (s, n).

Definition async_write (s : Stream) (req : request) : Stream * error_code * size_t := asio_write s (payload req).
End WithStream.
