(* ===== verification/Advance.v ===== *)
(** * How operations change a connection

    One relation for what the operations of a session and the calls of users do
    to a connection: the queue evolves, the buffers of operations in flight stay
    unless the operation is their owner, the writer's timer is left armed only if
    there is nothing to write, and the abstract client can do the same. *)

From stdpp Require Import gmap.
From S2P Require Import Prelude Charconv Types Parser Serialization Request Adapters Traits.
From S2P Require Import Multiplexer MultiplexerInvariant Evolution ClientSpec ClientRefinement Logger Session Connection Run.

#[local] Open Scope N_scope.
#[local] Open Scope list_scope.

(** No request of the queue waits to be written. *)
Definition none_waiting (m : multiplexer) : Prop := Forall (fun id => test m is_waiting id = false) (reqs_ m).

Section WithChannel.
Context {Ch Ep : Type} `{Channel Ch} `{Platform Ep}.
Abbreviation connection := (connection Ch Ep).

(** On an open connection, nothing waits for the writer. *)
Definition calm (c : connection) : Prop :=
  is_open c = true -> write_buffer_ (mpx_ c) = [] /\ none_waiting (mpx_ c).

(** The stream stays as it is, or the connection is lost. *)
Definition closes (c c' : connection) : Prop :=
  (is_open c' = is_open c /\ run_is_canceled c' = run_is_canceled c) \/ (is_open c' = false /\ run_is_canceled c' = true).

#[export] Instance closes_preorder : PreOrder closes.
Proof. unfold closes. split; [by left|]. intros c1 c2 c3. intuition congruence. Qed.

(** What the connection keeps of its own requests: the PING, and the
    configuration of the HELLO. *)
Definition own_requests (c : connection) : request * request_config :=
  (ping_req_ (health_checker_ c), cfg_ (hello_req_ (handshaker_ c))).

(** [rd] and [wr]: whether the read buffer and the write buffer may change. *)
Record advances (rd wr : bool) (c c' : connection) : Prop := {
  adv_mpx : evolves (mpx_ c) (mpx_ c');
  adv_own : own_requests c' = own_requests c;
  adv_read : rd = false -> read_buffer_ (mpx_ c') = read_buffer_ (mpx_ c);
  adv_write : wr = false -> write_buffer_ (mpx_ c') = write_buffer_ (mpx_ c);
  adv_timer : wr = false -> wf (mpx_ c) ->
    (writer_timer_ c' = quiet -> writer_timer_ c = quiet) /\
    (writer_timer_ c' = armed -> writer_timer_ c = armed /\ (calm c -> calm c'));
  adv_close : rd && wr = false -> closes c c';
  adv_client : rd && wr = false -> wf (mpx_ c) -> simulated rd wr (mpx_ c) (mpx_ c');
}.

Lemma adv_ping rd wr c c' : advances rd wr c c' -> ping_req_ (health_checker_ c') = ping_req_ (health_checker_ c).
Proof. intros Ha. pose proof (adv_own _ _ _ _ Ha) as Ho. by injection Ho. Qed.

#[export] Instance advances_preorder rd wr : PreOrder (advances rd wr).
Proof.
  split.
  - intros c. by split.
  - intros c1 c2 c3 [M1 P1 R1 W1 T1 C1 S1] [M2 P2 R2 W2 T2 C2 S2]. split.
    + by etransitivity.
    + congruence.
    + intros Hr. by rewrite R2, R1.
    + intros Hw. by rewrite W2, W1.
    + intros Hw Hwf. destruct (T1 Hw Hwf) as [Q1 A1]. destruct (T2 Hw (evolves_wf _ _ M1 Hwf)) as [Q2 A2].
      split; [auto|]. intros Ha. destruct (A2 Ha) as [Ha' K2]. destruct (A1 Ha') as [Ha'' K1]. auto.
    + intros Hb. etransitivity; [by apply C1|by apply C2].
    + intros Hb Hwf. etransitivity; [by apply S1|by apply S2, (evolves_wf _ _ M1)].
Qed.

Lemma advances_weaken rd wr c c' : advances false false c c' -> advances rd wr c c'.
Proof. intros [M P R W T C S]. split; auto. intros _ Hwf. by apply simulated_weaken, S. Qed.

(** Changes outside of the multiplexer, the stream and the writer's timer. *)
Lemma advances_side rd wr (c c' : connection) :
  mpx_ c' = mpx_ c -> own_requests c' = own_requests c ->
  is_open c' = is_open c -> writer_timer_ c' = writer_timer_ c -> advances rd wr c c'.
Proof.
  intros Hm Hp Ho Ht. unfold calm. split; rewrite ?Hm; try done.
  - intros _ _. unfold calm. by rewrite Ho, Hm, Ht.
  - intros _. left. unfold run_is_canceled. by rewrite Ho, Hm.
Qed.

(** The writer sets its timer. *)
Lemma advances_timer rd (c : connection) w : advances rd true c (set_writer_timer c w).
Proof. split; try done. intros _. by left. Qed.

(** Changes of the multiplexer that make no request wait. *)
Lemma advances_mpx rd wr (c : connection) m :
  evolves (mpx_ c) m ->
  (rd = false -> read_buffer_ m = read_buffer_ (mpx_ c)) -> (wr = false -> write_buffer_ m = write_buffer_ (mpx_ c)) ->
  (wr = false -> wf (mpx_ c) -> none_waiting (mpx_ c) -> none_waiting m) ->
  (rd && wr = false -> cancel_run_called_ m = cancel_run_called_ (mpx_ c)) ->
  (rd && wr = false -> wf (mpx_ c) -> simulated rd wr (mpx_ c) m) -> advances rd wr c (set_mpx c m).
Proof.
  intros He Hr Hw Hn Hc Hs. split; [done|done|done|done| | |done].
  - intros Hwr Hwf. split; [done|]. intros Ha. split; [done|].
    intros Hcalm Ho. destruct (Hcalm Ho) as [Hb Hnw]. split; [cbn; by rewrite Hw|cbn; auto].
  - intros Hb. left. split; [done|by apply Hc].
Qed.

(** Changes that wake the writer. *)
Lemma advances_wake rd (c c' : connection) :
  evolves (mpx_ c) (mpx_ c') -> own_requests c' = own_requests c ->
  (rd = false -> read_buffer_ (mpx_ c') = read_buffer_ (mpx_ c)) -> write_buffer_ (mpx_ c') = write_buffer_ (mpx_ c) ->
  writer_timer_ c' = wait_cancel (writer_timer_ c) -> closes c c' ->
  (wf (mpx_ c) -> simulated rd false (mpx_ c) (mpx_ c')) -> advances rd false c c'.
Proof.
  intros He Hp Hr Hw Ht Hc Hs. split; [done|done|done|done| |done|by intros _].
  intros _ _. rewrite Ht. by destruct (writer_timer_ c).
Qed.

(** ** Cancellation *)

Lemma cancel_waiting_buffers m m' n :
  cancel_waiting m = Done (m', n) ->
  read_buffer_ m' = read_buffer_ m /\ write_buffer_ m' = write_buffer_ m /\ cancel_run_called_ m' = cancel_run_called_ m.
Proof. unfold cancel_waiting. intros Hc. inv_done. destruct (stable_partition _ _). by injection Hc as <- _. Qed.

Lemma cancel_on_conn_lost_buffers m m' n :
  cancel_on_conn_lost m = Done (m', n) ->
  read_buffer_ m' = read_buffer_ m /\ write_buffer_ m' = write_buffer_ m /\ cancel_run_called_ m' = true.
Proof.
  unfold cancel_on_conn_lost. destruct (cancel_run_called_ m) eqn:Hf; [by intros [= <- _]|]. intros Hc. inv_done.
  destruct (stable_partition _ _). by injection Hc as <- _.
Qed.

(** Of a calm queue, the parts that stay are calm. *)
Lemma none_waiting_sub m m' :
  (forall id, id ∈ reqs_ m' -> id ∈ reqs_ m /\ test m' is_waiting id = test m is_waiting id) ->
  none_waiting m -> none_waiting m'.
Proof.
  unfold none_waiting. rewrite !Forall_forall. intros Hsub Hn id Hid. destruct (Hsub id Hid) as [Hid' ->]. auto.
Qed.

Lemma none_waiting_cancel m m' n : wf m -> cancel_waiting m = Done (m', n) -> none_waiting m -> none_waiting m'.
Proof.
  intros Hwf. unfold cancel_waiting. intros Hc. inv_done. destruct (stable_partition _ _) as [k cs] eqn:Hp.
  injection Hc as <- _. apply none_waiting_sub. intros id Hid.
  assert (id ∈ k) as Hk by done. unfold test. rewrite (cancel_part_kept m _ k cs id Hwf Hp Hk).
  split; [|done]. injection Hp as <- _. by apply filter_elem in Hk as [? _].
Qed.

Lemma exec_cancel_advances rd wr (c c' : connection) : exec_cancel c = Done c' -> advances rd wr c c'.
Proof.
  unfold exec_cancel. intros Hc. apply bind_done in Hc as ([m n] & Hm & [= <-]).
  destruct (cancel_waiting_buffers _ _ _ Hm) as (? & ? & ?). apply advances_mpx; [eauto with redis|done|done| |done|eauto with redis].
  intros _ Hwf. by eapply none_waiting_cancel.
Qed.

Lemma cancel_run_advances rd (c c' : connection) : cancel_run c = Done c' -> advances rd false c c'.
Proof.
  unfold cancel_run. intros Hc. apply bind_done in Hc as ([m n] & Hm & [= <-]). cbn [mpx_ set_channel set_writer_timer] in Hm.
  assert (mpx_ (close c) = mpx_ c) as Hmpx by (unfold close; by destruct (is_open c)). rewrite Hmpx in Hm.
  destruct (cancel_on_conn_lost_buffers _ _ _ Hm) as (Hr & Hw & Hf).
  apply advances_wake; cbn [mpx_ set_mpx]; [eauto with redis| |done|done| | |eauto with redis].
  - unfold close. by destruct (is_open c).
  - unfold close. by destruct (is_open c).
  - right. split; [|done]. unfold close. by destruct (is_open c) eqn:Ho.
Qed.

Lemma cancel_advances rd (c c' : connection) op : cancel c op = Done c' -> advances rd false c c'.
Proof.
  destruct op; cbn [cancel]; try (intros [= <-]; by apply advances_side).
  - apply exec_cancel_advances.
  - apply cancel_run_advances.
  - intros Hc. apply bind_done in Hc as (c1 & Hrun & Hex).
    etransitivity; [|by eapply exec_cancel_advances]. transitivity c1; [|by apply advances_side].
    etransitivity; [|by eapply cancel_run_advances]. by apply advances_side.
Qed.

Lemma cancel_run_then rd {A} (c c' : connection) (a a' : A) :
  (c ← cancel c operation.run; Done (c, a)) = Done (c', a') -> advances rd false c c' /\ a' = a.
Proof.
  intros Hc. apply bind_done in Hc as (c1 & Hc & [= <- <-]). split; [|done]. by eapply cancel_advances.
Qed.

Lemma receive_into_advances rd wr (c : connection) a : advances rd wr c (receive_into c a).
Proof. apply advances_mpx; try done; [by apply evolves_same|]. intros _ _. by apply simulated_same. Qed.

(** ** Requests *)

Lemma allocate_buffers m req a m' id :
  allocate m req a = (m', id) -> read_buffer_ m' = read_buffer_ m /\ write_buffer_ m' = write_buffer_ m /\ store m !! id = None.
Proof.
  unfold allocate. intros [= <- <-]. split_and!; [done|done|]. apply not_elem_of_dom, is_fresh.
Qed.

Lemma add_buffers m id m' :
  add m id = Done m' -> read_buffer_ m' = read_buffer_ m /\ write_buffer_ m' = write_buffer_ m.
Proof.
  unfold add. intros Ha. apply bind_done in Ha as (e & _ & Ha). destruct (has_hello_priority _); [|by injection Ha as <-].
  destruct (partition_point _ _) as [[|x w] rest]; by injection Ha as <-.
Qed.

Lemma remove_buffers m id m' b :
  remove m id = Done (m', b) -> read_buffer_ m' = read_buffer_ m /\ write_buffer_ m' = write_buffer_ m.
Proof.
  unfold remove. destruct (deref m id) as [e|?|?]; [|done..]. cbn [mbind outcome_bind].
  destruct (is_waiting e); [|by intros [= <- _]]. destruct (_ =? _)%nat; [|done]. by intros [= <- _].
Qed.

Lemma remove_keeps m id m' b : remove m id = Done (m', b) -> cancel_run_called_ m' = cancel_run_called_ m.
Proof.
  unfold remove. destruct (deref m id) as [e|?|?]; [|done..]. cbn [mbind outcome_bind].
  destruct (is_waiting e); [|by intros [= <- _]]. destruct (_ =? _)%nat; [|done]. by intros [= <- _].
Qed.

(** A request that is put into the queue wakes the writer, unless it is busy or
    there is no connection. *)
Lemma queue_advances rd (c : connection) m :
  evolves (mpx_ c) m -> read_buffer_ m = read_buffer_ (mpx_ c) -> write_buffer_ m = write_buffer_ (mpx_ c) ->
  cancel_run_called_ m = cancel_run_called_ (mpx_ c) -> (wf (mpx_ c) -> simulated rd false (mpx_ c) m) ->
  let c1 := set_mpx c m in
  advances rd false c (if trigger_write c1 then set_writer_timer c1 (wait_cancel (writer_timer_ c1)) else c1).
Proof.
  intros He Hr Hw Hf Hs c1. assert (closes c c1) as Hc by (by left).
  destruct (trigger_write c1) eqn:Ht; [by apply advances_wake|].
  split; [done|done|done|done| |done|by intros _]. intros _ _. split; [done|]. intros Ha. split; [done|].
  intros Hcalm Ho. destruct (Hcalm Ho) as [Hb _]. unfold trigger_write, is_writing in Ht. cbn [c1 mpx_ set_mpx] in Ht.
  rewrite Hw, Hb, bool_decide_true in Ht by done. by rewrite Ho in Ht.
Qed.

Lemma async_exec_advances rd (c c' : connection) req a id p :
  get_expected_responses req < size_modulus -> async_exec c req a = Done (c', id, p) ->
  advances rd false c c' /\ store (mpx_ c) !! id = None /\
  (wf (mpx_ c) -> store (mpx_ c') !! id = Some (make_elem req a) /\ (p = exec_waiting -> id ∈ reqs_ (mpx_ c'))).
Proof.
  intros Hexp. unfold async_exec. intros Hc. apply bind_done in Hc as (u & _ & Hc).
  destruct (allocate (mpx_ c) req a) as [m id'] eqn:Hal. apply bind_done in Hc as ([c1 p1] & Hst & [= <- <- <-]).
  destruct (allocate_buffers _ _ _ _ _ Hal) as (Hr & Hw & Hnew). unfold exec_start in Hst.
  apply bind_done in Hst as (e & He & Hst). destruct (_ && _).
  - injection Hst as <- <-. split_and!; [|done|].
    + assert (reqs_ m = reqs_ (mpx_ c) /\ (forall x, x ∈ reqs_ (mpx_ c) -> wf (mpx_ c) -> store m !! x = store (mpx_ c) !! x)) as [Hq Hs].
      { unfold allocate in Hal. injection Hal as <- <-. split; [done|]. intros x Hx Hwf. cbn. rewrite lookup_insert_ne; [done|].
        intros <-. destruct (wf_elems _ Hwf _ Hx) as (e' & He' & _). by rewrite Hnew in He'. }
      apply advances_mpx; [by eapply evolves_new; [..|right]|done|done| |intros _; by apply allocate_new in Hal as (_ & _ & _ & _ & ?)|eauto with redis].
      intros _ Hwf. apply none_waiting_sub. intros x Hx. rewrite Hq in Hx. split; [done|]. unfold test. by rewrite Hs.
    + intros Hwf. apply wf_allocate in Hal as (_ & _ & _ & Hs); [|done]. by split.
  - apply bind_done in Hst as (m2 & Hadd & [= <- <-]). cbn [mpx_ set_mpx] in Hadd. pose proof (add_buffers _ _ _ Hadd) as [Hr2 Hw2].
    assert (evolves (mpx_ c) m2) as Hev by (eapply evolves_new; [done|done|by left]).
    assert (cancel_run_called_ m2 = cancel_run_called_ (mpx_ c)) as Hf
      by (destruct (add_keeps _ _ _ Hadd) as [_ ->]; by apply allocate_new in Hal as (_ & _ & _ & _ & ?)).
    split_and!; [apply (queue_advances rd c m2); [done|congruence|congruence|done|eauto with redis]|done|].
    intros Hwf. pose proof Hal as (Hwf1 & Hnin & Hq & Hs)%wf_allocate; [|done].
    destruct (wf_add m id' (make_elem req a) m2) as (_ & Hst & x & y & _ & Hq2 & _); try done.
    destruct (trigger_write _); cbn [mpx_ set_mpx set_writer_timer]; rewrite Hst, Hq2;
      (split; [done|]); intros _; apply elem_of_app; right; by left.
Qed.

Lemma async_exec_flag (c c' : connection) req a id p :
  async_exec c req a = Done (c', id, p) -> run_is_canceled c' = run_is_canceled c.
Proof.
  unfold async_exec, run_is_canceled. intros Hc. apply bind_done in Hc as (u & _ & Hc).
  destruct (allocate (mpx_ c) req a) as [m id'] eqn:Hal. apply bind_done in Hc as ([c1 p1] & Hst & [= <- <- <-]).
  apply allocate_new in Hal as (_ & _ & _ & _ & <-). unfold exec_start in Hst. apply bind_done in Hst as (e & _ & Hst).
  destruct (_ && _); [by injection Hst as <- <-|]. apply bind_done in Hst as (m2 & Hadd & [= <- <-]).
  destruct (add_keeps _ _ _ Hadd) as [_ Hf]. by destruct (trigger_write _).
Qed.

(** What a resumed [exec_op] does: it completes with the result of its element,
    leaves the queue if it was waiting, ends the session, or waits again. *)
Inductive exec_resumed (c : connection) (id : elem_id) (e : elem) (x : cancellation) : connection -> co exec_point exec_result -> Prop :=
  | resumed_error ev : ec_ e = Some ev -> exec_resumed c id e x c (co_complete (Some ev, 0))
  | resumed_result : ec_ e = None -> x = not_cancelled -> exec_resumed c id e x c (co_complete (None, read_size_ e))
  | resumed_removed m : ec_ e = None -> is_waiting e = true -> remove (mpx_ c) id = Done (m, true) ->
      exec_resumed c id e x (set_mpx c m) (co_complete (Some operation_aborted, 0))
  | resumed_closed c' : advances false false c c' -> exec_resumed c id e x c' (co_complete (Some operation_aborted, 0))
  | resumed_again : ec_ e = None -> x = cancelled_other -> exec_resumed c id e x c (co_yield exec_waiting).

Lemma set_mpx_same (c : connection) : set_mpx c (mpx_ c) = c.
Proof. by destruct c. Qed.

Lemma exec_resume_cases (c c' : connection) id x k :
  exec_resume exec_waiting c id x = Done (c', k) ->
  exists e, store (mpx_ c) !! id = Some e /\ exec_resumed c id e x c' k.
Proof.
  cbn [exec_resume]. intros Hc. apply bind_done in Hc as (e & He & Hc).
  exists e. split; [unfold deref in He; destruct (store _ !! id); [by injection He as ->|done]|].
  destruct (ec_ e) as [ev|] eqn:Hec; cbn [has_ec] in Hc; [injection Hc as <- <-; by constructor|].
  destruct x; cbn [is_cancelled] in Hc.
  { injection Hc as <- <-. by constructor. }
  all: apply bind_done in Hc as ([m b] & Hrm & Hc); destruct b;
    [injection Hc as <- <-; apply resumed_removed; [done| |done];
     unfold remove in Hrm; rewrite He in Hrm; cbn in Hrm; by destruct (is_waiting e)|];
    assert (m = mpx_ c) as -> by
      (unfold remove in Hrm; rewrite He in Hrm; cbn in Hrm; destruct (is_waiting e); [by destruct (_ =? _)%nat|by injection Hrm]);
    rewrite set_mpx_same in Hc.
  - apply bind_done in Hc as (c1 & Hca & [= <- <-]). apply resumed_closed. by eapply cancel_advances.
  - injection Hc as <- <-. by apply resumed_again.
Qed.

(** ** The handshake and the health check *)

Lemma hello_request_small (h h' : resp3_handshaker) :
  add_hello h = Done h' -> get_expected_responses (hello_req_ h') < size_modulus.
Proof.
  unfold add_hello. destruct (push_hello_represents (hello_cfg_ h) (clear (hello_req_ h)) (clear_represents _)) as (r & -> & Hr & _).
  cbn [mbind outcome_bind]. intros [= <-]. cbn [hello_req_]. unfold get_expected_responses. rewrite (rep_expected _ _ Hr).
  eapply N.le_lt_trans; [apply filter_length_le|]. unfold select_command. destruct (database_index _) as [i|]; [|done].
  by destruct (i =? 0)%Z.
Qed.

Lemma add_hello_config (h h' : resp3_handshaker) : add_hello h = Done h' -> cfg_ (hello_req_ h') = cfg_ (hello_req_ h).
Proof.
  unfold add_hello. destruct (push_hello_represents (hello_cfg_ h) (clear (hello_req_ h)) (clear_represents _)) as (r & -> & _ & Hc).
  cbn [mbind outcome_bind]. intros [= <-]. exact Hc.
Qed.

(** HELLO is answered. *)
Lemma hello_request_answered (h h' : resp3_handshaker) :
  add_hello h = Done h' -> get_expected_responses (hello_req_ h') <> 0.
Proof.
  unfold add_hello. destruct (push_hello_represents (hello_cfg_ h) (clear (hello_req_ h)) (clear_represents _)) as (r & -> & Hr & _).
  cbn [mbind outcome_bind]. intros [= <-]. cbn [hello_req_]. unfold get_expected_responses. rewrite (rep_expected _ _ Hr).
  assert (responds (hello_command (hello_cfg_ h)) = true) as Hh
    by (unfold hello_command; by destruct (is_empty _), (is_empty _), (is_empty _)).
  cbn [List.filter]. by rewrite Hh.
Qed.

(** A part of the connection that starts a request. *)
Definition starts (c c' : connection) (id : elem_id) (p : exec_point) : Prop :=
  advances false false c c' /\ store (mpx_ c) !! id = None /\
  (wf (mpx_ c) -> exists e, store (mpx_ c') !! id = Some e /\ unnotified e /\ (p = exec_waiting -> id ∈ reqs_ (mpx_ c'))).

Lemma async_exec_starts (c c1 c' : connection) req a id p :
  get_expected_responses req < size_modulus -> async_exec c req a = Done (c1, id, p) ->
  mpx_ c' = mpx_ c1 -> advances false false c1 c' -> starts c c' id p.
Proof.
  intros Hexp Hex Hm Hadv. destruct (async_exec_advances false _ _ _ _ _ _ Hexp Hex) as (Ha & Hnew & Hwf).
  split_and!; [by etransitivity|done|]. intros Hw. destruct (Hwf Hw) as [Hs Hq]. rewrite Hm. by eexists.
Qed.

Lemma hello_start_advances (c c' : connection) id p : hello_start c = Done (c', (id, p)) -> starts c c' id p.
Proof.
  unfold hello_start. intros Hc. apply bind_done in Hc as (h & Hh & Hc). pose proof (add_hello_config _ _ Hh) as Hcfg.
  apply hello_request_small in Hh.
  apply bind_done in Hc as (a & _ & Hc). apply bind_done in Hc as ([[c1 id1] p1] & Hex & [= <- <- <-]).
  assert (advances false false c (set_handshaker c h)) as Hside.
  { apply advances_side; [done| |done|done]. unfold own_requests. cbn. by rewrite Hcfg. }
  destruct (async_exec_starts (set_handshaker c h) c1 (set_hello_elem c1 (Some id1)) _ _ _ _ Hh Hex) as (Ha & Hn & Hw);
    [done|by apply advances_side|]. split_and!; [by etransitivity|done|done].
Qed.

Lemma hello_start_answered (c c' : connection) id p :
  hello_start c = Done (c', (id, p)) -> wf (mpx_ c) -> exists e, store (mpx_ c') !! id = Some e /\ remaining_responses_ e <> 0.
Proof.
  unfold hello_start. intros Hc Hwf. apply bind_done in Hc as (h & Hh & Hc). pose proof (hello_request_answered _ _ Hh) as Hn.
  apply hello_request_small in Hh. apply bind_done in Hc as (a & _ & Hc). apply bind_done in Hc as ([[c1 id1] p1] & Hex & [= <- <- <-]).
  destruct (async_exec_advances false _ _ _ _ _ _ Hh Hex) as (_ & _ & Hw). destruct (Hw Hwf) as [Hs _]. by eexists.
Qed.

Lemma hello_start_flag (c c' : connection) k : hello_start c = Done (c', k) -> run_is_canceled c' = run_is_canceled c.
Proof.
  unfold hello_start. intros Hc. apply bind_done in Hc as (h & _ & Hc). apply bind_done in Hc as (a & _ & Hc).
  by apply bind_done in Hc as ([[c1 id1] p1] & Hex%async_exec_flag & [= <- <-]).
Qed.

Lemma hello_resume_advances (c c' : connection) ec ec' : hello_resume c ec = Done (c', ec') -> advances false false c c'.
Proof.
  unfold hello_resume. assert (forall call, advances false false c (logc c call)) as Hlog by (intros; by apply advances_side).
  destruct (has_ec ec); [intros [Hc _]%(cancel_run_then false); etransitivity; [|exact Hc]; apply Hlog|].
  destruct (has_error_in_response _); [intros [Hc _]%(cancel_run_then false); etransitivity; [|exact Hc]; apply Hlog|].
  intros [= <- _]. apply Hlog.
Qed.

(** The ping starts a request, or does not. *)
Definition ping_advances (c c' : connection) (k : co ping_point error_code) : Prop :=
  match k with
  | co_yield (ping_executing id p) => starts c c' id p
  | _ => advances false false c c'
  end.

Lemma ping_loop_advances (c c' : connection) k :
  get_expected_responses (ping_req_ (health_checker_ c)) < size_modulus -> ping_loop c = Done (c', k) -> ping_advances c c' k.
Proof.
  intros Hexp. unfold ping_loop. destruct (_ =? 0)%Z; [intros [= <- <-]; by apply advances_side|].
  destruct (checker_has_exited_ _); [intros [= <- <-]; by apply advances_side|].
  intros Hc. apply bind_done in Hc as (a & _ & Hc). apply bind_done in Hc as ([[c1 id] p] & Hex & [= <- <-]).
  eapply async_exec_starts; [done|done|done|by apply advances_side].
Qed.

Lemma ping_loop_flag (c c' : connection) k : ping_loop c = Done (c', k) -> run_is_canceled c' = run_is_canceled c.
Proof.
  unfold ping_loop. destruct (_ =? 0)%Z; [by intros [= <- <-]|]. destruct (checker_has_exited_ _); [by intros [= <- <-]|].
  intros Hc. apply bind_done in Hc as (a & _ & Hc). by apply bind_done in Hc as ([[c1 id] p] & Hex%async_exec_flag & [= <- <-]).
Qed.

Lemma ping_resume_advances p (c c' : connection) ec k :
  get_expected_responses (ping_req_ (health_checker_ c)) < size_modulus -> ping_resume p c ec = Done (c', k) -> ping_advances c c' k.
Proof.
  intros Hexp. destruct p as [|id q|d]; cbn [ping_resume]; [by intros [= <- <-]| |].
  - destruct (has_ec ec); intros [= <- <-]; by apply advances_side.
  - destruct (has_ec ec); [intros [= <- <-]; by apply advances_side|].
    assert (advances false false c (set_checker c (set_ping_timer quiet (health_checker_ c)))) as Hside by (by apply advances_side).
    intros Hc%ping_loop_advances; [|done]. destruct k as [[|id q|d']|]; cbn [ping_advances] in *; try by etransitivity.
    destruct Hc as (Ha & Hn & Hw). split_and!; [by etransitivity|done|done].
Qed.

Lemma check_loop_advances (c : connection) : advances false false c (check_loop c).1.
Proof. unfold check_loop. destruct (_ =? 0)%Z; by apply advances_side. Qed.

Lemma check_start_advances (c : connection) : advances false false c (check_start c).1.
Proof. unfold check_start. etransitivity; [|apply check_loop_advances]. by apply advances_side. Qed.

Lemma check_start_flag (c : connection) : run_is_canceled (check_start c).1 = run_is_canceled c.
Proof. unfold check_start, check_loop. by destruct (_ =? 0)%Z. Qed.

Lemma assign_ping_advances (c : connection) r : advances false false c (assign_ping_response c r).
Proof.
  unfold assign_ping_response. transitivity (assign_shared c (ping_elem_ c) r); [|by destruct (ping_elem_ c); apply advances_side].
  unfold assign_shared. destruct (ping_elem_ c) as [id|]; [|done].
  apply advances_mpx; [apply evolves_assign|done|done| |done|eauto with redis]. intros _ _. apply none_waiting_sub. intros x Hx. split; [done|].
  unfold test. cbn [store set_store]. destruct (decide (x = id)) as [->|Hne]; [|by rewrite lookup_alter_ne].
  rewrite lookup_alter_eq. by destruct (store (mpx_ c) !! id).
Qed.

Lemma check_resume_advances p (c c' : connection) ec k : check_resume p c ec = Done (c', k) -> advances false false c c'.
Proof.
  destruct p as [|d]; cbn [check_resume]; [by intros [= <- _]|].
  assert (advances false false c (set_checker c (set_wait_timer quiet (health_checker_ c)))) as Hside by (by apply advances_side).
  destruct (has_ec ec); [intros [= <- _]; by apply advances_side|].
  destruct (ping_response _) as [[|nd nds]|er]; [| |intros [= <- _]; by apply advances_side].
  - intros Hc. apply bind_done in Hc as (c1 & Hca%(cancel_advances false) & [= <- _]).
    transitivity c1; [|by apply advances_side]. etransitivity; [|exact Hca]. by apply advances_side.
  - match goal with |- context [check_loop ?x] => pose proof (check_loop_advances x) as Hl; destruct (check_loop x) end.
    intros [= <- _]. etransitivity; [exact Hside|]. etransitivity; [apply assign_ping_advances|exact Hl].
Qed.

(** ** The reader *)

Lemma commit_read_keeps m ec m' ec' r :
  commit_read m ec = Done (m', ec', r) ->
  (write_buffer_ m' = write_buffer_ m /\ cancel_run_called_ m' = cancel_run_called_ m) /\
  forall id, id ∈ reqs_ m' -> id ∈ reqs_ m /\ test m' is_waiting id = test m is_waiting id.
Proof.
  assert (forall m1, (if on_push_ m1 then commit_read_push m1 ec else commit_read_response m1 ec) = Done (m', ec', r) ->
    (write_buffer_ m' = write_buffer_ m1 /\ cancel_run_called_ m' = cancel_run_called_ m1) /\
    forall id, id ∈ reqs_ m' -> id ∈ reqs_ m1 /\ test m' is_waiting id = test m1 is_waiting id) as Hrest.
  { intros m1. destruct (on_push_ m1).
    - unfold commit_read_push. destruct (receive_adapter_ m1) as [a|]; [|done].
      destruct (parse _ _ _ _ _) as [[[[p a'] ec1] [|]]|?|?]; cbn; [|by intros [= <- _ _]|done..].
      destruct (has_ec ec1); cbn; by intros [= <- _ _].
    - unfold commit_read_response, is_waiting_response, deref.
      destruct (reqs_ m1) as [|front rest] eqn:Hr; [done|]. destruct (store m1 !! front) as [e|] eqn:He; [|done].
      assert (forall e' id, status_ e' = status_ e ->
        match <[front := e']> (store m1) !! id with Some x => is_waiting x | None => false end = test m1 is_waiting id) as Htest.
      { intros e' id Hst. unfold test. destruct (decide (id = front)) as [->|Hne]; [|by rewrite lookup_insert_ne].
        rewrite lookup_insert_eq, He. unfold is_waiting. by rewrite Hst. }
      cbn [mbind outcome_bind]. destruct (is_waiting e); [done|]. cbn [negb boost_assert mbind outcome_bind].
      destruct (remaining_responses_ e =? 0); [done|]. cbn [negb boost_assert mbind outcome_bind].
      destruct (parse _ _ _ _ _) as [[[[p a'] ec1] [|]]|?|?]; cbn [negb mbind outcome_bind]; [| |done..].
      2: { intros [= <- _ _]. split; [done|]. intros id Hid. cbn in Hid. rewrite Hr in Hid. split; [done|]. by apply Htest. }
      destruct (has_ec ec1).
      { intros [= <- _ _]. split; [done|]. intros id Hid. cbn in Hid. rewrite Hr in Hid. split; [done|]. by apply Htest. }
      destruct (remaining_responses_ _ =? 0); intros [= <- _ _]; (split; [done|]); intros id Hid; cbn in Hid; rewrite ?Hr in Hid;
        (split; [first [done|by right]|]); by apply Htest. }
  unfold commit_read. destruct (negb (on_push_ m)); [|apply Hrest].
  destruct (is_next_push m) as [b|?|?]; [|done..]. apply (Hrest (set_on_push m b)).
Qed.

Lemma commit_read_advances (c : connection) m ec r :
  commit_read (mpx_ c) None = Done (m, ec, r) -> advances true false c (set_mpx c m).
Proof.
  intros Hc. destruct (commit_read_keeps _ _ _ _ _ Hc) as [[Hw Hf] Hn].
  apply advances_mpx; [eauto with redis|done|done| |done|eauto with redis]. intros _ _. by apply none_waiting_sub.
Qed.

(** The space a read was given. *)
Definition read_space (c : connection) (k : co reader_point error_code) : Prop :=
  match k with
  | co_yield (reader_reading tmp size) => len (read_buffer_ (mpx_ c)) = tmp + size
  | _ => True
  end.

Lemma set_read_buffer_advances wr (c : connection) b : advances true wr c (set_mpx c (set_read_buffer (mpx_ c) b)).
Proof. apply advances_mpx; [by apply evolves_same|done|done|done|done|]. intros _ _. by apply simulated_same. Qed.

Lemma reader_read_advances (c c' : connection) k : reader_read c = Done (c', k) -> advances true false c c' /\ read_space c' k.
Proof.
  unfold reader_read. intros Hc. apply bind_done in Hc as (c1 & Hs & [= <- <-]). unfold append_some_start in Hs.
  destruct (_ <? _); [done|]. injection Hs as <-. split; [apply set_read_buffer_advances|].
  cbn [read_space mpx_ set_mpx read_buffer_ set_read_buffer]. unfold len. rewrite length_app, repeat_length. lia.
Qed.

Lemma reader_read_flag (c c' : connection) k : reader_read c = Done (c', k) -> run_is_canceled c' = run_is_canceled c.
Proof.
  unfold reader_read. intros Hc. apply bind_done in Hc as (c1 & Hs & [= <- <-]). unfold append_some_start in Hs.
  destruct (_ <? _); [done|]. by injection Hs as <-.
Qed.

Lemma reader_read_same (c c' : connection) k : reader_read c = Done (c', k) -> simulated false false (mpx_ c) (mpx_ c').
Proof.
  unfold reader_read. intros Hc. apply bind_done in Hc as (c1 & Hs & [= <- <-]). unfold append_some_start in Hs.
  destruct (_ <? _); [done|]. injection Hs as <-. by apply simulated_same.
Qed.

Lemma cancel_run_read (c0 c c' : connection) ec k :
  advances true false c0 c -> (c ← cancel c operation.run; Done (c, co_complete ec)) = Done (c', k) ->
  advances true false c0 c' /\ read_space c' k.
Proof. intros Ha [Hc ->]%(cancel_run_then true). split; [by etransitivity|done]. Qed.

Lemma reader_loop_advances fuel (c c' : connection) k :
  reader_loop fuel c = Done (c', k) -> advances true false c c' /\ read_space c' k.
Proof.
  revert c. induction fuel as [|fuel IH]; intros c; cbn [reader_loop]; [done|].
  intros Hc. apply bind_done in Hc as ([[m ec] r] & Hm & Hc). apply commit_read_advances in Hm.
  assert (forall c1, advances true false c c1 ->
    (if is_data_needed (mpx_ c1) then reader_read c1 else reader_loop fuel c1) = Done (c', k) ->
    advances true false c c' /\ read_space c' k) as Hnext.
  { intros c1 Ha Hn. destruct (is_data_needed (mpx_ c1));
      [apply reader_read_advances in Hn as [? ?]|apply IH in Hn as [? ?]]; (split; [by etransitivity|done]). }
  destruct (has_ec ec).
  { eapply cancel_run_read; [|exact Hc]. etransitivity; [exact Hm|]. by apply advances_side. }
  destruct r as [[[|]|] n]; cbn [fst snd] in Hc.
  - revert Hc. destruct (channel_try_send _ _ _) as [ch|]; [|by intros [= <- <-]]. intros Hc.
    assert (advances true false c (set_channel (set_mpx c m) ch)) as Ha by (etransitivity; [exact Hm|]; by apply advances_side).
    revert Hc. destruct (negb (is_open _)); [|by intros Hc%Hnext]. intros [= <- <-]. split; [|done].
    etransitivity; [exact Ha|]. by apply advances_side.
  - by apply Hnext in Hc.
  - apply reader_read_advances in Hc as [? ?]. split; [by etransitivity|done].
Qed.

Lemma reader_next_advances (c c' : connection) k :
  reader_next c = Done (c', k) -> advances true false c c' /\ read_space c' k.
Proof. unfold reader_next. destruct (is_data_needed _); [apply reader_read_advances|apply reader_loop_advances]. Qed.

Lemma append_complete_advances (c : connection) tmp ec data : advances true false c (append_some_complete c tmp ec data).
Proof. unfold append_some_complete. destruct (has_ec ec); [done|]. apply set_read_buffer_advances. Qed.

Lemma reader_resume_advances p (c c' : connection) ec data k :
  reader_resume p c ec data = Done (c', k) -> advances true false c c' /\ read_space c' k.
Proof.
  destruct p as [tmp size|n]; cbn [reader_resume].
  - pose proof (append_complete_advances c tmp ec data) as Ha. set (c1 := append_some_complete c tmp ec data) in *.
    assert (forall call, advances true false c (logc c1 call)) as Hlog.
    { intros call. etransitivity; [exact Ha|]. by apply advances_side. }
    destruct (has_ec ec).
    + apply cancel_run_read. etransitivity; [exact Ha|]. by apply advances_side.
    + destruct (negb (is_open _)); [intros [= <- <-]; split; [etransitivity; [exact Ha|by apply advances_side]|done]|].
      intros [Hl ?]%reader_loop_advances. split; [etransitivity; [|exact Hl]; apply Hlog|done].
  - destruct (has_ec ec); [apply cancel_run_read; by apply advances_side|].
    destruct (negb (is_open _)); [intros [= <- <-]; split; [by apply advances_side|done]|]. apply reader_next_advances.
Qed.

(** ** The writer *)

(** What the writer waits for: the write of the buffer, or a request. *)
Definition write_wait (c : connection) (k : co writer_point error_code) : Prop :=
  match k with
  | co_yield (writer_writing v) => write_buffer_ (mpx_ c) = v
  | co_yield writer_idle => write_buffer_ (mpx_ c) = [] /\ writer_timer_ c = armed /\ calm c
  | co_complete _ => True
  end.

Lemma prepare_write_read m : read_buffer_ (prepare_write m).1 = read_buffer_ m.
Proof.
  unfold prepare_write. destruct (partition_point _ _) as [a ids]. cbn [fst read_buffer_ set_usage].
  revert m. induction ids as [|id ids IH]; intros m; [done|]. cbn [foldl]. rewrite IH. unfold stage.
  by destruct (store m !! id).
Qed.

Lemma prepare_write_none m : wf m -> (prepare_write m).2 = 0 ->
  write_buffer_ (prepare_write m).1 = write_buffer_ m /\ none_waiting (prepare_write m).1.
Proof.
  intros Hwf. unfold prepare_write. destruct (partition_point _ _) as [a ids] eqn:Hpp.
  apply partition_waiting in Hpp as (Hr & Ha & _); [|done]. cbn [snd fst]. intros Hn.
  destruct ids as [|id ids]; [|rewrite len_cons in Hn; lia]. rewrite app_nil_r in Hr. split; [done|].
  unfold none_waiting. cbn. rewrite Hr. exact Ha.
Qed.

Lemma prepare_write_keeps m : cancel_run_called_ (prepare_write m).1 = cancel_run_called_ m.
Proof. unfold prepare_write. destruct (partition_point _ _) as [a ids]. apply stage_keeps. Qed.

Lemma writer_loop_advances (c c' : connection) k :
  wf (mpx_ c) -> write_buffer_ (mpx_ c) = [] -> run_is_canceled c = false -> writer_loop c = (c', k) ->
  advances false true c c' /\ write_wait c' k.
Proof.
  intros Hwf Hb Hf. pose proof (prepare_write_keeps (mpx_ c)) as Hfl.
  pose proof (simulated_write false _ Hwf Hf) as Hsim. unfold writer_loop. pose proof (evolves_prepare_write (mpx_ c)) as Hev.
  pose proof (prepare_write_read (mpx_ c)) as Hrd. pose proof (prepare_write_none (mpx_ c) Hwf) as Hn.
  destruct (prepare_write (mpx_ c)) as [m n]. cbn [fst snd] in *.
  assert (advances false true c (set_mpx c m)) as Ha by (by apply advances_mpx).
  destruct (N.eqb_spec n 0) as [Hz|Hz]; intros [= <- <-]; [|by split].
  destruct (Hn Hz) as [Hw Hnw]. split.
  - etransitivity; [exact Ha|apply advances_timer].
  - split_and!; [cbn; by rewrite Hw|done|]. intros _. split; [cbn; by rewrite Hw|done].
Qed.

Lemma writer_resume_advances p (c c' : connection) ec k :
  wf (mpx_ c) -> (p = writer_idle -> write_buffer_ (mpx_ c) = []) -> (is_open c = true -> run_is_canceled c = false) ->
  writer_resume p c ec = Done (c', k) ->
  advances false true c c' /\ write_wait c' k.
Proof.
  intros Hwf Hidle Hlive. destruct p as [v|]; cbn [writer_resume].
  - destruct (has_ec ec).
    + intros [Hc ->]%(cancel_run_then false). split; [|done].
      apply advances_weaken. etransitivity; [|exact Hc]. by apply advances_side.
    + intros Hc. apply bind_done in Hc as ([m n] & Hm & Hc). cbn [mpx_ logc] in Hm.
      assert (advances false true c (set_mpx c m)) as Ha.
      { destruct (commit_write_spec _ Hwf) as (m1 & Hm1 & _ & Hr & _). rewrite Hm1 in Hm. injection Hm as <- _.
        apply advances_mpx; [by eapply evolves_commit_write|done|done|done|intros _; by eapply commit_write_keeps|eauto with redis]. }
      assert (write_buffer_ m = [] /\ wf m) as [Hb Hwf'].
      { destruct (commit_write_spec _ Hwf) as (m1 & Hm1 & Hb & _). rewrite Hm1 in Hm. injection Hm as <- _.
        split; [done|by eapply wf_commit_write]. }
      assert (forall call, advances false true c (set_mpx (logc c call) m)) as Hlog.
      { intros call. etransitivity; [exact Ha|]. by apply advances_side. }
      match type of Hc with (if negb (is_open ?x) then _ else _) = _ => destruct (is_open x) eqn:Ho end; cbn [negb] in Hc.
      * injection Hc as Hc. apply writer_loop_advances in Hc as [? ?]; [|done|done|].
        2: { rewrite <- (Hlive Ho). by eapply commit_write_keeps. }
        split; [|done].
        etransitivity; [|done]. apply Hlog.
      * injection Hc as <- <-. split; [|done]. etransitivity; [exact Ha|]. by apply advances_side.
  - assert (advances false true c (set_writer_timer c quiet)) as Ha by apply advances_timer.
    destruct (is_open (set_writer_timer c quiet)) eqn:Ho; cbn [negb].
    + intros [= Hc]. apply writer_loop_advances in Hc as [? ?]; [|done|by apply Hidle|by apply Hlive]. split; [|done]. by etransitivity.
    + intros [= <- <-]. split; [|done]. etransitivity; [exact Ha|]. by apply advances_side.
Qed.

(** ** Operations that return *)

Lemma cancel_run_returns (c : connection) : wf (mpx_ c) -> exists c', cancel_run c = Done c'.
Proof.
  intros Hwf. unfold cancel_run. cbn [mpx_ set_channel set_writer_timer].
  assert (mpx_ (close c) = mpx_ c) as -> by (unfold close; by destruct (is_open c)).
  unfold cancel_on_conn_lost. destruct (cancel_run_called_ (mpx_ c)); [by eexists|].
  rewrite wf_non_null by (by eapply wf_same). cbn [boost_assert mbind outcome_bind].
  destruct (stable_partition _ _). by eexists.
Qed.

Lemma exec_cancel_returns (c : connection) : wf (mpx_ c) -> exists c', exec_cancel c = Done c'.
Proof.
  intros Hwf. unfold exec_cancel, cancel_waiting. rewrite wf_non_null by done. cbn [boost_assert mbind outcome_bind].
  destruct (stable_partition _ _). by eexists.
Qed.

Lemma cancel_returns (c : connection) op : wf (mpx_ c) -> exists c', cancel c op = Done c'.
Proof.
  intros Hwf. destruct op; cbn [cancel]; try (by eexists).
  - by apply exec_cancel_returns.
  - by apply cancel_run_returns.
  - match goal with |- context [cancel_run ?x] => destruct (cancel_run_returns x) as [c1 Hc]; [done|] end.
    rewrite Hc. cbn [mbind outcome_bind]. apply exec_cancel_returns. apply cancel_run_advances with (rd := true) in Hc. by apply Hc.
Qed.

(** [remove] of an element that is in the queue erases one position. *)
Lemma remove_returns m id e :
  wf m -> store m !! id = Some e -> (is_waiting e = true -> id ∈ reqs_ m) -> exists m' b, remove m id = Done (m', b).
Proof.
  intros Hwf He Hin. unfold remove, deref. rewrite He. cbn [mbind outcome_bind]. destruct (is_waiting e); [|by eexists _, _].
  rewrite (proj2 (Nat.eqb_eq _ _)); [by eexists _, _|]. specialize (Hin eq_refl). pose proof (wf_nodup _ Hwf) as Hnd.
  clear -Hin Hnd. induction Hnd as [|x l Hx Hnd IH]; [by apply not_elem_of_nil in Hin|]. cbn [List.filter length].
  destruct (Nat.eqb_spec x id) as [->|Hne]; cbn [negb].
  - assert (List.filter (fun x => negb (x =? id)%nat) l = l) as ->; [|apply Nat.add_1_r]. clear -Hx. induction l as [|y l IH]; [done|].
    apply not_elem_of_cons in Hx as [Hy Hx]. cbn. rewrite (proj2 (Nat.eqb_neq y id)) by done. cbn. by rewrite IH.
  - apply elem_of_cons in Hin as [->|Hin]; [done|]. cbn [length]. specialize (IH Hin). cbn [Nat.add]. f_equal. exact IH.
Qed.

Lemma add_done m id e : store m !! id = Some e -> exists l, add m id = Done (set_reqs m l).
Proof.
  intros He. unfold add, deref. rewrite He. cbn. destruct (has_hello_priority (req_ e)); [|by eexists].
  destruct (partition_point _ _) as [[|x w] rest]; by eexists.
Qed.

Lemma async_exec_returns (c : connection) req a :
  wf (mpx_ c) -> get_expected_responses req <= supported_response_size a -> exists r, async_exec c req a = Done r.
Proof.
  intros Hwf Hsize. unfold async_exec. rewrite (proj2 (N.leb_le _ _) Hsize). cbn [boost_assert mbind outcome_bind].
  destruct (allocate (mpx_ c) req a) as [m id] eqn:Hal. apply wf_allocate in Hal as (_ & _ & _ & Hs); [|done].
  unfold exec_start, deref. cbn [mpx_ set_mpx]. rewrite Hs. cbn [mbind outcome_bind]. destruct (_ && _); [by eexists|].
  cbn [mpx_ set_mpx]. destruct (add_done m id _ Hs) as [l ->]. cbn [mbind outcome_bind]. by eexists.
Qed.

Lemma ping_loop_returns (c : connection) :
  wf (mpx_ c) -> get_expected_responses (ping_req_ (health_checker_ c)) < size_modulus -> exists r, ping_loop c = Done r.
Proof.
  intros Hwf Hexp. unfold ping_loop. destruct (_ =? 0)%Z; [by eexists|]. destruct (checker_has_exited_ _); [by eexists|].
  rewrite create_impl_generic.
  cbn [mbind outcome_bind]. match goal with |- context [async_exec c ?q ?a] => destruct (async_exec_returns c q a Hwf) as [[[c1 id] p] ->] end.
  - cbn [supported_response_size]. change any_size with (size_modulus - 1). lia.
  - by eexists.
Qed.

Lemma ping_resume_returns p (c : connection) ec :
  wf (mpx_ c) -> get_expected_responses (ping_req_ (health_checker_ c)) < size_modulus -> exists r, ping_resume p c ec = Done r.
Proof.
  intros Hwf Hexp. destruct p as [|id q|d]; cbn [ping_resume]; [by eexists|by destruct (has_ec ec); eexists|].
  destruct (has_ec ec); [by eexists|by apply ping_loop_returns].
Qed.

Lemma cancel_then_returns {A} (c : connection) (k : connection -> A) :
  wf (mpx_ c) -> exists r, (c ← cancel c operation.run; Done (k c)) = Done r.
Proof. intros Hwf. destruct (cancel_returns c operation.run Hwf) as [c' ->]. by eexists. Qed.

Lemma hello_resume_returns (c : connection) ec : wf (mpx_ c) -> exists r, hello_resume c ec = Done r.
Proof.
  intros Hwf. unfold hello_resume. destruct (has_ec ec); [by apply cancel_then_returns|].
  destruct (has_error_in_response _); [by apply cancel_then_returns|by eexists].
Qed.

Lemma check_resume_returns p (c : connection) ec : wf (mpx_ c) -> exists r, check_resume p c ec = Done r.
Proof.
  intros Hwf. destruct p as [|d]; cbn [check_resume]; [by eexists|]. destruct (has_ec ec); [by eexists|].
  destruct (ping_response _) as [[|nd nds]|er]; [|by eexists..]. by apply cancel_then_returns.
Qed.

Lemma writer_resume_returns p (c : connection) ec : wf (mpx_ c) -> exists r, writer_resume p c ec = Done r.
Proof.
  intros Hwf. destruct p as [v|]; cbn [writer_resume]; [|by destruct (negb _); eexists].
  destruct (has_ec ec); [by apply cancel_then_returns|]. cbn [mpx_ logc].
  destruct (commit_write_spec _ Hwf) as (m & -> & _). cbn [mbind outcome_bind]. by destruct (negb _); eexists.
Qed.
End WithChannel.
