(* ===== verification/ConnectionClaims.v ===== *)
(** * Claims about the connection *)

From stdpp Require Import gmap.
From S2P Require Import Prelude Charconv Types Parser ParserSpec ParserSafety Resp3 ParserCorrect.
From S2P Require Import Serialization Request Adapters Traits AdapterTheorems.
From S2P Require Import Multiplexer MultiplexerInvariant MultiplexerRead Logger Session Connection Run Advance.

#[local] Open Scope string_scope.
#[local] Open Scope N_scope.
#[local] Open Scope list_scope.

Section WithChannel.
Context {Ch Ep : Type} `{Channel Ch} `{Platform Ep}.
Abbreviation connection := (connection Ch Ep).

(** ** Sending a request *)

(** What the operations that start requests leave alone. *)
Record unmoved (c c' : connection) : Prop := {
  un_open : stream_open c' = stream_open c;
  un_checker : health_checker_ c' = health_checker_ c;
  un_cfg : conn_cfg_ c' = conn_cfg_ c;
  un_channel : receive_channel_ c' = receive_channel_ c;
  un_resolver : resolver_ c' = resolver_ c;
  un_write : write_buffer_ (mpx_ c') = write_buffer_ (mpx_ c);
  un_read : read_buffer_ (mpx_ c') = read_buffer_ (mpx_ c);
  un_parser : parser_ (mpx_ c') = parser_ (mpx_ c);
  un_push : on_push_ (mpx_ c') = on_push_ (mpx_ c);
  un_receive : receive_adapter_ (mpx_ c') = receive_adapter_ (mpx_ c);
}.

#[export] Instance unmoved_preorder : PreOrder unmoved.
Proof.
  split; [by split|]. intros c1 c2 c3 [] []. split; congruence.
Qed.

(** What starting a request leaves alone. *)
Record same_parts (c c' : connection) : Prop := {
  same_unmoved : unmoved c c';
  same_handshaker : handshaker_ c' = handshaker_ c;
  same_elems : hello_elem_ c' = hello_elem_ c /\ ping_elem_ c' = ping_elem_ c;
  same_timer : writer_timer_ c' = if trigger_write c then wait_cancel (writer_timer_ c) else writer_timer_ c;
}.

(** All the requests of the queue are waiting. *)
Definition all_waiting (m : multiplexer) : Prop := Forall (fun id => test m is_waiting id = true) (reqs_ m).

(** A request that has been put into the queue, in front of it or behind it. *)
Record enqueued (c c' : connection) (first : bool) (id : elem_id) (req : request) (a : any_adapter) : Prop := {
  enq_wf : wf (mpx_ c');
  enq_waiting : all_waiting (mpx_ c');
  enq_fresh : store (mpx_ c) !! id = None;
  enq_elem : store (mpx_ c') !! id = Some (make_elem req a);
  enq_old : forall x e, store (mpx_ c) !! x = Some e -> store (mpx_ c') !! x = Some e;
  enq_queue : reqs_ (mpx_ c') = if first then id :: reqs_ (mpx_ c) else reqs_ (mpx_ c) ++ [id];
}.

(** Starting a request that does not need a connection puts it into the queue. *)
Lemma async_exec_queues c req a :
  wf (mpx_ c) -> all_waiting (mpx_ c) -> get_expected_responses req < size_modulus ->
  get_expected_responses req <= supported_response_size a ->
  cancel_if_not_connected (get_config req) && negb (is_open c) = false ->
  exists c' id, async_exec c req a = Done (c', id, exec_waiting) /\
    same_parts c c' /\ enqueued c c' (has_hello_priority req) id req a.
Proof.
  intros Hwf Hall Hexp Hsize Hcfg. unfold async_exec. rewrite (proj2 (N.leb_le _ _) Hsize). cbn [boost_assert mbind outcome_bind].
  destruct (allocate (mpx_ c) req a) as [m id] eqn:Hal. pose proof Hal as Hal'.
  apply wf_allocate in Hal as (Hwf1 & Hnin & Hr & Hs); [|done].
  assert (set_store (mpx_ c) (store m) = m) as Hm by (unfold allocate in Hal'; by injection Hal' as <- <-).
  assert (forall x, x ≠ id -> store m !! x = store (mpx_ c) !! x) as Hst.
  { intros x Hx. unfold allocate in Hal'. injection Hal' as <- <-. cbn. by rewrite lookup_insert_ne. }
  unfold exec_start, deref. cbn [mpx_ set_mpx]. rewrite Hs. cbn [mbind outcome_bind req_ make_elem].
  change (is_open (set_mpx c m)) with (is_open c). rewrite Hcfg.
  destruct (add_done m id _ Hs) as [l Hadd].
  destruct (wf_add m id (make_elem req a) (set_reqs m l)) as (Hwf2 & _ & pre & post & H1 & H2 & H3 & H4); try done.
  cbn [mpx_ set_mpx]. rewrite Hadd. cbn [mbind outcome_bind].
  eexists _, id. split; [reflexivity|].
  assert (trigger_write (set_mpx (set_mpx c m) (set_reqs m l)) = trigger_write c) as Htw.
  { unfold trigger_write, is_writing. cbn [mpx_ set_mpx write_buffer_ set_reqs]. rewrite <-Hm. done. }
  set (c1 := if trigger_write _ then _ else _).
  assert (mpx_ c1 = set_reqs m l) as Hmpx by (unfold c1; by destruct (trigger_write _)).
  rewrite Hr in H1, Hnin.
  assert (forall x, x ∈ reqs_ (mpx_ c) -> x ≠ id) as Hne by (by intros x Hx ->).
  assert (reqs_ (set_reqs m l) = if has_hello_priority req then id :: reqs_ (mpx_ c) else reqs_ (mpx_ c) ++ [id]) as Hq.
  { rewrite H2, H1. cbn [req_ make_elem] in H4. destruct (has_hello_priority req); [|subst post; by rewrite app_nil_r].
    destruct pre as [|y pre]; [done|]. exfalso. apply Forall_cons in H4 as [Hy _].
    unfold all_waiting in Hall. rewrite H1 in Hall. apply Forall_cons in Hall as [Hy' _].
    unfold test in Hy, Hy'. rewrite Hst in Hy; [congruence|]. apply Hne. rewrite H1. by left. }
  split.
  - rewrite <-Hm in Hmpx. split; [split|..]; try (unfold c1; by destruct (trigger_write _)); try (by rewrite Hmpx).
    unfold c1. rewrite Htw. by destruct (trigger_write c).
  - assert (store (mpx_ c) !! id = None) as Hfresh.
    { unfold allocate in Hal'. injection Hal' as _ <-. apply not_elem_of_dom, (is_fresh (dom (store (mpx_ c)))). }
    split; rewrite ?Hmpx; [done| |done|done| |done].
    + unfold all_waiting. rewrite Hq. apply Forall_forall. intros x Hx.
      assert (x = id \/ x ∈ reqs_ (mpx_ c)) as [->|Hx'].
      { destruct (has_hello_priority req); rewrite ?elem_of_cons, ?elem_of_app, ?elem_of_cons in Hx; set_solver. }
      * unfold test. cbn [store set_reqs]. by rewrite Hs.
      * unfold test. cbn [store set_reqs]. rewrite Hst by (by apply Hne).
        unfold all_waiting in Hall. rewrite Forall_forall in Hall. by apply Hall.
    + intros x e He. cbn [store set_reqs]. rewrite Hst; [done|]. intros ->. congruence.
Qed.

Lemma enqueued_kept c c' first id req a x :
  wf (mpx_ c) -> enqueued c c' first id req a -> x ∈ reqs_ (mpx_ c) -> store (mpx_ c') !! x = store (mpx_ c) !! x.
Proof. intros Hwf Hq Hx. destruct (wf_elems _ Hwf x Hx) as (e & He & _). rewrite He. by apply Hq. Qed.

(** The bytes of the requests of a queue, in order. *)
Definition payloads (m : multiplexer) (ids : list elem_id) : bytes :=
  concat (map (fun id => from_option (fun e => payload (req_ e)) [] (store m !! id)) ids).

Lemma payloads_app m a b : payloads m (a ++ b) = payloads m a ++ payloads m b.
Proof. unfold payloads. by rewrite map_app, concat_app. Qed.

Lemma payloads_ext m m' ids : (forall id, id ∈ ids -> store m' !! id = store m !! id) -> payloads m' ids = payloads m ids.
Proof.
  unfold payloads. induction ids as [|id ids IH]; intros Hs; [done|]. cbn [map concat].
  rewrite Hs by (by left). f_equal. apply IH. intros i Hi. apply Hs. by right.
Qed.

Lemma payloads_one m id req a : store m !! id = Some (make_elem req a) -> payloads m [id] = payload req.
Proof. intros Hs. unfold payloads. cbn [map concat]. rewrite Hs. cbn. apply app_nil_r. Qed.

Lemma enqueued_payloads c c' first id req a :
  wf (mpx_ c) -> enqueued c c' first id req a ->
  payloads (mpx_ c') (reqs_ (mpx_ c')) =
    if first then payload req ++ payloads (mpx_ c) (reqs_ (mpx_ c)) else payloads (mpx_ c) (reqs_ (mpx_ c)) ++ payload req.
Proof.
  intros Hwf Hq. pose proof (fun x => enqueued_kept _ _ _ _ _ _ x Hwf Hq) as Ho. destruct Hq as [_ _ _ He _ ->]. destruct first.
  - change (id :: reqs_ (mpx_ c)) with ([id] ++ reqs_ (mpx_ c)). rewrite payloads_app, (payloads_one _ _ _ _ He). f_equal. by apply payloads_ext.
  - rewrite payloads_app, (payloads_one _ _ _ _ He). f_equal. by apply payloads_ext.
Qed.

Lemma prepare_all m :
  wf m -> all_waiting m ->
  (prepare_write m).2 = len (reqs_ m) /\
  write_buffer_ (prepare_write m).1 = write_buffer_ m ++ payloads m (reqs_ m).
Proof.
  intros Hwf Hall. unfold prepare_write. destruct (partition_point _ _) as [a b] eqn:Hpp.
  apply partition_waiting in Hpp as (Hr & Ha & Hb); [|done].
  assert (a = []) as ->.
  { destruct a as [|x a]; [done|]. unfold all_waiting in Hall. rewrite Hr in Hall.
    apply Forall_cons in Ha as [Hx _]. apply Forall_cons in Hall as [Hx' _]. congruence. }
  cbn [app] in Hr. subst b. destruct (stage_fold m (reqs_ m)) as (_ & _ & _ & _ & _ & Hw).
  - apply Hwf.
  - intros id Hid. destruct (wf_elems _ Hwf id Hid) as (e & He & _). by exists e.
  - cbn [fst snd write_buffer_ set_usage]. by split.
Qed.

Lemma prepare_write_receive m : receive_adapter_ (prepare_write m).1 = receive_adapter_ m.
Proof.
  unfold prepare_write. destruct (partition_point _ _) as [a b]. cbn [fst receive_adapter_ set_usage].
  assert (forall ids m, receive_adapter_ (foldl stage m ids) = receive_adapter_ m) as Hf; [|apply Hf].
  clear. intros ids. induction ids as [|id ids IH]; intros m; [done|]. cbn [foldl]. rewrite IH. unfold stage. by destruct (store m !! id).
Qed.

Lemma prepare_staged m :
  wf m -> all_waiting m ->
  exists m', prepare_write m = (m', len (reqs_ m)) /\
    write_buffer_ m' = write_buffer_ m ++ payloads m (reqs_ m) /\ reqs_ m' = reqs_ m /\
    read_buffer_ m' = read_buffer_ m /\ parser_ m' = parser_ m /\ on_push_ m' = on_push_ m /\ receive_adapter_ m' = receive_adapter_ m /\
    (forall id e, id ∈ reqs_ m -> store m !! id = Some e -> store m' !! id = Some (mark_staged e)).
Proof.
  intros Hwf Hall. destruct (prepare_all m Hwf Hall) as [Hn Hw]. pose proof (prepare_write_receive m) as Hra.
  destruct (prepare_write m) as [m' n] eqn:Hp.
  cbn [fst snd] in Hn, Hw, Hra. subst n. exists m'. split; [done|]. split; [done|].
  unfold prepare_write in Hp. destruct (partition_point _ _) as [a b] eqn:Hpp.
  apply partition_waiting in Hpp as (Hr & _ & _); [|done]. injection Hp as <- Hl.
  assert (a = []) as ->.
  { apply nil_length_inv. apply (f_equal length) in Hr. rewrite length_app in Hr. unfold len in Hl. lia. }
  cbn [app] in Hr. subst b. destruct (stage_fold m (reqs_ m)) as (? & ? & ? & ? & Hs & _).
  - apply Hwf.
  - intros id Hid. destruct (wf_elems _ Hwf id Hid) as (e & He & _). by exists e.
  - split_and!; [done..|]. intros id e Hid He. cbn [store set_usage]. rewrite Hs, decide_True, He by done. done.
Qed.

(** ** A new session *)

(** The requests the connection sends itself, as [async_run] configures them. *)
Definition configured (c : connection) : Prop :=
  cfg_ (hello_req_ (handshaker_ c)) = default_request_config /\
  cfg_ (ping_req_ (health_checker_ c)) = default_request_config /\
  exists id, represents (ping_req_ (health_checker_ c)) [[bs "PING"; id]].

(** The adapter of an object of type [generic_response]. *)
Definition generic_adapter (r : generic_response) : any_adapter :=
  mk_any_adapter generic_response r vector_adapter any_size Some (fun r _ => r).

Lemma greeting_expected req cfg :
  represents req (hello_command cfg :: select_command cfg) -> get_expected_responses req = len (hello_command cfg :: select_command cfg).
Proof.
  intros Hr. unfold get_expected_responses. rewrite (rep_expected _ _ Hr). unfold select_command, hello_command.
  by destruct (is_empty (username _)), (is_empty (password _)), (is_empty (clientname _)), (database_index _) as [i|]; try done; destruct (i =? 0)%Z.
Qed.

(** The start of the handshake queues [HELLO] first. *)
Record greets (c c' : connection) (id : elem_id) (req : request) : Prop := {
  gr_request : represents req (hello_command (hello_cfg_ (handshaker_ c)) :: select_command (hello_cfg_ (handshaker_ c)));
  gr_queue : enqueued c c' true id req (generic_adapter (if result_has_value (hello_response c) then r_value [] else hello_response c));
  gr_unmoved : unmoved c c';
  gr_configured : configured c';
  gr_elems : hello_elem_ c' = Some id /\ ping_elem_ c' = ping_elem_ c;
  gr_cfg : hello_cfg_ (handshaker_ c') = hello_cfg_ (handshaker_ c);
}.

Lemma hello_start_first c :
  wf (mpx_ c) -> all_waiting (mpx_ c) -> configured c ->
  exists c' id req, hello_start c = Done (c', (id, exec_waiting)) /\ greets c c' id req.
Proof.
  intros Hwf Hall (Hh & Hp & id0 & Hping). unfold hello_start, add_hello. cbn [handshaker_now hello_req_ hello_cfg_ hello_resp_].
  destruct (push_hello_represents (hello_cfg_ (handshaker_ c)) (clear (hello_req_ (handshaker_ c))) (clear_represents _))
    as (r & -> & Hr & Hc). cbn [mbind outcome_bind]. rewrite create_impl_generic. cbn [mbind outcome_bind hello_req_ hello_resp_].
  set (c0 := set_handshaker c _). match goal with |- context [async_exec c0 r ?x] => set (a := x) end.
  assert (get_expected_responses r <= 2) as Hexp.
  { rewrite (greeting_expected _ _ Hr). unfold select_command. destruct (database_index _) as [i|]; [|done]. by destruct (i =? 0)%Z. }
  assert (cfg_ r = default_request_config) as Hcr by (by rewrite Hc).
  destruct (async_exec_queues c0 r a) as (c1 & id & Hex & [Hun Hhs Hel _] & Hq); [done|done| | | |].
  { eapply N.le_lt_trans; [exact Hexp|by vm_compute]. }
  { etransitivity; [exact Hexp|by vm_compute]. }
  { unfold get_config. by rewrite Hcr. }
  rewrite Hex. cbn [mbind outcome_bind].
  assert (has_hello_priority r = true) as Hprio.
  { unfold has_hello_priority. rewrite (rep_hello _ _ Hr), Hcr. cbn [existsb].
    unfold is_hello at 1, hello_command.
    by destruct (is_empty (username _)), (is_empty (password _)), (is_empty (clientname _)). }
  rewrite Hprio in Hq. exists (set_hello_elem c1 (Some id)), id, r. split; [done|].
  split; [done|by destruct Hq|by destruct Hun| |by destruct Hel|cbn; by rewrite Hhs].
  unfold configured. cbn [handshaker_ health_checker_ set_hello_elem]. rewrite Hhs, (un_checker _ _ Hun). by split_and!; [| |exists id0].
Qed.

(** The health check sends a PING when its session starts. *)
Definition pings (c : connection) : bool :=
  negb ((ping_interval_ (health_checker_ c) =? 0)%Z || checker_has_exited_ (health_checker_ c)).

Definition ping_payload (c : connection) : bytes := if pings c then payload (ping_req_ (health_checker_ c)) else [].

(** The PING goes behind everything. *)
Record pinged (c c' : connection) (k : co ping_point error_code) : Prop := {
  pi_queue : if pings c
    then exists id, k = co_yield (ping_executing id exec_waiting) /\ ping_elem_ c' = Some id /\
      enqueued c c' false id (ping_req_ (health_checker_ c)) (generic_adapter (ping_response c))
    else mpx_ c' = mpx_ c /\ (k = co_yield ping_posted \/ k = co_complete None);
  pi_unmoved : unmoved c c';
  pi_hello : hello_elem_ c' = hello_elem_ c /\ handshaker_ c' = handshaker_ c;
}.

Lemma ping_loop_last c :
  wf (mpx_ c) -> all_waiting (mpx_ c) -> configured c -> exists c' k, ping_loop c = Done (c', k) /\ pinged c c' k.
Proof.
  intros Hwf Hall (Hh & Hp & id0 & Hping). unfold ping_loop.
  destruct (pings c) eqn:Hpg; pose proof Hpg as Hpg'; unfold pings in Hpg'; apply (f_equal negb) in Hpg'; rewrite negb_involutive in Hpg'; cbn [negb] in Hpg'.
  - apply orb_false_iff in Hpg' as [-> ->]. rewrite create_impl_generic. cbn [mbind outcome_bind].
    assert (get_expected_responses (ping_req_ (health_checker_ c)) = 1) as Hexp by (exact (rep_expected _ _ Hping)).
    match goal with |- context [async_exec c _ ?x] => destruct (async_exec_queues c (ping_req_ (health_checker_ c)) x)
      as (c1 & id & Hex & [Hun Hhs Hel _] & Hq) end; [done|done|by rewrite Hexp|by rewrite Hexp|unfold get_config; by rewrite Hp|].
    rewrite Hex. cbn [mbind outcome_bind].
    assert (has_hello_priority (ping_req_ (health_checker_ c)) = false) as Hprio by (exact (rep_hello _ _ Hping)).
    rewrite Hprio in Hq. eexists (set_ping_elem c1 (Some id)), _. split; [done|]. split; [|by destruct Hun|by destruct Hel; split].
    rewrite Hpg. exists id. split_and!; [done|done|by destruct Hq].
  - destruct (ping_interval_ _ =? 0)%Z; [eexists _, _; split; [done|]; split; [rewrite Hpg; by split; [|left]|done|done]|].
    cbn [orb] in Hpg'. rewrite Hpg'. eexists _, _. split; [done|]. split; [rewrite Hpg; by split; [|right]|done|done].
Qed.

Lemma pinged_queue c c' k :
  wf (mpx_ c) -> all_waiting (mpx_ c) -> pinged c c' k ->
  wf (mpx_ c') /\ all_waiting (mpx_ c') /\ (exists others, reqs_ (mpx_ c') = reqs_ (mpx_ c) ++ others) /\
  payloads (mpx_ c') (reqs_ (mpx_ c')) = payloads (mpx_ c) (reqs_ (mpx_ c)) ++ ping_payload c.
Proof.
  intros Hwf Hall [Hq _ _]. unfold ping_payload. destruct (pings c).
  - destruct Hq as (id & _ & _ & Hq). rewrite (enqueued_payloads _ _ _ _ _ _ Hwf Hq). destruct Hq as [? ? _ _ _ ->]. split_and!; try done. by exists [id].
  - destruct Hq as [Hq _]. rewrite Hq. split_and!; try done; [exists []|]; by rewrite app_nil_r.
Qed.

(** The other half of the health check, if there is one, waits too. *)
Definition check_waits (interval : duration) (h : health_checker) (k : co check_point error_code) : Prop :=
  if (interval =? 0)%Z then k = co_yield check_posted else k = co_yield (check_waiting (2 * interval)%Z) /\ wait_timer_ h = armed.

(** The configuration of the health check. *)
Definition same_checks (h h' : health_checker) : Prop :=
  ping_interval_ h' = ping_interval_ h /\ ping_req_ h' = ping_req_ h /\ ping_resp_ h' = ping_resp_ h.

Lemma check_start_keeps (c : connection) :
  let c' := (check_start c).1 in
  mpx_ c' = mpx_ c /\ conn_cfg_ c' = conn_cfg_ c /\ stream_open c' = stream_open c /\ receive_channel_ c' = receive_channel_ c /\
  hello_elem_ c' = hello_elem_ c /\ ping_elem_ c' = ping_elem_ c /\ handshaker_ c' = handshaker_ c /\
  same_checks (health_checker_ c) (health_checker_ c') /\ checker_has_exited_ (health_checker_ c') = false /\
  check_waits (ping_interval_ (health_checker_ c)) (health_checker_ c') (check_start c).2.
Proof.
  unfold check_start, check_loop, check_waits. cbn zeta. cbn [health_checker_ set_checker ping_interval_ set_exited].
  by destruct (ping_interval_ _ =? 0)%Z.
Qed.

(** The bytes of a session's first write. *)
Definition first_write (c : connection) : bytes :=
  wire (hello_command (hello_cfg_ (handshaker_ c)) :: select_command (hello_cfg_ (handshaker_ c))) ++
  payloads (mpx_ c) (reqs_ (mpx_ c)) ++ ping_payload c.

(** The session that starts: its operations, and the queue, which is being
    written. *)
Record session_sends (c c' : connection) (se : session) : Prop := {
  sd_requests : exists c1 c2 id req,
    session_hello se = co_yield (id, exec_waiting) /\ greets (set_mpx c (Multiplexer.reset (mpx_ c))) c1 id req /\
    pinged c1 c2 (session_ping se) /\ hello_elem_ c' = Some id /\ ping_elem_ c' = ping_elem_ c2 /\
    wf (mpx_ c') /\ reqs_ (mpx_ c') = reqs_ (mpx_ c2) /\
    (forall i e, i ∈ reqs_ (mpx_ c2) -> store (mpx_ c2) !! i = Some e -> store (mpx_ c') !! i = Some (mark_staged e));
  sd_reader : session_reader se = co_yield (reader_reading 0 buffer_growth_hint);
  sd_writer : session_writer se = co_yield (writer_writing (first_write c));
  sd_idle : parser_ (mpx_ c') = Parser.reset /\ on_push_ (mpx_ c') = false;
  sd_open : stream_open c' = stream_open c;
  sd_cfg : conn_cfg_ c' = conn_cfg_ c;
  sd_channel : receive_channel_ c' = receive_channel_ c;
  sd_receive : receive_adapter_ (mpx_ c') = receive_adapter_ (mpx_ c);
  sd_hello : hello_cfg_ (handshaker_ c') = hello_cfg_ (handshaker_ c);
  sd_checker : same_checks (health_checker_ c) (health_checker_ c') /\ checker_has_exited_ (health_checker_ c') = false;
  sd_check : check_waits (ping_interval_ (health_checker_ c)) (health_checker_ c') (session_check se);
}.

(** A read buffer that is too small for the first read makes the start throw. *)
Lemma start_session_sends c :
  wf (mpx_ c) -> all_waiting (mpx_ c) -> configured c ->
  if buffer_growth_hint <=? max_read_size (conn_cfg_ c)
  then exists c' s, start_session c = Done (c', s) /\ session_sends c c' s
  else start_session c = Throw std_length_error.
Proof.
  intros Hwf Hall Hconf. unfold start_session. set (c0 := set_mpx c (Multiplexer.reset (mpx_ c))).
  assert (wf (mpx_ c0)) as Hwf0 by (by eapply wf_same).
  destruct (hello_start_first c0 Hwf0) as (c1 & id & req & -> & G); [done|done|]. cbn [mbind outcome_bind].
  pose proof G as [Hreq Hq1 U1 Hconf1 _]. pose proof Hq1 as [Hwf1 Hall1 _ _ _ Hr1].
  destruct (ping_loop_last c1 Hwf1 Hall1 Hconf1) as (c2 & k & -> & P). cbn [mbind outcome_bind].
  destruct (pinged_queue _ _ _ Hwf1 Hall1 P) as (Hwf2 & Hall2 & (others & Hr2) & Hpay2).
  assert (unmoved c0 c2) as U by (etransitivity; [exact U1|apply P]). destruct U as [Uo Uc Ucf Uch _ Uw Ur Up Upu Ura].
  destruct (check_start_keeps c2) as (Hm3 & Hcfg3 & Ho3 & Hch3 & He3 & Hpe3 & Hh3 & Hs3 & Hx3 & Hw3). destruct (check_start c2) as [c3 k3].
  cbn [fst snd] in Hm3, Hcfg3, Ho3, Hch3, He3, Hpe3, Hh3, Hs3, Hx3, Hw3. rewrite Uc in Hs3, Hw3.
  unfold reader_start, reader_next, reader_read, append_some_start, is_data_needed.
  rewrite Hm3, Hcfg3, Ur, Up, Ucf. cbn [c0 mpx_ set_mpx Multiplexer.reset read_buffer_ parser_]. rewrite bool_decide_true by done.
  change (get_suggested_buffer_growth Parser.reset buffer_growth_hint) with buffer_growth_hint.
  rewrite N.ltb_antisym. change (len [] + buffer_growth_hint) with buffer_growth_hint.
  change (conn_cfg_ c0) with (conn_cfg_ c). destruct (_ <=? _); [|done]. cbn [negb mbind outcome_bind].
  unfold writer_loop. cbn [mpx_ set_mpx].
  match goal with |- context [prepare_write ?m] => assert (wf m) as Hwf3 by (by eapply wf_same);
    destruct (prepare_staged m Hwf3) as (m' & Hp & Hw & Hr & Hrb & Hpa & Hpu & Hra & Hs); [done|] end.
  pose proof (wf_prepare_write _ Hwf3) as Hwf'. rewrite Hp in Hwf' |- *.
  cbn [fst reqs_ set_read_buffer write_buffer_ store parser_ on_push_ receive_adapter_] in Hw, Hr, Hpa, Hpu, Hra, Hs, Hwf' |- *.
  rewrite (proj2 (N.eqb_neq _ 0)) by (rewrite Hr2, Hr1; cbn [app]; rewrite len_cons; lia).
  eexists _, _. split; [reflexivity|].
  split; cbn [session_reader session_writer session_check stream_open conn_cfg_ receive_channel_ health_checker_ handshaker_ mpx_ set_mpx hello_elem_ ping_elem_].
  - exists c1, c2, id, req. split_and!; try done. etransitivity; [exact He3|]. rewrite (proj1 (pi_hello _ _ _ P)). apply G.
  - done.
  - rewrite Hw, Uw. cbn [c0 mpx_ set_mpx Multiplexer.reset write_buffer_ app].
    change (payloads (set_read_buffer (mpx_ c2) _) (reqs_ (mpx_ c2))) with (payloads (mpx_ c2) (reqs_ (mpx_ c2))).
    rewrite Hpay2, (enqueued_payloads c0 _ _ _ _ _ Hwf0 Hq1). unfold first_write, ping_payload, pings, payload at 1.
    rewrite (rep_payload _ _ Hreq), (un_checker _ _ U1). by rewrite <- (assoc_L (++)).
  - split; [by rewrite Hpa, Up|by rewrite Hpu, Upu].
  - by rewrite Ho3, Uo.
  - by rewrite Hcfg3, Ucf.
  - by rewrite Hch3, Uch.
  - by rewrite Hra, Ura.
  - rewrite Hh3, (proj2 (pi_hello _ _ _ P)). apply G.
  - done.
  - done.
Qed.

(** ** Reading *)

(** An adapter that returns on every node. *)
Definition returns (a : any_adapter) : Prop :=
  forall s i nd, exists s' ec, adapt_fn a s i nd None = Done (s', ec).

(** The state of the reader between two calls of [commit_read]. *)
Record reading (m : multiplexer) : Prop := {
  reading_wf : wf m;
  reading_parser : parsing (read_buffer_ m) (parser_ m);
  reading_len : len (read_buffer_ m) < size_modulus;
  reading_receive : exists a, receive_adapter_ m = Some a /\ returns a;
  reading_adapters : forall id e, id ∈ reqs_ m -> store m !! id = Some e -> returns (adapter_ e);
}.

Lemma any_call_returns a i nd : returns a -> exists a' ec, any_call a i nd None = Done (a', ec) /\ returns a'.
Proof.
  intros Ha. unfold any_call. destruct (Ha (state_ a) i nd) as (s' & ec & Hc). rewrite Hc. cbn. by eexists _, _.
Qed.

(** [parse] with an adapter that returns. *)
Lemma parse_returning m a i :
  reading m -> returns a ->
  (exists f, parse (fun a nd ec => any_call a i nd ec) (parser_ m) (read_buffer_ m) a None = Fault f /\ f <> out_of_fuel) \/
  (exists p a' ec b, parse (fun a nd ec => any_call a i nd ec) (parser_ m) (read_buffer_ m) a None = Done (p, a', ec, b) /\
     returns a' /\ parse_post (read_buffer_ m) (p, a', ec, b)).
Proof.
  intros Hm Ha. destruct (parse_loop_cases (fun a nd ec => any_call a i nd ec) returns (parse_fuel (read_buffer_ m))
    (parser_ m) (read_buffer_ m) a (reading_len _ Hm)) as [([[[p a'] ec] b] & Hp & Hpost & Ha')|(f & Hp & Hf & _)].
  - intros s nd Hs. by apply any_call_returns.
  - done.
  - left. apply Hm.
  - apply parse_fuel_enough.
  - right. by exists p, a', ec, b.
  - left. by exists f.
Qed.

(** What a message that is complete leaves behind. *)
Lemma finish_shrinks m p b :
  complete (read_buffer_ m) p -> len (read_buffer_ m) < size_modulus ->
  let m' := (on_finish_parsing (set_parser m p) b).1 in
  (length (read_buffer_ m') < length (read_buffer_ m))%nat /\
  parsing (read_buffer_ m') (parser_ m') /\ len (read_buffer_ m') < size_modulus.
Proof.
  intros [_ (_ & _ & Hpos & Hle)] Hlen m'. cbn [position abs] in Hpos, Hle.
  unfold m'. cbn [on_finish_parsing fst read_buffer_ parser_ set_parser set_read_buffer set_on_push set_usage].
  unfold get_consumed. cbn [parser_ set_parser]. rewrite length_drop. unfold len in *. rewrite length_drop.
  split_and!; [lia|apply parsing_reset|lia].
Qed.

(** One call of [commit_read]: it faults for another reason than its bound, or
    returns; if it returns a message the buffer has become shorter. *)
Definition read_step (m : multiplexer) : Prop :=
  (exists f, commit_read m None = Fault f /\ f <> out_of_fuel) \/
  (exists m' ec res, commit_read m None = Done (m', ec, res) /\
     (ec = None -> res.1 <> None -> reading m' /\ (length (read_buffer_ m') < length (read_buffer_ m))%nat)).

Lemma read_step_push m : reading m -> on_push_ m = true -> read_step m.
Proof.
  intros Hm Hpush. destruct (reading_receive _ Hm) as (a & Hra & Ha). unfold read_step, commit_read. rewrite Hpush.
  cbn [negb mbind outcome_bind]. rewrite Hpush. unfold commit_read_push. rewrite Hra.
  destruct (parse_returning m a 0 Hm Ha) as [(f & -> & Hf)|(p & a' & ec & b & -> & Ha' & Hpost)]; [left; by exists f|right].
  destruct b; cbn [negb mbind outcome_bind]; [|eexists _, _, _; by split].
  destruct Hpost as [Hec|Hcomp].
  { rewrite Hec. eexists _, _, _. split; [done|]. by intros ->. }
  destruct ec as [ev|]; cbn [has_ec]; [eexists _, _, _; by split|].
  destruct (finish_shrinks m p true Hcomp (reading_len _ Hm)) as (Hlt & Hpar & Hl).
  eexists _, _, _. split; [reflexivity|]. intros _ _. split; [|exact Hlt].
  split; [by eapply wf_same; [apply Hm|..]|exact Hpar|exact Hl|by exists a'|apply Hm].
Qed.

Lemma read_step_response m front others e :
  reading m -> on_push_ m = false -> is_next_push m = Done false -> answering m front others e -> read_step m.
Proof.
  intros Hm Hpush Hnp Hans. unfold read_step.
  assert (forall m' ec res, commit_read m None = Done (m', ec, res) -> wf m') as Hwf'.
  { intros m' ec res. apply wf_commit_read, Hm. }
  rewrite (commit_read_answering m front others e Hpush Hnp Hans) in *. destruct Hans as (Hr & He & Hst & Hrem).
  assert (returns (adapter_ e)) as Ha by (eapply (reading_adapters _ Hm front); [rewrite Hr; by left|done]).
  destruct (parse_returning m (adapter_ e) (response_index e) Hm Ha) as [(f & Hp & Hf)|(p & a' & ec & b & Hp & Ha' & Hpost)];
    unfold elem_adapter in *; rewrite Hp in *; [left; by exists f|right].
  cbn [mbind outcome_bind response_parsed] in *. destruct b; cbn [negb] in *; [|eexists _, _, _; by split].
  destruct Hpost as [Hec|Hcomp].
  { rewrite Hec. eexists _, _, _. split; [done|]. by intros ->. }
  destruct ec as [ev|]; cbn [has_ec] in *; [eexists _, _, _; by split|].
  destruct (finish_shrinks m p false Hcomp (reading_len _ Hm)) as (Hlt & Hpar & Hl).
  destruct (remaining_responses_ _ =? 0); eexists _, _, _; (split; [reflexivity|]); intros _ _; (split; [|exact Hlt]);
    (split; [by eapply Hwf'|exact Hpar|exact Hl|exact (reading_receive _ Hm)|]); intros id x Hid Hx;
    cbn [reqs_ store set_parser set_read_buffer set_on_push set_usage set_reqs set_store on_finish_parsing fst] in Hid, Hx;
    destruct (decide (id = front)) as [->|Hne];
    [rewrite lookup_insert_eq in Hx; by injection Hx as <-|rewrite lookup_insert_ne in Hx by done
    |rewrite lookup_insert_eq in Hx; by injection Hx as <-|rewrite lookup_insert_ne in Hx by done];
    (eapply (reading_adapters _ Hm id); [|done]); rewrite Hr in *; first [done|by right].
Qed.

Lemma commit_read_step m : reading m -> read_buffer_ m <> [] -> read_step m.
Proof.
  intros Hm Hne. destruct (on_push_ m) eqn:Hpush; [by apply read_step_push|].
  assert (is_next_push m = Done true -> read_step m) as Htrue.
  { intros Hnp. assert (commit_read m None = commit_read (set_on_push m true) None) as Heq.
    { unfold commit_read. by rewrite Hpush, Hnp. }
    unfold read_step. rewrite Heq. apply (read_step_push (set_on_push m true)); [|done].
    destruct Hm. split; try done. by eapply wf_same. }
  unfold is_next_push in Htrue. destruct (read_buffer_ m) as [|ch v] eqn:Hb; [done|].
  destruct (type.eqb (to_type ch) type.push) eqn:Ht; [by apply Htrue|].
  destruct (reqs_ m) as [|front others] eqn:Hr; [by apply Htrue|].
  destruct (wf_elems _ (reading_wf _ Hm) front) as (e & He & _); [rewrite Hr; by left|].
  unfold deref in Htrue. rewrite He in Htrue. cbn [mbind outcome_bind] in Htrue.
  destruct (N.eqb_spec (remaining_responses_ e) 0) as [Hz|Hz]; [by apply Htrue|].
  destruct (is_waiting e) eqn:Hw; [by apply Htrue|].
  apply (read_step_response m front others e); [done|done| |].
  - unfold is_next_push, deref. rewrite Hb, Ht, Hr, He. cbn. rewrite (proj2 (N.eqb_neq _ _) Hz). by rewrite Hw.
  - split_and!; [done|done| |done]. unfold is_waiting in Hw. by apply bool_decide_eq_false in Hw.
Qed.

(** [cancel(operation::run)] closes the connection. *)
Lemma cancel_run_closes (c c' : connection) : cancel c operation.run = Done c' -> is_open c' = false.
Proof.
  cbn [cancel]. unfold cancel_run. destruct (cancel_on_conn_lost _) as [[m n]|?|?]; cbn; [|done..].
  intros [= <-]. unfold close, is_open. destruct (stream_open c) eqn:E; [done|]. cbn. by rewrite E.
Qed.

Lemma reader_read_fuel (c : connection) : reader_read c <> Fault out_of_fuel.
Proof. unfold reader_read, append_some_start. by destruct (_ <? _). Qed.

(** C24: The reader handles the messages of its buffer without a suspension in
    a bounded number of iterations: each complete message shortens the buffer.
    Its loop never runs out of the bound the model gives it. *)
Theorem reader_terminates fuel (c : connection) :
  reading (mpx_ c) -> read_buffer_ (mpx_ c) <> [] -> (length (read_buffer_ (mpx_ c)) < fuel)%nat ->
  reader_loop fuel c <> Fault out_of_fuel.
Proof.
  revert c. induction fuel as [|fuel IH]; intros c Hm Hne Hf; [lia|]. cbn [reader_loop].
  pose proof (reading_wf _ Hm) as Hwf.
  destruct (commit_read_step (mpx_ c) Hm Hne) as [(f & -> & Hf')|(m' & ec & [b n] & Hc & Hpost)].
  { intros [= ->]. done. }
  pose proof (wf_commit_read _ _ _ _ _ Hwf Hc) as Hwf'. rewrite Hc. cbn [mbind outcome_bind].
  destruct ec as [ev|]; cbn [has_ec fst snd].
  { match goal with |- context [cancel ?x operation.run] => destruct (cancel_returns x operation.run) as [c' ->]; [done|] end. done. }
  destruct b as [b|]; [|apply reader_read_fuel]. destruct (Hpost eq_refl) as [Hm' Hlt]; [done|].
  assert (forall c1 : connection, mpx_ c1 = m' -> (if is_data_needed (mpx_ c1) then reader_read c1 else reader_loop fuel c1) <> Fault out_of_fuel) as Hnext.
  { intros c1 Hc1. unfold is_data_needed. destruct (bool_decide _) eqn:Hd; [apply reader_read_fuel|].
    apply bool_decide_eq_false in Hd. apply IH; [by rewrite Hc1|done|rewrite Hc1; lia]. }
  destruct b; [|by apply Hnext].
  destruct (channel_try_send _ _ _) as [ch|]; [|done]. destruct (negb (is_open _)); [done|by apply Hnext].
Qed.

Lemma reader_loop_closed fuel (c c' : connection) r : reader_loop fuel c = Done (c', co_complete r) -> is_open c' = false.
Proof.
  revert c. induction fuel as [|fuel IH]; intros c; cbn [reader_loop]; [done|].
  destruct (commit_read _ _) as [[[m ec] res]|?|?]; cbn [mbind outcome_bind]; [|done..].
  assert (forall c1 : connection, reader_read c1 <> Done (c', co_complete r)) as Hread.
  { intros c1. unfold reader_read, append_some_start. by destruct (_ <? _). }
  destruct (has_ec ec).
  { destruct (cancel _ _) as [c1|?|?] eqn:Hc; cbn; [|done..]. intros [= <- _]. by eapply cancel_run_closes. }
  destruct res as [[[|]|] n]; cbn [fst snd]; [| |by intros ?%Hread].
  - destruct (channel_try_send _ _ _) as [ch|]; [|done]. destruct (is_open (set_channel (set_mpx c m) ch)) eqn:Ho; cbn [negb].
    + destruct (is_data_needed _); [by intros ?%Hread|apply IH].
    + by intros [= <- _].
  - destruct (is_data_needed _); [by intros ?%Hread|apply IH].
Qed.

Lemma reader_next_closed (c c' : connection) r : reader_next c = Done (c', co_complete r) -> is_open c' = false.
Proof.
  unfold reader_next. destruct (is_data_needed _); [|apply reader_loop_closed].
  unfold reader_read, append_some_start. by destruct (_ <? _).
Qed.

(** The reader and the writer complete only when the connection is closed. *)
Theorem reader_writer_complete_closed :
  (forall p (c : connection) ec data c' r,
     reader_resume p c ec data = Done (c', co_complete r) -> is_open c' = false) /\
  (forall p (c : connection) ec c' r,
     writer_resume p c ec = Done (c', co_complete r) -> is_open c' = false).
Proof.
  assert (forall (P R : Type) (k : co P R) (c c' : connection) r,
    (c ← cancel c operation.run; Done (c, k)) = Done (c', r) -> is_open c' = false) as Hcancel.
  { intros P R k c c' r. destruct (cancel c operation.run) as [c1|?|?] eqn:Hc; cbn; [|done..].
    intros [= <- _]. by eapply cancel_run_closes. }
  split.
  - intros [tmp size|n] c ec data c' r; cbn [reader_resume].
    + destruct (has_ec ec); [apply Hcancel|].
      match goal with |- context [is_open ?x] => destruct (is_open x) eqn:Ho end; cbn [negb]; [apply reader_loop_closed|by intros [= <- _]].
    + destruct (has_ec ec); [apply Hcancel|]. destruct (is_open c) eqn:Ho; cbn [negb]; [|by intros [= <- _]].
      apply reader_next_closed.
  - assert (forall (c c' : connection) r, Done (writer_loop c) = Done (c', co_complete r) -> is_open c' = false) as Hloop.
    { intros c c' r. unfold writer_loop. destruct (prepare_write _) as [m n]. by destruct (n =? 0). }
    intros [v|] c ec c' r; cbn [writer_resume].
    + destruct (has_ec ec); [apply Hcancel|]. destruct (commit_write _) as [[m n]|?|?]; cbn [mbind outcome_bind]; [|done..].
      match goal with |- context [is_open ?x] => destruct (is_open x) eqn:Ho end; cbn [negb]; [apply Hloop|by intros [= <- _]].
    + destruct (is_open (set_writer_timer c quiet)) eqn:Ho; cbn [negb]; [apply Hloop|by intros [= <- _]].
Qed.

(** ** Reconnection *)


End WithChannel.

(** ** Examples *)

(** A channel with a buffer of 256 values. *)
#[global] Instance list_channel : Channel (list (error_code * size_t)) := {|
  channel_new := [];
  channel_try_send l ec n := if (length l <? 256)%nat then Some (l ++ [(ec, n)]) else None;
  channel_try_receive l := match l with [] => None | (ec, n) :: l => Some (ec, n, l) end;
  channel_cancel l := l;
|}.

Abbreviation example := (connection (list (error_code * size_t)) bytes).

Definition example_checker : health_checker :=
  mk_health_checker (new_request default_request_config) (r_value []) 0%Z false quiet quiet.

Definition example_connection : example :=
  match (c ← new_connection; async_run_config c default_config) with
  | Done c => c
  | _ => mk_connection false quiet quiet [] new_resolver (mk_connector 0%Z []) example_checker
           new_handshaker default_config new_multiplexer None None []
  end.

Definition reading_example : example :=
  set_mpx example_connection (set_read_buffer (mpx_ example_connection) (bs "+OK" ++ sep)).

Lemma reader_terminates_witness : reader_loop 6 reading_example <> Fault out_of_fuel.
Proof.
  apply (reader_terminates 6 reading_example).
  - split; [split; [constructor|constructor|]; intros id Hid; by apply not_elem_of_nil in Hid|apply parsing_reset|by vm_compute| |].
    + eexists. split; [reflexivity|]. intros s i nd. by eexists _, _.
    + intros id e Hid. by apply not_elem_of_nil in Hid.
  - done.
  - cbn. lia.
Defined.

