(* ===== verification/System.v ===== *)
(** * The system

    A connection together with the operations in progress on it: the requests
    its users and its own parts wait for, and [async_run] with its session.  An
    event is a call of the user or a completion of the runtime; each event runs
    one operation up to its next suspension, since all handlers of a connection
    run on one executor.  The events that are possible in a state are those
    Boost.Asio documents; which of them happens is its choice. *)

From stdpp Require Import gmap.
From S2P Require Import Prelude Charconv Types Parser Serialization Request Adapters Traits Multiplexer Logger Session Connection Run.

#[local] Open Scope N_scope.
#[local] Open Scope list_scope.

(** Who started a request. *)
Inductive owner := user | handshake | health_check.

(** An [exec_op] in progress, and the number of notifications it has received
    from its channel. *)
Record pending := mk_pending { owner_ : owner; at_ : exec_point; received : nat }.

(** [async_run]: not called, suspended, or complete. *)
Inductive run_state := stopped | active (p : run_point) | finished (ec : error_code).

(** Whether a wait in this state can complete with a code: an outstanding one
    may expire, or be cancelled with the operation it belongs to. *)
Definition wait_admits (w : wait) (ec : error_code) : bool :=
  match w with
  | quiet => false
  | armed => negb (has_ec ec) || aborted ec
  | fired ec' => bool_decide (ec = ec')
  end.

Section WithChannel.
Context {Ch Ep : Type} `{Channel Ch} `{Platform Ep}.

(** [results] are the completions of the requests of users, in order; [order]
    are the operations of the session that are complete, in order. *)
Record system := mk_system {
  conn : connection Ch Ep;
  execs : gmap elem_id pending;
  results : list (elem_id * exec_result);
  run : run_state;
  order : list nat;
}.

Definition set_conn (s : system) c := mk_system c (execs s) (results s) (run s) (order s).
Definition set_execs (s : system) x := mk_system (conn s) x (results s) (run s) (order s).
Definition set_results (s : system) r := mk_system (conn s) (execs s) r (run s) (order s).
Definition set_run (s : system) r o := mk_system (conn s) (execs s) (results s) r o.

Definition init (c : connection Ch Ep) : system := mk_system c ∅ [] stopped [].

(** Start to wait for a request. *)
Definition launch (o : owner) (id : elem_id) (p : exec_point) (s : system) : system :=
  set_execs s (<[id := mk_pending o p 0]> (execs s)).

(** ** The session *)

Definition with_hello (se : session) k :=
  mk_session k (session_ping se) (session_check se) (session_reader se) (session_writer se).
Definition with_ping (se : session) k :=
  mk_session (session_hello se) k (session_check se) (session_reader se) (session_writer se).
Definition with_check (se : session) k :=
  mk_session (session_hello se) (session_ping se) k (session_reader se) (session_writer se).
Definition with_reader (se : session) k :=
  mk_session (session_hello se) (session_ping se) (session_check se) k (session_writer se).
Definition with_writer (se : session) k :=
  mk_session (session_hello se) (session_ping se) (session_check se) (session_reader se) k.

(** The completion order, with operation [i] if it is complete. *)
Definition finish {P R} (i : nat) (k : co P R) (ord : list nat) : list nat :=
  match k with co_complete _ => ord ++ [i] | co_yield _ => ord end.

(** A ping that is waiting for its request. *)
Definition launch_ping (k : co ping_point error_code) (s : system) : system :=
  match k with co_yield (ping_executing id p) => launch health_check id p s | _ => s end.

Definition launch_hello (k : co (elem_id * exec_point) error_code) (s : system) : system :=
  match k with co_yield (id, p) => launch handshake id p s | _ => s end.

(** The session after one of its operations has run. *)
Definition in_session {P R} (s : system) (c : connection Ch Ep) (se : session) (i : nat) (k : co P R) : system :=
  set_run (set_conn s c) (active (run_group se)) (finish i k (order s)).

(** [run_op] after a completion; a session that has started has already run
    its operations up to their first suspension. *)
Definition after_run (s : system) (r : connection Ch Ep * co run_point error_code) : system :=
  let '(c, k) := r in
  let s := set_conn s c in
  match k with
  | co_complete ec => set_run s (finished ec) []
  | co_yield (run_group se) =>
      let ord := finish 4 (session_writer se) (finish 3 (session_reader se)
        (finish 2 (session_check se) (finish 1 (session_ping se) []))) in
      set_run (launch_ping (session_ping se) (launch_hello (session_hello se) s)) (active (run_group se)) ord
  | co_yield p => set_run s (active p) []
  end.

(** The result of the group, once its five operations are complete. *)
Definition group_complete (s : system) (se : session) : option group_result :=
  match session_hello se, session_ping se, session_check se, session_reader se, session_writer se with
  | co_complete e0, co_complete e1, co_complete e2, co_complete e3, co_complete _ =>
      Some (mk_group_result (from_option id 0%nat (head (order s))) e0 e1 e2 e3)
  | _, _, _, _, _ => None
  end.

(** ** Requests *)

(** The completion of a request, in the operation that waits for it. *)
Definition exec_done (o : owner) (id : elem_id) (r : exec_result) (s : system) : outcome system :=
  match o, run s with
  | user, _ => Done (set_results s (results s ++ [(id, r)]))
  | handshake, active (run_group se) =>
      '(c, ec) ← hello_resume (conn s) r.1;
      let k := co_complete ec in
      Done (in_session s c (with_hello se k) 0 k)
  | health_check, active (run_group se) =>
      '(c, k) ← ping_resume (ping_executing id exec_waiting) (conn s) r.1;
      Done (in_session s c (with_ping se k) 1 k)
  | _, _ => Done s
  end.

(** An [exec_op] resumed; [n] is the number of notifications it has received
    by then. *)
Definition resume_exec (id : elem_id) (p : pending) (n : nat) (x : cancellation) (s : system) : outcome system :=
  '(c, k) ← exec_resume (at_ p) (conn s) id x;
  let s := set_conn s c in
  match k with
  | co_yield q => Done (set_execs s (<[id := mk_pending (owner_ p) q n]> (execs s)))
  | co_complete r => exec_done (owner_ p) id r (set_execs s (delete id (execs s)))
  end.

(** Notifications of a request. *)
Definition notifications (s : system) (id : elem_id) : nat :=
  from_option done_calls 0%nat (store (mpx_ (conn s)) !! id).

(** ** Events *)

Inductive event :=
  | ev_exec (req : request) (adapter : any_adapter)
  | ev_cancel (op : operation.t)
  | ev_receive
  | ev_set_receive (adapter : any_adapter)
  | ev_run (cfg : config)
  | ev_dispatched (id : elem_id)
  | ev_notified (id : elem_id) (x : cancellation)
  | ev_cancelled (id : elem_id) (x : cancellation)
  | ev_resolved (ec : error_code) (res : list Ep)
  | ev_opened
  | ev_connected (ec : error_code) (ep : Ep) (opened : bool)
  | ev_secured (ec : error_code)
  | ev_reconnect (ec : error_code)
  | ev_written (ec : error_code)
  | ev_writer_timer (ec : error_code)
  | ev_read (ec : error_code) (data : bytes)
  | ev_sent (ec : error_code)
  | ev_ping_posted
  | ev_ping_timer (ec : error_code)
  | ev_check_posted
  | ev_check_timer (ec : error_code)
  | ev_group.

(** The events of the session. *)
Definition session_step (ev : event) (s : system) (se : session) : option (outcome system) :=
  let c := conn s in
  match ev, se with
  | ev_written ec, mk_session _ _ _ _ (co_yield (writer_writing v)) =>
      Some ('(c, k) ← writer_resume (writer_writing v) c ec; Done (in_session s c (with_writer se k) 4 k))
  | ev_writer_timer ec, mk_session _ _ _ _ (co_yield writer_idle) =>
      if wait_admits (writer_timer_ c) ec
      then Some ('(c, k) ← writer_resume writer_idle c ec; Done (in_session s c (with_writer se k) 4 k))
      else None
  | ev_read ec data, mk_session _ _ _ (co_yield (reader_reading tmp size)) _ =>
      if len data <=? size
      then Some ('(c, k) ← reader_resume (reader_reading tmp size) c ec data; Done (in_session s c (with_reader se k) 3 k))
      else None
  | ev_sent ec, mk_session _ _ _ (co_yield (reader_sending n)) _ =>
      match (if has_ec ec then Some (receive_channel_ c) else channel_try_send (receive_channel_ c) None n) with
      | Some ch =>
          Some ('(c, k) ← reader_resume (reader_sending n) (set_channel c ch) ec [];
                Done (in_session s c (with_reader se k) 3 k))
      | None => None
      end
  | ev_ping_posted, mk_session _ (co_yield ping_posted) _ _ _ =>
      Some ('(c, k) ← ping_resume ping_posted c None; Done (in_session s c (with_ping se k) 1 k))
  | ev_ping_timer ec, mk_session _ (co_yield (ping_waiting d)) _ _ _ =>
      if wait_admits (ping_timer_ (health_checker_ c)) ec
      then Some ('(c, k) ← ping_resume (ping_waiting d) c ec;
                 Done (launch_ping k (in_session s c (with_ping se k) 1 k)))
      else None
  | ev_check_posted, mk_session _ _ (co_yield check_posted) _ _ =>
      Some ('(c, k) ← check_resume check_posted c None; Done (in_session s c (with_check se k) 2 k))
  | ev_check_timer ec, mk_session _ _ (co_yield (check_waiting d)) _ _ =>
      if wait_admits (wait_timer_ (health_checker_ c)) ec
      then Some ('(c, k) ← check_resume (check_waiting d) c ec; Done (in_session s c (with_check se k) 2 k))
      else None
  | ev_group, _ =>
      match group_complete s se with
      | Some g => Some (r ← run_resume (run_group se) c g; Done (after_run s r))
      | None => None
      end
  | _, _ => None
  end.

(** The events of [run_op]. *)
Definition run_step (ev : event) (s : system) : option (outcome system) :=
  let c := conn s in
  match ev, run s with
  | ev_resolved ec res, active run_resolving =>
      match resv_ (resolver_ c) with
      | fired ec' => if bool_decide (ec = ec') then Some (r ← run_resume run_resolving c (ec, res); Done (after_run s r)) else None
      | _ => Some (r ← run_resume run_resolving c (ec, res); Done (after_run s r))
      end
  | ev_opened, active run_connecting => Some (Done (set_conn s (set_open c true)))
  | ev_connected ec ep opened, active run_connecting =>
      Some (r ← run_resume run_connecting c (ec, ep, opened); Done (after_run s r))
  | ev_secured ec, active run_ssl_handshake => Some (r ← run_resume run_ssl_handshake c ec; Done (after_run s r))
  | ev_reconnect ec, active (run_reconnecting d) =>
      if wait_admits (reconnect_timer_ c) ec
      then Some (r ← run_resume (run_reconnecting d) c ec; Done (after_run s r))
      else None
  | _, active (run_group se) => session_step ev s se
  | _, _ => None
  end.

(** One event: [None] if it is not possible, and otherwise its outcome. *)
Definition step (ev : event) (s : system) : option (outcome system) :=
  match ev with
  | ev_exec req a => Some ('(c, id, p) ← async_exec (conn s) req a; Done (launch user id p (set_conn s c)))
  | ev_cancel op => Some (c ← cancel (conn s) op; Done (set_conn s c))
  | ev_receive => Some (Done (set_conn s (receive (conn s) None).1.1))
  | ev_set_receive a => Some (Done (set_conn s (receive_into (conn s) a)))
  | ev_run cfg =>
      match run s with
      | active _ => None
      | _ => Some (r ← async_run (conn s) cfg; Done (after_run s r))
      end
  | ev_dispatched id =>
      match execs s !! id with
      | Some (mk_pending o exec_dispatched n as p) => Some (resume_exec id p n not_cancelled s)
      | _ => None
      end
  | ev_notified id x =>
      match execs s !! id with
      | Some (mk_pending o exec_waiting n as p) =>
          if (n <? notifications s id)%nat then Some (resume_exec id p (S n) x s) else None
      | _ => None
      end
  | ev_cancelled id x =>
      match execs s !! id with
      | Some (mk_pending o exec_waiting n as p) =>
          if (n =? notifications s id)%nat && is_cancelled x then Some (resume_exec id p n x s) else None
      | _ => None
      end
  | _ => run_step ev s
  end.

(** Counters of requests fit their type.  [async_compose] only lets terminal
    cancellation through to its operation. *)
Definition event_ok (ev : event) : Prop :=
  match ev with
  | ev_exec req _ => get_expected_responses req < size_modulus
  | ev_notified _ x | ev_cancelled _ x => x <> cancelled_other
  | _ => True
  end.

Inductive sys_reachable : system -> Prop :=
  | run_init c : new_connection = Done c -> sys_reachable (init c)
  | run_event ev s s' : sys_reachable s -> event_ok ev -> step ev s = Some (Done s') -> sys_reachable s'.

(** A sequence of events. *)
Fixpoint steps (evs : list event) (s : system) : option (outcome system) :=
  match evs with
  | [] => Some (Done s)
  | ev :: evs =>
      match step ev s with
      | Some (Done s') => steps evs s'
      | o => o
      end
  end.
End WithChannel.
Arguments system : clear implicits.
Arguments event : clear implicits.
