(* ===== verification/SystemInvariant.v ===== *)
(** * Invariant of the system

    In every state the system can reach: a request someone waits for is in the
    queue, or its result is known and its notification is on the way; results are
    delivered once; the buffers of a read and of a write in progress are the ones
    they were given; and the writer sleeps only if there is nothing to write. *)

From stdpp Require Import gmap.
From S2P Require Import Prelude Charconv Types Parser Serialization Request Adapters Traits.
From S2P Require Import Multiplexer MultiplexerInvariant Evolution ClientSpec ClientRefinement Logger Session Connection Run Advance ConnectionClaims System.

#[local] Open Scope string_scope.
#[local] Open Scope N_scope.
#[local] Open Scope list_scope.

(** ** Requests in progress *)

(** A request someone waits for. *)
Definition tracked (m : multiplexer) (id : elem_id) (p : pending) : Prop :=
  exists e, store m !! id = Some e /\ (received p <= done_calls e)%nat /\
    (at_ p = exec_waiting ->
       (id ∈ reqs_ m /\ unnotified e) \/ ((id ∉ reqs_ m) /\ settled e /\ (received p < done_calls e)%nat)).

(** A result that was delivered: a request that succeeded has been answered. *)
Definition delivered (m : multiplexer) (x : gmap elem_id pending) (id : elem_id) (r : exec_result) : Prop :=
  x !! id = None /\ exists e, store m !! id = Some e /\
    (r.1 = None -> (id ∉ reqs_ m) /\ ec_ e = None /\ remaining_responses_ e = 0 /\ read_size_ e = r.2).

Lemma tracked_evolves m m' id p : evolves m m' -> wf m -> tracked m id p -> tracked m' id p.
Proof.
  intros [_ He] Hwf (e & Hs & Hr & Hw). destruct (He id e Hwf Hs) as (e' & Hs' & _ & Hd & Hin & Hout).
  exists e'. split_and!; [done|lia|]. intros Hat. destruct (Hw Hat) as [[Hq Hu]|(Hq & Hset & Hlt)].
  - destruct (Hin Hq) as [[Hq' Hu']|(Hq' & Hlt & Hset)]; [left; auto|right; split_and!; [done|done|lia]].
  - destruct (Hout Hq) as (Hq' & a & ->). right. by split_and!.
Qed.

Lemma delivered_evolves m m' x id r : evolves m m' -> wf m -> delivered m x id r -> delivered m' x id r.
Proof.
  intros [_ He] Hwf (Hx & e & Hs & Hr). split; [done|]. destruct (He id e Hwf Hs) as (e' & Hs' & _ & _ & _ & Hout).
  exists e'. split; [done|]. intros Hn. destruct (Hr Hn) as (Hq & Hec & Hrem & Hsz).
  destruct (Hout Hq) as (Hq' & a & ->). by split_and!.
Qed.

(** Split an event that was possible and returned. *)
Ltac split_step :=
  repeat match goal with
    | H : Some _ = Some _ |- _ => apply (inj Some) in H
    | H : None = Some _ |- _ => discriminate H
    | H : (if ?b then _ else None) = Some _ |- _ => destruct b; [|discriminate H]
    | H : _ ≫= (fun '(_, _) => _) = Done _ |- _ => apply bind_done in H as ([? ?] & ? & H)
    | H : _ ≫= _ = Done _ |- _ => apply bind_done in H as (? & ? & H)
    | H : Done _ = Done _ |- _ => injection H as <-
    end.

Section WithChannel.
Context {Ch Ep : Type} `{Channel Ch} `{Platform Ep}.
Abbreviation connection := (connection Ch Ep).
Abbreviation system := (system Ch Ep).

(** The requests of a connection, those in progress and those delivered. *)
Record requests_ok (c : connection) (x : gmap elem_id pending) (rs : list (elem_id * exec_result)) : Prop := {
  ok_wf : wf (mpx_ c);
  ok_configured : configured c;
  ok_tracked : map_Forall (tracked (mpx_ c)) x;
  ok_once : NoDup (rs.*1);
  ok_delivered : forall id r, (id, r) ∈ rs -> delivered (mpx_ c) x id r;
}.

Lemma configured_same (c c' : connection) : own_requests c' = own_requests c -> configured c -> configured c'.
Proof. intros [= Hp Hh] (? & ? & id & Hid). unfold configured. rewrite Hp, Hh. by split_and!; [| |exists id]. Qed.

Lemma configured_ping (c : connection) : configured c -> get_expected_responses (ping_req_ (health_checker_ c)) < size_modulus.
Proof. intros (_ & _ & id & Hid). unfold get_expected_responses. by rewrite (rep_expected _ _ Hid). Qed.

Lemma ok_ping c x rs : requests_ok c x rs -> get_expected_responses (ping_req_ (health_checker_ c)) < size_modulus.
Proof. intros Hok. apply configured_ping, Hok. Qed.

(** The session: the buffers in use, and a writer that can be woken. *)
Definition writer_ok (c : connection) (k : co writer_point error_code) : Prop :=
  match k with
  | co_yield (writer_writing v) => write_buffer_ (mpx_ c) = v
  | co_yield writer_idle =>
      write_buffer_ (mpx_ c) = [] /\ writer_timer_ c <> quiet /\ (writer_timer_ c = armed -> calm c)
  | co_complete _ => True
  end.

(** A stream that is open has not been lost, and the reader ends only on a
    closed one. *)
Definition reader_ok (c : connection) (k : co reader_point error_code) : Prop :=
  read_space c k /\ (is_open c = true -> run_is_canceled c = false) /\ (forall ec, k = co_complete ec -> is_open c = false).

Definition session_ok (c : connection) (se : session) : Prop :=
  reader_ok c (session_reader se) /\ writer_ok c (session_writer se).

Definition run_ok (c : connection) (r : run_state) : Prop :=
  match r with active (run_group se) => session_ok c se | _ => True end.

Record sys_ok (s : system) : Prop := {
  ok_requests : requests_ok (conn s) (execs s) (results s);
  ok_run : run_ok (conn s) (run s);
}.

(** ** Preservation *)

Lemma write_wait_ok (c : connection) k : write_wait c k -> writer_ok c k.
Proof. destruct k as [[v|]|]; cbn; [done| |done]. intros (? & -> & ?). by split_and!. Qed.

Lemma requests_advance rd wr (c c' : connection) x rs :
  advances rd wr c c' -> requests_ok c x rs -> requests_ok c' x rs.
Proof.
  intros [M P _ _ _] [W Pg T O D]. split; [by apply M|by eapply configured_same| |done|].
  - intros id p Hp. eapply tracked_evolves; [done|done|by apply T].
  - intros id r Hr. eapply delivered_evolves; [done|done|by apply D].
Qed.

Lemma requests_launch (c c' : connection) x rs id p o :
  starts c c' id p -> requests_ok c x rs -> requests_ok c' (<[id := mk_pending o p 0]> x) rs.
Proof.
  intros (Ha & Hnew & Hs) Hok. pose proof (ok_wf _ _ _ Hok) as Hwf. destruct (Hs Hwf) as (e & He & Hu & Hq).
  assert (forall i r, (i, r) ∈ rs -> i <> id) as Hne.
  { intros i r Hr ->. destruct (ok_delivered _ _ _ Hok id r Hr) as (_ & e' & He' & _). by rewrite Hnew in He'. }
  destruct (requests_advance _ _ _ _ _ _ Ha Hok) as [W Pg T O D]. split; [done|done| |done|].
  - apply map_Forall_insert_2; [|done]. exists e. split_and!; [done|cbn; lia|]. cbn [at_ received]. intros Hp. left. auto.
  - intros i r Hr. destruct (D i r Hr) as (Hx & Hd). split; [|done]. rewrite lookup_insert_ne; [done|]. by apply not_eq_sym, (Hne i r).
Qed.

(** A result is delivered to the user. *)
Lemma requests_deliver (c : connection) x rs id p r :
  requests_ok c x rs -> x !! id = Some p ->
  (r.1 = None -> exists e, store (mpx_ c) !! id = Some e /\ (id ∉ reqs_ (mpx_ c)) /\ ec_ e = None /\
     remaining_responses_ e = 0 /\ read_size_ e = r.2) ->
  requests_ok c (delete id x) (rs ++ [(id, r)]).
Proof.
  intros [W Pg T O D] Hx Hr. split; [done|done| | |].
  - by apply map_Forall_delete.
  - rewrite fmap_app. apply NoDup_app. split_and!; [done| |apply NoDup_singleton].
    intros i Hi Hi'. apply list_elem_of_fmap in Hi as ([i' r'] & -> & Hin). cbn in Hi'. apply list_elem_of_singleton in Hi' as ->.
    destruct (D id r' Hin) as [Hn _]. by rewrite Hx in Hn.
  - intros i r' Hi. apply elem_of_app in Hi as [Hi|Hi].
    + destruct (D i r' Hi) as [Hn Hd]. split; [|done]. apply lookup_delete_None. by right.
    + apply list_elem_of_singleton in Hi as [= -> ->]. split; [apply lookup_delete_eq|].
      destruct (T id p Hx) as (e & He & _). exists e. split; [done|]. intros Hn.
      destruct (Hr Hn) as (e' & He' & Hfacts). rewrite He in He'. by injection He' as <-.
Qed.

Lemma requests_drop (c : connection) x rs id : requests_ok c x rs -> requests_ok c (delete id x) rs.
Proof.
  intros [W Pg T O D]. split; [done|done|by apply map_Forall_delete|done|].
  intros i r Hi. destruct (D i r Hi) as [Hn Hd]. split; [|done]. apply lookup_delete_None. by right.
Qed.

Lemma writer_advance (c c' : connection) rd k :
  wf (mpx_ c) -> advances rd false c c' -> writer_ok c k -> writer_ok c' k.
Proof.
  intros Hwf Ha. pose proof (adv_write _ _ _ _ Ha eq_refl) as Hw. destruct (adv_timer _ _ _ _ Ha eq_refl Hwf) as [Hq Hc].
  destruct k as [[v|]|]; cbn [writer_ok]; rewrite ?Hw; [done| |done].
  intros (Hb & Ht & Hcalm). split_and!; [done|auto|]. intros Harm. destruct (Hc Harm). auto.
Qed.

Lemma closes_live (c c' : connection) :
  closes c c' -> (is_open c = true -> run_is_canceled c = false) -> is_open c' = true -> run_is_canceled c' = false.
Proof. intros [[-> ->]|[-> _]]; done. Qed.

Lemma closes_stays (c c' : connection) : closes c c' -> is_open c = false -> is_open c' = false.
Proof. intros [[-> _]|[-> _]]; done. Qed.

Lemma reader_advance (c c' : connection) wr k : advances false wr c c' -> reader_ok c k -> reader_ok c' k.
Proof.
  intros Ha (Hs & Hl & Hc). pose proof (adv_close _ _ _ _ Ha eq_refl) as Hcl. split_and!.
  - revert Hs. destruct k as [[tmp size|n]|]; cbn [read_space]; [|done..]. by rewrite (adv_read _ _ _ _ Ha).
  - by eapply closes_live.
  - intros ec Hk. eapply closes_stays; [exact Hcl|by eapply Hc].
Qed.

Lemma run_advance (c c' : connection) r : wf (mpx_ c) -> advances false false c c' -> run_ok c r -> run_ok c' r.
Proof.
  intros Hwf Ha. destruct r as [|[| | |se|d]|]; try done. intros [Hr Hw]. split; [by eapply reader_advance|by eapply writer_advance].
Qed.

(** The operations that do not own a buffer. *)
Lemma sys_advance (s : system) c :
  sys_ok s -> advances false false (conn s) c -> sys_ok (set_conn s c).
Proof.
  intros [Hq Hr] Ha. split; [by eapply requests_advance|]. eapply run_advance; [apply Hq|exact Ha|exact Hr].
Qed.

Lemma sys_launch (s : system) c id p o :
  sys_ok s -> starts (conn s) c id p -> sys_ok (launch o id p (set_conn s c)).
Proof.
  intros [Hq Hr] Hs. split; [by eapply requests_launch|]. destruct Hs as [Ha _]. eapply run_advance; [apply Hq|exact Ha|exact Hr].
Qed.

(** ** Events of requests *)

Lemma sys_exec_done (s s' : system) o id r :
  requests_ok (conn s) (execs s) (results s) -> requests_ok (conn s) (execs s) (results s ++ [(id, r)]) ->
  run_ok (conn s) (run s) -> exec_done o id r s = Done s' -> sys_ok s'.
Proof.
  intros Hq Hq' Hr. destruct o; cbn [exec_done].
  - intros [= <-]. by split.
  - destruct (run s) as [|[| | |se|d]|] eqn:Hrun; try (intros [= <-]; split; [done|by rewrite Hrun]).
    intros Hc. apply bind_done in Hc as ([c ec] & Ha%hello_resume_advances & [= <-]).
    split; [by eapply requests_advance|]. destruct Hr as [Hrd Hwr].
    split; [by eapply reader_advance|eapply writer_advance; [apply Hq|exact Ha|exact Hwr]].
  - destruct (run s) as [|[| | |se|d]|] eqn:Hrun; try (intros [= <-]; split; [done|by rewrite Hrun]).
    intros Hc. apply bind_done in Hc as ([c k] & Hp & [= <-]).
    assert (advances false false (conn s) c) as Ha.
    { pose proof Hp as Ha%ping_resume_advances; [|by eapply ok_ping]. cbn [ping_resume] in Hp.
      destruct (has_ec r.1); by injection Hp as <- <-. }
    split; [by eapply requests_advance|]. destruct Hr as [Hrd Hwr].
    split; [by eapply reader_advance|eapply writer_advance; [apply Hq|exact Ha|exact Hwr]].
Qed.

(** An element leaves the queue on behalf of the operation that waits for it. *)
Lemma requests_removed (c : connection) x rs id m :
  requests_ok c x rs -> is_Some (x !! id) -> remove (mpx_ c) id = Done (m, true) -> requests_ok (set_mpx c m) (delete id x) rs.
Proof.
  intros Hok [p Hp] Hrm. destruct Hok as [W Pg T O D]. destruct (wf_remove _ _ _ _ W Hrm) as (W' & Hs & Hq).
  assert (forall i, i <> id -> i ∈ reqs_ m <-> i ∈ reqs_ (mpx_ c)) as Hin.
  { intros i Hi. rewrite Hq, filter_elem, negb_true_iff, Nat.eqb_neq. naive_solver. }
  split; [done|done| |done|]; cbn [mpx_ set_mpx].
  - intros i q Hiq. apply lookup_delete_Some in Hiq as [Hne Hiq]. destruct (T i q Hiq) as (e & He & Hd & Hw).
    exists e. rewrite Hs. split_and!; [done|done|]. rewrite Hin by done. exact Hw.
  - intros i r Hr. destruct (D i r Hr) as (Hx & e & He & Hd). split; [apply lookup_delete_None; by right|].
    exists e. rewrite Hs. split; [done|]. rewrite Hin; [done|]. intros ->. by rewrite Hp in Hx.
Qed.

Lemma remove_advance (c : connection) id m r :
  wf (mpx_ c) -> remove (mpx_ c) id = Done (m, true) -> run_ok c r -> run_ok (set_mpx c m) r.
Proof.
  intros Hwf Hrm. destruct (wf_remove _ _ _ _ Hwf Hrm) as (_ & Hs & Hq).
  destruct (remove_buffers _ _ _ _ Hrm) as [Hr Hw]. pose proof (remove_keeps _ _ _ _ Hrm) as Hf.
  assert (calm c -> calm (set_mpx c m)) as Hcalm.
  { intros Hc Ho. destruct (Hc Ho) as [Hb Hn]. split; [cbn; by rewrite Hw|].
    apply (none_waiting_sub (mpx_ c)); [|done]. cbn [mpx_ set_mpx]. intros i. rewrite Hq, filter_elem. intros [Hi _].
    split; [done|]. unfold test. by rewrite Hs. }
  destruct r as [|[| | |se|d]|]; try done. intros [Hrd Hwr]. split.
  - destruct Hrd as (Hsp & Hl & Hk). split_and!; [|cbn; unfold run_is_canceled; cbn; by rewrite Hf|done].
    destruct (session_reader se) as [[tmp size|n]|]; cbn in *; [by rewrite Hr|done..].
  - destruct (session_writer se) as [[v|]|]; cbn in *; [by rewrite Hw| |done]. rewrite Hw.
    destruct Hwr as (? & ? & ?). split_and!; auto.
Qed.

(** The notification of an [exec_op] that is answered. *)
Lemma tracked_result m id p e :
  tracked m id p -> at_ p = exec_waiting -> store m !! id = Some e -> (received p < done_calls e)%nat -> ec_ e = None ->
  (id ∉ reqs_ m) /\ remaining_responses_ e = 0.
Proof.
  intros (e' & He' & _ & Hw) Hat He Hlt Hec. rewrite He in He'. injection He' as <-.
  destruct (Hw Hat) as [[_ Hu]|(Hq & [[? Hs]|[_ Hs]] & _)]; [specialize (Hu Hec); lia|congruence|done].
Qed.

Lemma sys_resume_exec (s s' : system) id p n x :
  sys_ok s -> execs s !! id = Some p ->
  (at_ p = exec_waiting -> x <> cancelled_other /\ (x = not_cancelled -> (received p < notifications s id)%nat)) ->
  resume_exec id p n x s = Done s' -> sys_ok s'.
Proof.
  intros [Hq Hr] Hp Hev. unfold resume_exec. intros Hc. apply bind_done in Hc as ([c k] & Hex & Hc).
  destruct (at_ p) eqn:Hat.
  - injection Hex as <- <-. eapply sys_exec_done; [| | |exact Hc]; cbn [conn execs results run set_conn set_execs].
    + by apply requests_drop.
    + eapply requests_deliver; [done|done|done].
    + done.
  - destruct (Hev eq_refl) as [Hother Hnot]. apply exec_resume_cases in Hex as (e & He & Hcase).
    destruct Hcase as [ev Hec|Hec Hx|m Hec Hw Hrm|c' Ha|Hec Hx]; [| | | |done];
      (eapply sys_exec_done; [| | |exact Hc]; cbn [conn execs results run set_conn set_execs]).
    + by apply requests_drop.
    + by eapply requests_deliver.
    + done.
    + by apply requests_drop.
    + eapply requests_deliver; [done|done|]. intros _. exists e. specialize (Hnot Hx).
      unfold notifications in Hnot. rewrite He in Hnot.
      destruct (tracked_result _ _ _ _ (ok_tracked _ _ _ Hq _ _ Hp) Hat He Hnot Hec). by split_and!.
    + done.
    + by eapply requests_removed.
    + assert (requests_ok (set_mpx (conn s) m) (delete id (execs s)) (results s)) as Hq' by (by eapply requests_removed).
      assert (requests_ok (conn s) (delete id (execs s)) (results s ++ [(id, (Some operation_aborted, 0))])) as Hq''
        by (by eapply requests_deliver).
      split; [apply Hq'|apply Hq'|apply Hq'|apply Hq''|].
      intros i r Hi. apply elem_of_app in Hi as [Hi|Hi]; [by apply (ok_delivered _ _ _ Hq')|].
      apply list_elem_of_singleton in Hi as [= -> ->]. destruct (ok_delivered _ _ _ Hq'' id (Some operation_aborted, 0)) as [Hd (e' & He' & _)].
      { apply elem_of_app. right. by apply list_elem_of_singleton. }
      split; [done|]. exists e'. split; [|done]. cbn [mpx_ set_mpx].
      destruct (wf_remove _ _ _ _ (ok_wf _ _ _ Hq) Hrm) as (_ & -> & _). done.
    + eapply remove_advance; [apply Hq|done|done].
    + eapply requests_drop, requests_advance; [exact Ha|done].
    + eapply requests_deliver; [by eapply requests_advance|done|done].
    + eapply run_advance; [apply Hq|exact Ha|done].
Qed.

(** ** Events of the session *)

Lemma requests_ping (s : system) (c : connection) k :
  requests_ok (conn s) (execs s) (results s) -> ping_advances (conn s) c k ->
  requests_ok c (execs (launch_ping k (set_conn s c))) (results s).
Proof.
  intros Hq. destruct k as [[|id p|d]|]; cbn [ping_advances launch_ping]; intros Ha; [by eapply requests_advance| |by eapply requests_advance..].
  by eapply requests_launch.
Qed.

Lemma ping_advances_weak (c c' : connection) k : ping_advances c c' k -> advances false false c c'.
Proof. destruct k as [[|id p|d]|]; cbn; [done|by intros [? _]|done..]. Qed.

Lemma launch_ping_conn k (s : system) :
  conn (launch_ping k s) = conn s /\ results (launch_ping k s) = results s /\ run (launch_ping k s) = run s.
Proof. by destruct k as [[|id p|d]|]. Qed.

Lemma launch_ping_execs k (s s1 : system) : execs s1 = execs s -> execs (launch_ping k s1) = execs (launch_ping k s).
Proof. destruct k as [[|id p|d]|]; cbn; congruence. Qed.

(** Operations 0 to 2 of the session neither read nor write. *)
Lemma sys_in_session {P R} (s : system) c se se' i (k : co P R) :
  sys_ok s -> run s = active (run_group se) -> advances false false (conn s) c ->
  session_reader se' = session_reader se -> session_writer se' = session_writer se ->
  sys_ok (in_session s c se' i k).
Proof.
  intros [Hq Hr] Hrun Ha Hrd Hwr. split; [by eapply requests_advance|]. rewrite Hrun in Hr. destruct Hr as [H1 H2].
  cbn [run in_session set_run run_ok]. split; rewrite ?Hrd, ?Hwr; [by eapply reader_advance|].
  eapply writer_advance; [apply Hq|exact Ha|done].
Qed.

Lemma reader_complete_closed p (c c' : connection) ec data k :
  reader_resume p c ec data = Done (c', k) -> forall e, k = co_complete e -> is_open c' = false.
Proof. intros Hc e ->. by eapply (proj1 reader_writer_complete_closed). Qed.

Lemma sys_reader (s : system) c se i k :
  sys_ok s -> run s = active (run_group se) -> advances true false (conn s) c -> read_space c k ->
  (forall ec, k = co_complete ec -> is_open c = false) -> sys_ok (in_session s c (with_reader se k) i k).
Proof.
  intros [Hq Hr] Hrun Ha Hk Hcl. split; [by eapply requests_advance|]. rewrite Hrun in Hr. destruct Hr as [(_ & Hl & _) Hw].
  split; [split_and!; [done| |done]; eapply closes_live; [by apply (adv_close _ _ _ _ Ha)|done]|]. eapply writer_advance; [apply Hq|exact Ha|exact Hw].
Qed.

Lemma sys_writer (s : system) c se i k :
  sys_ok s -> run s = active (run_group se) -> advances false true (conn s) c -> write_wait c k ->
  sys_ok (in_session s c (with_writer se k) i k).
Proof.
  intros [Hq Hr] Hrun Ha Hk. split; [by eapply requests_advance|]. rewrite Hrun in Hr. destruct Hr as [Hrd _].
  split; [by eapply reader_advance|by apply write_wait_ok].
Qed.

Lemma run_group_done_advances (c c' : connection) g k :
  run_group_done c g = Done (c', k) -> advances false false c c' /\ (forall se, k <> co_yield (run_group se)).
Proof.
  unfold run_group_done. destruct (_ && _); [by intros [= <- <-]|]. destruct (_ && _); [by intros [= <- <-]|].
  intros Hc. apply bind_done in Hc as (c1 & Ha%(cancel_advances false) & Hc).
  destruct (negb _).
  - apply bind_done in Hc as (c2 & Ha2%(cancel_advances false) & [= <- <-]). split; [by etransitivity|done].
  - injection Hc as <- <-. split; [|done]. etransitivity; [exact Ha|]. by apply advances_side.
Qed.

(** [run_op] outside of a session. *)
Lemma sys_after_run (s : system) c k rd wr :
  requests_ok (conn s) (execs s) (results s) -> advances rd wr (conn s) c -> (forall se, k <> co_yield (run_group se)) ->
  sys_ok (after_run s (c, k)).
Proof.
  intros Hq Ha Hk. assert (requests_ok c (execs s) (results s)) as Hq' by (by eapply requests_advance).
  destruct k as [[| | |se|d]|ec]; cbn [after_run]; try (split; [done|done]). by destruct (Hk se).
Qed.

Lemma sys_session_step ev (s s' : system) se :
  sys_ok s -> run s = active (run_group se) -> session_step ev s se = Some (Done s') -> sys_ok s'.
Proof.
  intros Hok Hrun Hst. pose proof (ok_requests _ Hok) as Hq. pose proof (ok_wf _ _ _ Hq) as Hwf.
  pose proof (ok_ping _ _ _ Hq) as Hpg. pose proof (ok_run _ Hok) as Hr. rewrite Hrun in Hr. destruct Hr as [(_ & Hlive & _) Hwr].
  destruct ev; cbn [session_step] in Hst; try done.
  - destruct se as [h p c r [[v|]|]]; try done. split_step.
    match goal with Hc : writer_resume _ _ _ = Done _ |- _ => apply writer_resume_advances in Hc as [? ?]; [|done|done|done] end.
    by eapply sys_writer.
  - destruct se as [h p c r [[v|]|]]; try done. split_step. destruct Hwr as (Hb & _).
    match goal with Hc : writer_resume _ _ _ = Done _ |- _ => apply writer_resume_advances in Hc as [? ?]; [|done|done|done] end.
    by eapply sys_writer.
  - destruct se as [h p c [[tmp size|n]|] w]; try done. split_step.
    match goal with Hc : reader_resume _ _ _ _ = Done _ |- _ =>
      pose proof (reader_complete_closed _ _ _ _ _ _ Hc); apply reader_resume_advances in Hc as [? ?] end.
    by eapply sys_reader.
  - destruct se as [h p c [[tmp size|n]|] w]; try done.
    destruct (if has_ec ec then _ else _) as [ch|]; [|done]. split_step.
    match goal with Hc : reader_resume _ _ _ _ = Done _ |- _ =>
      pose proof (reader_complete_closed _ _ _ _ _ _ Hc); apply reader_resume_advances in Hc as [Ha Hsp] end.
    eapply sys_reader; [done|done| |done|done]. etransitivity; [|exact Ha]. by apply advances_side.
  - destruct se as [h [[|id p|d]|] c r w]; try done. split_step.
    eapply sys_in_session; [done..| |done|done]. by eapply ping_advances_weak, ping_resume_advances.
  - destruct se as [h [[|id p|d]|] c r w]; try done. split_step.
    match goal with Hc : ping_resume _ _ _ = Done (?c, ?k) |- _ => apply ping_resume_advances in Hc; [|done]; rename Hc into Ha end.
    pose proof (ping_advances_weak _ _ _ Ha) as Ha'.
    match goal with |- sys_ok (launch_ping ?k ?s1) =>
      assert (sys_ok s1) as [_ Hr1] by (by eapply sys_in_session); pose proof (launch_ping_conn k s1) as (E1 & E2 & E3) end.
    split; [|by rewrite E1, E3]. rewrite E1, E2. cbn [conn results in_session set_run set_conn].
    erewrite launch_ping_execs; [by eapply requests_ping|done].
  - destruct se as [h p [[|d]|] r w]; try done. split_step.
    eapply sys_in_session; [done..| |done|done]. by eapply check_resume_advances.
  - destruct se as [h p [[|d]|] r w]; try done. split_step.
    eapply sys_in_session; [done..| |done|done]. by eapply check_resume_advances.
  - destruct (group_complete s se) as [g|]; [|done]. split_step.
    match goal with Hc : run_resume _ _ _ = Done ?r |- _ => destruct r; apply run_group_done_advances in Hc as [Ha Hk] end.
    by eapply sys_after_run.
Qed.

(** ** The start of a session, and [run_op] *)

(** The parts of the session start one after the other. *)
Record session_starts (c0 c1 c2 c3 c4 c' : connection) (id : elem_id) (p : exec_point) (se : session) : Prop := {
  ss_hello : starts c0 c1 id p;
  ss_id : session_hello se = co_yield (id, p);
  ss_answered : exists e, store (mpx_ c1) !! id = Some e /\ remaining_responses_ e <> 0;
  ss_ping : ping_advances c1 c2 (session_ping se);
  ss_check : advances false false c2 c3;
  ss_reader : advances true false c3 c4;
  ss_reading : simulated false false (mpx_ c3) (mpx_ c4);
  ss_reader_ok : reader_ok c4 (session_reader se);
  ss_writer : advances false true c4 c';
  ss_writing : write_wait c' (session_writer se);
}.

Lemma start_session_parts (c c' : connection) se :
  wf (mpx_ c) -> get_expected_responses (ping_req_ (health_checker_ c)) < size_modulus -> start_session c = Done (c', se) ->
  exists c1 c2 c3 c4 id p, session_starts (set_mpx c (Multiplexer.reset (mpx_ c))) c1 c2 c3 c4 c' id p se.
Proof.
  intros Hwf Hpg. set (c0 := set_mpx c (Multiplexer.reset (mpx_ c))).
  assert (advances true true c c0) as A0 by (apply advances_mpx; [by apply evolves_same|done..]).
  unfold start_session. intros Hc. apply bind_done in Hc as ([c1 [id p]] & Hh & Hc). apply bind_done in Hc as ([c2 pg] & Hp & Hc).
  destruct (check_start c2) as [c3 ch] eqn:Hch. apply bind_done in Hc as ([c4 rd] & Hr & Hc).
  destruct (writer_loop c4) as [c5 wr] eqn:Hw. injection Hc as <- <-. exists c1, c2, c3, c4, id, p.
  pose proof (hello_start_flag _ _ _ Hh) as Kh. pose proof (ping_loop_flag _ _ _ Hp) as Kp.
  pose proof (hello_start_answered _ _ _ _ Hh ltac:(by apply A0)) as Hans. apply hello_start_advances in Hh. pose proof Hh as (A1 & _).
  assert (wf (mpx_ c1)) as W1 by (by apply A1, A0).
  apply ping_loop_advances in Hp; [|by rewrite (adv_ping _ _ _ _ A1)]. pose proof (ping_advances_weak _ _ _ Hp) as A2.
  pose proof (check_start_advances c2) as A3. rewrite Hch in A3. cbn [fst] in A3.
  pose proof Hr as [A4 Hsp]%reader_next_advances.
  assert (write_buffer_ (mpx_ c4) = []) as Hb.
  { rewrite (adv_write _ _ _ _ A4), (adv_write _ _ _ _ A3), (adv_write _ _ _ _ A2), (adv_write _ _ _ _ A1) by done. done. }
  assert (read_buffer_ (mpx_ c3) = []) as Hrb.
  { rewrite (adv_read _ _ _ _ A3), (adv_read _ _ _ _ A2), (adv_read _ _ _ _ A1) by done. done. }
  pose proof (fun e (He : rd = co_complete e) => reader_next_closed c3 c4 e ltac:(by rewrite <- He)) as Hcl.
  unfold reader_start, reader_next, is_data_needed in Hr. rewrite bool_decide_true in Hr by done.
  assert (run_is_canceled c4 = false) as Hlive.
  { rewrite (reader_read_flag _ _ _ Hr). pose proof (check_start_flag c2) as Hk. rewrite Hch in Hk. cbn [fst] in Hk. rewrite Hk, Kp. exact Kh. }
  apply writer_loop_advances in Hw as [A5 Hww]; [|by apply A4, A3, A2|done|done].
  split; try done. by eapply reader_read_same.
Qed.

Lemma sys_start_session (s : system) c c' se :
  requests_ok c (execs s) (results s) -> start_session c = Done (c', se) ->
  sys_ok (after_run s (c', co_yield (run_group se))).
Proof.
  intros Hq Hst. destruct (start_session_parts _ _ _ (ok_wf _ _ _ Hq) (ok_ping _ _ _ Hq) Hst)
    as (c1 & c2 & c3 & c4 & id & p & [Hh Eh _ Hp A3 A4 _ Hr A5 Hw]).
  set (c0 := set_mpx c (Multiplexer.reset (mpx_ c))) in *.
  assert (advances true true c c0) as A0 by (apply advances_mpx; [by apply evolves_same|done..]).
  assert (requests_ok c1 (<[id := mk_pending handshake p 0]> (execs s)) (results s)) as Q1.
  { eapply requests_launch; [exact Hh|]. by eapply requests_advance. }
  set (s1 := set_conn (launch handshake id p s) c1).
  assert (requests_ok c2 (execs (launch_ping (session_ping se) (set_conn s1 c2))) (results s)) as Q2 by (by apply (requests_ping s1)).
  cbn [after_run]. rewrite Eh. cbn [launch_hello].
  match goal with |- sys_ok (set_run (launch_ping ?k ?x) _ _) => destruct (launch_ping_conn k x) as (E1 & E2 & _);
    pose proof (launch_ping_execs k (set_conn s1 c2) x eq_refl) as E3 end.
  split; cbn [conn execs results run set_run]; rewrite E1; cbn [conn set_conn launch set_execs].
  - rewrite E2, E3. eapply requests_advance; [exact A5|]. eapply requests_advance; [exact A4|]. by eapply requests_advance.
  - split; [by eapply reader_advance|by apply write_wait_ok].
Qed.

Lemma sys_run_session (s : system) c r :
  requests_ok c (execs s) (results s) -> run_session c = Done r -> sys_ok (after_run s r).
Proof.
  intros Hq Hc. unfold run_session in Hc. apply bind_done in Hc as ([c1 se] & Hst & [= <-]). by eapply sys_start_session.
Qed.

Lemma ping_request_config (h h' : health_checker) cfg :
  checker_set_config h cfg = Done h' ->
  cfg_ (ping_req_ h') = cfg_ (ping_req_ h) /\ exists id, represents (ping_req_ h') [[bs "PING"; id]].
Proof.
  unfold checker_set_config. destruct (push_represents (clear (ping_req_ h)) [] (bs "PING") [str (health_check_id cfg)])
    as (r & -> & Hr & Hc); [done..|]. cbn [mbind outcome_bind]. intros [= <-]. cbn [ping_req_]. split; [exact Hc|by eexists].
Qed.

(** The parts a session starts with. *)
Definition session_parts (c : connection) := (mpx_ c, health_checker_ c, handshaker_ c, conn_cfg_ c).

(** A completion of [run_op] leaves the multiplexer alone, or starts a session. *)
Lemma run_resume_cases p (c c' : connection) inp k :
  run_resume p c inp = Done (c', k) ->
  (advances true true c c' /\ (forall se, k <> co_yield (run_group se)) /\ ((exists se, p = run_group se) \/ mpx_ c' = mpx_ c)) \/
  ((p = run_connecting \/ p = run_ssl_handshake) /\ exists c1, advances true true c c1 /\ session_parts c1 = session_parts c /\ run_session c1 = Done (c', k)).
Proof.
  destruct p as [| | |se|d]; cbn [run_resume].
  - destruct inp as [ec res]. cbn [resolve_resume].
    destruct (has_ec _); intros [= <- <-]; left; (split_and!; [by apply advances_side|done|by right]).
  - destruct inp as [[ec ep] opened]. cbn [connect_resume].
    match goal with |- context [set_open c ?b] => assert (advances true true c (set_open c b)) as Ho by (by split) end.
    destruct (has_ec _); [intros [= <- <-]|destruct (use_ssl _); [intros [= <- <-]|intros Hs]]; [left|left|right].
    + split_and!; [|done|by right]. etransitivity; [exact Ho|by apply advances_side].
    + split_and!; [|done|by right]. etransitivity; [exact Ho|by apply advances_side].
    + split; [by left|]. eexists. split_and!; [| |exact Hs]; [|done]. etransitivity; [exact Ho|by apply advances_side].
  - destruct (has_ec inp); [intros [= <- <-]; left; split_and!; [by apply advances_side|done|by right]|].
    intros Hs. right. split; [by right|]. eexists. split_and!; [| |exact Hs]; [by apply advances_side|done].
  - intros [Ha Hk]%run_group_done_advances. left. split_and!; [by apply advances_weaken|done|left; by eexists].
  - destruct (has_ec inp); [intros [= <- <-]|destruct (negb _); intros [= <- <-]]; left; (split_and!; [by split|done|by right]).
Qed.

Lemma sys_run_resume (s : system) p inp r :
  sys_ok s -> run_resume p (conn s) inp = Done r -> sys_ok (after_run s r).
Proof.
  intros Hok. destruct r as [c k]. intros [(Ha & Hk & _)|(_ & c1 & Ha & _ & Hs)]%run_resume_cases.
  - eapply sys_after_run; [apply Hok|exact Ha|done].
  - eapply sys_run_session; [|exact Hs]. eapply requests_advance; [exact Ha|apply Hok].
Qed.

Lemma sys_run_step ev (s s' : system) : sys_ok s -> run_step ev s = Some (Done s') -> sys_ok s'.
Proof.
  intros Hok. unfold run_step.
  assert (forall se, run s = active (run_group se) -> session_step ev s se = Some (Done s') -> sys_ok s') as Hsession
    by (intros se; by apply sys_session_step).
  assert (forall p inp, Some (r ← run_resume p (conn s) inp; Done (after_run s r)) = Some (Done s') -> sys_ok s') as Hresume.
  { intros p inp Hst. split_step. by eapply sys_run_resume. }
  destruct ev; destruct (run s) as [|[| | |se|d]|] eqn:Hrun; try done; try (by apply Hsession).
  - destruct (resv_ _); [apply Hresume..|]. destruct (bool_decide _); [apply Hresume|done].
  - intros [= <-]. split; [|by cbn; rewrite Hrun]. eapply (requests_advance true true); [|apply Hok]. by split.
  - apply Hresume.
  - apply Hresume.
  - destruct (wait_admits _ _); [apply Hresume|done].
Qed.

Lemma sys_async_run (s : system) cfg r : sys_ok s -> async_run (conn s) cfg = Done r -> sys_ok (after_run s r).
Proof.
  intros Hok Hc. pose proof (ok_requests _ Hok) as [W Pg T O D]. unfold async_run in Hc. apply bind_done in Hc as (c1 & Hc1 & [= <-]).
  unfold async_run_config in Hc1. apply bind_done in Hc1 as (hc & Hhc%ping_request_config & [= <-]).
  unfold run_loop. cbn [after_run]. split; [|done]. split; try done. destruct Hhc as [Hc Hid], Pg as (Ph & Pp & _).
  split_and!; [exact Ph|etransitivity; [exact Hc|exact Pp]|exact Hid].
Qed.

(** Every event keeps the invariant. *)
Lemma sys_step ev (s s' : system) : sys_ok s -> event_ok ev -> step ev s = Some (Done s') -> sys_ok s'.
Proof.
  intros Hok Hev. pose proof (ok_requests _ Hok) as Hq.
  destruct ev; cbn [step]; try (apply sys_run_step; exact Hok).
  - intros Hst. split_step. match goal with Hc : async_exec _ _ _ = Done (?p, _) |- _ => destruct p; cbn in Hst; split_step end.
    apply sys_launch; [done|]. eapply async_exec_starts; [exact Hev|done|done|done].
  - intros Hst. split_step. apply sys_advance; [done|]. by eapply cancel_advances.
  - intros Hst. split_step. apply sys_advance; [done|]. unfold receive.
    destruct (channel_try_receive _) as [[[ec n] ch]|]; [by apply advances_side|done].
  - intros Hst. split_step. apply sys_advance; [done|]. apply receive_into_advances.
  - intros Hst. destruct (run s); [|done|]; split_step; by eapply sys_async_run.
  - destruct (execs s !! id) as [[o [|] n]|] eqn:Hp; [|done..]. intros Hst. split_step.
    by eapply (sys_resume_exec s).
  - destruct (execs s !! id) as [[o [|] n]|] eqn:Hp; [done| |done]. destruct (Nat.ltb_spec n (notifications s id)); [|done].
    intros Hst. split_step. eapply (sys_resume_exec s); [done|done| |done]. by split.
  - destruct (execs s !! id) as [[o [|] n]|] eqn:Hp; [done| |done]. destruct (_ =? _)%nat; [|done]. cbn [andb].
    destruct x; [done|..]; intros Hst; split_step; (eapply (sys_resume_exec s); [done|done| |done]); by split.
Qed.

Lemma new_connection_ok (c : connection) : new_connection = Done c -> sys_ok (init c).
Proof.
  unfold new_connection. intros Hc. apply bind_done in Hc as (hc & Hhc & Hc). apply bind_done in Hc as (m & Hm & [= <-]).
  split; [|done]. cbn [conn execs results init]. split; cbn [mpx_ health_checker_].
  - injection Hm as <-. split; [constructor|constructor|]. intros id Hid. by apply not_elem_of_nil in Hid.
  - revert Hhc. unfold new_health_checker. destruct (push_represents (new_request default_request_config) [] (bs "PING") [str (bs "Boost.Redis")])
      as (r & -> & Hr & Hcfg); [done..|]. cbn [mbind outcome_bind]. intros [= <-]. split_and!; [done|exact Hcfg|by eexists].
  - apply map_Forall_empty.
  - constructor.
  - intros id r Hr. by apply not_elem_of_nil in Hr.
Qed.

Lemma reachable_ok (s : system) : sys_reachable s -> sys_ok s.
Proof. induction 1 as [c Hc|ev s s' _ IH Hev Hst]; [by apply new_connection_ok|by eapply sys_step]. Qed.
End WithChannel.
