(* ===== verification/SystemMoves.v ===== *)
(** * What an event does

    Every event of a reachable system either moves the connection within the
    abstract client, leaving the buffers it does not own, or starts a session. *)

From stdpp Require Import gmap.
From S2P Require Import Prelude Charconv Types Parser Serialization Request Adapters Traits.
From S2P Require Import Multiplexer MultiplexerInvariant Evolution ClientSpec ClientRefinement.
From S2P Require Import Logger Session Connection Run Advance ConnectionClaims System SystemInvariant.

#[local] Open Scope N_scope.
#[local] Open Scope list_scope.

Section WithChannel.
Context {Ch Ep : Type} `{Channel Ch} `{Platform Ep}.
Abbreviation connection := (connection Ch Ep).
Abbreviation system := (system Ch Ep).
Abbreviation event := (event Ep).

(** The events of the reader and of the writer. *)
Definition reads (ev : event) : bool := match ev with ev_read _ _ | ev_sent _ => true | _ => false end.
Definition writes (ev : event) : bool := match ev with ev_written _ | ev_writer_timer _ => true | _ => false end.

(** The calls of users, and the completions of their requests. *)
Definition calls (ev : event) : bool :=
  match ev with
  | ev_exec _ _ | ev_cancel _ | ev_receive | ev_set_receive _ | ev_dispatched _ | ev_notified _ _ | ev_cancelled _ _ => true
  | _ => false
  end.

(** What is left of [advances] when a request may leave the queue without being
    notified. *)
Record moves (rd wr : bool) (c c' : connection) : Prop := {
  mv_wf : wf (mpx_ c) -> wf (mpx_ c');
  mv_read : rd = false -> read_buffer_ (mpx_ c') = read_buffer_ (mpx_ c);
  mv_write : wr = false -> write_buffer_ (mpx_ c') = write_buffer_ (mpx_ c);
  mv_client : wf (mpx_ c) -> simulated rd wr (mpx_ c) (mpx_ c');
}.

#[export] Instance moves_preorder rd wr : PreOrder (moves rd wr).
Proof.
  split; [by split|]. intros c1 c2 c3 [F1 R1 W1 S1] [F2 R2 W2 S2]. split; [auto| | |].
  - intros Hr. by rewrite R2, R1.
  - intros Hw. by rewrite W2, W1.
  - intros Hwf. etransitivity; [by apply S1|by apply S2, F1].
Qed.

Lemma moves_same rd wr (c c' : connection) : mpx_ c' = mpx_ c -> moves rd wr c c'.
Proof. intros Hm. split; by rewrite Hm. Qed.

(** The common case. *)
Definition moved (rd wr : bool) (c c' : connection) : Prop := moves rd wr c c' /\ closes c c'.

#[export] Instance moved_preorder rd wr : PreOrder (moved rd wr).
Proof. split; [by split|]. intros c1 c2 c3 [M1 C1] [M2 C2]. split; by etransitivity. Qed.

Lemma advances_moved rd wr (c c' : connection) : rd && wr = false -> advances rd wr c c' -> moved rd wr c c'.
Proof. intros Hb [M P R W T C S]. split; [|by apply C]. split; [apply M|done|done|by apply S]. Qed.

Lemma remove_moved (c : connection) id m :
  wf (mpx_ c) -> remove (mpx_ c) id = Done (m, true) -> moved false false c (set_mpx c m).
Proof.
  intros Hwf Hrm. destruct (remove_buffers _ _ _ _ Hrm) as [Hr Hw]. pose proof (remove_keeps _ _ _ _ Hrm) as Hf. split; [|by left].
  split; [|done|done|eauto with redis]. intros _. by destruct (wf_remove _ _ _ _ Hwf Hrm).
Qed.

(** ** Requests *)

Lemma exec_done_moved o id r (s s' : system) :
  get_expected_responses (ping_req_ (health_checker_ (conn s))) < size_modulus ->
  exec_done o id r s = Done s' -> moved false false (conn s) (conn s').
Proof.
  intros Hpg. destruct o; cbn [exec_done]; [by intros [= <-]| |]; (destruct (run s) as [|[| | |se|d]|]; try by intros [= <-]);
    intros Hc; apply bind_done in Hc as ([c k] & Hc & [= <-]); apply advances_moved; try done; cbn [conn in_session set_run set_conn].
  - by eapply hello_resume_advances.
  - by eapply ping_advances_weak, ping_resume_advances.
Qed.

Lemma exec_resume_moved (c c' : connection) id x k q :
  wf (mpx_ c) -> exec_resume q c id x = Done (c', k) ->
  moved false false c c' /\ ping_req_ (health_checker_ c') = ping_req_ (health_checker_ c).
Proof.
  intros Hwf Hex. destruct q; [by injection Hex as <- _|]. apply exec_resume_cases in Hex as (e & He & Hcase).
  destruct Hcase as [ev Hec|Hec Hx|m Hec Hw Hrm|c' Ha|Hec Hx]; try (by split).
  - split; [by apply (remove_moved c id)|done].
  - split; [by apply advances_moved|by apply (adv_ping _ _ _ _ Ha)].
Qed.

Lemma resume_exec_moved (s s' : system) id p n x :
  sys_ok s -> execs s !! id = Some p -> resume_exec id p n x s = Done s' -> moved false false (conn s) (conn s').
Proof.
  intros [Hq Hr] Hp. unfold resume_exec. intros Hc. apply bind_done in Hc as ([c k] & Hex & Hc).
  apply exec_resume_moved in Hex as [Hm Hpg]; [|apply Hq].
  destruct k as [q|r]; [by injection Hc as <-|]. apply exec_done_moved in Hc; [by etransitivity|].
  cbn [conn set_conn set_execs]. rewrite Hpg. by eapply ok_ping.
Qed.

(** ** The session *)

Lemma session_advances ev (s s' : system) se :
  sys_ok s -> run s = active (run_group se) -> session_step ev s se = Some (Done s') ->
  advances (reads ev) (writes ev) (conn s) (conn s').
Proof.
  intros Hok Hrun Hst. pose proof (ok_requests _ Hok) as Hq. pose proof (ok_ping _ _ _ Hq) as Hpg.
  pose proof (ok_run _ Hok) as Hr. rewrite Hrun in Hr. destruct Hr as [(_ & Hlive & _) Hwr].
  destruct ev; cbn [session_step] in Hst; try done; cbn [reads writes].
  - destruct se as [h p c r [[v|]|]]; try done. split_step.
    match goal with Hc : writer_resume _ _ _ = Done _ |- _ => apply writer_resume_advances in Hc as [? ?]; [done|apply Hq|done|done] end.
  - destruct se as [h p c r [[v|]|]]; try done. split_step. destruct Hwr as (Hb & _).
    match goal with Hc : writer_resume _ _ _ = Done _ |- _ => apply writer_resume_advances in Hc as [? ?]; [done|apply Hq|done|done] end.
  - destruct se as [h p c [[tmp size|n]|] w]; try done. split_step.
    match goal with Hc : reader_resume _ _ _ _ = Done _ |- _ => by apply reader_resume_advances in Hc as [? ?] end.
  - destruct se as [h p c [[tmp size|n]|] w]; try done. destruct (if has_ec ec then _ else _) as [ch|]; [|done]. split_step.
    match goal with Hc : reader_resume _ _ _ _ = Done _ |- _ => apply reader_resume_advances in Hc as [Ha _] end.
    etransitivity; [|exact Ha]. by apply advances_side.
  - destruct se as [h [[|id p|d]|] c r w]; try done. split_step. by eapply ping_advances_weak, ping_resume_advances.
  - destruct se as [h [[|id p|d]|] c r w]; try done. split_step.
    match goal with |- advances _ _ _ (conn (launch_ping ?k ?s1)) => destruct (launch_ping_conn k s1) as (-> & _) end.
    by eapply ping_advances_weak, ping_resume_advances.
  - destruct se as [h p [[|d]|] r w]; try done. split_step. by eapply check_resume_advances.
  - destruct se as [h p [[|d]|] r w]; try done. split_step. by eapply check_resume_advances.
  - destruct (group_complete s se) as [g|]; [|done]. split_step.
    match goal with Hc : run_resume _ _ _ = Done ?r |- _ => destruct r as [c k]; apply run_group_done_advances in Hc as [Ha Hk] end.
    destruct k as [[| | |se'|d]|ec]; try exact Ha. by destruct (Hk se').
Qed.

Lemma call_moved ev (s s' : system) :
  sys_ok s -> event_ok ev -> calls ev = true -> step ev s = Some (Done s') -> moved false false (conn s) (conn s').
Proof.
  intros Hok Hev Hcall Hst. destruct ev; try done; cbn [step] in Hst.
  - split_step. match goal with Hc : async_exec _ _ _ = Done (?p, _) |- _ => destruct p; cbn in Hst; split_step end.
    apply advances_moved; [done|]. by eapply async_exec_advances.
  - split_step. apply advances_moved; [done|]. by eapply cancel_advances.
  - split_step. unfold receive. destruct (channel_try_receive _) as [[[ec n] ch]|]; [|done]. apply advances_moved; [done|]. by apply advances_side.
  - split_step. apply advances_moved; [done|]. apply receive_into_advances.
  - destruct (execs s !! id) as [[o [|] n]|] eqn:Hp; [|done..]. split_step. by eapply resume_exec_moved.
  - destruct (execs s !! id) as [[o [|] n]|] eqn:Hp; [done| |done]. split_step. by eapply resume_exec_moved.
  - destruct (execs s !! id) as [[o [|] n]|] eqn:Hp; [done| |done]. split_step. by eapply resume_exec_moved.
Qed.

Lemma step_session_step ev (s : system) se :
  run s = active (run_group se) -> calls ev = false -> step ev s = session_step ev s se \/ step ev s = None.
Proof. intros Hrun Hc. destruct ev; try done; cbn [step]; unfold run_step; rewrite Hrun; auto. Qed.

(** Every event during a session. *)
Lemma step_moved ev (s s' : system) se :
  sys_ok s -> event_ok ev -> run s = active (run_group se) -> step ev s = Some (Done s') ->
  moved (reads ev) (writes ev) (conn s) (conn s').
Proof.
  intros Hok Hev Hrun Hst. assert (reads ev && writes ev = false) as Hb by (by destruct ev).
  destruct (calls ev) eqn:Hc.
  - assert (reads ev = false /\ writes ev = false) as [-> ->] by (by destruct ev). by eapply call_moved.
  - destruct (step_session_step ev s se Hrun Hc) as [Hs|Hs]; rewrite Hs in Hst; [|done].
    apply advances_moved; [done|]. by apply (session_advances _ s s' se).
Qed.
End WithChannel.
