(* ===== verification/Scenario.v ===== *)
(** * A scenario

    A connection that is opened, shakes hands, and executes a request: the
    states of the system at which the claims about it are instantiated. *)

From stdpp Require Import gmap.
From S2P Require Import Prelude Charconv Types Parser Resp3 Serialization Request Adapters Traits.
From S2P Require Import Multiplexer MultiplexerRead MultiplexerClaims Logger Session Connection Run ConnectionClaims System.

#[local] Open Scope string_scope.
#[local] Open Scope N_scope.
#[local] Open Scope list_scope.

Lemma reachable_steps {Ch Ep} `{Channel Ch} `{Platform Ep} evs (s s' : system Ch Ep) :
  sys_reachable s -> Forall event_ok evs -> steps evs s = Some (Done s') -> sys_reachable s'.
Proof.
  revert s. induction evs as [|ev evs IH]; intros s Hs Hev; cbn [steps]; [by intros [= <-]|].
  apply Forall_cons in Hev as [Hev Hevs]. destruct (step ev s) as [[s1|?|?]|] eqn:Hst; [|done..].
  apply IH; [by eapply run_event|done].
Qed.

Abbreviation example_system := (system (list (error_code * size_t)) bytes).
Abbreviation example_event := (event bytes).

Definition unconnected : example_system :=
  match new_connection with Done c => init c | _ => init example_connection end.

(** The state after some events that are possible and return. *)
Definition state_after (evs : list example_event) : example_system :=
  match steps evs unconnected with Some (Done s) => s | _ => unconnected end.
Definition returned {A} (o : option (outcome A)) : bool := match o with Some (Done _) => true | _ => false end.

Lemma state_after_reachable evs :
  Forall event_ok evs -> returned (steps evs unconnected) = true -> sys_reachable (state_after evs).
Proof.
  intros Hev. unfold state_after. destruct (steps evs unconnected) as [[s|?|?]|] eqn:Hs; [intros _|done..].
  eapply reachable_steps; [|exact Hev|exact Hs]. unfold unconnected.
  destruct new_connection as [c|?|?] eqn:Hc; [by apply run_init|by vm_compute in Hc..].
Qed.

(** The session starts, and the writer sends HELLO and PING. *)
Definition opening : list example_event :=
  [ev_run default_config; ev_resolved None [bs "10.0.0.1:6379"]; ev_opened; ev_connected None (bs "10.0.0.1:6379") true].

Definition ok_reply : resp3 := r_simple type.simple_string (bs "OK").

(** Both are answered. *)
Definition handshaken : list example_event :=
  opening ++ [ev_written None; ev_read None (bytes_of [ok_reply; bulk (bs "Boost.Redis")]);
              ev_notified 0%nat not_cancelled; ev_notified 1%nat not_cancelled].

(** A user's request, its answer, and its completion. *)
Definition requested : list example_event := handshaken ++ [ev_exec one_command recorder].
Definition replied : list example_event :=
  requested ++ [ev_writer_timer (Some operation_aborted); ev_written None; ev_read None (bytes_of [bulk (bs "A")])].
Definition served : list example_event := replied ++ [ev_notified 2%nat not_cancelled].

(** Reachability of a state of the scenario. *)
Ltac reachable_state := apply state_after_reachable; [repeat (apply Forall_cons_2; [by vm_compute|]); apply Forall_nil_2|by vm_compute].
