(* ===== verification/SystemRefinement.v ===== *)
(** * The system implements the abstract client

    Every run of a connection, with all its operations and whatever its users,
    the runtime and the server do, is a run of the client of [ClientSpec]: the
    requests are written in order, each response goes to the oldest request that
    still expects one, and everything is told to the right requester. *)

From stdpp Require Import gmap.
From S2P Require Import Prelude Charconv Types Parser Serialization Request Adapters Traits.
From S2P Require Import Multiplexer MultiplexerInvariant Evolution ClientSpec ClientRefinement MultiplexerClaims.
From S2P Require Import Logger Session Connection Run Advance ConnectionClaims System SystemInvariant SystemMoves Scenario.

#[local] Open Scope string_scope.
#[local] Open Scope N_scope.
#[local] Open Scope list_scope.

Section WithChannel.
Context {Ch Ep : Type} `{Channel Ch} `{Platform Ep}.
Abbreviation connection := (connection Ch Ep).
Abbreviation system := (system Ch Ep).
Abbreviation event := (event Ep).

(** ** What an event may do *)

(** The events that can start a session, which sends HELLO at once. *)
Definition starting (ev : event) : bool := match ev with ev_connected _ _ _ | ev_secured _ => true | _ => false end.

(** Only the reader's events answer, only the writer's events write, and only
    the end of the connection setup starts. *)
Definition permits (ev : event) (a : action) : bool :=
  match a with act_start => starting ev | _ => allowed (reads ev) (writes ev || starting ev) a end.

(** ** The relation *)

(** The request of the handshake belongs to the session. *)
Definition hello_waits (s : system) : Prop :=
  forall id p, execs s !! id = Some p -> owner_ p = handshake ->
  exists se, run s = active (run_group se) /\ session_hello se = co_yield (id, at_ p).

(** A session that was started on a closed stream does not get past HELLO. *)
Definition greeting (c : connection) (se : session) : Prop :=
  is_open c = false -> run_is_canceled c = false ->
  exists id p e, session_hello se = co_yield (id, p) /\ store (mpx_ c) !! id = Some e /\ remaining_responses_ e <> 0.

Record client_of (s : system) (cl : client) : Prop := {
  co_implements : implements (mpx_ (conn s)) cl;
  co_session : match run s with active (run_group se) => started cl = true /\ greeting (conn s) se | _ => live cl = false end;
  co_hello : hello_waits s;
}.

(** ** The request of the handshake *)

(** The operation of the handshake is where it was. *)
Definition same_hello (r r' : run_state) : Prop :=
  match r with
  | active (run_group se) => exists se', r' = active (run_group se') /\ session_hello se' = session_hello se
  | _ => r' = r
  end.

Definition no_new_hello (s s' : system) : Prop :=
  forall id p, execs s' !! id = Some p -> owner_ p = handshake -> execs s !! id = Some p.

Lemma same_hello_refl r : same_hello r r.
Proof. destruct r as [|[| | |se|d]|]; try done. by exists se. Qed.

Lemma hello_waits_same (s s' : system) :
  same_hello (run s) (run s') -> no_new_hello s s' -> hello_waits s -> hello_waits s'.
Proof.
  intros Hsame Hn Hw id p Hp Ho. destruct (Hw id p (Hn id p Hp Ho) Ho) as (se & Hrun & Hse). rewrite Hrun in Hsame.
  destruct Hsame as (se' & Hrun' & Hse'). exists se'. by rewrite Hse'.
Qed.

(** Without an unfinished handshake nobody waits for it. *)
Lemma hello_waits_none (s s' : system) :
  hello_waits s -> (forall se, run s = active (run_group se) -> exists ec, session_hello se = co_complete ec) ->
  execs s' = execs s -> hello_waits s'.
Proof.
  intros Hw Hn He id p Hp Ho. rewrite He in Hp. destruct (Hw id p Hp Ho) as (se & Hrun & Hse).
  destruct (Hn se Hrun) as (ec & Hec). by rewrite Hse in Hec.
Qed.

Lemma launch_no_hello o id p (s : system) : o <> handshake -> no_new_hello s (launch o id p s).
Proof.
  intros Hne i q. cbn [execs launch set_execs]. destruct (decide (i = id)) as [->|Hi].
  - rewrite lookup_insert_eq. by intros [= <-] ?.
  - by rewrite lookup_insert_ne.
Qed.

Lemma launch_ping_no_hello k (s : system) : no_new_hello s (launch_ping k s).
Proof. destruct k as [[|id p|d]|]; cbn [launch_ping]; try (by intros ? ?). by apply launch_no_hello. Qed.

(** The events of the session leave the handshake alone. *)
Lemma session_hello_same ev (s s' : system) se :
  ev <> ev_group -> run s = active (run_group se) -> session_step ev s se = Some (Done s') ->
  same_hello (run s) (run s') /\ no_new_hello s s'.
Proof.
  intros Hev Hrun Hst. rewrite Hrun. cbn [same_hello].
  destruct ev; cbn [session_step] in Hst; try done.
  1,2: destruct se as [h p c r [[v|]|]]; try done; split_step; split; [by eexists|by intros ? ?].
  - destruct se as [h p c [[tmp size|n]|] w]; try done. split_step. split; [by eexists|by intros ? ?].
  - destruct se as [h p c [[tmp size|n]|] w]; try done. destruct (if has_ec ec then _ else _) as [ch|]; [|done].
    split_step. split; [by eexists|by intros ? ?].
  - destruct se as [h [[|id p|d]|] c r w]; try done. split_step. split; [by eexists|by intros ? ?].
  - destruct se as [h [[|id p|d]|] c r w]; try done. split_step.
    match goal with |- context [launch_ping ?k ?s1] => pose proof (launch_ping_no_hello k s1) as Hn; destruct (launch_ping_conn k s1) as (_ & _ & ->) end.
    split; [by eexists|exact Hn].
  - destruct se as [h p [[|d]|] r w]; try done. split_step. split; [by eexists|by intros ? ?].
  - destruct se as [h p [[|d]|] r w]; try done. split_step. split; [by eexists|by intros ? ?].
Qed.

(** ** Requests that complete *)

Lemma cancel_run_lost (c c' : connection) : cancel c operation.run = Done c' -> run_is_canceled c' = true.
Proof.
  cbn [cancel]. unfold cancel_run. intros Hc. apply bind_done in Hc as ([m n] & Hm & [= <-]).
  by apply cancel_on_conn_lost_buffers in Hm as (_ & _ & ?).
Qed.

Lemma hello_fails (c c' : connection) ec k : has_ec ec = true -> hello_resume c ec = Done (c', k) -> run_is_canceled c' = true.
Proof.
  unfold hello_resume. intros ->. intros Hc. apply bind_done in Hc as (c1 & Hc & [= <- _]). by eapply cancel_run_lost.
Qed.

(** The handshake completes: the session is lost, or HELLO was answered. *)
Definition hello_completes (s s' : system) (id : elem_id) (p : exec_point) : Prop :=
  exists se se' ec, run s = active (run_group se) /\ session_hello se = co_yield (id, p) /\
    run s' = active (run_group se') /\ session_hello se' = co_complete ec /\
    (run_is_canceled (conn s') = true \/ exists e, store (mpx_ (conn s)) !! id = Some e /\ remaining_responses_ e = 0).

Lemma exec_done_hello o id r (s s' : system) :
  exec_done o id r s = Done s' ->
  execs s' = execs s /\
  (same_hello (run s) (run s') \/
   o = handshake /\ exists se se' ec, run s = active (run_group se) /\ run s' = active (run_group se') /\
     session_hello se' = co_complete ec /\ (has_ec r.1 = true -> run_is_canceled (conn s') = true)).
Proof.
  destruct o; cbn [exec_done].
  - intros [= <-]. split; [done|]. left. apply same_hello_refl.
  - destruct (run s) as [|[| | |se|d]|] eqn:Hrun; try (intros [= <-]; rewrite Hrun; split; [done|by left]).
    intros Hc. apply bind_done in Hc as ([c ec] & Hh & [= <-]). split; [done|]. right. split; [done|].
    exists se, (with_hello se (co_complete ec)), ec. split_and!; [done..|]. intros He. by eapply hello_fails.
  - destruct (run s) as [|[| | |se|d]|] eqn:Hrun; try (intros [= <-]; rewrite Hrun; split; [done|by left]).
    intros Hc. apply bind_done in Hc as ([c k] & _ & [= <-]). split; [done|]. left. by eexists.
Qed.

(** What the completion of an operation of a request needs. *)
Definition resumes (s : system) (id : elem_id) (p : pending) (x : cancellation) : Prop :=
  execs s !! id = Some p /\
  (at_ p = exec_waiting -> x <> cancelled_other /\ (x = not_cancelled -> (received p < notifications s id)%nat)).

Lemma exec_resume_result (s : system) (c : connection) id p x k :
  sys_ok s -> resumes s id p x -> exec_resume (at_ p) (conn s) id x = Done (c, k) ->
  exists r, k = co_complete r /\
    (has_ec r.1 = true \/ exists e, store (mpx_ (conn s)) !! id = Some e /\ remaining_responses_ e = 0).
Proof.
  intros Hok [Hp Hev] Hex. destruct (at_ p) eqn:Hat; [injection Hex as <- <-; eexists; split; [done|by left]|].
  destruct (Hev eq_refl) as [Hother Hnot]. apply exec_resume_cases in Hex as (e & He & Hcase).
  destruct Hcase as [ev Hec|Hec Hx|m Hec Hw Hrm|c' Ha|Hec Hx]; [| | | |done]; (eexists; split; [done|]); [by left| |by left..].
  right. exists e. split; [done|]. specialize (Hnot Hx). unfold notifications in Hnot. rewrite He in Hnot.
  by apply (tracked_result _ _ _ _ (ok_tracked _ _ _ (ok_requests _ Hok) _ _ Hp) Hat He Hnot Hec).
Qed.

Lemma resume_exec_hello (s s' : system) id p n x :
  sys_ok s -> hello_waits s -> resumes s id p x -> resume_exec id p n x s = Done s' ->
  hello_waits s' /\ (same_hello (run s) (run s') \/ hello_completes s s' id (at_ p)).
Proof.
  intros Hok Hw Hres. unfold resume_exec. intros Hc. apply bind_done in Hc as ([c k] & Hex & Hc).
  destruct (exec_resume_result _ _ _ _ _ _ Hok Hres Hex) as (r & -> & Hr). destruct Hres as [Hp _].
  apply exec_done_hello in Hc as [Hx Hcase]. cbn [execs run conn set_conn set_execs] in Hx, Hcase.
  assert (no_new_hello s s') as Hn.
  { intros i q. rewrite Hx. intros [_ ?]%lookup_delete_Some. done. }
  destruct Hcase as [Hs|(Ho & se & se' & ec & Hrun & Hrun' & Hk & Hf)]; [split; [by eapply hello_waits_same|by left]|].
  destruct (Hw id p Hp Ho) as (se0 & Hrun0 & Hse). rewrite Hrun in Hrun0. injection Hrun0 as <-. split.
  - intros i q Hi Hq. rewrite Hx in Hi. apply lookup_delete_Some in Hi as [Hne Hi]. destruct (Hw i q Hi Hq) as (se1 & Hrun1 & Hse1).
    rewrite Hrun in Hrun1. injection Hrun1 as <-. rewrite Hse in Hse1. injection Hse1 as -> _. by destruct Hne.
  - right. exists se, se', ec. split_and!; [done..|]. destruct Hr as [Hr|Hr]; [left; auto|by right].
Qed.

Lemma hello_waits_call ev (s s' : system) :
  sys_ok s -> hello_waits s -> event_ok ev -> calls ev = true -> step ev s = Some (Done s') ->
  hello_waits s' /\ (same_hello (run s) (run s') \/ exists id p, hello_completes s s' id p).
Proof.
  intros Hok Hw Hev Hcall Hst.
  assert (forall id p n x, resumes s id p x -> resume_exec id p n x s = Done s' ->
    hello_waits s' /\ (same_hello (run s) (run s') \/ exists id p, hello_completes s s' id p)) as Hres.
  { intros id p n x Hr Hc. destruct (resume_exec_hello _ _ _ _ _ _ Hok Hw Hr Hc) as [? [?|?]]; eauto. }
  assert (forall c, hello_waits (set_conn s c)) as Hc by (intros c; exact Hw).
  destruct ev; try done; cbn [step] in Hst.
  - split_step. match goal with Hc : async_exec _ _ _ = Done (?p, _) |- _ => destruct p; cbn in Hst; split_step end.
    split; [|left; apply same_hello_refl].
    apply (hello_waits_same (set_conn s c)); [apply same_hello_refl|by apply launch_no_hello|apply Hc].
  - split_step. split; [apply Hc|left; apply same_hello_refl].
  - split_step. split; [apply Hc|left; apply same_hello_refl].
  - split_step. split; [apply Hc|left; apply same_hello_refl].
  - destruct (execs s !! id) as [[o [|] n]|] eqn:Hp; [|done..]. split_step. by eapply Hres.
  - destruct (execs s !! id) as [[o [|] n]|] eqn:Hp; [done| |done]. destruct (Nat.ltb_spec n (notifications s id)); [|done].
    split_step. eapply Hres; [|done]. by split.
  - destruct (execs s !! id) as [[o [|] n]|] eqn:Hp; [done| |done]. destruct (_ =? _)%nat; [|done]. cbn [andb] in Hst.
    destruct x; [done|..]; split_step; (eapply Hres; [|done]); by split.
Qed.

(** Every event during a session, other than its end. *)
Lemma hello_waits_session ev (s s' : system) se :
  sys_ok s -> hello_waits s -> event_ok ev -> ev <> ev_group -> run s = active (run_group se) -> step ev s = Some (Done s') ->
  hello_waits s' /\ (same_hello (run s) (run s') \/ exists id p, hello_completes s s' id p).
Proof.
  intros Hok Hw Hev Hng Hrun Hst. destruct (calls ev) eqn:Hc; [by eapply hello_waits_call|].
  destruct (step_session_step ev s se Hrun Hc) as [Hs|Hs]; rewrite Hs in Hst; [|done].
  destruct (session_hello_same _ _ _ _ Hng Hrun Hst). split; [by eapply hello_waits_same|by left].
Qed.

(** ** A session on a closed stream *)

Lemma reader_closed p (c c' : connection) ec data k :
  wf (mpx_ c) -> is_open c = false -> reader_resume p c ec data = Done (c', k) -> simulated false false (mpx_ c) (mpx_ c').
Proof.
  intros Hwf Ho. assert (forall (c1 : connection) A (a a' : A), mpx_ c1 = mpx_ c ->
    (c2 ← cancel c1 operation.run; Done (c2, a)) = Done (c', a') -> simulated false false (mpx_ c) (mpx_ c')) as Hcan.
  { intros c1 A a a' Hm [Ha _]%(cancel_run_then false). rewrite <- Hm in *. by apply (adv_client _ _ _ _ Ha). }
  destruct p as [tmp size|n]; cbn [reader_resume]; unfold append_some_complete; destruct (has_ec ec); try (by apply Hcan).
  - replace (is_open (logc _ _)) with (is_open c) by done. rewrite Ho. cbn [negb]. intros [= <- _]. by apply simulated_same.
  - rewrite Ho. cbn [negb]. by intros [= <- _].
Qed.

(** Nothing is read then. *)
Lemma step_closed ev (s s' : system) se :
  sys_ok s -> event_ok ev -> run s = active (run_group se) -> is_open (conn s) = false -> step ev s = Some (Done s') ->
  simulated false (writes ev) (mpx_ (conn s)) (mpx_ (conn s')).
Proof.
  intros Hok Hev Hrun Ho Hst. pose proof (ok_wf _ _ _ (ok_requests _ Hok)) as Hwf.
  destruct (reads ev) eqn:Hr; [|destruct (step_moved _ _ _ _ Hok Hev Hrun Hst) as [Hm _]; rewrite Hr in Hm; by apply Hm].
  destruct ev; try done; cbn [step] in Hst; unfold run_step in Hst; rewrite Hrun in Hst; cbn [session_step] in Hst;
    destruct se as [h p c [[tmp size|n]|] w]; try done.
  - split_step. by eapply reader_closed.
  - destruct (if has_ec ec then _ else _) as [ch|]; [|done]. split_step.
    match goal with Hc : reader_resume _ (set_channel ?c ch) _ _ = Done _ |- _ => by eapply (reader_closed _ (set_channel c ch)) end.
Qed.

Lemma simulated_left wr m m' cl id e :
  simulated false wr m m' -> implements m cl -> (wr = true -> started cl = true) -> store m !! id = Some e ->
  exists e', store m' !! id = Some e' /\ remaining_responses_ e' = remaining_responses_ e.
Proof.
  intros Hs Hi Hst He. destruct (Hs cl Hi Hst) as (acts & o & cl' & Ha & Hr & Hi').
  destruct (run_remembers false _ _ _ _ Hr) as [Hrem _].
  { intros _. rewrite forallb_forall in *. intros a Hin. specialize (Ha a Hin). by destruct a. }
  destruct (Hrem id (told_of e)) as (r' & Hr' & _ & Hl); [by rewrite (imp_told _ _ Hi), lookup_fmap, He|].
  rewrite (imp_told _ _ Hi'), lookup_fmap in Hr'. destruct (store m' !! id) as [e'|]; [|done]. injection Hr' as <-.
  exists e'. by specialize (Hl eq_refl).
Qed.

Lemma greeting_session ev (s s' : system) se se' cl :
  sys_ok s -> event_ok ev -> client_of s cl -> ev <> ev_group -> run s = active (run_group se) -> step ev s = Some (Done s') ->
  run s' = active (run_group se') -> greeting (conn s') se'.
Proof.
  intros Hok Hev [Hi Hg Hw] Hng Hrun Hst Hrun' Ho Hf. rewrite Hrun in Hg. destruct Hg as [Hstart Hg].
  destruct (step_moved _ _ _ _ Hok Hev Hrun Hst) as [_ [[Ho' Hf']|[_ Hf']]]; [|by rewrite Hf in Hf'].
  rewrite Ho in Ho'. rewrite Hf in Hf'. destruct (Hg (eq_sym Ho') (eq_sym Hf')) as (id & p & e & Hse & He & Hl).
  destruct (simulated_left _ _ _ _ _ _ (step_closed _ _ _ _ Hok Hev Hrun (eq_sym Ho') Hst) Hi (fun _ => Hstart) He) as (e' & He' & Hl').
  destruct (hello_waits_session _ _ _ _ Hok Hw Hev Hng Hrun Hst) as [_ [Hs|(i & q & se1 & se2 & ec & Hr1 & Hs1 & Hr2 & _ & Hend)]].
  - rewrite Hrun in Hs. destruct Hs as (se2 & Hr2 & Hs). rewrite Hrun' in Hr2. injection Hr2 as <-. exists id, p, e'.
    split_and!; [congruence|done|by rewrite Hl'].
  - rewrite Hrun in Hr1. injection Hr1 as <-. rewrite Hse in Hs1. injection Hs1 as <- <-.
    destruct Hend as [Hend|(e1 & He1 & Hl1)]; congruence.
Qed.

(** ** Simulation *)

(** The client does what an event does, and ends up in the new state. *)
Definition follows (ev : event) (cl : client) (s' : system) : Prop :=
  exists acts o cl', forallb (permits ev) acts = true /\ client_run acts cl = Some (cl', o) /\ client_of s' cl'.

Lemma allowed_permits ev wr acts :
  (wr = true -> writes ev || starting ev = true) ->
  forallb (allowed (reads ev) wr) acts = true -> forallb (permits ev) acts = true.
Proof.
  intros Hw. rewrite !forallb_forall. intros Ha a Hin. specialize (Ha a Hin). unfold permits.
  destruct a; cbn [allowed] in *; auto. done.
Qed.

Lemma allowed_calls ev acts : forallb (allowed false false) acts = true -> forallb (permits ev) acts = true.
Proof.
  rewrite !forallb_forall. intros Ha a Hin. specialize (Ha a Hin). by destruct a.
Qed.

(** Between the sessions nothing goes out. *)
Lemma idle_follows ev (s s' : system) cl :
  client_of s cl -> (forall se, run s <> active (run_group se)) -> (forall se, run s' <> active (run_group se)) ->
  simulated false false (mpx_ (conn s)) (mpx_ (conn s')) -> hello_waits s' -> follows ev cl s'.
Proof.
  intros [Hi Hl _] Hn Hn' Hs Hw. assert (live cl = false) as Hlive by (destruct (run s) as [|[| | |se|d]|]; try done; by destruct (Hn se)).
  destruct (Hs cl Hi) as (acts & o & cl' & Ha & Hr & Hi'); [done|]. exists acts, o, cl'.
  split_and!; [by apply allowed_calls|done|]. split; [done| |done].
  assert (live cl' = false) as Hlive'.
  { unfold live in *. rewrite (allowed_started _ _ _ _ _ _ Hr Ha). destruct (started cl); [|done]. cbn [andb] in *.
    rewrite (run_lost _ _ _ _ Hr); [done| |by apply negb_false_iff]. intros a Hin ->. rewrite forallb_forall in Ha.
    by specialize (Ha act_start ltac:(by apply list_elem_of_In)). }
  destruct (run s') as [|[| | |se|d]|]; try done. by destruct (Hn' se).
Qed.

Lemma session_follows ev (s s' : system) se cl :
  sys_ok s -> event_ok ev -> client_of s cl -> ev <> ev_group -> run s = active (run_group se) -> step ev s = Some (Done s') ->
  follows ev cl s'.
Proof.
  intros Hok Hev Hcl Hng Hrun Hst. pose proof Hcl as [Hi Hg Hw]. rewrite Hrun in Hg. destruct Hg as [Hstart _].
  destruct (step_moved _ _ _ _ Hok Hev Hrun Hst) as [Hm _].
  destruct (mv_client _ _ _ _ Hm (ok_wf _ _ _ (ok_requests _ Hok)) cl Hi (fun _ => Hstart)) as (acts & o & cl' & Ha & Hr & Hi').
  exists acts, o, cl'. split_and!; [by eapply allowed_permits; [|exact Ha]; intros ->|done|].
  destruct (hello_waits_session _ _ _ _ Hok Hw Hev Hng Hrun Hst) as [Hw' Hs].
  assert (exists se', run s' = active (run_group se')) as [se' Hrun'].
  { destruct Hs as [Hs|(? & ? & ? & se' & ? & _ & _ & Hr' & _)]; [|by exists se']. rewrite Hrun in Hs.
    destruct Hs as (se' & ? & _). by exists se'. }
  split; [done| |done]. rewrite Hrun'. split; [by rewrite (allowed_started _ _ _ _ _ _ Hr Ha)|by eapply greeting_session].
Qed.

(** A session whose operations are all complete is lost. *)
Lemma group_lost (s : system) se g cl :
  sys_ok s -> client_of s cl -> run s = active (run_group se) -> group_complete s se = Some g ->
  run_is_canceled (conn s) = true /\ exists ec, session_hello se = co_complete ec.
Proof.
  intros [_ Hr] [_ Hg _] Hrun Hgc. rewrite Hrun in Hr, Hg. destruct Hr as [(_ & _ & Hclosed) _]. destruct Hg as [_ Hg].
  unfold group_complete in Hgc. destruct (session_hello se) as [|ec] eqn:Hh; [done|]. split; [|by eexists].
  destruct (session_ping se); [done|]. destruct (session_check se); [done|]. destruct (session_reader se) as [|er]; [done|].
  destruct (run_is_canceled (conn s)) eqn:Hf; [done|]. destruct (Hg (Hclosed er eq_refl) Hf) as (id & p & e & Hy & _).
  by rewrite Hh in Hy.
Qed.

Lemma after_run_other (s : system) (c : connection) k :
  (forall se, k <> co_yield (run_group se)) ->
  conn (after_run s (c, k)) = c /\ execs (after_run s (c, k)) = execs s /\ forall se, run (after_run s (c, k)) <> active (run_group se).
Proof. intros Hk. destruct k as [[| | |se|d]|ec]; cbn [after_run]; try done. by destruct (Hk se). Qed.

Lemma group_follows (s s' : system) se cl :
  sys_ok s -> client_of s cl -> run s = active (run_group se) -> step ev_group s = Some (Done s') -> follows ev_group cl s'.
Proof.
  intros Hok Hcl Hrun Hst. pose proof Hcl as [Hi Hg Hw]. destruct (step_moved ev_group _ _ _ Hok I Hrun Hst) as [Hm Hc].
  destruct (mv_client _ _ _ _ Hm (ok_wf _ _ _ (ok_requests _ Hok)) cl Hi) as (acts & o & cl' & Ha & Hr & Hi'); [done|].
  exists acts, o, cl'. split_and!; [by apply allowed_calls|done|].
  cbn [step] in Hst. unfold run_step in Hst. rewrite Hrun in Hst. cbn [session_step] in Hst.
  destruct (group_complete s se) as [g|] eqn:Hgc; [|done]. destruct (group_lost _ _ _ _ Hok Hcl Hrun Hgc) as [Hf Hh]. split_step.
  match goal with Hc : run_resume _ _ _ = Done ?r |- _ => destruct r as [c k]; apply run_group_done_advances in Hc as [Ha' Hk] end.
  destruct (after_run_other s c k Hk) as (Ec & Ex & Hn).
  split; [done| |eapply hello_waits_none; [exact Hw| |done]; intros se1; rewrite Hrun; by intros [= <-]].
  assert (live cl' = false) as Hlive.
  { unfold live. rewrite (imp_lost _ _ Hi'). fold (run_is_canceled (conn (after_run s (c, k)))).
    destruct Hc as [[_ Hc]|[_ Hc]]; rewrite Hc; [rewrite Hf|]; by rewrite andb_false_r. }
  destruct (run (after_run s (c, k))) as [|[| | |se1|d]|]; try done. by destruct (Hn se1).
Qed.

(** ** The start of a session *)

Lemma start_session_simulated (c c' : connection) se cl :
  wf (mpx_ c) -> get_expected_responses (ping_req_ (health_checker_ c)) < size_modulus ->
  implements (Multiplexer.reset (mpx_ c)) cl -> started cl = true -> start_session c = Done (c', se) ->
  simulated false true (Multiplexer.reset (mpx_ c)) (mpx_ c') /\
  exists id p e, session_hello se = co_yield (id, p) /\ store (mpx_ c') !! id = Some e /\ remaining_responses_ e <> 0.
Proof.
  intros Hwf Hpg Hi Hstart Hst. destruct (start_session_parts _ _ _ Hwf Hpg Hst)
    as (c1 & c2 & c3 & c4 & id & p & [(A1 & _) Eh (e & He & Hl) Hp A3 A4 S4 _ A5 _]).
  pose proof (ping_advances_weak _ _ _ Hp) as A2. set (m0 := Multiplexer.reset (mpx_ c)) in *.
  assert (wf m0) as W0 by (by apply (evolves_wf (mpx_ c)); [apply evolves_same|]).
  assert (wf (mpx_ c1)) as W1 by (by apply A1). assert (wf (mpx_ c2)) as W2 by (by apply A2).
  assert (wf (mpx_ c4)) as W4 by (by apply A4, A3).
  assert (simulated false true m0 (mpx_ c1)) as S1 by (by apply simulated_weaken, (adv_client _ _ _ _ A1)).
  assert (simulated false true (mpx_ c1) (mpx_ c')) as S2.
  { transitivity (mpx_ c2); [by apply simulated_weaken, (adv_client _ _ _ _ A2)|].
    transitivity (mpx_ c3); [by apply simulated_weaken, (adv_client _ _ _ _ A3)|].
    transitivity (mpx_ c4); [by apply simulated_weaken|]. by apply (adv_client _ _ _ _ A5). }
  split; [by etransitivity|]. destruct (S1 cl Hi (fun _ => Hstart)) as (acts & o & cl1 & Ha & Hr & Hi1).
  destruct (simulated_left _ _ _ _ id e S2 Hi1) as (e' & He' & Hl').
  { intros _. by rewrite (allowed_started _ _ _ _ _ _ Hr Ha). }
  { exact He. }
  exists id, p, e'. by rewrite Hl'.
Qed.

Lemma after_run_hello (s : system) (c : connection) se id p :
  hello_waits s -> (forall se, run s <> active (run_group se)) -> session_hello se = co_yield (id, p) ->
  hello_waits (after_run s (c, co_yield (run_group se))).
Proof.
  intros Hw Hn Hh i q. cbn [after_run]. rewrite Hh. cbn [execs run set_run launch_hello]. intros Hi Hq.
  apply (launch_ping_no_hello _ _ _ _ Hi) in Hq as Hi'. clear Hi. rename Hi' into Hi. cbn [execs launch set_execs] in Hi. exists se. split; [done|].
  destruct (decide (i = id)) as [->|Hne].
  - rewrite lookup_insert_eq in Hi. by injection Hi as <-.
  - rewrite lookup_insert_ne in Hi by done. destruct (Hw i q Hi Hq) as (se1 & Hr & _). by destruct (Hn se1).
Qed.

Lemma start_follows ev (s : system) (c c' : connection) se cl :
  sys_ok s -> client_of s cl -> (forall se, run s <> active (run_group se)) -> starting ev = true ->
  mpx_ c = mpx_ (conn s) -> get_expected_responses (ping_req_ (health_checker_ c)) < size_modulus ->
  start_session c = Done (c', se) -> follows ev cl (after_run s (c', co_yield (run_group se))).
Proof.
  intros Hok [Hi Hl Hw] Hn Hev Hm Hpg Hst. assert (wf (mpx_ c)) as Hwf by (rewrite Hm; apply Hok). rewrite <- Hm in Hi.
  assert (live cl = false) as Hlive by (destruct (run s) as [|[| | |se1|d]|]; try done; by destruct (Hn se1)).
  destruct (start_implements _ _ Hi Hlive) as (cl0 & o0 & Ha0 & Hi0 & Hs0).
  destruct (start_session_simulated _ _ _ _ Hwf Hpg Hi0 Hs0 Hst) as (Hs & id & p & e & Hh & He & Hrem).
  destruct (Hs cl0 Hi0 (fun _ => Hs0)) as (acts & o & cl' & Ha & Hr & Hi').
  exists (act_start :: acts), (o0 ++ o), cl'. split_and!.
  - cbn [forallb permits]. rewrite Hev. cbn [andb]. eapply allowed_permits; [|by destruct ev]. by rewrite Hev, orb_true_r.
  - cbn [client_run]. by rewrite Ha0, Hr.
  - destruct (launch_ping_conn (session_ping se) (launch_hello (session_hello se) (set_conn s c'))) as (Ec & _).
    split; [|cbn [after_run run set_run]; split; [by rewrite (allowed_started _ _ _ _ _ _ Hr Ha)|]|by eapply after_run_hello].
    + cbn [after_run conn set_run]. rewrite Ec, Hh. done.
    + intros _ _. cbn [after_run conn set_run]. rewrite Ec, Hh. cbn. by exists id, p, e.
Qed.

(** ** Every event *)

Lemma run_resume_follows ev (s : system) p inp r cl :
  sys_ok s -> client_of s cl -> run s = active p -> (forall se, p <> run_group se) ->
  (p = run_connecting \/ p = run_ssl_handshake -> starting ev = true) ->
  run_resume p (conn s) inp = Done r -> follows ev cl (after_run s r).
Proof.
  intros Hok Hcl Hrun Hp Hev. assert (forall se, run s <> active (run_group se)) as Hn.
  { intros se. rewrite Hrun. intros [= ->]. by destruct (Hp se). }
  destruct r as [c k]. intros [(_ & Hk & [[se ->]|Hm])|(Hc & c1 & Ha & [= Hm _ _ _] & Hs)]%run_resume_cases; [by destruct (Hp se)| |].
  - destruct (after_run_other s c k Hk) as (Ec & Ex & Hn'). eapply idle_follows; [done|done|done|by rewrite Ec, Hm|].
    eapply hello_waits_none; [apply Hcl| |done]. intros se Hse. by destruct (Hn se).
  - unfold run_session in Hs. apply bind_done in Hs as ([c2 se] & Hs & [= <- <-]). eapply start_follows; [done..|by apply Hev|done| |done].
    rewrite (adv_ping _ _ _ _ Ha). eapply ok_ping, Hok.
Qed.

Lemma run_step_follows ev (s s' : system) cl :
  sys_ok s -> client_of s cl -> (forall se, run s <> active (run_group se)) -> run_step ev s = Some (Done s') -> follows ev cl s'.
Proof.
  intros Hok Hcl Hn. unfold run_step.
  assert (forall p inp, run s = active p -> (p = run_connecting \/ p = run_ssl_handshake -> starting ev = true) ->
    Some (r ← run_resume p (conn s) inp; Done (after_run s r)) = Some (Done s') -> follows ev cl s') as Hresume.
  { intros p inp Hrun Hev Hst. split_step. eapply run_resume_follows; [done|done|done| |done|done]. intros se ->. by destruct (Hn se). }
  destruct ev; destruct (run s) as [|[| | |se|d]|] eqn:Hrun; try done; try (by destruct (Hn se)).
  - destruct (resv_ _); [by apply Hresume; [|intros [?|?]]..|]. destruct (bool_decide _); [by apply Hresume; [|intros [?|?]]|done].
  - intros [= <-]. eapply idle_follows; [done|cbn; congruence|cbn; congruence|done|]. apply Hcl.
  - by apply Hresume.
  - by apply Hresume.
  - destruct (wait_admits _ _); [by apply Hresume; [|intros [?|?]]|done].
Qed.

Lemma async_run_follows cfg (s : system) r cl :
  client_of s cl -> (forall se, run s <> active (run_group se)) -> async_run (conn s) cfg = Done r ->
  follows (ev_run cfg) cl (after_run s r).
Proof.
  intros Hcl Hn Hc. unfold async_run in Hc. apply bind_done in Hc as (c1 & Hc1 & [= <-]).
  unfold async_run_config in Hc1. apply bind_done in Hc1 as (hc & _ & [= <-]). unfold run_loop.
  eapply idle_follows; [done|done|done|done|]. eapply hello_waits_none; [apply Hcl| |done]. intros se Hse. by destruct (Hn se).
Qed.

Lemma step_follows ev (s s' : system) cl :
  sys_ok s -> event_ok ev -> client_of s cl -> step ev s = Some (Done s') -> follows ev cl s'.
Proof.
  intros Hok Hev Hcl Hst.
  assert ((exists se, run s = active (run_group se)) \/ forall se, run s <> active (run_group se)) as [[se Hrun]|Hn].
  { destruct (run s) as [|[| | |se|d]|]; [right; done|right; done|right; done|right; done|left; by eexists|right; done|right; done]. }
  - assert (ev = ev_group \/ ev <> ev_group) as [->|Hng] by (destruct ev; [right; done..|by left]);
      [by eapply group_follows|by eapply session_follows].
  - destruct (calls ev) eqn:Hc.
    + destruct (call_moved _ _ _ Hok Hev Hc Hst) as [Hm _].
      destruct (hello_waits_call _ _ _ Hok (co_hello _ _ Hcl) Hev Hc Hst) as [Hw [Hs|(? & ? & se & ? & ? & Hrun & _)]]; [|by destruct (Hn se)].
      assert (run s' = run s) as Hr by (destruct (run s) as [|[| | |se|d]|]; try done; by destruct (Hn se)).
      eapply idle_follows; [done|done|by rewrite Hr| |done]. apply (mv_client _ _ _ _ Hm), Hok.
    + destruct ev; try done; try (by eapply run_step_follows). cbn [step] in Hst.
      destruct (run s) eqn:Hrun; [|done|]; split_step; (eapply async_run_follows; [done| |done]); intros se; by rewrite Hrun.
Qed.

Lemma new_client_of (c : connection) : new_connection = Done c -> client_of (init c) new_client.
Proof.
  unfold new_connection. intros Hc. apply bind_done in Hc as (hc & _ & Hc). apply bind_done in Hc as (m & [= <-] & [= <-]).
  split; [by split|done|]. by intros id p Hp.
Qed.

Lemma steps_follow evs (s s' : system) cl :
  sys_ok s -> Forall event_ok evs -> client_of s cl -> steps evs s = Some (Done s') ->
  exists actss outs cl', Forall2 (fun ev acts => forallb (permits ev) acts = true) evs actss /\
    client_run (concat actss) cl = Some (cl', outs) /\ client_of s' cl'.
Proof.
  revert s cl. induction evs as [|ev evs IH]; intros s cl Hok Hev Hcl Hst; cbn [steps] in Hst.
  { injection Hst as <-. exists [], [], cl. by split_and!. }
  apply Forall_cons in Hev as [Hev Hevs]. destruct (step ev s) as [[s1|?|?]|] eqn:Hs; [|done..].
  destruct (step_follows _ _ _ _ Hok Hev Hcl Hs) as (acts & o & cl1 & Ha & Hr & Hcl1).
  destruct (IH s1 cl1) as (actss & outs & cl' & Hp & Hr' & Hcl'); [by eapply sys_step|done..|].
  exists (acts :: actss), (o ++ outs), cl'. split_and!; [by constructor|by eapply client_run_app|done].
Qed.

(** ** Between the sessions *)




(** ** The first write of a session *)



(** C4: Every run of a new connection, whatever its users call and the runtime
    and the server do, is a run of the abstract client: its actions are those the
    events permit, event by event, and the multiplexer at the end holds the
    requests, the bytes to send and the results of the client. *)
Theorem system_refines_client (c : connection) evs (s : system) :
  new_connection = Done c -> Forall event_ok evs -> steps evs (init c) = Some (Done s) ->
  exists actss outs cl,
    Forall2 (fun ev acts => forallb (permits ev) acts = true) evs actss /\
    client_run (concat actss) new_client = Some (cl, outs) /\ implements (mpx_ (conn s)) cl.
Proof.
  intros Hc Hev Hst. destruct (steps_follow _ _ _ _ (new_connection_ok _ Hc) Hev (new_client_of _ Hc) Hst)
    as (actss & outs & cl & Hp & Hr & [Hi _ _]). by exists actss, outs, cl.
Qed.

End WithChannel.

(** ** A connection that serves a request *)




Lemma system_refines_client_witness :
  exists actss outs cl,
    Forall2 (fun ev acts => forallb (permits ev) acts = true) served actss /\
    client_run (concat actss) new_client = Some (cl, outs) /\ implements (mpx_ (conn (state_after served))) cl.
Proof.
  apply (system_refines_client (conn unconnected) served (state_after served)); [by vm_compute| |by vm_compute].
  repeat (apply Forall_cons_2; [by vm_compute|]). apply Forall_nil_2.
Defined.


