(* ===== verification/HealthCheck.v ===== *)
(** * Claims about the health check

    [ping_op] and [check_timeout_op] together: when a session is found dead,
    and what is left behind for the next one. *)

From stdpp Require Import gmap.
From S2P Require Import Prelude Charconv Types Parser Resp3 Serialization Request Adapters Traits.
From S2P Require Import Multiplexer MultiplexerInvariant MultiplexerRead MultiplexerClaims Evolution Logger Session Connection Run Advance.
From S2P Require Import ConnectionClaims System SystemInvariant Scenario.

#[local] Open Scope string_scope.
#[local] Open Scope N_scope.
#[local] Open Scope list_scope.

Section WithChannel.
Context {Ch Ep : Type} `{Channel Ch} `{Platform Ep}.
Abbreviation connection := (connection Ch Ep).

(** The response object of the pings can be assigned through the request that
    refers to it. *)
Definition ping_shared (c : connection) : Prop :=
  forall id, ping_elem_ c = Some id -> exists e, store (mpx_ c) !! id = Some e /\
    forall r, any_object (any_assign r (adapter_ e)) = Some r.

Lemma assign_ping_response_get (c : connection) r : ping_shared c -> ping_response (assign_ping_response c r) = r.
Proof.
  intros Hs. unfold ping_response, assign_ping_response, shared_response, assign_shared, ping_shared in *.
  destruct (ping_elem_ c) as [id|] eqn:Hid; cbn [set_checker ping_elem_ set_mpx mpx_ health_checker_ set_store store]; rewrite Hid; [|done]. destruct (Hs id eq_refl) as (e & He & Hr).
  rewrite lookup_alter_eq, He. cbn [from_option fmap option_fmap option_map set_adapter adapter_]. by rewrite Hr.
Qed.

Lemma cancel_run_parts (c c' : connection) :
  cancel_run c = Done c' -> is_open c' = false /\ health_checker_ c' = health_checker_ c /\ ping_elem_ c' = ping_elem_ c.
Proof.
  unfold cancel_run. intros Hc. apply bind_done in Hc as ([m n] & _ & [= <-]). unfold close, is_open.
  by destruct (stream_open c) eqn:Ho.
Qed.

(** What a session of the health check does when its timer expires. *)
Lemma check_empty (c : connection) d :
  wf (mpx_ c) -> ping_response c = r_value [] ->
  exists c', check_resume (check_waiting d) c None = Done (c', co_complete (make_error_code error.pong_timeout)) /\
    is_open c' = false /\ checker_has_exited_ (health_checker_ c') = true /\
    ping_interval_ (health_checker_ c') = ping_interval_ (health_checker_ c) /\
    ping_timer_ (health_checker_ c') = wait_cancel (ping_timer_ (health_checker_ c)).
Proof.
  intros Hwf Hr. cbn [check_resume has_ec].
  change (ping_response (set_checker c _)) with (shared_response c (ping_elem_ c) (ping_resp_ (health_checker_ c))).
  fold (ping_response c). rewrite Hr. cbn [cancel].
  match goal with |- context [cancel_run ?x] => destruct (cancel_run_returns x Hwf) as [c1 Hc1]; rewrite Hc1 end.
  apply cancel_run_parts in Hc1 as (Ho & Hh & _). cbn [mbind outcome_bind]. eexists. split; [reflexivity|].
  unfold is_open in *. cbn. rewrite Hh. by split_and!.
Qed.

(** C27: When the timer of the check expires, an empty response object means that
    no pong has arrived: the check ends with [pong_timeout], the connection is
    closed, and the timer of the pings is cancelled.  A response leads to another
    wait, after the object has been cleared; an error response ends the check
    without an error, as does an error of the timer, and neither closes the
    connection. *)
Theorem check_timeout_decides (c : connection) d ec :
  wf (mpx_ c) -> ping_interval_ (health_checker_ c) <> 0%Z ->
  exists c' k, check_resume (check_waiting d) c ec = Done (c', k) /\
    match ec, ping_response c with
    | None, r_value [] => k = co_complete (make_error_code error.pong_timeout) /\ is_open c' = false /\
        ping_timer_ (health_checker_ c') = wait_cancel (ping_timer_ (health_checker_ c))
    | None, r_value (_ :: _) => k = co_yield (check_waiting (2 * ping_interval_ (health_checker_ c))%Z) /\
        wait_timer_ (health_checker_ c') = armed /\ is_open c' = is_open c /\
        reqs_ (mpx_ c') = reqs_ (mpx_ c) /\ (ping_shared c -> ping_response c' = r_value [])
    | _, _ => k = co_complete ec /\ is_open c' = is_open c /\ mpx_ c' = mpx_ c
    end.
Proof.
  intros Hwf Hi. destruct ec as [ev|].
  { eexists _, _. split; [reflexivity|]. by split_and!. }
  destruct (ping_response c) as [[|nd l]|e] eqn:Hr.
  - destruct (check_empty c d Hwf Hr) as (c' & Hc & ? & _ & _ & ?). exists c', (co_complete (make_error_code error.pong_timeout)). by split_and!.
  - cbn [check_resume has_ec]. set (c1 := set_checker c (set_wait_timer quiet (health_checker_ c))).
    assert (ping_response c1 = r_value (nd :: l)) as -> by exact Hr. unfold check_loop.
    change (ping_interval_ (health_checker_ (assign_ping_response c1 _))) with (ping_interval_ (health_checker_ c)).
    rewrite (proj2 (Z.eqb_neq _ _) Hi). eexists _, _. split; [reflexivity|].
    assert (forall r, reqs_ (mpx_ (assign_ping_response c1 r)) = reqs_ (mpx_ c) /\ is_open (assign_ping_response c1 r) = is_open c) as Ha.
    { intros r. unfold assign_ping_response, assign_shared, is_open. change (ping_elem_ c1) with (ping_elem_ c). by destruct (ping_elem_ c). }
    split_and!; [done|done|by apply Ha|by apply Ha|]. intros Hs. exact (assign_ping_response_get c1 (r_value []) Hs).
  - cbn [check_resume has_ec]. set (c1 := set_checker c (set_wait_timer quiet (health_checker_ c))).
    assert (ping_response c1 = r_error e) as -> by exact Hr. eexists _, _. split; [reflexivity|]. by split_and!.
Qed.

(** ** The next session *)




End WithChannel.

(** ** Instances *)

(** Only HELLO is answered, and the timer of the check expires. *)
Definition silent : list example_event :=
  opening ++ [ev_written None; ev_read None (bytes_of [ok_reply]); ev_notified 0%nat not_cancelled].

Lemma silent_wf : wf (mpx_ (conn (state_after silent))).
Proof. apply (fun H => ok_wf _ _ _ (ok_requests (state_after silent) (reachable_ok (state_after silent) H))). reachable_state. Qed.

Lemma check_timeout_decides_witness :
  exists c', check_resume (check_waiting 0%Z) (conn (state_after silent)) None =
      Done (c', co_complete (make_error_code error.pong_timeout)) /\ is_open c' = false.
Proof.
  destruct (check_timeout_decides (conn (state_after silent)) 0%Z None silent_wf ltac:(by vm_compute)) as (c' & k & Hc & Hk).
  assert (ping_response (conn (state_after silent)) = r_value []) as Hr by (by vm_compute).
  rewrite Hr in Hk. destruct Hk as (-> & Ho & _). exists c'. exact (conj Hc Ho).
Defined.


(** The session dies, and the connection is opened again. *)
Definition reopened : list example_event :=
  silent ++ [ev_check_timer None; ev_notified 1%nat not_cancelled; ev_read (Some operation_aborted) [];
    ev_writer_timer (Some operation_aborted); ev_group; ev_reconnect None;
    ev_resolved None [bs "10.0.0.1:6379"]; ev_opened; ev_connected None (bs "10.0.0.1:6379") true].

(** The new session writes HELLO and no PING; answered by the server, it is
    taken for dead all the same. *)
Lemma reopened_without_ping :
  exists h k r se',
    run (state_after reopened) = active (run_group (mk_session h (co_complete None) k r
      (co_yield (writer_writing (wire [[bs "HELLO"; bs "3"; bs "SETNAME"; bs "Boost.Redis"]]))))) /\
    run (state_after (reopened ++ [ev_written None; ev_read None (bytes_of [ok_reply]); ev_notified 2%nat not_cancelled;
      ev_check_timer None])) = active (run_group se') /\
    session_check se' = co_complete (make_error_code error.pong_timeout).
Proof. vm_compute. eexists _, _, _, _. split_and!; reflexivity. Qed.

(** A ping that is answered with an error, and the next one with a pong. *)
Definition loading : list example_event :=
  opening ++ [ev_written None; ev_read None (bytes_of [ok_reply; r_simple type.simple_error (bs "LOADING")]);
    ev_notified 0%nat not_cancelled; ev_notified 1%nat not_cancelled; ev_ping_timer None;
    ev_writer_timer (Some operation_aborted); ev_written None].

(** The response object of the pings keeps the error of an earlier ping.
    After a server has answered one ping with an error, as while it loads its
    data, the first pong throws [bad_result_access] out of the reader, and so out
    of the event loop of the program. *)
Theorem pong_after_error_throws :
  sys_reachable (state_after loading) /\
  step (ev_read None (bytes_of [bulk (bs "Boost.Redis")])) (state_after loading) = Some (Throw bad_result_access).
Proof. split; [reachable_state|by vm_compute]. Qed.
