(* ===== verification/SystemClaims.v ===== *)
(** * Claims about the system *)

From stdpp Require Import gmap.
From S2P Require Import Prelude Charconv Types Parser Serialization Request Adapters Traits.
From S2P Require Import Multiplexer MultiplexerInvariant Evolution Logger Session Connection Run Advance System SystemInvariant SystemMoves.
From S2P Require Import MultiplexerClaims ConnectionClaims Scenario.

#[local] Open Scope string_scope.
#[local] Open Scope N_scope.
#[local] Open Scope list_scope.

Section WithChannel.
Context {Ch Ep : Type} `{Channel Ch} `{Platform Ep}.
Abbreviation connection := (connection Ch Ep).
Abbreviation system := (system Ch Ep).
Abbreviation event := (event Ep).

(** ** Completions *)

Lemma exec_done_returns o id r (s : system) :
  requests_ok (conn s) (execs s) (results s) -> exists s', exec_done o id r s = Done s'.
Proof.
  intros Hq. pose proof (ok_wf _ _ _ Hq) as Hwf. destruct o; cbn [exec_done]; [by eexists| |];
    (destruct (run s) as [|[| | |se|d]|]; try by eexists).
  - destruct (hello_resume_returns (conn s) r.1 Hwf) as [[c ec] ->]. by eexists.
  - destruct (ping_resume_returns (ping_executing id exec_waiting) (conn s) r.1 Hwf (ok_ping _ _ _ Hq)) as [[c k] ->]. by eexists.
Qed.

(** A request in progress, resumed, returns. *)
Lemma resume_exec_returns (s : system) id p n x :
  sys_ok s -> execs s !! id = Some p -> exists s', resume_exec id p n x s = Done s'.
Proof.
  intros [Hq Hr] Hp. unfold resume_exec. pose proof (ok_wf _ _ _ Hq) as Hwf.
  assert (forall c r, requests_ok c (delete id (execs s)) (results s) ->
    exists s', exec_done (owner_ p) id r (set_execs (set_conn s c) (delete id (execs s))) = Done s') as Hdone.
  { intros c r Hq'. by apply exec_done_returns. }
  destruct (at_ p) eqn:Hat; cbn [exec_resume]; [by apply Hdone, requests_drop|].
  destruct (ok_tracked _ _ _ Hq id p Hp) as (e & He & _ & Hw). unfold deref. rewrite He. cbn [mbind outcome_bind].
  destruct (ec_ e) as [ev|] eqn:Hec; cbn [has_ec]; [by apply Hdone, requests_drop|].
  destruct (is_cancelled x) eqn:Hx; [|by apply Hdone, requests_drop].
  destruct (remove_returns (mpx_ (conn s)) id e) as (m & b & Hrm); [done|done| |].
  { intros Hwait. destruct (Hw Hat) as [[? _]|(_ & [[? Hs]|[Hs _]] & _)]; [done|congruence|].
    unfold is_waiting in Hwait. by apply bool_decide_eq_true in Hwait. }
  rewrite Hrm. cbn [mbind outcome_bind]. destruct b; cbn [fst]; [apply Hdone; by eapply requests_removed|].
  assert (wf (mpx_ (set_mpx (conn s) m))) as Hwf' by (by eapply wf_remove).
  destruct x; [done| |by eexists].
  destruct (cancel_returns (set_mpx (conn s) m) operation.run Hwf') as [c Hc]. rewrite Hc. cbn [mbind outcome_bind].
  apply Hdone, requests_drop. apply (cancel_advances false) in Hc. eapply requests_advance; [exact Hc|].
  assert (m = mpx_ (conn s)) as ->; [|by rewrite set_mpx_same].
  unfold remove, deref in Hrm. rewrite He in Hrm. cbn in Hrm. destruct (is_waiting e); [by destruct (_ =? _)%nat|by injection Hrm].
Qed.

(** C6: No completion is lost: as long as someone waits for a request, it is in
    the queue, or its result is known and the event that delivers it is enabled
    and succeeds. *)
Theorem no_lost_completion (s : system) id p :
  sys_reachable s -> execs s !! id = Some p -> at_ p = exec_waiting ->
  id ∈ reqs_ (mpx_ (conn s)) \/
  exists e s', store (mpx_ (conn s)) !! id = Some e /\ settled e /\ step (ev_notified id not_cancelled) s = Some (Done s').
Proof.
  intros Hok%reachable_ok Hp Hat. pose proof (ok_requests _ Hok) as Hq.
  destruct (ok_tracked _ _ _ Hq id p Hp) as (e & He & _ & Hw). destruct (Hw Hat) as [[? _]|(_ & Hs & Hlt)]; [by left|right].
  destruct (resume_exec_returns s id p (S (received p)) not_cancelled Hok Hp) as [s' Hres].
  exists e, s'. split_and!; [done|done|]. cbn [step]. rewrite Hp. destruct p as [o a n]. cbn [at_ received] in Hat, Hlt, Hres. subst a.
  unfold notifications. rewrite He. cbn [from_option]. rewrite (proj2 (Nat.ltb_lt _ _) Hlt). by rewrite Hres.
Qed.

(** C10: The user gets at most one completion for a request, after which nothing
    waits for it any more, and a successful one only after all responses of the
    request were read, with their size. *)
Theorem completes_once (s : system) :
  sys_reachable s ->
  NoDup (results s).*1 /\
  forall id r, (id, r) ∈ results s -> execs s !! id = None /\
    exists e, store (mpx_ (conn s)) !! id = Some e /\
      (r.1 = None -> (id ∉ reqs_ (mpx_ (conn s))) /\ remaining_responses_ e = 0 /\ read_size_ e = r.2).
Proof.
  intros Hok%reachable_ok. pose proof (ok_requests _ Hok) as Hq. split; [apply Hq|]. intros id r Hr.
  destruct (ok_delivered _ _ _ Hq id r Hr) as (Hx & e & He & Hd). split; [done|]. exists e. split; [done|].
  intros Hn. destruct (Hd Hn) as (? & _ & ? & ?). by split_and!.
Qed.

(** ** Buffers of operations in progress *)


(** C18: While [async_write] uses the write buffer and [async_read_some] the read
    buffer, no other event changes them, whatever users and the other operations
    do in the meantime; a write in progress is of exactly the buffer. *)
Theorem in_flight_buffers (s s' : system) se ev :
  sys_reachable s -> event_ok ev -> run s = active (run_group se) -> step ev s = Some (Done s') ->
  (forall v, session_writer se = co_yield (writer_writing v) -> (forall ec, ev <> ev_written ec) ->
     write_buffer_ (mpx_ (conn s)) = v /\ write_buffer_ (mpx_ (conn s')) = v) /\
  (forall tmp size, session_reader se = co_yield (reader_reading tmp size) -> (forall ec data, ev <> ev_read ec data) ->
     len (read_buffer_ (mpx_ (conn s))) = tmp + size /\ read_buffer_ (mpx_ (conn s')) = read_buffer_ (mpx_ (conn s))).
Proof.
  intros Hok%reachable_ok Hev Hrun Hst. pose proof (ok_requests _ Hok) as Hq.
  pose proof (ok_run _ Hok) as Hr. rewrite Hrun in Hr. destruct Hr as [Hrd Hwr].
  assert ((forall v, session_writer se = co_yield (writer_writing v) -> (forall ec, ev <> ev_written ec) -> writes ev = false) /\
    (forall tmp size, session_reader se = co_yield (reader_reading tmp size) -> (forall ec data, ev <> ev_read ec data) -> reads ev = false)) as [Hw Hrr].
  { split; [intros v Hk Hne|intros tmp size Hk Hne]; destruct ev; try done; try (by edestruct Hne);
      cbn [step] in Hst; unfold run_step in Hst; rewrite Hrun in Hst; cbn [session_step] in Hst;
      destruct se; cbn in Hk; by subst. }
  destruct (step_moved _ _ _ _ Hok Hev Hrun Hst) as [[_ Hsr Hsw _] _].
  split.
  - intros v Hv Hne. rewrite Hv in Hwr. cbn in Hwr. rewrite Hsw by eauto. by split.
  - intros tmp size Hts Hne. rewrite Hts in Hrd. destruct Hrd as [Hrd _]. cbn in Hrd. rewrite Hsr by eauto. by split.
Qed.

(** ** Progress of the writer *)

Lemma prepare_write_some m :
  wf m -> ~ none_waiting m -> (prepare_write m).2 <> 0 /\ none_waiting (prepare_write m).1.
Proof.
  intros Hwf Hn. unfold prepare_write. destruct (partition_point _ _) as [a ids] eqn:Hpp.
  apply partition_waiting in Hpp as (Hr & Ha & Hb); [|done].
  assert (NoDup ids) as Hnd by (pose proof (wf_nodup _ Hwf) as Hd; rewrite Hr in Hd; apply NoDup_app in Hd; tauto).
  destruct (stage_fold m ids Hnd) as (Hr' & _ & _ & _ & Hs & _).
  { intros x Hx. destruct (wf_elems _ Hwf x) as (e & He & _); [rewrite Hr; set_solver|]. by exists e. }
  cbn [fst snd]. split.
  - destruct ids as [|id ids]; [|rewrite len_cons; lia]. exfalso. apply Hn. unfold none_waiting. by rewrite Hr, app_nil_r.
  - unfold none_waiting. cbn [reqs_ set_usage]. rewrite Hr', Hr. apply Forall_app. rewrite !Forall_forall in *.
    split; intros x Hx; unfold test; cbn [store set_usage]; rewrite Hs; destruct (decide (x ∈ ids)) as [Hin|Hin]; try done.
    + by destruct (store m !! x).
    + by apply Ha.
    + by destruct (store m !! x).
Qed.

(** C14: No request is forgotten by the writer: if the connection is open and a
    request waits to be written while the writer sleeps, the writer is being
    woken, and resumed it starts a write after which no request waits. *)
Theorem no_lost_write (s : system) se :
  sys_reachable s -> run s = active (run_group se) -> session_writer se = co_yield writer_idle ->
  is_open (conn s) = true -> ~ none_waiting (mpx_ (conn s)) ->
  exists ec s' v, step (ev_writer_timer ec) s = Some (Done s') /\
    run s' = active (run_group (with_writer se (co_yield (writer_writing v)))) /\ none_waiting (mpx_ (conn s')).
Proof.
  intros Hok%reachable_ok Hrun Hw Ho Hn. pose proof (ok_wf _ _ _ (ok_requests _ Hok)) as Hwf.
  pose proof (ok_run _ Hok) as Hr. rewrite Hrun in Hr. destruct Hr as [_ Hwr]. rewrite Hw in Hwr. destruct Hwr as (_ & Hq & Ha).
  assert (exists ec, writer_timer_ (conn s) = fired ec) as [ec Hf].
  { destruct (writer_timer_ (conn s)) as [| |ec]; [done| |by eexists]. by destruct (Ha eq_refl Ho). }
  destruct (prepare_write_some _ Hwf Hn) as [Hnz Hnw]. exists ec. cbn [step]. unfold run_step. rewrite Hrun.
  destruct se as [h p c r w]. cbn in Hw. subst w. cbn [session_step].
  unfold wait_admits. rewrite Hf, bool_decide_true by done. cbn [writer_resume].
  change (is_open (set_writer_timer (conn s) quiet)) with (is_open (conn s)). rewrite Ho. cbn [negb mbind outcome_bind].
  unfold writer_loop. cbn [mpx_ set_writer_timer]. destruct (prepare_write (mpx_ (conn s))) as [m n]. cbn [fst snd] in *.
  rewrite (proj2 (N.eqb_neq _ _) Hnz). cbn [mbind outcome_bind]. eexists _, _. split_and!; done.
Qed.

(** ** Failures *)

(** The events whose code may fail: a request whose response object is too
    small, the start of a session, and the reader. *)
Definition may_fail (ev : event) : bool :=
  match ev with
  | ev_exec _ _ | ev_connected _ _ _ | ev_secured _ | ev_read _ _ | ev_sent _ => true
  | _ => false
  end.

Lemma async_run_returns (c : connection) cfg : exists r, async_run c cfg = Done r.
Proof.
  unfold async_run, async_run_config, checker_set_config.
  match goal with |- context [push ?r (bs "PING") ?l] => destruct (push_represents r [] (bs "PING") l) as (q & -> & _) end; [done..|].
  by eexists.
Qed.

Lemma run_group_done_returns (c : connection) g : exists r, run_group_done c g = Done r.
Proof.
  unfold run_group_done. destruct (_ && _); [by eexists|]. destruct (_ && _); [by eexists|]. cbn. destruct (negb _); by eexists.
Qed.

Lemma session_step_returns ev (s : system) se o :
  sys_ok s -> may_fail ev = false -> session_step ev s se = Some o -> exists s', o = Done s'.
Proof.
  intros Hok Hf. pose proof (ok_requests _ Hok) as Hq. pose proof (ok_wf _ _ _ Hq) as Hwf. pose proof (ok_ping _ _ _ Hq) as Hpg.
  assert (forall {A} (m : outcome A) (f : A -> system), (exists r, m = Done r) ->
    Some (r ← m; Done (f r)) = Some o -> exists s', o = Done s') as Hret.
  { intros A m f [r ->] Ho. injection Ho as <-. by eexists. }
  assert (forall {A B} (m : outcome (A * B)) (f : A -> B -> system), (exists r, m = Done r) ->
    Some ('(a, b) ← m; Done (f a b)) = Some o -> exists s', o = Done s') as Hret2.
  { intros A B m f [[a b] ->] Ho. injection Ho as <-. by eexists. }
  destruct ev; try done; cbn [session_step].
  - destruct se as [h p c r [[v|]|]]; try done. by apply Hret2, writer_resume_returns.
  - destruct se as [h p c r [[v|]|]]; try done. destruct (wait_admits _ _); [|done]. by apply Hret2, writer_resume_returns.
  - destruct se as [h [[|id p|d]|] c r w]; try done. by apply Hret2, ping_resume_returns.
  - destruct se as [h [[|id p|d]|] c r w]; try done. destruct (wait_admits _ _); [|done]. by apply Hret2, ping_resume_returns.
  - destruct se as [h p [[|d]|] r w]; try done. by apply Hret2, check_resume_returns.
  - destruct se as [h p [[|d]|] r w]; try done. destruct (wait_admits _ _); [|done]. by apply Hret2, check_resume_returns.
  - destruct (group_complete s se) as [g|]; [|done]. apply Hret, run_group_done_returns.
Qed.

(** C19: Completions of requests, cancellations, writes, timers and reconnection
    never fail: no assertion is violated, no element is dereferenced or erased
    that is not there, no exception leaves them. *)
Theorem events_return (s : system) ev o :
  sys_reachable s -> may_fail ev = false -> step ev s = Some o -> exists s', o = Done s'.
Proof.
  intros Hok%reachable_ok Hf. pose proof (ok_requests _ Hok) as Hq. pose proof (ok_wf _ _ _ Hq) as Hwf.
  assert (forall {A} (m : outcome A) (f : A -> system), (exists r, m = Done r) ->
    Some (r ← m; Done (f r)) = Some o -> exists s', o = Done s') as Hret.
  { intros A m f [r ->] Ho. injection Ho as <-. by eexists. }
  assert (forall se, session_step ev s se = Some o -> exists s', o = Done s') as Hses.
  { intros se. by apply session_step_returns. }
  destruct ev; try done; cbn [step]; unfold run_step; try (destruct (run s) as [|[| | |se|d]|]; try done; apply Hses).
  - by apply Hret, cancel_returns.
  - intros [= <-]. by eexists.
  - intros [= <-]. by eexists.
  - destruct (run s); [|done|]; apply Hret, async_run_returns.
  - destruct (execs s !! id) as [[w [|] n]|] eqn:Hp; [|done..]. intros [= <-]. by apply resume_exec_returns.
  - destruct (execs s !! id) as [[w [|] n]|] eqn:Hp; [done| |done]. destruct (_ <? _)%nat; [|done].
    intros Ho%(inj Some). subst o. by apply resume_exec_returns.
  - destruct (execs s !! id) as [[w [|] n]|] eqn:Hp; [done| |done]. destruct (_ && _); [|done].
    intros Ho%(inj Some). subst o. by apply resume_exec_returns.
  - destruct (run s) as [|[| | |se|d]|]; try done.
    destruct (resv_ _); [| |destruct (bool_decide _); [|done]]; apply Hret; cbn [run_resume resolve_resume];
      destruct (has_ec _); by eexists.
  - destruct (run s) as [|[| | |se|d]|]; try done. intros [= <-]. by eexists.
  - destruct (run s) as [|[| | |se|d]|]; try done. destruct (wait_admits _ _); [|done].
    apply Hret. cbn [run_resume]. destruct (has_ec _); [by eexists|]. destruct (negb _); by eexists.
Qed.

(** ** Cancellation of [async_run] *)






(** ** Failures to connect *)

(** The error with which a step of connecting fails. *)
Definition connect_error (ev : event) : error_code :=
  match ev with ev_resolved ec _ | ev_connected ec _ _ | ev_secured ec => ec | _ => None end.

(** The calls of the users, who may also cancel a single request. *)
Definition by_user (ev : event) : bool :=
  match ev with
  | ev_exec _ _ | ev_cancel _ | ev_receive | ev_set_receive _ | ev_run _ | ev_cancelled _ _ => true
  | _ => false
  end.

(** Nobody has a notification to receive. *)
Definition none_notified (s : system) : Prop :=
  map_Forall (fun id p => at_ p = exec_waiting /\ (notifications s id <= received p)%nat) (execs s).

Lemma replaced_error ec e : has_ec ec = true -> has_ec (if aborted ec then make_error_code e else ec) = true.
Proof. by destruct (aborted ec). Qed.

Lemma none_notified_stuck (s : system) ec ev : none_notified s -> run s = finished ec -> by_user ev = false -> step ev s = None.
Proof.
  intros Hu Hrun Hev. destruct ev; try done; cbn [step]; unfold run_step; rewrite ?Hrun; try done.
  - destruct (execs s !! id) as [[o q n]|] eqn:Hp; [|done]. destruct (Hu _ _ Hp) as [Hat _]. cbn in Hat. by subst q.
  - destruct (execs s !! id) as [[o q n]|] eqn:Hp; [|done]. destruct (Hu _ _ Hp) as [Hat Hn]. cbn in Hat, Hn. subst q.
    destruct (Nat.ltb_spec n (notifications s id)); [lia|done].
Qed.

Lemma connect_failure (s s' : system) ev :
  has_ec (connect_error ev) = true -> step ev s = Some (Done s') ->
  (exists ec, run s' = finished ec /\ has_ec ec = true) /\
  mpx_ (conn s') = mpx_ (conn s) /\ execs s' = execs s /\ results s' = results s /\
  (none_notified s -> forall ev', by_user ev' = false -> step ev' s' = None).
Proof.
  intros Hec Hst.
  assert (exists c ec, s' = set_run (set_conn s c) (finished ec) [] /\ mpx_ c = mpx_ (conn s) /\ has_ec ec = true) as (c & ec & -> & Hm & He).
  { destruct ev; try done; cbn [connect_error] in Hec; cbn [step] in Hst; unfold run_step in Hst; destruct (run s) as [|[| | |se|d]|]; try done.
    - assert (exists r, run_resume run_resolving (conn s) (ec, res) = Done r /\ s' = after_run s r) as (r & Hr & ->).
      { destruct (resv_ _); [| |destruct (bool_decide _); [|done]]; split_step; by eexists. }
      cbn [run_resume resolve_resume] in Hr. rewrite replaced_error in Hr by done. injection Hr as <-.
      eexists _, _. split_and!; [reflexivity|done|by apply replaced_error].
    - split_step. match goal with Hr : run_resume _ _ _ = Done _ |- _ => cbn [run_resume connect_resume] in Hr;
        rewrite replaced_error in Hr by done; injection Hr as <- end.
      eexists _, _. split_and!; [reflexivity|done|by apply replaced_error].
    - split_step. match goal with Hr : run_resume _ _ _ = Done _ |- _ => cbn [run_resume] in Hr; rewrite Hec in Hr; injection Hr as <- end.
      by eexists _, _. }
  cbn [run set_run conn set_conn execs results]. split_and!; try done; [by exists ec|].
  intros Hu ev' Hev'. apply (none_notified_stuck _ ec); [|done|done]. intros id p Hp. cbn [execs set_run set_conn] in Hp.
  destruct (Hu id p Hp) as [Hat Hn]. split; [done|]. unfold notifications in *. cbn [conn set_run set_conn]. by rewrite Hm.
Qed.

(** C36: A failure to resolve the name, to connect or of the TLS handshake, also
    when reconnecting, ends [async_run] with an error and leaves every request in
    the queue.  If none of them has just been notified, nothing happens from then
    on until a user makes a call: the requests neither complete nor fail. *)
Theorem failed_connection_strands (s s' : system) ev :
  has_ec (connect_error ev) = true -> step ev s = Some (Done s') ->
  (exists ec, run s' = finished ec /\ has_ec ec = true) /\
  mpx_ (conn s') = mpx_ (conn s) /\ execs s' = execs s /\ results s' = results s /\
  (none_notified s -> forall ev', by_user ev' = false -> step ev' s' = None).
Proof. apply connect_failure. Qed.
End WithChannel.

(** ** Instances *)

Lemma no_lost_completion_witness :
  2%nat ∈ reqs_ (mpx_ (conn (state_after replied))) \/
  exists e s', store (mpx_ (conn (state_after replied))) !! 2%nat = Some e /\ settled e /\
    step (ev_notified 2%nat not_cancelled) (state_after replied) = Some (Done s').
Proof.
  apply (no_lost_completion (state_after replied) 2%nat (mk_pending user exec_waiting 0)).
  - reachable_state.
  - by vm_compute.
  - reflexivity.
Defined.

Lemma completes_once_witness : NoDup (results (state_after served)).*1 /\ (results (state_after served)).*1 = [2%nat].
Proof. split; [|by vm_compute]. apply (completes_once (state_after served)). reachable_state. Defined.

Definition opened_session : session :=
  match run (state_after opening) with
  | active (run_group se) => se
  | _ => mk_session (co_complete None) (co_complete None) (co_complete None) (co_complete None) (co_complete None)
  end.

Lemma in_flight_buffers_witness :
  len (read_buffer_ (mpx_ (conn (state_after opening)))) = 4096 /\
  read_buffer_ (mpx_ (conn (state_after (opening ++ [ev_exec one_command recorder])))) =
    read_buffer_ (mpx_ (conn (state_after opening))).
Proof.
  apply (proj2 (in_flight_buffers (state_after opening) (state_after (opening ++ [ev_exec one_command recorder])) opened_session
    (ev_exec one_command recorder) ltac:(reachable_state) ltac:(by vm_compute) ltac:(by vm_compute) ltac:(by vm_compute)) 0 4096).
  - by vm_compute.
  - done.
Defined.

Definition requested_session : session :=
  match run (state_after requested) with active (run_group se) => se | _ => opened_session end.

Lemma no_lost_write_witness :
  exists ec s' v, step (ev_writer_timer ec) (state_after requested) = Some (Done s') /\
    run s' = active (run_group (with_writer requested_session (co_yield (writer_writing v)))) /\
    none_waiting (mpx_ (conn s')).
Proof.
  apply (no_lost_write (state_after requested) requested_session).
  - reachable_state.
  - by vm_compute.
  - by vm_compute.
  - by vm_compute.
  - vm_compute. intros Hn. inversion Hn. done.
Defined.

Lemma events_return_witness :
  exists s', Done (state_after served) = Done s'.
Proof.
  apply (events_return (state_after replied) (ev_notified 2%nat not_cancelled) (Done (state_after served))).
  - reachable_state.
  - reflexivity.
  - by vm_compute.
Defined.



(** A request is made while the name is resolved, which fails. *)
Definition unresolved : list example_event := [ev_run default_config; ev_exec one_command recorder].

Lemma failed_connection_strands_witness :
  (exists s', step (ev_resolved (Some operation_aborted) []) (state_after unresolved) = Some (Done s') /\
    (exists ec, run s' = finished ec /\ has_ec ec = true) /\ reqs_ (mpx_ (conn s')) = [0%nat] /\ results s' = [] /\
    forall ev', by_user ev' = false -> step ev' s' = None).
Proof.
  destruct (step (ev_resolved (Some operation_aborted) []) (state_after unresolved)) as [[s'|?|?]|] eqn:E; [|by vm_compute in E..].
  destruct (failed_connection_strands (state_after unresolved) s' (ev_resolved (Some operation_aborted) [])) as (H1 & H2 & _ & H4 & H5);
    [reflexivity|exact E|].
  exists s'. split; [reflexivity|]. split; [exact H1|]. split; [rewrite H2; vm_compute; reflexivity|]. split; [rewrite H4; vm_compute; reflexivity|].
  apply H5. assert (execs (state_after unresolved) = {[0%nat := mk_pending user exec_waiting 0]}) as Hx by (vm_compute; reflexivity).
  unfold none_notified. rewrite Hx. apply map_Forall_singleton. split; [reflexivity|]. vm_compute. lia.
Defined.
