(* ===== verification/Runner.v ===== *)
(** * The runner

    [detail/runner.hpp]: an earlier form of [async_run], in which one class
    shakes hands, runs the session and reconnects.  It holds the members of
    [resp3_handshaker], which a connection it runs keeps in the same place, and
    it waits for a reconnection in [writer_timer_]. *)

From stdpp Require Import gmap.
From S2P Require Import Prelude Charconv Types Parser Serialization Request Adapters Traits.
From S2P Require Import Multiplexer MultiplexerInvariant Evolution Logger Session Connection Run Advance ConnectionClaims System SystemInvariant Scenario.

#[local] Open Scope string_scope.
#[local] Open Scope N_scope.
#[local] Open Scope list_scope.

Abbreviation runner := resp3_handshaker.

Definition runner_new (cfg : config) : runner := mk_handshaker (new_request default_request_config) (r_value []) cfg.
Definition runner_set_config (r : runner) (cfg : config) : runner := mk_handshaker (hello_req_ r) (hello_resp_ r) cfg.



Section WithChannel.
Context {Ch Ep : Type} `{Channel Ch} `{Platform Ep}.
Abbreviation connection := (connection Ch Ep).

(** [conn_->reset()], which [basic_connection] does not have. *)
Variable conn_reset : connection -> connection.







(** ** Equivalence with [run_op] *)









End WithChannel.

