(* ===== verification/Healthy.v ===== *)
(** * Healthy sessions

    A session whose handshake has succeeded and whose health check waits for
    nothing but time: the requests of the connection itself could be sent again. *)

From stdpp Require Import gmap.
From S2P Require Import Prelude Charconv Types Parser Serialization Request Adapters Traits.
From S2P Require Import Multiplexer ReaderStream Logger Session Connection Run System.

#[local] Open Scope string_scope.
#[local] Open Scope N_scope.
#[local] Open Scope list_scope.

Section WithChannel.
Context {Ch Ep : Type} `{Channel Ch} `{Platform Ep}.
Abbreviation connection := (connection Ch Ep).
Abbreviation system := (system Ch Ep).

(** An element that a response object is shared with. *)
Definition held (c : connection) (el : option elem_id) : Prop := forall i, el = Some i -> is_Some (store (mpx_ c) !! i).

Lemma shared_kept (c c' : connection) el r :
  held c el -> (forall i e, el = Some i -> store (mpx_ c) !! i = Some e -> store (mpx_ c') !! i = Some e) ->
  shared_response c' el r = shared_response c el r /\ held c' el.
Proof.
  intros Hh Hk. unfold shared_response. split.
  - destruct el as [i|]; [|done]. destruct (Hh i) as [e He]; [done|]. by rewrite He, (Hk i e).
  - intros i ->. destruct (Hh i) as [e He]; [done|]. exists e. by apply Hk.
Qed.

(** What a session takes from the parts that serve the requests of the connection
    itself. *)
Definition own_config (c : connection) :=
  let h := health_checker_ c in
  (conn_cfg_ c, hello_cfg_ (handshaker_ c), hello_resp_ (handshaker_ c),
   (ping_interval_ h, checker_has_exited_ h, ping_req_ h, ping_resp_ h), hello_elem_ c, ping_elem_ c).

(** They are configured, and their response objects hold values. *)
Record prepared (c : connection) : Prop := {
  pre_hello : hello_cfg_ (handshaker_ c) = conn_cfg_ c;
  pre_interval : ping_interval_ (health_checker_ c) = health_check_interval (conn_cfg_ c);
  pre_exited : checker_has_exited_ (health_checker_ c) = false;
  pre_request : represents (ping_req_ (health_checker_ c)) [[bs "PING"; health_check_id (conn_cfg_ c)]];
  pre_greeting : result_has_value (hello_response c) = true /\ held c (hello_elem_ c);
  pre_pong : ping_interval_ (health_checker_ c) <> 0%Z -> (exists l, ping_response c = r_value l) /\ held c (ping_elem_ c);
}.

(** The elements that share them. *)
Definition in_use (c : connection) (i : elem_id) : Prop :=
  hello_elem_ c = Some i \/ ping_interval_ (health_checker_ c) <> 0%Z /\ ping_elem_ c = Some i.

Lemma prepared_in_use (c : connection) i : prepared c -> in_use c i -> is_Some (store (mpx_ c) !! i).
Proof. intros P [Hi|[Hz Hi]]; [by apply P|by apply (pre_pong _ P)]. Qed.

Lemma prepared_kept (c c' : connection) :
  prepared c -> own_config c' = own_config c ->
  (forall i e, in_use c i -> store (mpx_ c) !! i = Some e -> store (mpx_ c') !! i = Some e) ->
  prepared c'.
Proof.
  unfold in_use. intros [P1 P2 P3 P4 [P5 P5'] P6] [= E1 E2 E3 E4 E5 E6 E7 E8 E9] Hk. unfold hello_response, ping_response in *.
  split; rewrite ?E1, ?E2, ?E4, ?E5, ?E6; try done; unfold hello_response, ping_response; rewrite ?E3, ?E7, ?E8, ?E9.
  - destruct (shared_kept c c' (hello_elem_ c) (hello_resp_ (handshaker_ c))) as [-> ?]; eauto.
  - intros Hi. destruct (P6 Hi) as [P7 P8].
    destruct (shared_kept c c' (ping_elem_ c) (ping_resp_ (health_checker_ c))) as [-> ?]; eauto.
Qed.

(** The operations of the health check that wait for nothing but time. *)
Definition ping_rests (h : health_checker) (k : co ping_point error_code) : Prop :=
  match k with
  | co_yield (ping_waiting _) => ping_timer_ h = armed
  | co_yield (ping_executing _ _) => False
  | _ => True
  end.

Definition check_rests (h : health_checker) (k : co check_point error_code) : Prop :=
  match k with
  | co_yield (check_waiting _) => wait_timer_ h = armed
  | co_yield check_posted => True
  | co_complete ec => ec = None
  end.

(** A session whose handshake has succeeded and whose last PING was answered. *)
Record healthy (s : system) (se : session) : Prop := {
  he_hello : session_hello se = co_complete None;
  he_ping : ping_rests (health_checker_ (conn s)) (session_ping se);
  he_check : check_rests (health_checker_ (conn s)) (session_check se);
  he_prepared : prepared (conn s);
}.

Lemma own_config_parts (c c' : connection) : own_parts c' = own_parts c -> conn_cfg_ c' = conn_cfg_ c -> own_config c' = own_config c.
Proof. intros [= E1 E2 E3 E4] E5. unfold own_config. by rewrite E1, E2, E3, E4, E5. Qed.

Lemma healthy_kept (s s' : system) se :
  healthy s se -> own_parts (conn s') = own_parts (conn s) -> conn_cfg_ (conn s') = conn_cfg_ (conn s) ->
  (forall i e, store (mpx_ (conn s)) !! i = Some e -> store (mpx_ (conn s')) !! i = Some e) -> healthy s' se.
Proof.
  intros [H1 H2 H3 H4] Ho Hc Hk. pose proof Ho as [= E1 E2 E3 E4]. split; rewrite ?E2; try done.
  eapply prepared_kept; [exact H4|by apply own_config_parts|]. eauto.
Qed.
End WithChannel.
