(* ===== verification/RoundTrip.v ===== *)
(** * Requests end to end

    A batch of requests on a running session, from [async_exec] to the
    completions: the writer sends their payloads in one write, the reader hands
    the responses to their adapters, and every caller is notified. *)

From stdpp Require Import gmap.
From S2P Require Import Prelude Charconv Types Parser ParserSpec ParserSafety Resp3 ParserCorrect.
From S2P Require Import Serialization Request Adapters Traits AdapterTheorems.
From S2P Require Import Multiplexer MultiplexerInvariant MultiplexerRead MultiplexerStream MultiplexerClaims ReaderStream Evolution Logger Session Connection Run Advance.
From S2P Require Import ConnectionClaims System SystemInvariant Scenario Healthy.

#[local] Open Scope string_scope.
#[local] Open Scope N_scope.
#[local] Open Scope list_scope.

(** A call of [async_exec], the responses of the server to it, and the adapter
    that has received them. *)
Record call := mk_call {
  call_req : request;
  call_adapter : any_adapter;
  call_responses : list resp3;
  call_after : any_adapter;
}.

Record answerable (x : call) : Prop := {
  call_expected : get_expected_responses (call_req x) = len (call_responses x);
  call_some : call_responses x <> [];
  call_size : len (call_responses x) < size_modulus;
  call_fits : len (call_responses x) <= supported_response_size (call_adapter x);
  call_valid : Forall response_ok (call_responses x);
  call_feed : feed_responses (call_adapter x) 0 (call_responses x) = Done (call_after x, None);
}.

(** The handshake alone goes in front of other requests. *)
Record call_ok (x : call) : Prop := {
  call_answerable : answerable x;
  call_priority : has_hello_priority (call_req x) = false;
}.

Lemma calls_answerable xs : Forall call_ok xs -> Forall answerable xs.
Proof. intros Hxs. eapply Forall_impl; [exact Hxs|]. by intros x [? _]. Qed.

(** What the client writes and what the server answers. *)
Definition sent (xs : list call) : bytes := concat (map (fun x => payload (call_req x)) xs).
Definition answers (xs : list call) : bytes := bytes_of (concat (map call_responses xs)).

Lemma Forall2_impl_in {A B} (P Q : A -> B -> Prop) l k :
  Forall2 P l k -> (forall x y, x ∈ l -> P x y -> Q x y) -> Forall2 Q l k.
Proof. intros HP. induction HP; intros HQ; constructor; [|apply IHHP; intros]; eapply HQ; eauto using list_elem_of_here, list_elem_of_further. Qed.

(** Requests outside of the queue are left alone. *)
Definition frozen (m m' : multiplexer) : Prop := forall i, i ∉ reqs_ m -> store m' !! i = store m !! i.

Lemma prepare_write_frozen m : wf m -> frozen m (prepare_write m).1.
Proof.
  intros Hwf i Hi. unfold prepare_write. destruct (partition_point _ _) as [a b] eqn:Hpp.
  apply partition_waiting in Hpp as (Hr & _); [|done]. cbn [fst store set_usage].
  destruct (stage_fold m b) as (_ & _ & _ & _ & Hs & _).
  - pose proof (wf_nodup _ Hwf) as Hnd. rewrite Hr in Hnd. by apply NoDup_app in Hnd as (_ & _ & ?).
  - intros j Hj. destruct (wf_elems _ Hwf j) as (e & He & _); [rewrite Hr; set_solver|]. by exists e.
  - rewrite Hs, decide_False; [done|]. rewrite Hr in Hi. set_solver.
Qed.

Section WithChannel.
Context {Ch Ep : Type} `{Channel Ch} `{Platform Ep}.
Abbreviation connection := (connection Ch Ep).
Abbreviation system := (system Ch Ep).
Abbreviation event := (event Ep).

(** A session at rest: nothing is queued, the writer sleeps, and the reader
    reads into an empty buffer. *)
Record resting (s : system) (se : session) : Prop := {
  rest_run : run s = active (run_group se);
  rest_writer : session_writer se = co_yield writer_idle;
  rest_reader : session_reader se = co_yield (reader_reading 0 buffer_growth_hint);
  rest_timer : writer_timer_ (conn s) = armed;
  rest_open : is_open (conn s) = true;
  rest_queue : reqs_ (mpx_ (conn s)) = [];
  rest_idle : idle (mpx_ (conn s));
  rest_limit : buffer_growth_hint <= max_read_size (conn_cfg_ (conn s));
}.

Lemma steps_app evs evs' (s s1 : system) : steps evs s = Some (Done s1) -> steps (evs ++ evs') s = steps evs' s1.
Proof.
  revert s. induction evs as [|ev evs IH]; intros s; cbn [steps app]; [by intros [= ->]|].
  destruct (step ev s) as [[s2|?|?]|]; [apply IH|done..].
Qed.

(** ** The receive adapter and the channel *)

(** Requests and writes leave both alone. *)
Definition same_receive (c c' : connection) : Prop :=
  receive_adapter_ (mpx_ c') = receive_adapter_ (mpx_ c) /\ receive_channel_ c' = receive_channel_ c.

#[export] Instance same_receive_preorder : PreOrder same_receive.
Proof. split; [by split|]. intros c1 c2 c3 [? ?] [? ?]. split; congruence. Qed.

Lemma writer_resume_receive p (c c' : connection) ec q : writer_resume p c ec = Done (c', co_yield q) -> same_receive c c'.
Proof.
  assert (forall (c c' : connection) k, writer_loop c = (c', k) -> same_receive c c') as Hloop.
  { intros d d' k. unfold writer_loop. pose proof (prepare_write_receive (mpx_ d)) as Hp.
    destruct (prepare_write (mpx_ d)) as [m n]. by destruct (n =? 0); intros [= <- <-]. }
  destruct p; cbn [writer_resume].
  - destruct (has_ec ec); intros Hc; [by apply bind_done in Hc as (c1 & _ & Hc)|]. apply bind_done in Hc as ([m n] & Hm & Hc). destruct (negb _); [done|]. injection Hc as Hc%Hloop.
    etransitivity; [|exact Hc]. split; [|done]. unfold commit_write in Hm. apply bind_done in Hm as (u & _ & Hm).
    unfold release_push_requests in Hm. destruct (stable_partition _ _). by injection Hm as <- _.
  - destruct (negb _); [done|]. intros [= Hc%Hloop]. etransitivity; [|exact Hc]. done.
Qed.

(** The writer has nothing to do with the requests of the connection itself. *)
Lemma writer_resume_own p (c c' : connection) ec q : writer_resume p c ec = Done (c', co_yield q) -> own_parts c' = own_parts c.
Proof.
  assert (forall (c c' : connection) k, writer_loop c = (c', k) -> own_parts c' = own_parts c) as Hloop.
  { intros d d' k. unfold writer_loop. destruct (prepare_write (mpx_ d)) as [m n]. by destruct (n =? 0); intros [= <- <-]. }
  destruct p; cbn [writer_resume].
  - destruct (has_ec ec); intros Hc; [by apply bind_done in Hc as (c1 & _ & Hc)|]. apply bind_done in Hc as ([m n] & _ & Hc).
    destruct (negb _); [done|]. injection Hc as Hc%Hloop. exact Hc.
  - destruct (negb _); [done|]. intros [= Hc%Hloop]. exact Hc.
Qed.

Lemma writer_resume_frozen p (c c' : connection) ec q :
  wf (mpx_ c) -> writer_resume p c ec = Done (c', co_yield q) -> frozen (mpx_ c) (mpx_ c').
Proof.
  assert (forall (c c' : connection) k, wf (mpx_ c) -> writer_loop c = (c', k) -> frozen (mpx_ c) (mpx_ c')) as Hloop.
  { intros d d' k Hwf. unfold writer_loop. pose proof (prepare_write_frozen (mpx_ d) Hwf) as Hp.
    destruct (prepare_write (mpx_ d)) as [m n]. by destruct (n =? 0); intros [= <- <-]. }
  intros Hwf. destruct p; cbn [writer_resume].
  - destruct (has_ec ec); intros Hc; [by apply bind_done in Hc as (c1 & _ & Hc)|]. apply bind_done in Hc as ([m n] & Hm & Hc).
    destruct (negb _); [done|]. injection Hc as Hc. cbn [mpx_ logc] in Hm. destruct (commit_write_spec _ Hwf) as (m1 & Hm1 & _ & _ & _ & Hq & Hs).
    rewrite Hm in Hm1. injection Hm1 as -> _. intros i Hi.
    apply Hloop in Hc; [|exact (wf_commit_write _ _ _ Hwf Hm)]. rewrite Hc; [cbn [mpx_ set_mpx]; by rewrite Hs, decide_False|].
    cbn [mpx_ set_mpx]. rewrite Hq, filter_elem. tauto.
  - destruct (negb _); [done|]. intros [= Hc]. by apply Hloop in Hc.
Qed.

(** ** The calls *)

Definition ev_call (x : call) : event := ev_exec (call_req x) (call_adapter x).

(** The state after the calls: they are queued in their order. *)
Record collected (s s' : system) (ids : list elem_id) (xs : list call) : Prop := {
  col_run : run s' = run s;
  col_results : results s' = results s;
  col_execs : forall id, id ∉ ids -> execs s' !! id = execs s !! id;
  col_unmoved : unmoved (conn s) (conn s');
  col_handshaker : handshaker_ (conn s') = handshaker_ (conn s);
  col_own : hello_elem_ (conn s') = hello_elem_ (conn s) /\ ping_elem_ (conn s') = ping_elem_ (conn s);
  col_timer : writer_timer_ (conn s') =
    if trigger_write (conn s) && negb (bool_decide (xs = [])) then wait_cancel (writer_timer_ (conn s)) else writer_timer_ (conn s);
  col_wf : wf (mpx_ (conn s'));
  col_waiting : all_waiting (mpx_ (conn s'));
  col_queue : reqs_ (mpx_ (conn s')) = ids;
  col_elems : Forall2 (fun id x => store (mpx_ (conn s')) !! id = Some (make_elem (call_req x) (call_adapter x)) /\
                execs s' !! id = Some (mk_pending user exec_waiting 0)) ids xs;
  col_old : forall id e, store (mpx_ (conn s)) !! id = Some e -> store (mpx_ (conn s')) !! id = Some e;
  col_fresh : Forall (fun id => store (mpx_ (conn s)) !! id = None) ids;
}.

(** A request that does not need a connection can be queued without one. *)
Definition accepted (c : connection) (x : call) : Prop :=
  cancel_if_not_connected (get_config (call_req x)) && negb (is_open c) = false.

Lemma wait_cancel_again w : wait_cancel (wait_cancel w) = wait_cancel w.
Proof. by destruct w. Qed.

Lemma collect_calls (s : system) xs :
  wf (mpx_ (conn s)) -> reqs_ (mpx_ (conn s)) = [] -> Forall call_ok xs -> Forall (accepted (conn s)) xs ->
  exists ids s', steps (map ev_call xs) s = Some (Done s') /\ collected s s' ids xs.
Proof.
  intros Hwf Hempty. induction xs as [|x xs IH] using rev_ind; intros Hxs Hacc.
  - exists [], s. split; [done|]. split; try done; [by rewrite bool_decide_true, andb_false_r by done|].
    unfold all_waiting. rewrite Hempty. constructor.
  - apply Forall_app in Hxs as [Hxs Hx]. apply Forall_cons in Hx as [[[Hexp Hne Hsz Hfit Hval Hfeed] Hprio] _].
    apply Forall_app in Hacc as [Hacc Hx]. apply Forall_cons in Hx as [Hx _].
    destruct (IH Hxs Hacc) as (ids & s1 & Hst & [C1 C2 C3 C4 C5 C6 C7 C8 C9 C10 C11 C12 C13]).
    assert (is_open (conn s1) = is_open (conn s)) as Ho by (exact (un_open _ _ C4)).
    destruct (async_exec_queues (conn s1) (call_req x) (call_adapter x)) as (c' & id & Hex & [Hun Hhs Hel Ht] & [Q1 Q2 Q3 Q4 Q5 Q6]);
      [done|done|by rewrite Hexp|by rewrite Hexp|by rewrite Ho|].
    rewrite Hprio, C10 in Q6.
    assert (forall i, i ∈ ids -> i <> id) as Hnew by (intros i Hi ->; rewrite <- C10 in Hi; destruct (wf_elems _ C8 id Hi) as (e & ? & _); congruence).
    exists (ids ++ [id]). eexists. split.
    { rewrite map_app. erewrite steps_app by exact Hst. cbn [map steps ev_call step]. rewrite Hex. cbn [mbind outcome_bind]. reflexivity. }
    split; cbn [run results conn execs launch set_conn set_execs]; try done.
    + intros i [Hi Hi']%not_elem_of_app. rewrite lookup_insert_ne; [by apply C3|]. intros ->. by apply Hi', list_elem_of_here.
    + by etransitivity.
    + congruence.
    + destruct C6 as [? ?], Hel as [? ?]. split; congruence.
    + assert (trigger_write (conn s1) = trigger_write (conn s)) as Htr.
      { unfold trigger_write, is_writing. by rewrite Ho, (un_write _ _ C4). }
      rewrite Ht, Htr, C7. rewrite (bool_decide_false (xs ++ [x] = [])) by (by destruct xs). cbn [negb]. rewrite andb_true_r.
      destruct (trigger_write (conn s)); [|done]. cbn [andb]. by destruct (negb _); rewrite ?wait_cancel_again.
    + apply Forall2_app; [|constructor; [|constructor]; split; [done|apply lookup_insert_eq]].
      eapply Forall2_impl_in; [exact C11|]. intros i y Hi [Hs1 Hs2]. split; [by apply Q5|].
      rewrite lookup_insert_ne; [done|]. intros <-. by apply (Hnew id).
    + eauto.
    + apply Forall_app. split; [done|]. constructor; [|done]. destruct (store (mpx_ (conn s)) !! id) as [e|] eqn:He; [|done].
      apply C12 in He. congruence.
Qed.

(** On a session at rest. *)
Lemma collect_resting (s : system) se xs :
  sys_ok s -> resting s se -> Forall call_ok xs ->
  exists ids s', steps (map ev_call xs) s = Some (Done s') /\ collected s s' ids xs.
Proof.
  intros Hok R Hxs. apply collect_calls; [apply Hok|apply R|done|]. apply Forall_true. intros x.
  unfold accepted. rewrite (rest_open _ _ R). by rewrite andb_false_r.
Qed.

(** ** The write *)

Lemma prepare_none m : wf m -> none_waiting m -> exists u, prepare_write m = (set_usage m u, 0).
Proof.
  intros Hwf Hn. unfold prepare_write. destruct (partition_point _ _) as [a b] eqn:Hpp.
  apply partition_waiting in Hpp as (Hr & _ & Hb); [|done]. destruct b as [|y b]; [by eexists|].
  exfalso. apply Forall_cons in Hb as [Hy _]. unfold none_waiting in Hn. rewrite Hr, Forall_app in Hn.
  destruct Hn as [_ [Hy' _]%Forall_cons]. congruence.
Qed.

(** The requests of the calls, in the states the writer gives them. *)
Definition queued (f : elem -> elem) (c : connection) (ids : list elem_id) (xs : list call) : Prop :=
  wf (mpx_ c) /\ idle (mpx_ c) /\ is_open c = true /\ reqs_ (mpx_ c) = ids /\
  Forall2 (fun id x => store (mpx_ c) !! id = Some (f (make_elem (call_req x) (call_adapter x)))) ids xs.

Lemma sent_payloads m ids xs :
  Forall2 (fun id x => store m !! id = Some (make_elem (call_req x) (call_adapter x))) ids xs -> payloads m ids = sent xs.
Proof.
  unfold payloads, sent. intros Hs. induction Hs as [|id x ids xs Hx _ IH]; [done|]. cbn [map concat]. by rewrite Hx, IH.
Qed.

Lemma writer_sends c ids xs ec :
  queued (fun e => e) c ids xs -> all_waiting (mpx_ c) -> write_buffer_ (mpx_ c) = [] -> xs <> [] ->
  exists c', writer_resume writer_idle c ec = Done (c', co_yield (writer_writing (sent xs))) /\
    queued mark_staged c' ids xs /\ conn_cfg_ c' = conn_cfg_ c /\
    read_buffer_ (mpx_ c') = read_buffer_ (mpx_ c).
Proof.
  intros (Hwf & [Hi1 Hi2] & Ho & Hr & Hs) Hall Hw Hne. pose proof (sent_payloads _ _ _ Hs) as Hpay.
  destruct (prepare_staged _ Hwf Hall) as (m' & Hp & Hw' & Hr' & Hb' & Hp1 & Hp2 & _ & Hs').
  pose proof (wf_prepare_write _ Hwf) as Hwf'. rewrite Hp in Hwf'.
  assert (len (reqs_ (mpx_ c)) <> 0) as Hn by (rewrite Hr; apply Forall2_length in Hs; destruct ids, xs; done).
  unfold writer_resume, writer_loop. change (is_open (set_writer_timer c quiet)) with (is_open c).
  rewrite Ho. cbn [negb mpx_ set_writer_timer]. rewrite Hp. rewrite (proj2 (N.eqb_neq _ _) Hn).
  rewrite Hw', Hw, Hr, Hpay. eexists. split; [reflexivity|]. split_and!; [|done|done].
  split_and!; [done|split; cbn; congruence|done|cbn; congruence|].
  eapply Forall2_impl_in; [exact Hs|]. intros id x Hid He. apply Hs'; [by rewrite Hr|done].
Qed.

Lemma call_ok_released x : answerable x -> released (mark_staged (make_elem (call_req x) (call_adapter x))) = false.
Proof.
  intros Hx. unfold released. cbn. rewrite (call_expected _ Hx). apply N.eqb_neq.
  pose proof (call_some _ Hx). destruct (call_responses x); [done|]. rewrite len_cons. lia.
Qed.

Lemma writer_commits c ids xs v :
  queued mark_staged c ids xs -> Forall answerable xs ->
  exists c', writer_resume (writer_writing v) c None = Done (c', co_yield writer_idle) /\
    queued mark_written c' ids xs /\ writer_timer_ c' = armed /\ conn_cfg_ c' = conn_cfg_ c /\
    read_buffer_ (mpx_ c') = read_buffer_ (mpx_ c).
Proof.
  intros (Hwf & [Hi1 Hi2] & Ho & Hr & Hs) Hxs.
  assert (Forall (fun id => test (mpx_ c) released id = false) ids) as Hrel.
  { clear Hr. induction Hs as [|id x ids xs Hx _ IH]; [constructor|]. apply Forall_cons in Hxs as [Hx' Hxs].
    constructor; [|auto]. unfold test. rewrite Hx. by apply call_ok_released. }
  destruct (commit_write_spec _ Hwf) as (m & Hm & _ & Hb & [Hp1 Hp2] & Hq & Hs'). pose proof (wf_commit_write _ _ _ Hwf Hm) as Hwf'.
  assert (reqs_ m = ids) as Hids.
  { rewrite Hq, Hr. clear -Hrel. induction Hrel as [|id ids Hid _ IH]; [done|]. cbn. by rewrite Hid, IH. }
  assert (Forall2 (fun id x => store m !! id = Some (mark_written (make_elem (call_req x) (call_adapter x)))) ids xs) as Hst.
  { assert (Forall2 (fun id x => answerable x /\ store (mpx_ c) !! id = Some (mark_staged (make_elem (call_req x) (call_adapter x)))) ids xs)
      as Hs2 by (clear -Hs Hxs; induction Hs; [constructor|apply Forall_cons in Hxs as [? ?]; constructor; auto]).
    eapply Forall2_impl_in; [exact Hs2|]. intros id x Hid [Hx He]. rewrite Hs', decide_True, He by (by rewrite Hr).
    cbn [fmap option_fmap option_map]. by rewrite call_ok_released. }
  assert (none_waiting m) as Hnone.
  { unfold none_waiting. rewrite Hids. clear -Hst. induction Hst as [|id x ids xs Hx _ IH]; constructor; [|done].
    unfold test. by rewrite Hx. }
  destruct (prepare_none m Hwf' Hnone) as [u Hu]. pose proof (wf_prepare_write _ Hwf') as Hwfu. rewrite Hu in Hwfu.
  cbn [writer_resume has_ec]. change (mpx_ (logc c _)) with (mpx_ c). rewrite Hm. cbn [mbind outcome_bind].
  match goal with |- context [is_open ?d] => change (is_open d) with (is_open c) end. rewrite Ho. cbn [negb].
  unfold writer_loop. cbn [mpx_ set_mpx]. rewrite Hu. cbn [N.eqb].
  eexists. split; [reflexivity|]. split_and!; [|done|done|done].
  split_and!; [done|split; cbn; congruence|done|done|done].
Qed.

(** ** The read *)

(** What the runtime stores in one read. *)
Definition piece_ok (data : bytes) : Prop := data <> [] /\ len data <= buffer_growth_hint.

Lemma growth_hint p : buffer_growth_hint <= get_suggested_buffer_growth p buffer_growth_hint.
Proof.
  unfold get_suggested_buffer_growth. destruct (negb _); [done|]. destruct (N.ltb_spec buffer_growth_hint (bulk_length_ p +w 2)); lia.
Qed.

Definition ev_piece (data : bytes) : event := ev_read None data.

Lemma room_tail n (c : connection) t t' : room n c t -> (t' <> [] -> t <> []) -> room n c t'.
Proof. intros (? & ? & Ht) Hne. split_and!; [done|done|]. intros Ht'. by apply Ht, Hne. Qed.

(** A session whose reader waits behind some bytes of the stream. *)
Lemma read_steps n chunks (s : system) se v junk w ch :
  n < size_modulus -> run s = active (run_group se) ->
  session_reader se = co_yield (reader_reading (len v) (get_suggested_buffer_growth (parser_ (mpx_ (conn s))) buffer_growth_hint)) ->
  read_buffer_ (mpx_ (conn s)) = v ++ junk -> Forall piece_ok chunks -> room n (conn s) (concat (tail chunks)) ->
  awaits n (conn s) v (concat chunks) w ch ->
  exists c', steps (map ev_piece chunks) s =
      Some (Done (mk_system c' (execs s) (results s)
        (active (run_group (with_reader se (co_yield (reader_reading 0 buffer_growth_hint))))) (order s))) /\
    idle (mpx_ c') /\ world_of (mpx_ c') = w /\ receive_channel_ c' = ch /\ undisturbed (conn s) c'.
Proof.
  intros Hn. revert s se v junk. induction chunks as [|d chunks IH]; intros s se v junk Hrun Hrd Hb Hok Hroom Ha; cbn [map steps concat].
  - destruct Ha as [(-> & _ & Hi & Hw & Hc)|[Ht _]]; [|done]. exists (conn s). split_and!; [|done..].
    destruct Hi as [Hp _]. rewrite Hp in Hrd. change (get_suggested_buffer_growth Parser.reset buffer_growth_hint) with buffer_growth_hint in Hrd.
    destruct se as [k0 k1 k2 k3 k4], s as [c x rs r o]. cbn in *. by rewrite Hrun, Hrd.
  - apply Forall_cons in Hok as [[Hd Hl] Hok]. cbn [concat tail] in *.
    destruct (read_piece n Hn (conn s) v junk d (concat chunks) w ch
      (get_suggested_buffer_growth (parser_ (mpx_ (conn s))) buffer_growth_hint) Hb Hd Hroom Ha)
      as (c1 & k & Hr & (v1 & junk1 & -> & Hb1 & Ha1) & Hu).
    assert (step (ev_piece d) s = Some (Done (mk_system c1 (execs s) (results s) (active (run_group (with_reader se
      (co_yield (reader_reading (len v1) (get_suggested_buffer_growth (parser_ (mpx_ c1)) buffer_growth_hint)))))) (order s)))) as Hs.
    { destruct se as [k0 k1 k2 k3 k4]. cbn [session_reader] in Hrd. subst k3. unfold ev_piece. cbn [step run_step]. rewrite Hrun. cbn [session_step].
      rewrite (proj2 (N.leb_le _ _)) by (etransitivity; [exact Hl|apply growth_hint]). by rewrite Hr. }
    rewrite Hs. set (s1 := mk_system c1 _ _ _ _).
    destruct (IH s1 (with_reader se (co_yield (reader_reading (len v1) (get_suggested_buffer_growth (parser_ (mpx_ c1)) buffer_growth_hint)))) v1 junk1)
      as (c' & Hst & Hi & Hw & Hc & Hu'); try done.
    { eapply room_undisturbed; [exact Hu|]. eapply room_tail; [exact Hroom|]. destruct chunks as [|d2 ds]; [done|].
      apply Forall_cons in Hok as [[Hd2 _] _]. cbn. by destruct d2. }
    exists c'. split_and!; [|done|done|done|by etransitivity]. rewrite Hst. done.
Qed.

(** The calls as requests of the pipeline. *)
Definition slots (ids : list elem_id) (xs : list call) : list slot :=
  zip_with (fun id x => mk_slot id (call_responses x) (call_after x)) ids xs.

Lemma slots_ok m ids xs :
  Forall2 (fun id x => store m !! id = Some (mark_written (make_elem (call_req x) (call_adapter x)))) ids xs ->
  Forall answerable xs ->
  map slot_id (slots ids xs) = ids /\ map slot_responses (slots ids xs) = map call_responses xs /\
  Forall (slot_ok (store m)) (slots ids xs).
Proof.
  intros Hs. induction Hs as [|id x ids xs Hx _ IH]; intros Hxs; [by split_and!|].
  apply Forall_cons in Hxs as [[Hexp Hne Hsz Hfit Hval Hfeed] Hxs]. destruct (IH Hxs) as (H1 & H2 & H3).
  unfold slots. cbn [zip_with map]. split_and!; [by f_equal|by f_equal|]. constructor; [|done].
  assert (get_expected_responses (call_req x) <> 0) as Hz by (rewrite Hexp; by destruct (call_responses x)).
  eexists. split; [exact Hx|]. cbn [slot_responses slot_adapter mark_written]. split_and!; try done.
  - split; cbn; [by rewrite Hexp|lia|done|done].
  - unfold response_index. cbn. rewrite wsub_small by (rewrite Hexp; lia). by rewrite N.sub_diag.
Qed.

(** A call that has been answered. *)
Definition answered_call (m : multiplexer) (id : elem_id) (x : call) : Prop :=
  exists e, store m !! id = Some e /\ adapter_ e = call_after x /\ ec_ e = None /\ done_calls e = 1%nat /\
    read_size_ e = len (bytes_of (call_responses x)).

Lemma slots_done m m' ids xs :
  Forall2 (fun id x => store m !! id = Some (mark_written (make_elem (call_req x) (call_adapter x)))) ids xs ->
  len (answers xs) < size_modulus -> Forall (slot_done (store m) (store m')) (slots ids xs) -> Forall2 (answered_call m') ids xs.
Proof.
  intros Hs. induction Hs as [|id x ids xs Hx _ IH]; intros Hl Hd; [constructor|].
  unfold answers, bytes_of in Hl. cbn [map concat] in Hl. rewrite map_app, concat_app, len_app in Hl.
  apply Forall_cons in Hd as [(e & e' & He & He' & Hc) Hd].
  constructor; [|apply IH; [unfold answers, bytes_of; lia|done]]. cbn [slot_id] in He, He'. rewrite Hx in He. apply (inj Some) in He. subst e.
  destruct Hc as [_ Ha Hdn _ Hec Hsz]. exists e'. split_and!; [done|done|done|done|]. rewrite Hsz. cbn [slot_responses].
  change (read_size_ (mark_written _)) with 0. unfold wadd, bytes_of. rewrite N.mod_small; [done|lia].
Qed.

(** What the server sends: the expected responses, with pushes anywhere between
    them. *)
Record server_sends (expected rs : list resp3) (chunks : list bytes) : Prop := {
  srv_responses : responses rs = expected;
  srv_ok : Forall message_ok rs;
  srv_pieces : concat chunks = bytes_of rs;
  srv_piece : Forall piece_ok chunks;
  srv_length : len (bytes_of rs) < size_modulus;
}.

Lemma responses_length rs : len (bytes_of (responses rs)) <= len (bytes_of rs).
Proof.
  unfold bytes_of, responses. induction rs as [|r rs IH]; [done|]. cbn [List.filter map concat].
  destruct (negb _); cbn [map concat]; rewrite !len_app; lia.
Qed.

Lemma deliver_calls (c : connection) ids xs rs ra :
  queued mark_written c ids xs -> Forall answerable xs -> responses rs = concat (map call_responses xs) ->
  receive_pushes (receive_adapter_ (mpx_ c)) (pushes rs) = Some ra ->
  exists st, deliver_all (world_of (mpx_ c)) rs = Some (mk_world [] st ra) /\ Forall (slot_done (store (mpx_ c)) st) (slots ids xs) /\
    forall i, i ∉ ids -> st !! i = store (mpx_ c) !! i.
Proof.
  intros (Hwf & _ & _ & Hr & Hs) Hxs Hrs Hra. destruct (slots_ok _ _ _ Hs Hxs) as (H1 & H2 & H3).
  destruct (deliver_slots (slots ids xs) (store (mpx_ c)) (receive_adapter_ (mpx_ c)) []) as (st & Hd & Hdone & Hk); [|done|].
  { rewrite H1, <- Hr. apply Hwf. }
  rewrite H1 in Hk. exists st. split; [|done]. rewrite H1, H2, app_nil_r, <- Hrs in Hd. unfold world_of. rewrite Hr. by eapply deliver_merge.
Qed.

Lemma reader_steps (s3 : system) se ids xs rs chunks ra ch :
  run s3 = active (run_group se) -> session_reader se = co_yield (reader_reading 0 buffer_growth_hint) ->
  queued mark_written (conn s3) ids xs -> Forall answerable xs -> server_sends (concat (map call_responses xs)) rs chunks ->
  receive_pushes (receive_adapter_ (mpx_ (conn s3))) (pushes rs) = Some ra -> announce (receive_channel_ (conn s3)) rs = Some ch ->
  room (len (bytes_of rs)) (conn s3) (concat (tail chunks)) ->
  exists c4, steps (map ev_piece chunks) s3 = Some (Done (set_conn s3 c4)) /\
    idle (mpx_ c4) /\ reqs_ (mpx_ c4) = [] /\ Forall2 (answered_call (mpx_ c4)) ids xs /\
    receive_adapter_ (mpx_ c4) = ra /\ receive_channel_ c4 = ch /\ undisturbed (conn s3) c4 /\ frozen (mpx_ (conn s3)) (mpx_ c4).
Proof.
  intros Hrun Hrd Hq Hxs [Hrs Hok Hcat Hp Hl] Hra Hch Hroom. destruct (deliver_calls _ _ _ _ _ Hq Hxs Hrs Hra) as (st & Hd & Hdone & Hk).
  destruct Hq as (_ & Hi & Ho & Hr & Hs). pose proof Hi as [Hpar _].
  destruct (read_steps (len (bytes_of rs)) chunks s3 se [] (read_buffer_ (mpx_ (conn s3))) (mk_world [] st ra) ch)
    as (c4 & Hst & Hi4 & Hw & Hc & Hu); try done.
  { by rewrite Hrd, Hpar. }
  { rewrite Hcat. by apply awaits_next. }
  exists c4. injection Hw as Hw1 Hw2 Hw3. split_and!; try done.
  - rewrite Hst. destruct se as [k0 k1 k2 k3 k4], s3 as [c x rs3 r o]. cbn in *. by rewrite Hrun, Hrd.
  - apply (slots_done (mpx_ (conn s3))); [done| |by rewrite Hw2]. unfold answers. rewrite <- Hrs.
    eapply N.le_lt_trans; [apply responses_length|done].
  - intros i Hn. rewrite Hr in Hn. by rewrite Hw2, Hk.
Qed.

(** ** The notifications *)

Definition ev_answered (id : elem_id) : event := ev_notified id not_cancelled.
Definition call_result (id : elem_id) (x : call) : elem_id * exec_result :=
  (id, (None, len (bytes_of (call_responses x)))).

(** A request that was answered completes. *)
Lemma answered_resumes (s : system) id x o :
  answered_call (mpx_ (conn s)) id x -> execs s !! id = Some (mk_pending o exec_waiting 0) ->
  step (ev_answered id) s =
    Some (exec_done o id (None, len (bytes_of (call_responses x))) (set_execs (set_conn s (conn s)) (delete id (execs s)))).
Proof.
  intros (e & He & _ & Hec & Hdn & Hsz) Hx. unfold ev_answered. cbn [step]. rewrite Hx. unfold notifications. rewrite He.
  cbn [from_option]. rewrite Hdn. cbn [Nat.ltb Nat.leb]. unfold resume_exec. cbn [at_ exec_resume]. unfold deref. rewrite He.
  cbn [mbind outcome_bind]. rewrite Hec. cbn [has_ec is_cancelled owner_]. by rewrite Hsz.
Qed.

Lemma notify_calls ids xs (s : system) :
  NoDup ids ->
  Forall2 (fun id x => answered_call (mpx_ (conn s)) id x /\ execs s !! id = Some (mk_pending user exec_waiting 0)) ids xs ->
  exists x, steps (map ev_answered ids) s =
    Some (Done (mk_system (conn s) x (results s ++ zip_with call_result ids xs) (run s) (order s))) /\
    forall i, i ∉ ids -> x !! i = execs s !! i.
Proof.
  intros Hnd Hs. revert s Hs. revert xs. induction Hnd as [|id ids Hid _ IH]; intros xs s Hs.
  { exists (execs s). apply Forall2_nil_inv_l in Hs as ->. cbn. rewrite app_nil_r. by destruct s. }
  apply Forall2_cons_inv_l in Hs as (x & xs' & [Ha Hx] & Hs & ->).
  cbn [map steps]. rewrite (answered_resumes _ _ _ _ Ha Hx). cbn [exec_done].
  destruct (IH xs' (set_results (set_execs (set_conn s (conn s)) (delete id (execs s))) (results s ++ [call_result id x]))) as (y & Hy & Hk).
  { eapply Forall2_impl_in; [exact Hs|]. intros i z Hi [? ?]. cbn. split; [done|]. rewrite lookup_delete_ne; [done|]. by intros ->. }
  exists y. split; [etransitivity; [exact Hy|]; cbn; by rewrite <-(assoc_L (++))|].
  intros i [Hne Hi]%not_elem_of_cons. rewrite Hk by done. cbn. by rewrite lookup_delete_ne.
Qed.

(** ** The round trip *)

(** The bytes the session writes to the stream. *)
Definition writing (s : system) : option bytes :=
  match run s with
  | active (run_group (mk_session _ _ _ _ (co_yield (writer_writing v)))) => Some v
  | _ => None
  end.

Lemma writer_steps (s s1 : system) se ids xs :
  resting s se -> collected s s1 ids xs -> write_buffer_ (mpx_ (conn s)) = [] -> Forall call_ok xs -> xs <> [] ->
  exists c2 c3 o,
    let s2 := mk_system c2 (execs s1) (results s) (active (run_group (with_writer se (co_yield (writer_writing (sent xs)))))) o in
    let s3 := mk_system c3 (execs s1) (results s) (active (run_group se)) o in
    step (ev_writer_timer (Some operation_aborted)) s1 = Some (Done s2) /\
    step (ev_written None) s2 = Some (Done s3) /\
    queued mark_written c3 ids xs /\ writer_timer_ c3 = armed /\ conn_cfg_ c3 = conn_cfg_ (conn s) /\ same_receive (conn s) c3 /\
    own_parts c3 = own_parts (conn s1) /\ frozen (mpx_ (conn s1)) (mpx_ c3).
Proof.
  intros R C Hw Hxs Hne.
  assert (queued (fun e => e) (conn s1) ids xs) as Hq.
  { split_and!; [apply C|split; [rewrite (un_parser _ _ (col_unmoved _ _ _ _ C))|rewrite (un_push _ _ (col_unmoved _ _ _ _ C))]; apply R| |apply C|].
    { etransitivity; [apply (un_open _ _ (col_unmoved _ _ _ _ C))|apply R]. }
    eapply Forall2_impl; [apply C|]. by intros i x [? _]. }
  destruct (writer_sends _ _ _ (Some operation_aborted) Hq) as (c2 & E2 & Q2 & G2 & _);
    [apply C|by rewrite (un_write _ _ (col_unmoved _ _ _ _ C))|done|].
  destruct (writer_commits _ _ _ (sent xs) Q2 (calls_answerable _ Hxs)) as (c3 & E3 & Q3 & T3 & G3 & _).
  exists c2, c3, (order s1). cbn zeta.
  pose proof (rest_run _ _ R) as Hrun. pose proof (rest_writer _ _ R) as Hwr. rewrite <-(col_run _ _ _ _ C) in Hrun.
  assert (writer_timer_ (conn s1) = fired (Some operation_aborted)) as Ht.
  { rewrite (col_timer _ _ _ _ C), (rest_timer _ _ R), bool_decide_false by done.
    unfold trigger_write, is_writing. by rewrite (rest_open _ _ R), Hw. }
  destruct se as [k0 k1 k2 k3 k4]. cbn [session_writer] in Hwr. subst k4. split_and!.
  - cbn [step run_step]. rewrite Hrun. cbn [session_step]. rewrite Ht. cbn [wait_admits]. rewrite bool_decide_true by done.
    rewrite E2. cbn [mbind outcome_bind]. by rewrite <-(col_results _ _ _ _ C).
  - cbn [step run_step run with_writer session_step conn]. rewrite E3. done.
  - done.
  - done.
  - by rewrite G3, G2, (un_cfg _ _ (col_unmoved _ _ _ _ C)).
  - etransitivity; [split; [apply (un_receive _ _ (col_unmoved _ _ _ _ C))|apply (un_channel _ _ (col_unmoved _ _ _ _ C))]|]. etransitivity; [|by eapply writer_resume_receive]. by eapply writer_resume_receive.
  - rewrite (writer_resume_own _ _ _ _ _ E3). by eapply writer_resume_own.
  - intros i Hi. rewrite (writer_resume_frozen _ _ _ _ _ (proj1 Q2) E3), (writer_resume_frozen _ _ _ _ _ (proj1 Hq) E2); [done|done|].
    destruct Q2 as (_ & _ & _ & -> & _). by rewrite (col_queue _ _ _ _ C) in Hi.
Qed.

(** The requests of a batch that have been written, and wait for their answers. *)
Record underway (s s' : system) (se : session) (ids : list elem_id) (xs : list call) : Prop := {
  fl_run : run s' = active (run_group se);
  fl_timer : writer_timer_ (conn s') = armed;
  fl_queued : queued mark_written (conn s') ids xs;
  fl_execs : Forall (fun i => execs s' !! i = Some (mk_pending user exec_waiting 0)) ids;
  fl_results : results s' = results s;
  fl_receive : same_receive (conn s) (conn s');
  fl_cfg : conn_cfg_ (conn s') = conn_cfg_ (conn s);
  fl_own : own_parts (conn s') = own_parts (conn s);
  fl_old : forall i e, store (mpx_ (conn s)) !! i = Some e -> i ∉ ids /\ store (mpx_ (conn s')) !! i = Some e;
}.

Lemma batch_in_flight (s : system) se xs :
  sys_reachable s -> resting s se -> Forall call_ok xs -> xs <> [] ->
  exists ids s1 s2, steps (map ev_call xs ++ [ev_writer_timer (Some operation_aborted)]) s = Some (Done s1) /\
    writing s1 = Some (sent xs) /\ step (ev_written None) s1 = Some (Done s2) /\ underway s s2 se ids xs.
Proof.
  intros Hre R Hxs Hne. pose proof (reachable_ok _ Hre) as Hok. destruct (collect_resting _ _ _ Hok R Hxs) as (ids & s1 & Hs1 & C).
  pose proof (ok_run _ Hok) as Hr. rewrite (rest_run _ _ R) in Hr. destruct Hr as [_ Hw].
  rewrite (rest_writer _ _ R) in Hw. destruct Hw as (Hwb & _).
  destruct (writer_steps _ _ _ _ _ R C Hwb Hxs Hne) as (c2 & c3 & o & E2 & E3 & Q3 & T3 & G3 & V3 & O3 & F3).
  eexists ids, _, _. split; [erewrite steps_app by exact Hs1; cbn [steps]; rewrite E2; reflexivity|]. split; [done|]. split; [exact E3|].
  pose proof (col_unmoved _ _ _ _ C) as U. destruct (col_own _ _ _ _ C) as [N1 N2]. split; cbn [run conn execs results]; try done.
  - pose proof (col_elems _ _ _ _ C) as He. apply Forall_forall. intros i [n Hn]%list_elem_of_lookup.
    by destruct (Forall2_lookup_l _ _ _ _ _ He Hn) as (x & _ & _ & ?).
  - rewrite O3. unfold own_parts. by rewrite N1, N2, (un_checker _ _ U), (col_handshaker _ _ _ _ C).
  - intros i e Hi. assert (i ∉ ids) as Hn.
    { intros Hin. pose proof (col_fresh _ _ _ _ C) as Hf. rewrite Forall_forall in Hf. rewrite (Hf i Hin) in Hi. done. }
    split; [done|]. rewrite F3 by (by rewrite (col_queue _ _ _ _ C)). by apply C.
Qed.

Lemma stream_round_trip (s : system) se xs rs chunks ra ch :
  sys_reachable s -> resting s se -> Forall call_ok xs -> xs <> [] -> server_sends (concat (map call_responses xs)) rs chunks ->
  receive_pushes (receive_adapter_ (mpx_ (conn s))) (pushes rs) = Some ra -> announce (receive_channel_ (conn s)) rs = Some ch ->
  ((1 < length chunks)%nat -> buffer_growth_hint + 2 * len (bytes_of rs) <= max_read_size (conn_cfg_ (conn s))) ->
  exists ids s1 s2,
    steps (map ev_call xs ++ [ev_writer_timer (Some operation_aborted)]) s = Some (Done s1) /\
    writing s1 = Some (sent xs) /\
    steps (ev_written None :: map ev_piece chunks ++ map ev_answered ids) s1 = Some (Done s2) /\
    results s2 = results s ++ zip_with call_result ids xs /\
    Forall2 (answered_call (mpx_ (conn s2))) ids xs /\
    receive_adapter_ (mpx_ (conn s2)) = ra /\ receive_channel_ (conn s2) = ch /\ resting s2 se /\ (healthy s se -> healthy s2 se).
Proof.
  intros Hre R Hxs Hne Hsrv Hra Hch Hmax.
  destruct (batch_in_flight s se xs Hre R Hxs Hne) as (ids & s1 & s3 & Hs1 & Hw1 & Hs3 & [F1 F2 F3 F4 F5 [F6 F6'] F7 F8 F9]).
  destruct (reader_steps s3 se ids xs rs chunks ra ch)
    as (c4 & E4 & I4 & Q4 & A4 & F4' & H4 & [O4 T4 G4 P4] & K4); try done; [apply R|by apply calls_answerable|by rewrite F6|by rewrite F6'|..].
  { unfold room. rewrite F7. split_and!; [by destruct F3 as (_ & _ & ? & _)|apply R|].
    intros Ht. apply Hmax. destruct chunks as [|d [|d2 ds]]; [done|done|cbn; lia]. }
  pose proof F3 as (W3 & _ & Q3o & Q3r & _).
  destruct (notify_calls ids xs (set_conn s3 c4)) as (y & Hy & _).
  { rewrite <- Q3r. apply W3. }
  { cbn [conn execs set_conn]. clear -A4 F4. induction A4 as [|i x ids xs Ha _ IH]; [constructor|].
    apply Forall_cons in F4 as [Hx F4]. constructor; [by split|by apply IH]. }
  exists ids, s1, (mk_system c4 y (results s3 ++ zip_with call_result ids xs) (run s3) (order s3)).
  split; [exact Hs1|]. split; [exact Hw1|]. split; [|cbn; split_and!; try done].
  - cbn [steps]. rewrite Hs3. erewrite steps_app by exact E4. exact Hy.
  - by rewrite F5.
  - split; cbn; try done; try apply R; [by rewrite T4|by rewrite O4|]. rewrite G4, F7. apply R.
  - intros Hh. eapply healthy_kept; [exact Hh|cbn; by rewrite P4|cbn; by rewrite G4|]. intros i e Hi. destruct (F9 i e Hi) as [Hn He].
    cbn. rewrite K4; [done|]. by rewrite Q3r.
Qed.

(** No pushes, in one piece. *)
Lemma responses_only rs : Forall response_ok rs -> responses rs = rs /\ pushes rs = [] /\ Forall message_ok rs /\ forall ch : Ch, announce ch rs = Some ch.
Proof.
  unfold responses, pushes. induction 1 as [|r rs (Hv & Hh & Hp) _ (IH1 & IH2 & IH3 & IH4)]; [by split_and!|].
  assert (is_push r = false) as Hr by (unfold is_push; by destruct (root_type r)).
  cbn [List.filter announce]. rewrite Hr. cbn [negb]. rewrite IH1, IH2. split_and!; [done|done|by constructor|done].
Qed.

Lemma batch_round_trip (s : system) se xs :
  sys_reachable s -> resting s se -> Forall call_ok xs -> xs <> [] -> len (answers xs) <= buffer_growth_hint ->
  exists ids s1 s2,
    steps (map ev_call xs ++ [ev_writer_timer (Some operation_aborted)]) s = Some (Done s1) /\
    writing s1 = Some (sent xs) /\
    steps ([ev_written None; ev_read None (answers xs)] ++ map ev_answered ids) s1 = Some (Done s2) /\
    results s2 = results s ++ zip_with call_result ids xs /\
    Forall2 (answered_call (mpx_ (conn s2))) ids xs /\ resting s2 se.
Proof.
  intros Hre R Hxs Hne Hl. assert (Forall response_ok (concat (map call_responses xs))) as Hrs.
  { apply Forall_concat, Forall_map. eapply Forall_impl; [exact Hxs|]. intros x [Hx _]. apply (call_valid _ Hx). }
  destruct (responses_only _ Hrs) as (H1 & H2 & H3 & H4).
  destruct (stream_round_trip s se xs (concat (map call_responses xs)) [answers xs] (receive_adapter_ (mpx_ (conn s))) (receive_channel_ (conn s)))
    as (ids & s1 & s2 & ? & ? & ? & ? & ? & _ & _ & ? & _); try done.
  - split; [done|done|cbn [concat]; by rewrite app_nil_r| |eapply N.le_lt_trans; [exact Hl|by vm_compute]].
    constructor; [|done]. split; [|done]. destruct xs as [|x xs]; [done|]. apply Forall_cons in Hxs as [[Hx _] _].
    pose proof (call_some _ Hx) as Hs. unfold answers, bytes_of. cbn [map concat]. destruct (call_responses x) as [|r l]; [done|].
    cbn [app map concat]. pose proof (encode_nonempty r). by destruct (encode r).
  - by rewrite H2.
  - cbn. lia.
  - by exists ids, s1, s2.
Qed.

Lemma stream_read (s : system) se rs chunks w ch :
  run s = active (run_group se) -> session_reader se = co_yield (reader_reading 0 buffer_growth_hint) ->
  idle (mpx_ (conn s)) -> Forall message_ok rs -> len (bytes_of rs) < size_modulus ->
  concat chunks = bytes_of rs -> Forall piece_ok chunks -> room (len (bytes_of rs)) (conn s) (concat (tail chunks)) ->
  deliver_all (world_of (mpx_ (conn s))) rs = Some w -> announce (receive_channel_ (conn s)) rs = Some ch ->
  exists c', steps (map ev_piece chunks) s = Some (Done (set_conn s c')) /\
    idle (mpx_ c') /\ world_of (mpx_ c') = w /\ receive_channel_ c' = ch.
Proof.
  intros Hrun Hrd Hi Hok Hl Hcat Hp Hroom Hd Ha. pose proof Hi as [Hpar _].
  destruct (read_steps (len (bytes_of rs)) chunks s se [] (read_buffer_ (mpx_ (conn s))) w ch) as (c' & Hst & Hi' & Hw & Hc & _); try done.
  { by rewrite Hrd, Hpar. }
  { rewrite Hcat. by apply awaits_next. }
  exists c'. split_and!; try done. rewrite Hst. destruct se as [k0 k1 k2 k3 k4], s as [c x r0 r o]. cbn in *. by rewrite Hrun, Hrd.
Qed.

(** C12: While a session runs and its reader is between two messages, the bytes
    of any messages, cut into reads anywhere, leave the queue, the requests and
    the receive adapter in the state in which they are when the messages are
    delivered one by one, each response to the request at the front of the queue
    and each push to the receive adapter; each push is announced on the channel,
    and the reader waits for the next message. *)
Theorem stream_delivered (s : system) se rs chunks w ch :
  run s = active (run_group se) -> session_reader se = co_yield (reader_reading 0 buffer_growth_hint) ->
  idle (mpx_ (conn s)) -> Forall message_ok rs -> len (bytes_of rs) < size_modulus ->
  concat chunks = bytes_of rs -> Forall piece_ok chunks -> room (len (bytes_of rs)) (conn s) (concat (tail chunks)) ->
  deliver_all (world_of (mpx_ (conn s))) rs = Some w -> announce (receive_channel_ (conn s)) rs = Some ch ->
  exists c', steps (map ev_piece chunks) s = Some (Done (set_conn s c')) /\
    idle (mpx_ c') /\ world_of (mpx_ c') = w /\ receive_channel_ c' = ch.
Proof. apply stream_read. Qed.

(** C1: A batch of requests started on a session at rest is sent in one write,
    the payloads in the order of the calls.  However the answers of the server,
    with pushes anywhere between them, are cut into reads, at the end every
    request has completed without error and with the size of its own responses,
    its adapter has received exactly these, the receive adapter has received the
    pushes, each of which is announced on the channel, and the session is at
    rest again, and healthy if it was. *)
Theorem requests_round_trip (s : system) se xs rs chunks ra ch :
  sys_reachable s -> resting s se -> Forall call_ok xs -> xs <> [] -> server_sends (concat (map call_responses xs)) rs chunks ->
  receive_pushes (receive_adapter_ (mpx_ (conn s))) (pushes rs) = Some ra -> announce (receive_channel_ (conn s)) rs = Some ch ->
  ((1 < length chunks)%nat -> buffer_growth_hint + 2 * len (bytes_of rs) <= max_read_size (conn_cfg_ (conn s))) ->
  exists ids s1 s2,
    steps (map ev_call xs ++ [ev_writer_timer (Some operation_aborted)]) s = Some (Done s1) /\
    writing s1 = Some (sent xs) /\
    steps (ev_written None :: map ev_piece chunks ++ map ev_answered ids) s1 = Some (Done s2) /\
    results s2 = results s ++ zip_with call_result ids xs /\
    Forall2 (answered_call (mpx_ (conn s2))) ids xs /\
    receive_adapter_ (mpx_ (conn s2)) = ra /\ receive_channel_ (conn s2) = ch /\ resting s2 se /\ (healthy s se -> healthy s2 se).
Proof. apply stream_round_trip. Qed.
End WithChannel.

Definition example_calls : list call :=
  [mk_call two_commands recorder [bulk (bs "A"); bulk (bs "B")] (recorded [(0, bulk_node (bs "A")); (1, bulk_node (bs "B"))]);
   mk_call one_command recorder [ok_reply] (recorded [(0, mk_node type.simple_string 1 0 (bs "OK"))])].

(** The user has set a receive adapter. *)
Definition listening : list example_event := handshaken ++ [ev_set_receive recorder].

Definition rested_session : session :=
  match run (state_after listening) with
  | active (run_group se) => se
  | _ => mk_session (co_complete None) (co_complete None) (co_complete None) (co_complete None) (co_complete None)
  end.

(** The answers with a push between them, in three pieces. *)
Definition example_stream : list resp3 := [bulk (bs "A"); a_push; bulk (bs "B"); ok_reply].
Definition example_pieces : list bytes :=
  let b := bytes_of example_stream in [take 4 b; take 8 (drop 4 b); drop 12 b].

Lemma requests_round_trip_witness :
  exists ids (s1 s2 : example_system),
    steps (map ev_call example_calls ++ [ev_writer_timer (Some operation_aborted)]) (state_after listening) = Some (Done s1) /\
    writing s1 = Some (bs "GET a;GET b;GET c;") /\
    steps (ev_written None :: map ev_piece example_pieces ++ map ev_answered ids) s1 = Some (Done s2) /\
    results s2 = results (state_after listening) ++ zip_with call_result ids example_calls /\
    Forall2 (answered_call (mpx_ (conn s2))) ids example_calls /\
    receive_adapter_ (mpx_ (conn s2)) =
      Some (recorded [(0, mk_node type.push 1 0 []); (0, mk_node type.blob_string 1 1 (bs "x"))]) /\
    receive_channel_ (conn s2) = [(None, 11)] /\ resting s2 rested_session /\
    (healthy (state_after listening) rested_session -> healthy s2 rested_session).
Proof.
  apply (requests_round_trip (state_after listening) rested_session example_calls example_stream example_pieces).
  - reachable_state.
  - split; by vm_compute.
  - repeat apply Forall_cons_2; [..|apply Forall_nil_2]; (split; [split; [..|repeat constructor; by vm_compute|]; by vm_compute|by vm_compute]).
  - done.
  - split; [by vm_compute|repeat constructor; by vm_compute|by vm_compute| |by vm_compute].
    repeat apply Forall_cons_2; [..|apply Forall_nil_2]; split; by vm_compute.
  - by vm_compute.
  - by vm_compute.
  - intros _. by vm_compute.
Defined.

(** A request has been written, and its answer arrives behind a push. *)
Definition asked_once : list example_event :=
  listening ++ [ev_exec one_command recorder; ev_writer_timer (Some operation_aborted); ev_written None].

Definition after_push : world :=
  default (mk_world [] ∅ None) (deliver_all (world_of (mpx_ (conn (state_after asked_once)))) [a_push; bulk (bs "A")]).

Lemma stream_delivered_witness :
  w_queue after_push = [] /\
  exists c', steps (map ev_piece [bs ">1"; sep ++ bs "$1" ++ sep ++ bs "x" ++ sep ++ bs "$"; bs "1" ++ sep ++ bs "A" ++ sep])
      (state_after asked_once) = Some (Done (set_conn (state_after asked_once) c')) /\
    idle (mpx_ c') /\ world_of (mpx_ c') = after_push /\ receive_channel_ c' = [(None, 11)].
Proof.
  split; [vm_compute; reflexivity|].
  apply (stream_delivered (state_after asked_once) rested_session [a_push; bulk (bs "A")]).
  - vm_compute. reflexivity.
  - vm_compute. reflexivity.
  - split; vm_compute; reflexivity.
  - repeat apply Forall_cons_2; [..|apply Forall_nil_2]; split; vm_compute; done.
  - vm_compute. reflexivity.
  - vm_compute. reflexivity.
  - repeat apply Forall_cons_2; [..|apply Forall_nil_2]; split; vm_compute; done.
  - split_and!; [vm_compute; reflexivity|vm_compute; done|intros _; vm_compute; done].
  - vm_compute. reflexivity.
  - vm_compute. reflexivity.
Defined.
