(* ===== verification/SessionStart.v ===== *)
(** * The start of a session

    A connection that is being established, for the first time or again, with
    requests in its queue: the session starts with one write of all of them between
    [HELLO] and [PING], and the answers complete the handshake, the requests and the
    health check. *)

From stdpp Require Import gmap.
From S2P Require Import Prelude Charconv Types Parser ParserSpec ParserSafety Resp3 ParserCorrect.
From S2P Require Import Serialization Request Adapters Traits AdapterTheorems AdapterClaims.
From S2P Require Import Multiplexer MultiplexerInvariant MultiplexerRead MultiplexerStream MultiplexerClaims ReaderStream Evolution Logger Session Connection Run Advance.
From S2P Require Import ConnectionClaims System SystemInvariant SystemRefinement Healthy RoundTrip.

#[local] Open Scope string_scope.
#[local] Open Scope N_scope.
#[local] Open Scope list_scope.

(** ** The requests of the connection itself *)

(** A response without an error in it. *)
Definition no_error (r : resp3) : Prop := Forall (fun nd => is_error_type (data_type nd) = false) (nodes 0 r).

Lemma generic_feed l i rs :
  Forall no_error rs ->
  feed_responses (generic_adapter (r_value l)) i rs = Done (generic_adapter (r_value (l ++ concat (map (nodes 0) rs))), None).
Proof.
  intros Hrs. revert l i. induction Hrs as [|r rs Hr _ IH]; intros l i; cbn [feed_responses map concat]; [by rewrite app_nil_r|].
  unfold generic_adapter at 1. rewrite any_feed.
  change (feed (fun s nd ec => vector_adapter s i nd ec) (r_value l) (nodes 0 r)) with (feed general_aggregate (r_value l) (nodes 0 r)).
  destruct (generic_response_collects l (nodes 0 r) (mk_node type.null 1 0 []) Hr) as [-> _]. cbn [mbind outcome_bind has_ec].
  etransitivity; [apply IH|]. by rewrite (assoc_L (++)).
Qed.

(** A request of the connection itself, with its answers, which go behind the
    nodes that its response object holds. *)
Definition own_call (l : list node) (req : request) (rs : list resp3) : call :=
  mk_call req (generic_adapter (r_value l)) rs (generic_adapter (r_value (l ++ concat (map (nodes 0) rs)))).

Record welcome (n : size_t) (rs : list resp3) : Prop := {
  wel_count : len rs = n;
  wel_valid : Forall response_ok rs;
  wel_good : Forall no_error rs;
}.

Lemma own_answerable l req n rs :
  get_expected_responses req = n -> 0 < n < size_modulus -> welcome n rs -> answerable (own_call l req rs).
Proof.
  intros Hreq Hn [Hc Hv Hg]. split; cbn [call_req call_responses call_adapter call_after own_call supported_response_size generic_adapter]; try done.
  - by rewrite Hreq, Hc.
  - intros ->. unfold len in Hc. cbn in Hc. lia.
  - rewrite Hc. lia.
  - rewrite Hc. change any_size with (size_modulus - 1). lia.
  - by apply generic_feed.
Qed.

Section WithChannel.
Context {Ch Ep : Type} `{Channel Ch} `{Platform Ep}.
Abbreviation connection := (connection Ch Ep).
Abbreviation system := (system Ch Ep).
Abbreviation event := (event Ep).

(** ** The connection is established *)

(** The connection is established. *)
Definition connects (cfg : config) (res : list Ep) (ep : Ep) : list event :=
  [ev_resolved None res; ev_connected None ep true] ++ if use_ssl cfg then [ev_secured None] else [].

(** A connection that differs in the parts that connect. *)
Record established (c c' : connection) : Prop := {
  est_parts : session_parts c' = session_parts c;
  est_elems : hello_elem_ c' = hello_elem_ c /\ ping_elem_ c' = ping_elem_ c;
  est_open : is_open c' = true;
  est_channel : receive_channel_ c' = receive_channel_ c;
}.

Lemma connect_steps (s : system) res ep :
  run s = active run_resolving -> resv_ (resolver_ (conn s)) = armed ->
  exists c s', established (conn s) c /\ execs s' = execs s /\ results s' = results s /\
    forall r, run_session c = Done r -> steps (connects (conn_cfg_ (conn s)) res ep) s = Some (Done (after_run s' r)).
Proof.
  intros Hrun Hres. unfold connects. cbn [steps app step]. unfold run_step at 1. rewrite Hrun, Hres.
  cbn [run_resume resolve_resume aborted has_ec mbind outcome_bind after_run].
  destruct (use_ssl (conn_cfg_ (conn s))) eqn:Hssl.
  all: cbn [steps step run_step run set_run conn set_conn run_resume connect_resume aborted has_ec mbind outcome_bind].
  all: match goal with |- context [use_ssl (conn_cfg_ ?x)] => change (conn_cfg_ x) with (conn_cfg_ (conn s)) end; rewrite Hssl.
  all: cbn [mbind outcome_bind after_run steps step run_step run set_run conn set_conn run_resume has_ec].
  all: match goal with |- context [run_session ?x] => exists x end; eexists; split; [done|]; split; [|split]; [| |intros r ->; reflexivity]; done.
Qed.

(** ** The start of the session *)

(** The calls the connection makes itself. *)
Definition ping_calls (l : list node) (c : connection) (pongs : list resp3) : list call :=
  if pings c then [own_call l (ping_req_ (health_checker_ c)) pongs] else [].

Definition element (f : elem -> elem) (c : connection) (id : elem_id) (x : call) : Prop :=
  store (mpx_ c) !! id = Some (f (make_elem (call_req x) (call_adapter x))).

Lemma element_kept f (c c' : connection) ids xs :
  Forall2 (element f c) ids xs -> (forall i e, store (mpx_ c) !! i = Some e -> store (mpx_ c') !! i = Some e) -> Forall2 (element f c') ids xs.
Proof. intros Hs Hk. eapply Forall2_impl; [exact Hs|]. intros i x. apply Hk. Qed.

(** Those the health check adds. *)
Lemma pinged_calls (c c' : connection) k xs l pongs :
  pinged c c' k -> Forall2 (element id c) (reqs_ (mpx_ c)) xs -> (pings c = true -> ping_response c = r_value l) -> NoDup (reqs_ (mpx_ c)) ->
  exists pids, reqs_ (mpx_ c') = reqs_ (mpx_ c) ++ pids /\ Forall2 (element id c') (reqs_ (mpx_ c) ++ pids) (xs ++ ping_calls l c pongs) /\
    NoDup (reqs_ (mpx_ c) ++ pids) /\
    (forall s : system, execs (launch_ping k s) = foldr (fun i => <[i := mk_pending health_check exec_waiting 0]>) (execs s) pids) /\
    if pings c then exists pid, pids = [pid] /\ ping_elem_ c' = Some pid else pids = [] /\ forall h, ping_rests h k.
Proof.
  intros [Hq _ _] Hs Hr Hnd. unfold ping_calls. destruct (pings c).
  - destruct Hq as (pid & -> & Hel & [Hwf _ Hf He Ho Hq]). exists [pid]. split_and!; [done| |by rewrite <- Hq; apply Hwf|done|by eexists].
    apply Forall2_app; [by eapply element_kept|]. constructor; [|done]. unfold element. by rewrite He, Hr.
  - destruct Hq as [Hq Hk]. exists []. rewrite !app_nil_r, Hq. split_and!; [done|by eapply element_kept; [exact Hs|by rewrite Hq]|done| |done|].
    + intros s. by destruct Hk as [->| ->].
    + intros h. by destruct Hk as [->| ->].
Qed.

(** The queue of the session, staged to be written. *)
Record session_queue (c c' : connection) (se : session) (xs : list call) (l : list node) (greet pongs : list resp3)
    (hid : elem_id) (pids : list elem_id) (req : request) : Prop := {
  sq_request : represents req (hello_command (hello_cfg_ (handshaker_ c)) :: select_command (hello_cfg_ (handshaker_ c)));
  sq_queued : queued mark_staged c' (hid :: reqs_ (mpx_ c) ++ pids) (own_call [] req greet :: xs ++ ping_calls l c pongs);
  sq_hello : session_hello se = co_yield (hid, exec_waiting);
  sq_elem : hello_elem_ c' = Some hid;
  sq_launch : forall s : system, execs (launch_ping (session_ping se) (launch_hello (session_hello se) s)) =
    foldr (fun i => <[i := mk_pending health_check exec_waiting 0]>) (<[hid := mk_pending handshake exec_waiting 0]> (execs s)) pids;
  sq_ping : if pings c then exists pid, pids = [pid] /\ ping_elem_ c' = Some pid else pids = [] /\ forall h, ping_rests h (session_ping se);
}.

Lemma session_queues (c c' : connection) se xs l greet pongs :
  session_sends c c' se -> is_open c = true -> Forall2 (element id c) (reqs_ (mpx_ c)) xs ->
  result_has_value (hello_response c) = true -> (pings c = true -> ping_response c = r_value l /\ held c (ping_elem_ c)) ->
  exists hid pids req, session_queue c c' se xs l greet pongs hid pids req.
Proof.
  intros D Hop Hs Hhr Hpr. destruct (sd_requests _ _ _ D) as (c1 & c2 & hid & req & Hh & [Gr Gq Gu _ [Ge1 Ge2] _] & P & He & Hpe & Hwf & Hq & Hst).
  destruct Gq as [W1 _ F1 E1 O1 Q1]. cbn [mpx_ set_mpx Multiplexer.reset reqs_ store] in F1, O1, Q1.
  change (hello_response (set_mpx c (Multiplexer.reset (mpx_ c)))) with (hello_response c) in E1. rewrite Hhr in E1.
  assert (pings c1 = pings c /\ ping_calls l c1 pongs = ping_calls l c pongs) as [Hpg Hpc] by (unfold ping_calls, pings; by rewrite (un_checker _ _ Gu)).
  destruct (pinged_calls c1 c2 (session_ping se) (own_call [] req greet :: xs) l pongs P) as (pids & Q2 & S2 & N2 & L2 & K2).
  { rewrite Q1. constructor; [exact E1|by eapply element_kept]. }
  { rewrite Hpg. intros Hp. destruct (Hpr Hp) as [Hr Hhd]. unfold ping_response. rewrite Ge2, (un_checker _ _ Gu).
    cbn [ping_elem_ health_checker_ set_mpx]. rewrite <- Hr. apply shared_kept; [done|]. intros i e _. apply O1. }
  { apply W1. }
  rewrite Hpc, Q1 in S2. rewrite Q1 in Q2. cbn [app] in Q2, S2. rewrite Hpg, <- Hpe in K2. exists hid, pids, req. split; try done.
  - split_and!; [done|apply D|by rewrite <- Hop; apply D|by rewrite Hq|].
    eapply Forall2_impl_in; [exact S2|]. intros i x Hi Hx. apply Hst; [by rewrite Q2|exact Hx].
  - intros s. rewrite L2, Hh. done.
Qed.

(** [async_run] is about to connect, and users wait for the requests of the queue. *)
Record connecting (s : system) (ids : list elem_id) (xs : list call) : Prop := {
  cn_ok : sys_ok s;
  cn_run : run s = active run_resolving;
  cn_resolver : resv_ (resolver_ (conn s)) = armed;
  cn_waiting : all_waiting (mpx_ (conn s));
  cn_queue : reqs_ (mpx_ (conn s)) = ids;
  cn_elems : Forall2 (element id (conn s)) ids xs;
  cn_execs : Forall (fun i => execs s !! i = Some (mk_pending user exec_waiting 0)) ids;
  cn_prepared : prepared (conn s);
}.

(** The session that starts then. *)
Record session_open (s0 s : system) (se : session) (hid : elem_id) (ids pids : list elem_id)
    (req : request) (xs : list call) (pcs : list call) (greet : list resp3) : Prop := {
  op_run : run s = active (run_group se);
  op_results : results s = results s0;
  op_request : let cfg := conn_cfg_ (conn s0) in represents req (hello_command cfg :: select_command cfg);
  op_queued : queued mark_staged (conn s) (hid :: ids ++ pids) (own_call [] req greet :: xs ++ pcs);
  op_ids : length ids = length xs;
  op_execs : execs s !! hid = Some (mk_pending handshake exec_waiting 0) /\
    Forall (fun i => execs s !! i = Some (mk_pending user exec_waiting 0)) ids /\
    Forall (fun i => execs s !! i = Some (mk_pending health_check exec_waiting 0)) pids;
  op_writer : let cfg := conn_cfg_ (conn s0) in
    session_writer se = co_yield (writer_writing (wire (hello_command cfg :: select_command cfg) ++ sent (xs ++ pcs)));
  op_reader : session_reader se = co_yield (reader_reading 0 buffer_growth_hint);
  op_receive : same_receive (conn s0) (conn s);
  op_cfg : conn_cfg_ (conn s) = conn_cfg_ (conn s0) /\ hello_cfg_ (handshaker_ (conn s)) = hello_cfg_ (handshaker_ (conn s0));
  op_checker : same_checks (health_checker_ (conn s0)) (health_checker_ (conn s)) /\ checker_has_exited_ (health_checker_ (conn s)) = false;
  op_elem : hello_elem_ (conn s) = Some hid;
  op_ping : if (ping_interval_ (health_checker_ (conn s0)) =? 0)%Z then pids = [] /\ forall h, ping_rests h (session_ping se)
    else exists pid, pids = [pid] /\ ping_elem_ (conn s) = Some pid;
  op_check : check_waits (ping_interval_ (health_checker_ (conn s0))) (health_checker_ (conn s)) (session_check se);
}.

Lemma launched_lookup (m : gmap elem_id pending) (q : pending) pids i :
  (i ∈ pids -> foldr (fun i => <[i := q]>) m pids !! i = Some q) /\ (i ∉ pids -> foldr (fun i => <[i := q]>) m pids !! i = m !! i).
Proof.
  induction pids as [|p pids [IH1 IH2]]; cbn [foldr]; [split; [by intros ?%not_elem_of_nil|done]|]. split.
  - destruct (decide (i = p)) as [->|Hne]; [by rewrite lookup_insert_eq|]. rewrite lookup_insert_ne by done.
    intros [?|?]%elem_of_cons; [done|auto].
  - intros [Hne ?]%not_elem_of_cons. rewrite lookup_insert_ne by done. auto.
Qed.

(** The PING the configuration asks for. *)
Definition ping_commands (cfg : config) : list (list bytes) :=
  if (health_check_interval cfg =? 0)%Z then [] else [[bs "PING"; health_check_id cfg]].

Lemma after_run_session (s : system) (c : connection) se hid :
  session_hello se = co_yield (hid, exec_waiting) ->
  let s' := after_run s (c, co_yield (run_group se)) in
  conn s' = c /\ run s' = active (run_group se) /\ results s' = results s /\
  execs s' = execs (launch_ping (session_ping se) (launch_hello (session_hello se) (set_conn s c))).
Proof.
  intros Hh. cbn [after_run conn run results execs set_run]. rewrite Hh. cbn [launch_hello].
  match goal with |- context [launch_ping ?k ?s1] => destruct (launch_ping_conn k s1) as (-> & -> & _) end. by split_and!.
Qed.

(** Who waits for the requests of the new session. *)
Lemma queue_owners (s : system) ids pids hid se (c : connection) :
  Forall (fun i => execs s !! i = Some (mk_pending user exec_waiting 0)) ids ->
  (forall s1 : system, execs (launch_ping (session_ping se) (launch_hello (session_hello se) s1)) =
    foldr (fun i => <[i := mk_pending health_check exec_waiting 0]>) (<[hid := mk_pending handshake exec_waiting 0]> (execs s1)) pids) ->
  session_hello se = co_yield (hid, exec_waiting) -> NoDup (hid :: ids ++ pids) ->
  let x := execs (after_run s (c, co_yield (run_group se))) in
  x !! hid = Some (mk_pending handshake exec_waiting 0) /\
  Forall (fun i => x !! i = Some (mk_pending user exec_waiting 0)) ids /\
  Forall (fun i => x !! i = Some (mk_pending health_check exec_waiting 0)) pids.
Proof.
  intros Hx HL Hh Hnd. destruct (after_run_session s c se hid Hh) as (_ & _ & _ & ->). rewrite HL. cbn [execs set_conn].
  apply NoDup_cons in Hnd as [Hhid (_ & Hdis & _)%NoDup_app]. apply not_elem_of_app in Hhid as [Hh1 Hh2]. rewrite Forall_forall in Hx. split_and!.
  - rewrite (proj2 (launched_lookup _ _ _ _)) by done. by rewrite lookup_insert_eq.
  - apply Forall_forall. intros i Hi. rewrite (proj2 (launched_lookup _ _ _ _)) by (by apply Hdis).
    rewrite lookup_insert_ne by (by intros ->). by apply Hx.
  - apply Forall_forall. intros i Hi. by apply (proj1 (launched_lookup _ _ _ _)).
Qed.

Lemma sent_app xs ys : sent (xs ++ ys) = sent xs ++ sent ys.
Proof. unfold sent. by rewrite map_app, concat_app. Qed.

(** The calls of the health check, by its configuration. *)
Lemma prepared_pings (c : connection) :
  prepared c -> pings c = negb (ping_interval_ (health_checker_ c) =? 0)%Z /\
  exists l, pings c = true -> ping_response c = r_value l /\ held c (ping_elem_ c).
Proof.
  intros P. unfold pings. rewrite (pre_exited _ P), orb_false_r. split; [done|].
  destruct (Z.eqb_spec (ping_interval_ (health_checker_ c)) 0) as [Hz|Hz]; [by exists []|].
  destruct (pre_pong _ P Hz) as [[l Hl] Hh]. by exists l.
Qed.

Lemma ping_calls_payload l (c : connection) pongs : ping_payload c = sent (ping_calls l c pongs).
Proof. unfold ping_payload, ping_calls. destruct (pings c); [|done]. unfold sent. cbn. by rewrite app_nil_r. Qed.

Lemma session_opens (s0 : system) ids xs res ep greet pongs :
  connecting s0 ids xs -> buffer_growth_hint <= max_read_size (conn_cfg_ (conn s0)) ->
  exists hid pids req l s se, steps (connects (conn_cfg_ (conn s0)) res ep) s0 = Some (Done s) /\
    session_open s0 s se hid ids pids req xs (ping_calls l (conn s0) pongs) greet.
Proof.
  intros [Hok C1 C2 C3 C4 C5 C6 P] Hmax. destruct (prepared_pings _ P) as (Hpg & l & Hl).
  destruct (connect_steps s0 res ep C1 C2) as (cb & s' & [Ep1 [Ee1 Ee2] Eo Ec] & Hx & Hr & Hst).
  injection Ep1 as Em Ech Eh Ecf.
  pose proof (start_session_sends cb) as Hss. rewrite Ecf, (proj2 (N.leb_le _ _) Hmax), Em in Hss.
  destruct Hss as (c' & se & Hse & D); [apply Hok|done| |].
  { pose proof (ok_configured _ _ _ (ok_requests _ Hok)) as Hconf. unfold configured in *. by rewrite Ech, Eh. }
  destruct (session_queues cb c' se xs l greet pongs D Eo) as (hid & pids & req & [Q1 Q2 Q3 Q4 Q5 Q6]).
  { rewrite Em, C4. eapply Forall2_impl; [exact C5|]. intros i x. unfold element. by rewrite Em. }
  { unfold hello_response, shared_response. rewrite Ee1, Eh, Em. apply P. }
  { unfold pings, ping_response, shared_response, held. rewrite Ee2, Ech, Em. exact Hl. }
  assert (pings cb = pings (conn s0) /\ ping_calls l cb pongs = ping_calls l (conn s0) pongs) as [Hpb Hpc] by (unfold ping_calls, pings; by rewrite Ech).
  exists hid, pids, req, l, (after_run s' (c', co_yield (run_group se))), se.
  split; [apply Hst; unfold run_session; by rewrite Hse|].
  rewrite Hpc, Em, C4 in Q2. rewrite Eh, (pre_hello _ P) in Q1. rewrite Hpb, Hpg in Q6.
  destruct (after_run_session s' c' se hid Q3) as (A1 & A2 & A3 & A4).
  assert (NoDup (hid :: ids ++ pids)) as Hnd by (destruct Q2 as (W & _ & _ & <- & _); apply W).
  rewrite <- Hx in C6. pose proof (queue_owners s' ids pids hid se c' C6 Q5 Q3 Hnd) as Ho.
  split; rewrite ?A1, <- ?Ech, <- ?Eh; try done; try apply D.
  - by rewrite A3.
  - by eapply Forall2_length.
  - cbn zeta. rewrite (sd_writer _ _ _ D). unfold first_write.
    rewrite Eh, (pre_hello _ P), (ping_calls_payload l cb pongs), Hpc, Em, C4, sent_app, (sent_payloads _ _ xs); [done|exact C5].
  - split; [by rewrite (sd_receive _ _ _ D), Em|by rewrite (sd_channel _ _ _ D), Ec].
  - by rewrite (sd_cfg _ _ _ D), Ecf, (sd_hello _ _ _ D).
  - rewrite Ech. by destruct (_ =? 0)%Z.
Qed.

(** ** The answers *)

Lemma no_error_found rs : Forall no_error rs -> existsb (fun nd => is_error_type (data_type nd)) (concat (map (nodes 0) rs)) = false.
Proof.
  intros Hrs. apply not_true_is_false. intros (nd & Hin & Hnd)%existsb_exists. apply in_concat in Hin as (l & (r & <- & Hr)%in_map_iff & Hin).
  rewrite Forall_forall in Hrs. specialize (Hrs r ltac:(by apply list_elem_of_In)). unfold no_error in Hrs. rewrite Forall_forall in Hrs.
  by rewrite Hrs in Hnd by (by apply list_elem_of_In).
Qed.

(** The handshake completes. *)
Lemma hello_notified (s : system) se hid req greet :
  run s = active (run_group se) -> execs s !! hid = Some (mk_pending handshake exec_waiting 0) ->
  answered_call (mpx_ (conn s)) hid (own_call [] req greet) -> hello_elem_ (conn s) = Some hid -> Forall no_error greet ->
  exists l, step (ev_answered hid) s =
    Some (Done (mk_system (logc (conn s) l) (delete hid (execs s)) (results s)
      (active (run_group (with_hello se (co_complete None)))) (order s ++ [0%nat]))).
Proof.
  intros Hrun Hx Ha Hh Hg. rewrite (answered_resumes _ _ _ _ Ha Hx). cbn [exec_done run set_execs set_conn]. rewrite Hrun.
  unfold hello_resume. cbn [conn set_execs set_conn fst has_ec].
  assert (has_error_in_response (handshaker_now (conn s)) = false) as ->.
  { unfold has_error_in_response, handshaker_now, hello_response. cbn [hello_resp_]. rewrite Hh. cbn [shared_response].
    destruct Ha as (e & -> & Had & _). cbn [from_option]. rewrite Had. by apply no_error_found. }
  cbn [mbind outcome_bind]. by eexists.
Qed.

(** The health check waits until it sends the next PING. *)
Lemma ping_notified (s : system) se pid x :
  run s = active (run_group se) -> execs s !! pid = Some (mk_pending health_check exec_waiting 0) ->
  answered_call (mpx_ (conn s)) pid x ->
  step (ev_answered pid) s =
    Some (Done (mk_system (set_checker (conn s) (set_ping_timer armed (health_checker_ (conn s)))) (delete pid (execs s)) (results s)
      (active (run_group (with_ping se (co_yield (ping_waiting (ping_interval_ (health_checker_ (conn s)))))))) (order s))).
Proof.
  intros Hrun Hx Ha. rewrite (answered_resumes _ _ _ _ Ha Hx). cbn [exec_done run set_execs set_conn]. by rewrite Hrun.
Qed.

(** The write completes and the answers are read. *)
Lemma answers_read (s0 s : system) se hid ids pids req xs pcs greet pongs rs chunks ra ch :
  session_open s0 s se hid ids pids req xs pcs greet -> Forall answerable (own_call [] req greet :: xs ++ pcs) ->
  concat (map call_responses pcs) = pongs ->
  server_sends (greet ++ concat (map call_responses xs) ++ pongs) rs chunks ->
  receive_pushes (receive_adapter_ (mpx_ (conn s0))) (pushes rs) = Some ra -> announce (receive_channel_ (conn s0)) rs = Some ch ->
  buffer_growth_hint + 2 * len (bytes_of rs) <= max_read_size (conn_cfg_ (conn s0)) ->
  exists c', steps (ev_written None :: map ev_piece chunks) s =
      Some (Done (mk_system c' (execs s) (results s) (active (run_group (with_writer se (co_yield writer_idle)))) (order s))) /\
    idle (mpx_ c') /\ reqs_ (mpx_ c') = [] /\ Forall2 (answered_call (mpx_ c')) (hid :: ids ++ pids) (own_call [] req greet :: xs ++ pcs) /\
    receive_adapter_ (mpx_ c') = ra /\ receive_channel_ c' = ch /\
    is_open c' = true /\ writer_timer_ c' = armed /\ conn_cfg_ c' = conn_cfg_ (conn s) /\ own_parts c' = own_parts (conn s).
Proof.
  intros Hop Hans Hp Hsrv Hra Hch Hmax. pose proof (op_queued _ _ _ _ _ _ _ _ _ _ Hop) as Hq.
  pose proof (op_writer _ _ _ _ _ _ _ _ _ _ Hop) as Hw. cbn zeta in Hw. destruct (op_receive _ _ _ _ _ _ _ _ _ _ Hop) as [V V'].
  pose proof (op_run _ _ _ _ _ _ _ _ _ _ Hop) as Hrun. destruct (op_cfg _ _ _ _ _ _ _ _ _ _ Hop) as [Hcfg _].
  set (v := wire _ ++ _) in Hw. destruct (writer_commits _ _ _ v Hq Hans) as (c3 & E3 & Q3 & T3 & G3 & _).
  destruct (writer_resume_receive _ _ _ _ _ E3) as [W W']. pose proof (writer_resume_own _ _ _ _ _ E3) as Wh.
  set (s3 := mk_system c3 (execs s) (results s) (active (run_group (with_writer se (co_yield writer_idle)))) (order s)).
  assert (step (ev_written None) s = Some (Done s3)) as Hs3.
  { clear Hop. destruct se as [k0 k1 k2 k3 k4]. cbn [session_writer] in Hw. subst k4. cbn [step run_step]. rewrite Hrun. cbn [session_step].
    by rewrite E3. }
  destruct (reader_steps s3 (with_writer se (co_yield writer_idle)) (hid :: ids ++ pids) (own_call [] req greet :: xs ++ pcs) rs chunks ra ch)
    as (c4 & E4 & I4 & Q4 & A4 & F4 & H4 & [O4 T4 G4 Y4] & _); try done.
  { apply Hop. }
  { cbn [map concat call_responses own_call]. by rewrite map_app, concat_app, Hp. }
  { cbn. by rewrite W, V. } { cbn. by rewrite W', V'. }
  { unfold room. cbn. rewrite G3, Hcfg. split_and!; [by destruct Q3 as (_ & _ & ? & _)|lia|done]. }
  exists c4. split_and!; try done.
  - cbn [steps]. rewrite Hs3. exact E4.
  - rewrite O4. by destruct Q3 as (_ & _ & ? & _).
  - by rewrite T4.
  - by rewrite G4.
  - by rewrite Y4.
Qed.

(** What the completions leave alone. *)
Record same_session (c c' : connection) : Prop := {
  ss_mpx : mpx_ c' = mpx_ c;
  ss_stream : is_open c' = is_open c /\ receive_channel_ c' = receive_channel_ c /\ writer_timer_ c' = writer_timer_ c;
  ss_own : own_config c' = own_config c;
  ss_check : wait_timer_ (health_checker_ c') = wait_timer_ (health_checker_ c);
}.

(** The health check, if it is enabled, was answered. *)
Lemma pings_notified (s : system) se pids pcs :
  run s = active (run_group se) -> Forall2 (answered_call (mpx_ (conn s))) pids pcs -> (length pcs <= 1)%nat ->
  Forall (fun i => execs s !! i = Some (mk_pending health_check exec_waiting 0)) pids ->
  (pids = [] -> forall h, ping_rests h (session_ping se)) ->
  exists c x k, steps (map ev_answered pids) s = Some (Done (mk_system c x (results s) (active (run_group (with_ping se k))) (order s))) /\
    same_session (conn s) c /\ ping_rests (health_checker_ c) k.
Proof.
  intros Hrun Ha Hlen Hx Hk. destruct Ha as [|pid x pids pcs Ha Has].
  - exists (conn s), (execs s), (session_ping se). split; [|by split; [|apply Hk]]. destruct s, se. cbn in *. by rewrite Hrun.
  - destruct Has; [|cbn in Hlen; lia]. apply Forall_cons in Hx as [Hx _].
    cbn [map steps]. rewrite (ping_notified s se pid x Hrun Hx Ha). by eexists _, _, _.
Qed.

Lemma answers_notified (s : system) se hid ids pids req xs pcs greet :
  run s = active (run_group se) ->
  Forall2 (answered_call (mpx_ (conn s))) (hid :: ids ++ pids) (own_call [] req greet :: xs ++ pcs) -> length ids = length xs ->
  execs s !! hid = Some (mk_pending handshake exec_waiting 0) /\
    Forall (fun i => execs s !! i = Some (mk_pending user exec_waiting 0)) ids /\
    Forall (fun i => execs s !! i = Some (mk_pending health_check exec_waiting 0)) pids ->
  NoDup (hid :: ids ++ pids) -> (length pcs <= 1)%nat -> (pids = [] -> forall h, ping_rests h (session_ping se)) ->
  hello_elem_ (conn s) = Some hid -> Forall no_error greet ->
  exists c x k o, steps (map ev_answered (hid :: ids ++ pids)) s =
      Some (Done (mk_system c x (results s ++ zip_with call_result ids xs)
        (active (run_group (mk_session (co_complete None) k (session_check se) (session_reader se) (session_writer se)))) o)) /\
    same_session (conn s) c /\ ping_rests (health_checker_ c) k.
Proof.
  intros Hrun [Ha Has]%Forall2_cons Hlen (X1 & X2 & X3) [Hhid Hnd]%NoDup_cons Hpl Hk Hel Hg.
  apply Forall2_app_inv in Has as [Ha1 Ha2]; [|done]. apply not_elem_of_app in Hhid as [Hh1 Hh2]. apply NoDup_app in Hnd as (Hnd & Hdis & _).
  destruct (hello_notified s se hid req greet Hrun X1 Ha Hel Hg) as (l & Hs1). set (s1 := mk_system _ _ _ _ _) in Hs1.
  destruct (notify_calls ids xs s1 Hnd) as (x & Hs2 & Hx).
  { apply Forall2_same_length_lookup_2; [done|]. intros n i y Hi Hy. split; [by apply (Forall2_lookup_lr _ _ _ _ _ _ Ha1 Hi Hy)|].
    cbn [execs s1]. rewrite lookup_delete_ne by (intros ->; apply Hh1; by eapply list_elem_of_lookup_2). by apply (Forall_lookup_1 _ _ _ _ X2 Hi). }
  set (s2 := mk_system _ _ _ _ _) in Hs2.
  destruct (pings_notified s2 (with_hello se (co_complete None)) pids pcs) as (c & x' & k & Hs3 & [Y1 Y2 Y3 Y4] & Hr); [done|done|done| |done|].
  { apply Forall_forall. intros i Hi. cbn [execs s2]. rewrite Hx by (intros Hi'; by apply (Hdis i)). cbn [execs s1].
    rewrite lookup_delete_ne by (by intros ->). rewrite Forall_forall in X3. by apply X3. }
  exists c, x', k, (order s2). split; [|by split]. cbn [map steps]. rewrite Hs1, map_app. erewrite steps_app by exact Hs2. exact Hs3.
Qed.

Lemma ping_calls_answered l (c : connection) pongs :
  prepared c -> welcome (len (ping_commands (conn_cfg_ c))) pongs ->
  let pcs := ping_calls l c pongs in
  Forall answerable pcs /\ concat (map call_responses pcs) = pongs /\ (length pcs <= 1)%nat /\ sent pcs = wire (ping_commands (conn_cfg_ c)).
Proof.
  intros P Hw. destruct (prepared_pings _ P) as [Hp _]. unfold ping_calls, ping_commands in *. rewrite (pre_interval _ P) in Hp. rewrite Hp.
  destruct (_ =? 0)%Z; cbn [negb].
  - destruct Hw as [Hl _ _]. destruct pongs; [|unfold len in Hl; cbn in Hl; lia]. split_and!; [done|done|cbn; lia|done].
  - split_and!.
    + constructor; [|done]. eapply own_answerable; [..|exact Hw]; [exact (rep_expected _ _ (pre_request _ P))|done].
    + cbn. by rewrite app_nil_r.
    + cbn. lia.
    + unfold sent. cbn. rewrite app_nil_r. exact (rep_payload _ _ (pre_request _ P)).
Qed.

Lemma greeting_length cfg : 0 < len (hello_command cfg :: select_command cfg) < size_modulus.
Proof. unfold select_command. destruct (database_index cfg) as [i|]; [|done]. by destruct (i =? 0)%Z. Qed.

(** ** The session at rest *)

Lemma answered_value (c : connection) id l req rs r :
  answered_call (mpx_ c) id (own_call l req rs) ->
  shared_response c (Some id) r = r_value (l ++ concat (map (nodes 0) rs)) /\ held c (Some id).
Proof.
  intros (e & He & Ha & _). split; [cbn; rewrite He; cbn; by rewrite Ha|]. intros i [= <-]. by exists e.
Qed.

(** After the answers, the next session could start. *)
Lemma session_prepared (s0 s : system) se hid ids pids req xs l pongs greet (c' : connection) :
  session_open s0 s se hid ids pids req xs (ping_calls l (conn s0) pongs) greet -> prepared (conn s0) ->
  own_config c' = own_config (conn s) -> answered_call (mpx_ c') hid (own_call [] req greet) ->
  Forall2 (answered_call (mpx_ c')) pids (ping_calls l (conn s0) pongs) -> prepared c'.
Proof.
  intros Hop P [= E1 E2 E3 E4 E5 E6 E7 E8 E9] Ah Ap. destruct (prepared_pings _ P) as [Hpg _].
  destruct (op_cfg _ _ _ _ _ _ _ _ _ _ Hop) as [Hcfg Hh]. destruct (op_checker _ _ _ _ _ _ _ _ _ _ Hop) as [(Hi & Hq & _) Hx].
  pose proof (op_elem _ _ _ _ _ _ _ _ _ _ Hop) as Hel. pose proof (op_ping _ _ _ _ _ _ _ _ _ _ Hop) as Hp.
  split; rewrite ?E1, ?E2, ?E4, ?E5, ?E6, ?Hcfg, ?Hh, ?Hi, ?Hq; try done; try apply P; unfold hello_response, ping_response; rewrite ?E8, ?E9.
  - rewrite Hel. destruct (answered_value _ _ _ _ _ (hello_resp_ (handshaker_ c')) Ah) as [-> ?]. done.
  - intros Hz%Z.eqb_neq. rewrite Hz in Hp, Hpg. destruct Hp as (pid & -> & ->). unfold ping_calls in Ap. rewrite Hpg in Ap.
    apply Forall2_cons in Ap as [Ap _]. destruct (answered_value _ _ _ _ _ (ping_resp_ (health_checker_ c')) Ap) as [-> ?]. eauto.
Qed.

Lemma check_waits_rests interval h h' k : check_waits interval h k -> wait_timer_ h' = wait_timer_ h -> check_rests h' k.
Proof. unfold check_waits. destruct (_ =? 0)%Z; [by intros ->|]. intros [-> Ha] Hw. cbn. congruence. Qed.

(** From the connection to the answers. *)
Lemma session_trip (s0 : system) ids xs res ep greet pongs rs chunks ra ch :
  connecting s0 ids xs -> Forall answerable xs ->
  let cfg := conn_cfg_ (conn s0) in
  welcome (len (hello_command cfg :: select_command cfg)) greet -> welcome (len (ping_commands cfg)) pongs ->
  server_sends (greet ++ concat (map call_responses xs) ++ pongs) rs chunks ->
  receive_pushes (receive_adapter_ (mpx_ (conn s0))) (pushes rs) = Some ra -> announce (receive_channel_ (conn s0)) rs = Some ch ->
  buffer_growth_hint + 2 * len (bytes_of rs) <= max_read_size cfg ->
  exists hid pids s1 s2 se,
    steps (connects cfg res ep) s0 = Some (Done s1) /\
    writing s1 = Some (wire (hello_command cfg :: select_command cfg) ++ sent xs ++ wire (ping_commands cfg)) /\
    steps (ev_written None :: map ev_piece chunks ++ map ev_answered (hid :: ids ++ pids)) s1 = Some (Done s2) /\
    results s2 = results s0 ++ zip_with call_result ids xs /\
    Forall2 (answered_call (mpx_ (conn s2))) ids xs /\
    receive_adapter_ (mpx_ (conn s2)) = ra /\ receive_channel_ (conn s2) = ch /\ resting s2 se /\ healthy s2 se.
Proof.
  intros C Hxs cfg Hgr Hpo Hsrv Hra Hch Hmax. pose proof (cn_prepared _ _ _ C) as P.
  destruct (session_opens s0 ids xs res ep greet pongs C) as (hid & pids & req & l & s1 & se & Hs1 & Hop); [fold cfg; lia|].
  destruct (ping_calls_answered l (conn s0) pongs P Hpo) as (P1 & P2 & P3 & P4). cbn zeta in P1, P2, P3, P4.
  assert (pids = [] -> forall h, ping_rests h (session_ping se)) as Hpk.
  { intros Hn. pose proof (op_ping _ _ _ _ _ _ _ _ _ _ Hop) as Hp. destruct (_ =? 0)%Z; [apply Hp|]. by destruct Hp as (pid & ? & _); subst. }
  destruct (answers_read s0 s1 se hid ids pids req xs (ping_calls l (conn s0) pongs) greet pongs rs chunks ra ch Hop)
    as (c2 & Hs2 & I & Q & A & F & R & O & T & G & E); try done.
  { constructor; [|apply Forall_app; by split].
    eapply own_answerable; [eapply greeting_expected, Hop|apply greeting_length|exact Hgr]. }
  injection E as Eh Ec Ee Epe. set (s2 := mk_system _ _ _ _ _) in Hs2.
  destruct (answers_notified s2 (with_writer se (co_yield writer_idle)) hid ids pids req xs (ping_calls l (conn s0) pongs) greet)
    as (c3 & x & k & o & Hs3 & [M3 (O3 & R3 & T3) G3 W3] & K3); try done.
  { apply Hop. } { apply Hop. } { destruct (op_queued _ _ _ _ _ _ _ _ _ _ Hop) as (W & _ & _ & <- & _). apply W. }
  { cbn. rewrite Ee. apply Hop. } { apply Hgr. }
  cbn [conn s2] in M3, O3, R3, T3, G3, W3. pose proof A as [Ah [A1 A2]%Forall2_app_inv]%Forall2_cons; [|apply Hop].
  assert (own_config c3 = own_config (conn s1)) as Hown by (rewrite G3; unfold own_config; by rewrite Eh, Ec, Ee, Epe, G).
  eexists hid, pids, s1, _, (mk_session (co_complete None) k (session_check se) (session_reader se) (co_yield writer_idle)).
  split; [exact Hs1|]. split; [|split; [|split]].
  - unfold writing. rewrite (op_run _ _ _ _ _ _ _ _ _ _ Hop). pose proof (op_writer _ _ _ _ _ _ _ _ _ _ Hop) as Hw.
    clear -Hw P4. destruct se as [k0 k1 k2 k3 k4]. cbn [session_writer] in Hw. rewrite Hw, sent_app, P4. done.
  - rewrite app_comm_cons. erewrite steps_app by exact Hs2. exact Hs3.
  - cbn. by rewrite (op_results _ _ _ _ _ _ _ _ _ _ Hop).
  - cbn [conn]. rewrite M3, R3. split_and!; try done.
    + split; cbn [run conn session_writer session_reader with_writer]; try done; try (first [by rewrite T3|by rewrite O3|by rewrite M3]); [apply Hop|].
      destruct (op_cfg _ _ _ _ _ _ _ _ _ _ Hop) as [Hcfg _]. injection Hown as -> _. rewrite Hcfg. fold cfg. lia.
    + split; cbn [conn session_hello session_ping session_check]; try done.
      * eapply check_waits_rests; [apply Hop|]. by rewrite W3, Ec.
      * eapply session_prepared; [exact Hop|exact P|exact Hown|by rewrite M3..].
Qed.
End WithChannel.
