(* ===== verification/Startup.v ===== *)
(** * A connection from its construction

    The life of a connection up to its first answers: [async_run] is called,
    requests are made while it resolves and connects, and the session starts with
    them. *)

From stdpp Require Import gmap.
From S2P Require Import Prelude Charconv Types Parser ParserSpec ParserSafety Resp3 ParserCorrect.
From S2P Require Import Serialization Request Adapters Traits AdapterTheorems AdapterClaims.
From S2P Require Import Multiplexer MultiplexerInvariant MultiplexerRead MultiplexerStream MultiplexerClaims ReaderStream Evolution Logger Session Connection Run Advance.
From S2P Require Import ConnectionClaims System SystemInvariant SystemRefinement Scenario Healthy RoundTrip SessionStart.

#[local] Open Scope string_scope.
#[local] Open Scope N_scope.
#[local] Open Scope list_scope.

Section WithChannel.
Context {Ch Ep : Type} `{Channel Ch} `{Platform Ep}.
Abbreviation connection := (connection Ch Ep).
Abbreviation system := (system Ch Ep).
Abbreviation event := (event Ep).

(** [async_run] has been called for the first time. *)
Record launched (c : connection) (cfg : config) (s : system) : Prop := {
  lau_run : run s = active run_resolving;
  lau_results : results s = [];
  lau_queue : reqs_ (mpx_ (conn s)) = [];
  lau_closed : is_open (conn s) = false;
  lau_resolver : resv_ (resolver_ (conn s)) = armed;
  lau_cfg : conn_cfg_ (conn s) = cfg;
  lau_prepared : prepared (conn s);
  lau_receive : same_receive c (conn s);
}.

Lemma run_launches (c : connection) cfg :
  new_connection = Done c -> exists s, step (ev_run cfg) (init c) = Some (Done s) /\ launched c cfg s.
Proof.
  unfold new_connection, new_health_checker.
  destruct (push_represents (new_request default_request_config) [] (bs "PING") [str (bs "Boost.Redis")]) as (r & -> & Hr & Hc); [done..|].
  cbn [mbind outcome_bind]. intros Hm. apply bind_done in Hm as (m & Hm & [= <-]). injection Hm as <-.
  cbn [step run init conn]. unfold async_run, async_run_config, checker_set_config. cbn [health_checker_ set_connector set_resolver set_cfg ping_req_].
  destruct (push_represents (clear r) [] (bs "PING") [str (health_check_id cfg)]) as (r' & -> & Hr' & _); [apply clear_represents|done|done|].
  cbn [mbind outcome_bind]. eexists. split; [reflexivity|]. split; try done.
  split; try done. intros _. split; [by exists []|done].
Qed.

(** Requests that are accepted without a connection. *)
Definition early (x : call) : Prop := cancel_if_not_connected (get_config (call_req x)) = false.

Lemma calls_collected (c : connection) cfg xs :
  new_connection = Done c -> Forall call_ok xs -> Forall early xs ->
  exists s0 ids s, launched c cfg s0 /\ steps (ev_run cfg :: map ev_call xs) (init c) = Some (Done s) /\ collected s0 s ids xs /\ sys_ok s.
Proof.
  intros Hc Hxs Hea. destruct (run_launches c cfg Hc) as (s0 & Hs0 & L).
  assert (sys_reachable s0) as Hre by (by eapply (run_event (ev_run cfg)); [apply run_init|..|exact Hs0]).
  destruct (collect_calls s0 xs) as (ids & s & Hs & C); [apply (reachable_ok _ Hre)|apply L|done| |].
  { eapply Forall_impl; [exact Hea|]. intros x Hx. unfold accepted. by rewrite Hx. }
  exists s0, ids, s. split_and!; [done|cbn [steps]; by rewrite Hs0|done|]. apply reachable_ok. eapply reachable_steps; [exact Hre| |exact Hs].
  apply Forall_map. eapply Forall_impl; [exact Hxs|]. intros x [Hx _]. cbn. rewrite (call_expected _ Hx). apply Hx.
Qed.

Lemma collected_connecting (c : connection) cfg (s0 s : system) ids xs :
  launched c cfg s0 -> collected s0 s ids xs -> sys_ok s ->
  connecting s ids xs /\ conn_cfg_ (conn s) = cfg /\ results s = [] /\ same_receive c (conn s).
Proof.
  intros L C Hok. pose proof (col_unmoved _ _ _ _ C) as U. pose proof (col_elems _ _ _ _ C) as He. destruct (col_own _ _ _ _ C) as [E1 E2].
  split_and!.
  - split; try done; try apply C.
    + by rewrite (col_run _ _ _ _ C), (lau_run _ _ _ L).
    + by rewrite (un_resolver _ _ U), (lau_resolver _ _ _ L).
    + eapply Forall2_impl; [exact He|]. by intros i x [? _].
    + apply Forall_forall. intros i [n Hn]%list_elem_of_lookup. by destruct (Forall2_lookup_l _ _ _ _ _ He Hn) as (x & _ & _ & ?).
    + eapply prepared_kept; [apply L| |intros i e _; apply C].
      unfold own_config. by rewrite (un_cfg _ _ U), (un_checker _ _ U), (col_handshaker _ _ _ _ C), E1, E2.
  - by rewrite (un_cfg _ _ U), (lau_cfg _ _ _ L).
  - by rewrite (col_results _ _ _ _ C), (lau_results _ _ _ L).
  - etransitivity; [apply L|]. split; [by rewrite (un_receive _ _ U)|by rewrite (un_channel _ _ U)].
Qed.

Lemma startup_trip (c : connection) cfg xs res ep greet pongs rs chunks ra ch :
  new_connection = Done c -> Forall call_ok xs -> Forall early xs ->
  welcome (len (hello_command cfg :: select_command cfg)) greet -> welcome (len (ping_commands cfg)) pongs ->
  server_sends (greet ++ concat (map call_responses xs) ++ pongs) rs chunks ->
  receive_pushes (receive_adapter_ (mpx_ c)) (pushes rs) = Some ra -> announce (receive_channel_ c) rs = Some ch ->
  buffer_growth_hint + 2 * len (bytes_of rs) <= max_read_size cfg ->
  exists hid ids pids s0 s1 s2 se,
    steps (ev_run cfg :: map ev_call xs) (init c) = Some (Done s0) /\
    Forall (fun i => execs s0 !! i = Some (mk_pending user exec_waiting 0)) ids /\
    steps (connects cfg res ep) s0 = Some (Done s1) /\
    writing s1 = Some (wire (hello_command cfg :: select_command cfg) ++ sent xs ++ wire (ping_commands cfg)) /\
    steps (ev_written None :: map ev_piece chunks ++ map ev_answered (hid :: ids ++ pids)) s1 = Some (Done s2) /\
    results s2 = zip_with call_result ids xs /\
    Forall2 (answered_call (mpx_ (conn s2))) ids xs /\
    receive_adapter_ (mpx_ (conn s2)) = ra /\ receive_channel_ (conn s2) = ch /\
    resting s2 se /\ healthy s2 se.
Proof.
  intros Hc Hxs Hea Hgr Hpo Hsrv Hra Hch Hmax. destruct (calls_collected c cfg xs Hc Hxs Hea) as (s00 & ids & s0 & L & Hs0 & C & Hok).
  destruct (collected_connecting _ _ _ _ _ _ L C Hok) as (CN & Hcfg & Hr & [V V']).
  destruct (session_trip s0 ids xs res ep greet pongs rs chunks ra ch CN (calls_answerable _ Hxs)) as (hid & pids & s1 & s2 & se & T);
    rewrite ?Hcfg, ?V, ?V'; try done.
  rewrite Hcfg, Hr in T. exists hid, ids, pids, s0, s1, s2, se. split; [done|]. split; [apply CN|exact T].
Qed.

(** C2: The life of a connection from its construction.  Requests made after
    [async_run] was called, before the connection is established, are sent in the
    first write, in the order of the calls, behind the [HELLO] of the
    configuration and in front of the [PING] of the health check, with or without
    TLS.  However the answers of the server, with pushes anywhere between them,
    are cut into reads, the handshake succeeds, every request completes without
    error and with the size of its own responses, its adapter has received exactly
    these, and the session is at rest and healthy. *)
Theorem startup_round_trip (c : connection) cfg xs res ep greet pongs rs chunks ra ch :
  new_connection = Done c -> Forall call_ok xs -> Forall early xs ->
  welcome (len (hello_command cfg :: select_command cfg)) greet -> welcome (len (ping_commands cfg)) pongs ->
  server_sends (greet ++ concat (map call_responses xs) ++ pongs) rs chunks ->
  receive_pushes (receive_adapter_ (mpx_ c)) (pushes rs) = Some ra -> announce (receive_channel_ c) rs = Some ch ->
  buffer_growth_hint + 2 * len (bytes_of rs) <= max_read_size cfg ->
  exists hid ids pids s0 s1 s2 se,
    steps (ev_run cfg :: map ev_call xs) (init c) = Some (Done s0) /\
    Forall (fun i => execs s0 !! i = Some (mk_pending user exec_waiting 0)) ids /\
    steps (connects cfg res ep) s0 = Some (Done s1) /\
    writing s1 = Some (wire (hello_command cfg :: select_command cfg) ++ sent xs ++ wire (ping_commands cfg)) /\
    steps (ev_written None :: map ev_piece chunks ++ map ev_answered (hid :: ids ++ pids)) s1 = Some (Done s2) /\
    results s2 = zip_with call_result ids xs /\
    Forall2 (answered_call (mpx_ (conn s2))) ids xs /\
    receive_adapter_ (mpx_ (conn s2)) = ra /\ receive_channel_ (conn s2) = ch /\
    resting s2 se /\ healthy s2 se.
Proof. apply startup_trip. Qed.
End WithChannel.

(** Two requests with three commands, and a push that nobody has asked for. *)
Definition first_stream : list resp3 := ok_reply :: example_stream ++ [bulk (bs "Boost.Redis")].
Definition first_pieces : list bytes := let b := bytes_of first_stream in [take 7 b; take 20 (drop 7 b); drop 27 b].

Lemma startup_round_trip_witness :
  exists hid ids pids (s0 s1 s2 : example_system) se,
    steps (ev_run default_config :: map ev_call example_calls) unconnected = Some (Done s0) /\
    Forall (fun i => execs s0 !! i = Some (mk_pending user exec_waiting 0)) ids /\
    steps (connects default_config [bs "10.0.0.1:6379"] (bs "10.0.0.1:6379")) s0 = Some (Done s1) /\
    writing s1 = Some (wire [[bs "HELLO"; bs "3"; bs "SETNAME"; bs "Boost.Redis"]] ++ bs "GET a;GET b;GET c;" ++ wire [[bs "PING"; bs "Boost.Redis"]]) /\
    steps (ev_written None :: map ev_piece first_pieces ++ map ev_answered (hid :: ids ++ pids)) s1 = Some (Done s2) /\
    results s2 = zip_with call_result ids example_calls /\
    Forall2 (answered_call (mpx_ (conn s2))) ids example_calls /\
    receive_adapter_ (mpx_ (conn s2)) = receive_adapter_ (mpx_ (conn unconnected)) /\ receive_channel_ (conn s2) = [(None, 11)] /\
    resting s2 se /\ healthy s2 se.
Proof.
  apply (startup_round_trip (conn unconnected) default_config example_calls [bs "10.0.0.1:6379"] (bs "10.0.0.1:6379")
    [ok_reply] [bulk (bs "Boost.Redis")] first_stream first_pieces).
  - vm_compute. reflexivity.
  - repeat apply Forall_cons_2; [..|apply Forall_nil_2]; (split; [split; [..|repeat constructor; by vm_compute|]; by vm_compute|by vm_compute]).
  - repeat apply Forall_cons_2; [..|apply Forall_nil_2]; by vm_compute.
  - split; [by vm_compute|repeat constructor; by vm_compute|repeat constructor; by vm_compute].
  - split; [by vm_compute|repeat constructor; by vm_compute|repeat constructor; by vm_compute].
  - split; [by vm_compute|repeat constructor; by vm_compute|by vm_compute| |by vm_compute].
    repeat apply Forall_cons_2; [..|apply Forall_nil_2]; split; by vm_compute.
  - vm_compute. reflexivity.
  - vm_compute. reflexivity.
  - by vm_compute.
Defined.
