(* ===== verification/Recovery.v ===== *)
(** * A connection that is lost

    Requests that have been written when the connection is lost: the operations of
    the session end, [async_run] connects again after the interval of the
    configuration, and the next session sends the requests again. *)

From stdpp Require Import gmap.
From S2P Require Import Prelude Charconv Types Parser ParserSpec ParserSafety Resp3 ParserCorrect.
From S2P Require Import Serialization Request Adapters Traits AdapterTheorems AdapterClaims.
From S2P Require Import Multiplexer MultiplexerInvariant MultiplexerRead MultiplexerStream ClientSpec MultiplexerClaims ReaderStream Evolution Logger Session Connection Run Advance.
From S2P Require Import ConnectionClaims System SystemInvariant SystemRefinement Scenario Healthy RoundTrip SessionStart.

#[local] Open Scope string_scope.
#[local] Open Scope N_scope.
#[local] Open Scope list_scope.

(** ** The multiplexer *)

(** A queue whose requests do not ask to be cancelled survives. *)
Lemma conn_lost_all m :
  wf m -> cancel_run_called_ m = false -> Forall (fun i => test m survives i = true) (reqs_ m) ->
  exists m' n, cancel_on_conn_lost m = Done (m', n) /\ reqs_ m' = reqs_ m /\ receive_adapter_ m' = receive_adapter_ m /\ frozen m m' /\
    forall i e, i ∈ reqs_ m -> store m !! i = Some e -> store m' !! i = Some (mark_waiting e).
Proof.
  intros Hwf Hcalled Hsv. unfold cancel_on_conn_lost. rewrite Hcalled.
  set (m0 := set_cancel_run_called m true). assert (wf m0) as Hwf0 by (by eapply wf_same).
  rewrite wf_non_null by done. cbn [boost_assert mbind outcome_bind]. unfold stable_partition.
  change (reqs_ m0) with (reqs_ m). rewrite (filter_all (test m0 survives)) by done.
  assert (List.filter (fun i => negb (test m0 survives i)) (reqs_ m) = []) as ->.
  { clear -Hsv. change (test m0) with (test m). induction Hsv as [|i l Hi _ IH]; [done|]. cbn. by rewrite Hi. }
  eexists _, _. split; [reflexivity|]. split_and!; [done|done|..].
  - intros i Hi. cbn. rewrite for_each_lookup by apply Hwf. by rewrite decide_False.
  - intros i e Hi He. cbn. rewrite for_each_lookup by apply Hwf. by rewrite decide_True, He.
Qed.

Section WithChannel.
Context {Ch Ep : Type} `{Channel Ch} `{Platform Ep}.
Abbreviation connection := (connection Ch Ep).
Abbreviation system := (system Ch Ep).
Abbreviation event := (event Ep).

(** ** The end of the session *)

(** What an operation that ends leaves alone. *)
Record faded (c c' : connection) : Prop := {
  fa_mpx : mpx_ c' = mpx_ c;
  fa_own : own_config c' = own_config c;
  fa_channel : receive_channel_ c' = receive_channel_ c;
}.

(** A session with one operation less. *)
Definition ends (s : system) (se : session) (s' : system) : Prop :=
  exists c o, s' = mk_system c (execs s) (results s) (active (run_group se)) o /\ faded (conn s) c.

(** The completions of the operations of the health check that the group
    cancels. *)
Definition ping_ending (k : co ping_point error_code) : list event :=
  match k with
  | co_yield (ping_waiting _) => [ev_ping_timer (Some operation_aborted)]
  | co_yield ping_posted => [ev_ping_posted]
  | _ => []
  end.

Definition check_ending (k : co check_point error_code) : list event :=
  match k with
  | co_yield (check_waiting _) => [ev_check_timer (Some operation_aborted)]
  | co_yield check_posted => [ev_check_posted]
  | co_complete _ => []
  end.

Lemma ping_ends (s : system) se :
  run s = active (run_group se) -> ping_rests (health_checker_ (conn s)) (session_ping se) ->
  exists s' ec, steps (ping_ending (session_ping se)) s = Some (Done s') /\ ends s (with_ping se (co_complete ec)) s' /\
    wait_timer_ (health_checker_ (conn s')) = wait_timer_ (health_checker_ (conn s)).
Proof.
  intros Hrun Hp. destruct se as [k0 k1 k2 k3 k4]. cbn [session_ping] in *. destruct k1 as [[|i q|d]|ec]; cbn [ping_rests ping_ending steps] in *.
  - cbn [step run_step]. rewrite Hrun. eexists _, _. split; [reflexivity|]. split; [|done]. by eexists _, _.
  - done.
  - cbn [step run_step]. rewrite Hrun. cbn [session_step]. rewrite Hp. eexists _, _. split; [reflexivity|]. split; [|done]. by eexists _, _.
  - exists s, ec. split; [done|]. split; [|done]. exists (conn s), (order s). split; [|done]. destruct s. cbn in *. by rewrite Hrun.
Qed.

Lemma check_ends (s : system) se :
  run s = active (run_group se) -> check_rests (health_checker_ (conn s)) (session_check se) ->
  exists s' ec, steps (check_ending (session_check se)) s = Some (Done s') /\ ends s (with_check se (co_complete ec)) s' /\
    is_error ec error.pong_timeout = false.
Proof.
  intros Hrun Hp. destruct se as [k0 k1 k2 k3 k4]. cbn [session_check] in *. destruct k2 as [[|d]|ec]; cbn [check_rests check_ending steps] in *.
  - cbn [step run_step]. rewrite Hrun. eexists _, _. split; [reflexivity|]. split; [by eexists _, _|done].
  - cbn [step run_step]. rewrite Hrun. cbn [session_step]. rewrite Hp. eexists _, _. split; [reflexivity|]. split; [by eexists _, _|done].
  - subst ec. exists s, None. split; [done|]. split; [|done]. exists (conn s), (order s). split; [|done]. destruct s. cbn in *. by rewrite Hrun.
Qed.

(** The writer ends when it is woken on a closed connection. *)
Lemma writer_ends (s : system) se :
  run s = active (run_group se) -> session_writer se = co_yield writer_idle ->
  is_open (conn s) = false -> writer_timer_ (conn s) = fired (Some operation_aborted) ->
  exists s', step (ev_writer_timer (Some operation_aborted)) s = Some (Done s') /\ ends s (with_writer se (co_complete None)) s' /\
    health_checker_ (conn s') = health_checker_ (conn s).
Proof.
  intros Hrun Hw Ho Ht. destruct se as [k0 k1 k2 k3 k4]. cbn [session_writer] in Hw. subst k4. cbn [step run_step]. rewrite Hrun. cbn [session_step].
  rewrite Ht. cbn [wait_admits]. rewrite bool_decide_true by done. cbn [writer_resume].
  change (is_open (set_writer_timer (conn s) quiet)) with (is_open (conn s)). rewrite Ho. cbn [negb mbind outcome_bind].
  eexists. split; [reflexivity|]. split; [|done]. by eexists _, _.
Qed.

(** [async_run] waits, and connects again. *)
Lemma group_ends (s : system) e1 e2 e3 e4 :
  run s = active (run_group (mk_session (co_complete None) (co_complete e1) (co_complete e2) (co_complete e3) (co_complete e4))) ->
  is_error e2 error.pong_timeout = false -> will_reconnect (conn s) = true ->
  exists c, steps [ev_group; ev_reconnect None] s = Some (Done (mk_system c (execs s) (results s) (active run_resolving) [])) /\
    mpx_ c = mpx_ (conn s) /\ own_config c = own_config (conn s) /\ resv_ (resolver_ c) = armed /\
    receive_channel_ c = channel_cancel (receive_channel_ (conn s)).
Proof.
  intros Hrun He Hre. cbn [steps step run_step]. rewrite Hrun.
  cbn [session_step group_complete session_hello session_ping session_check session_reader session_writer run_resume].
  unfold run_group_done. cbn [order0 ec0 ec2 has_ec]. rewrite andb_false_r, He, andb_false_r. cbn [cancel mbind outcome_bind].
  match goal with |- context [will_reconnect ?x] => change (will_reconnect x) with (will_reconnect (conn s)) end. rewrite Hre.
  cbn [negb mbind outcome_bind after_run run set_run conn set_conn reconnect_timer_ set_reconnect_timer wait_admits has_ec orb run_resume].
  match goal with |- context [will_reconnect ?x] => change (will_reconnect x) with (will_reconnect (conn s)) end. rewrite Hre.
  eexists. split; [reflexivity|]. done.
Qed.

(** ** The loss of the connection *)

(** The reader ends, and the requests wait again. *)
Record loses (s s' : system) (se : session) (err : error_code) : Prop := {
  lo_state : exists o, s' = mk_system (conn s') (execs s) (results s) (active (run_group (with_reader se (co_complete err)))) o;
  lo_closed : is_open (conn s') = false /\ writer_timer_ (conn s') = fired (Some operation_aborted);
  lo_parts : own_parts (conn s') = own_parts (conn s) /\ conn_cfg_ (conn s') = conn_cfg_ (conn s);
  lo_channel : receive_channel_ (conn s') = channel_cancel (receive_channel_ (conn s));
  lo_queue : reqs_ (mpx_ (conn s')) = reqs_ (mpx_ (conn s)) /\ receive_adapter_ (mpx_ (conn s')) = receive_adapter_ (mpx_ (conn s));
  lo_frozen : frozen (mpx_ (conn s)) (mpx_ (conn s'));
  lo_elems : forall i e, i ∈ reqs_ (mpx_ (conn s)) -> store (mpx_ (conn s)) !! i = Some e ->
    store (mpx_ (conn s')) !! i = Some (mark_waiting e);
}.

Lemma reader_loses (s : system) se tmp size err :
  sys_ok s -> run s = active (run_group se) -> session_reader se = co_yield (reader_reading tmp size) ->
  is_open (conn s) = true -> writer_timer_ (conn s) = armed ->
  Forall (fun i => test (mpx_ (conn s)) survives i = true) (reqs_ (mpx_ (conn s))) ->
  exists s', step (ev_read (Some err) []) s = Some (Done s') /\ loses s s' se (Some err).
Proof.
  intros Hok Hrun Hrd Ho Ht Hsv. pose proof (ok_run _ Hok) as Hr. rewrite Hrun in Hr. destruct Hr as [(_ & Hc & _) _].
  destruct (conn_lost_all (mpx_ (conn s))) as (m & n & Hm & Hq & Ha & Hf & He); [apply Hok|by apply Hc|done|].
  destruct se as [k0 k1 k2 k3 k4]. cbn [session_reader] in Hrd. subst k3. cbn [step run_step]. rewrite Hrun. cbn [session_step].
  rewrite (proj2 (N.leb_le _ _)) by (change (len (@nil ascii)) with 0; lia).
  cbn [reader_resume append_some_complete has_ec cancel]. unfold cancel_run, close.
  match goal with |- context [is_open ?x] => change (is_open x) with (is_open (conn s)) end. rewrite Ho.
  cbn [mpx_ set_channel set_writer_timer set_open logc]. rewrite Hm. cbn [mbind outcome_bind].
  eexists. split; [reflexivity|]. split; cbn; try done; [by eexists|]. by rewrite Ht.
Qed.

(** The events of a session that loses its connection while it reads, up to the
    next attempt to connect. *)
Definition loss_events (err : error_value) (se : session) : list event :=
  [ev_read (Some err) []; ev_writer_timer (Some operation_aborted)] ++
  ping_ending (session_ping se) ++ check_ending (session_check se) ++ [ev_group; ev_reconnect None].

Lemma session_ends (s : system) se err :
  run s = active (run_group (with_reader se (co_complete err))) -> session_writer se = co_yield writer_idle -> healthy s se ->
  is_open (conn s) = false -> writer_timer_ (conn s) = fired (Some operation_aborted) -> will_reconnect (conn s) = true ->
  exists c, steps (ev_writer_timer (Some operation_aborted) :: ping_ending (session_ping se) ++ check_ending (session_check se) ++ [ev_group; ev_reconnect None]) s =
      Some (Done (mk_system c (execs s) (results s) (active run_resolving) [])) /\
    mpx_ c = mpx_ (conn s) /\ own_config c = own_config (conn s) /\ resv_ (resolver_ c) = armed /\
    receive_channel_ c = channel_cancel (receive_channel_ (conn s)).
Proof.
  intros Hrun Hw [Hh Hp Hk _] Ho Ht Hre.
  destruct (writer_ends s _ Hrun Hw Ho Ht) as (s1 & Hs1 & (c1 & o1 & -> & [M1 O1 R1]) & K1). cbn [conn] in K1.
  rewrite <- K1 in Hp, Hk. set (s1 := mk_system c1 _ _ _ _) in Hs1.
  destruct (ping_ends s1 (with_writer (with_reader se (co_complete err)) (co_complete None)) eq_refl Hp) as (s2 & e1 & Hs2 & (c2 & o2 & -> & [M2 O2 R2]) & K2).
  cbn [conn] in K2. set (s2 := mk_system c2 _ _ _ _) in Hs2.
  destruct (check_ends s2 (with_ping (with_writer (with_reader se (co_complete err)) (co_complete None)) (co_complete e1)) eq_refl)
    as (s3 & e2 & Hs3 & (c3 & o3 & -> & [M3 O3 R3]) & He).
  { cbn. unfold check_rests in *. destruct (session_check se) as [[|d]|ec]; [done|by rewrite K2|done]. }
  set (s3 := mk_system c3 _ _ _ _) in Hs3. cbn [conn s1 s2] in M2, O2, R2, M3, O3, R3.
  destruct (group_ends s3 e1 e2 err None) as (c & Hs & M4 & O4 & V4 & R4).
  { unfold s3, with_check, with_ping, with_writer, with_reader. cbn. by rewrite Hh. } { done. }
  { unfold will_reconnect in *. cbn. assert (own_config c3 = own_config (conn s)) as [= -> _] by congruence. done. }
  exists c. split; [|cbn in *; split_and!; congruence]. cbn [steps]. rewrite Hs1. erewrite steps_app by exact Hs2. erewrite steps_app by exact Hs3. exact Hs.
Qed.

(** ** Requests that survive *)

(** Requests that are kept when the connection is lost before their answers. *)
Definition persistent (x : call) : Prop := cancel_if_unresponded (get_config (call_req x)) = false.

Lemma written_waiting (m m' : multiplexer) ids xs :
  reqs_ m = ids -> Forall2 (fun i x => store m !! i = Some (mark_written (make_elem (call_req x) (call_adapter x)))) ids xs ->
  (forall i e, i ∈ reqs_ m -> store m !! i = Some e -> store m' !! i = Some (mark_waiting e)) ->
  Forall2 (fun i x => store m' !! i = Some (make_elem (call_req x) (call_adapter x))) ids xs /\
  Forall (fun i => test m' is_waiting i = true) ids.
Proof.
  intros Hr Hs Hk. assert (Forall2 (fun i x => store m' !! i = Some (make_elem (call_req x) (call_adapter x))) ids xs) as Hs'.
  { eapply Forall2_impl_in; [exact Hs|]. intros i x Hi He. rewrite <- Hr in Hi. by rewrite (Hk i _ Hi He). }
  split; [done|]. clear -Hs'. induction Hs' as [|i x ids xs Hi _ IH]; constructor; [|done]. unfold test. by rewrite Hi.
Qed.

Lemma written_survive m ids xs :
  Forall2 (fun i x => store m !! i = Some (mark_written (make_elem (call_req x) (call_adapter x)))) ids xs -> Forall persistent xs ->
  Forall (fun i => test m survives i = true) ids.
Proof.
  intros Hs. induction Hs as [|i x ids xs Hi _ IH]; intros Hp; [constructor|]. apply Forall_cons in Hp as [Hx Hp].
  constructor; [|auto]. unfold test. rewrite Hi. unfold survives. cbn. unfold persistent in Hx. by rewrite Hx.
Qed.

(** A session that loses its connection. *)
Lemma session_lost (s : system) se ids xs tmp size err :
  sys_reachable s -> run s = active (run_group se) -> session_reader se = co_yield (reader_reading tmp size) ->
  session_writer se = co_yield writer_idle -> writer_timer_ (conn s) = armed -> healthy s se -> will_reconnect (conn s) = true ->
  queued mark_written (conn s) ids xs -> Forall persistent xs ->
  Forall (fun i => execs s !! i = Some (mk_pending user exec_waiting 0)) ids ->
  (forall i, in_use (conn s) i -> i ∉ ids) ->
  exists s', steps (loss_events err se) s = Some (Done s') /\ connecting s' ids xs /\
    conn_cfg_ (conn s') = conn_cfg_ (conn s) /\ results s' = results s /\
    receive_adapter_ (mpx_ (conn s')) = receive_adapter_ (mpx_ (conn s)) /\
    receive_channel_ (conn s') = channel_cancel (channel_cancel (receive_channel_ (conn s))).
Proof.
  intros Hre Hrun Hrd Hw Ht Hh Hrc (_ & _ & Ho & Hr & Hs) Hper Hx Hout.
  destruct (reader_loses s se tmp size err (reachable_ok _ Hre) Hrun Hrd Ho Ht) as (s1 & Hs1 & [[o E1] [C1 T1] [P1 G1] R1 [Q1 A1] F1 W1]).
  { rewrite Hr. by eapply written_survive. }
  assert (own_config (conn s1) = own_config (conn s)) as O1 by (by apply own_config_parts).
  assert (prepared (conn s1)) as Hp.
  { eapply prepared_kept; [apply Hh|exact O1|]. intros i e Hi He. rewrite F1; [done|]. rewrite Hr. by apply Hout. }
  destruct (session_ends s1 se (Some err)) as (c & Hs2 & M2 & O2 & V2 & R2); try done.
  { by rewrite E1. } { destruct Hh as [? ? ? _]. injection P1 as _ Ec _ _. split; rewrite ?Ec; done. }
  { unfold will_reconnect. by rewrite G1. }
  destruct (written_waiting _ _ _ _ Hr Hs W1) as [Hs' Hall].
  set (s2 := mk_system c _ _ _ _) in Hs2. assert (steps (loss_events err se) s = Some (Done s2)) as Hst by (unfold loss_events; cbn [app steps]; by rewrite Hs1).
  exists s2. split; [done|]. split_and!; [|cbn..].
  - split; cbn [run conn execs s2]; try done.
    + apply reachable_ok. eapply reachable_steps; [exact Hre| |exact Hst]. unfold loss_events. repeat (apply Forall_cons_2; [done|]).
      apply Forall_app; split; [|apply Forall_app; split; [|by repeat constructor]].
      * by destruct (session_ping se) as [[]|]; repeat constructor.
      * by destruct (session_check se) as [[]|]; repeat constructor.
    + unfold all_waiting. by rewrite M2, Q1, Hr.
    + by rewrite M2, Q1.
    + eapply Forall2_impl; [exact Hs'|]. intros i x Hi. unfold element. by rewrite M2.
    + by rewrite E1.
    + eapply prepared_kept; [exact Hp|exact O2|]. by rewrite M2.
  - injection O2 as -> _. by rewrite G1.
  - by rewrite E1.
  - by rewrite M2, A1.
  - by rewrite R2, R1.
Qed.

Lemma recovery_trip (s : system) se xs err res ep greet pongs rs chunks ra ch :
  sys_reachable s -> resting s se -> healthy s se -> will_reconnect (conn s) = true ->
  Forall call_ok xs -> Forall persistent xs -> xs <> [] ->
  let cfg := conn_cfg_ (conn s) in
  welcome (len (hello_command cfg :: select_command cfg)) greet -> welcome (len (ping_commands cfg)) pongs ->
  server_sends (greet ++ concat (map call_responses xs) ++ pongs) rs chunks ->
  receive_pushes (receive_adapter_ (mpx_ (conn s))) (pushes rs) = Some ra ->
  announce (channel_cancel (channel_cancel (receive_channel_ (conn s)))) rs = Some ch ->
  buffer_growth_hint + 2 * len (bytes_of rs) <= max_read_size cfg ->
  exists hid ids pids s1 s2 s3 s4 se',
    steps (map ev_call xs ++ [ev_writer_timer (Some operation_aborted)]) s = Some (Done s1) /\
    writing s1 = Some (sent xs) /\
    steps (ev_written None :: loss_events err se) s1 = Some (Done s2) /\ results s2 = results s /\
    Forall (fun i => execs s2 !! i = Some (mk_pending user exec_waiting 0)) ids /\
    steps (connects cfg res ep) s2 = Some (Done s3) /\
    writing s3 = Some (wire (hello_command cfg :: select_command cfg) ++ sent xs ++ wire (ping_commands cfg)) /\
    steps (ev_written None :: map ev_piece chunks ++ map ev_answered (hid :: ids ++ pids)) s3 = Some (Done s4) /\
    results s4 = results s ++ zip_with call_result ids xs /\
    Forall2 (answered_call (mpx_ (conn s4))) ids xs /\
    receive_adapter_ (mpx_ (conn s4)) = ra /\ receive_channel_ (conn s4) = ch /\ resting s4 se' /\ healthy s4 se'.
Proof.
  intros Hre R Hh Hrc Hxs Hper Hne cfg Hgr Hpo Hsrv Hra Hch Hmax.
  destruct (batch_in_flight s se xs Hre R Hxs Hne) as (ids & s1 & s1' & Hs1 & Hw1 & Hs1' & [F1 F2 F3 F4 F5 [F6 F6'] F7 F8 F9]).
  assert (sys_reachable s1') as Hre'.
  { eapply (run_event (ev_written None)); [|done|exact Hs1']. eapply reachable_steps; [exact Hre| |exact Hs1].
    apply Forall_app; split; [|by repeat constructor]. apply Forall_map. eapply Forall_impl; [exact Hxs|].
    intros x [Hx _]. cbn. rewrite (call_expected _ Hx). apply Hx. }
  destruct (session_lost s1' se ids xs 0 buffer_growth_hint err Hre' F1) as (s2 & Hs2 & CN & Hcfg & Hres & Hrec & Hchan); try done; try apply R.
  { eapply healthy_kept; [exact Hh|done|done|]. intros i e Hi. by apply F9. }
  { unfold will_reconnect. by rewrite F7. }
  { intros i Hi. injection F8 as _ E1 E2 E3. unfold in_use in Hi. rewrite E1, E2, E3 in Hi.
    destruct (prepared_in_use _ i (he_prepared _ _ Hh) Hi) as [e He]. by apply (F9 i e). }
  rewrite F7 in Hcfg. fold cfg in Hcfg.
  destruct (session_trip s2 ids xs res ep greet pongs rs chunks ra ch CN (calls_answerable _ Hxs)) as (hid & pids & s3 & s4 & se' & T);
    rewrite ?Hcfg, ?Hrec, ?Hchan, ?F6, ?F6'; try done.
  rewrite Hcfg, Hres, F5 in T. exists hid, ids, pids, s1, s2, s3, s4, se'. split_and!; try done; try apply T.
  - cbn [steps]. by rewrite Hs1'.
  - by rewrite Hres.
  - apply CN.
Qed.

(** C3: Requests that do not ask to be cancelled survive the loss of the
    connection.  A batch of them is started on a healthy session at rest and is
    written; then the connection fails.  Nobody is told: when [async_run] connects
    again, after the operations of the session have ended and the interval has
    passed, every caller still waits.  The first write of the new session has the
    [HELLO] of the configuration, the same requests in the same order, and the
    [PING]; however the answers of the server, with pushes anywhere between them,
    are cut into reads, every request completes once, without error and with the
    size of its own responses, its adapter has received exactly these, and the new
    session is healthy and at rest again. *)
Theorem requests_survive (s : system) se xs err res ep greet pongs rs chunks ra ch :
  sys_reachable s -> resting s se -> healthy s se -> will_reconnect (conn s) = true ->
  Forall call_ok xs -> Forall persistent xs -> xs <> [] ->
  let cfg := conn_cfg_ (conn s) in
  welcome (len (hello_command cfg :: select_command cfg)) greet -> welcome (len (ping_commands cfg)) pongs ->
  server_sends (greet ++ concat (map call_responses xs) ++ pongs) rs chunks ->
  receive_pushes (receive_adapter_ (mpx_ (conn s))) (pushes rs) = Some ra ->
  announce (channel_cancel (channel_cancel (receive_channel_ (conn s)))) rs = Some ch ->
  buffer_growth_hint + 2 * len (bytes_of rs) <= max_read_size cfg ->
  exists hid ids pids s1 s2 s3 s4 se',
    steps (map ev_call xs ++ [ev_writer_timer (Some operation_aborted)]) s = Some (Done s1) /\
    writing s1 = Some (sent xs) /\
    steps (ev_written None :: loss_events err se) s1 = Some (Done s2) /\ results s2 = results s /\
    Forall (fun i => execs s2 !! i = Some (mk_pending user exec_waiting 0)) ids /\
    steps (connects cfg res ep) s2 = Some (Done s3) /\
    writing s3 = Some (wire (hello_command cfg :: select_command cfg) ++ sent xs ++ wire (ping_commands cfg)) /\
    steps (ev_written None :: map ev_piece chunks ++ map ev_answered (hid :: ids ++ pids)) s3 = Some (Done s4) /\
    results s4 = results s ++ zip_with call_result ids xs /\
    Forall2 (answered_call (mpx_ (conn s4))) ids xs /\
    receive_adapter_ (mpx_ (conn s4)) = ra /\ receive_channel_ (conn s4) = ch /\ resting s4 se' /\ healthy s4 se'.
Proof. apply recovery_trip. Qed.
End WithChannel.

(** The calls of the other examples, with requests that are sent again. *)
Definition resent (x : call) : call :=
  let r := call_req x in
  mk_call (mk_request (mk_request_config true false false true) (payload_ r) (commands_ r) (expected_responses_ r) (has_hello_priority_ r))
    (call_adapter x) (call_responses x) (call_after x).
Definition resent_calls : list call := map resent example_calls.

(** The greeting of the second session, the answers with a push between them, and
    the answer to the PING. *)
Definition second_stream : list resp3 := ok_reply :: example_stream ++ [bulk (bs "Boost.Redis")].
Definition second_pieces : list bytes := let b := bytes_of second_stream in [take 7 b; take 20 (drop 7 b); drop 27 b].

Lemma requests_survive_witness :
  (loss_events (sys 2) rested_session : list example_event) =
    [ev_read (Some (sys 2)) []; ev_writer_timer (Some operation_aborted); ev_ping_timer (Some operation_aborted);
     ev_check_timer (Some operation_aborted); ev_group; ev_reconnect None] /\
  exists hid ids pids (s1 s2 s3 s4 : example_system) se',
    steps (map ev_call resent_calls ++ [ev_writer_timer (Some operation_aborted)]) (state_after listening) = Some (Done s1) /\
    writing s1 = Some (bs "GET a;GET b;GET c;") /\
    steps (ev_written None :: loss_events (sys 2) rested_session) s1 = Some (Done s2) /\ results s2 = results (state_after listening) /\
    Forall (fun i => execs s2 !! i = Some (mk_pending user exec_waiting 0)) ids /\
    steps (connects default_config [bs "10.0.0.1:6379"] (bs "10.0.0.1:6379")) s2 = Some (Done s3) /\
    writing s3 = Some (wire [[bs "HELLO"; bs "3"; bs "SETNAME"; bs "Boost.Redis"]] ++ bs "GET a;GET b;GET c;" ++ wire [[bs "PING"; bs "Boost.Redis"]]) /\
    steps (ev_written None :: map ev_piece second_pieces ++ map ev_answered (hid :: ids ++ pids)) s3 = Some (Done s4) /\
    results s4 = results (state_after listening) ++ zip_with call_result ids resent_calls /\
    Forall2 (answered_call (mpx_ (conn s4))) ids resent_calls /\
    receive_adapter_ (mpx_ (conn s4)) =
      Some (recorded [(0, mk_node type.push 1 0 []); (0, mk_node type.blob_string 1 1 (bs "x"))]) /\
    receive_channel_ (conn s4) = [(None, 11)] /\ resting s4 se' /\ healthy s4 se'.
Proof.
  split; [vm_compute; reflexivity|].
  apply (requests_survive (state_after listening) rested_session resent_calls (sys 2) [bs "10.0.0.1:6379"] (bs "10.0.0.1:6379")
    [ok_reply] [bulk (bs "Boost.Redis")] second_stream second_pieces).
  - reachable_state.
  - split; by vm_compute.
  - split; [by vm_compute..|].
    split; [by vm_compute..|split; by vm_compute| |].
    + split; [by vm_compute|]. intros i Hi. vm_compute in Hi. injection Hi as <-. vm_compute. by eexists.
    + intros _. split; [eexists; vm_compute; reflexivity|]. intros i Hi. vm_compute in Hi. injection Hi as <-. vm_compute. by eexists.
  - vm_compute. reflexivity.
  - repeat apply Forall_cons_2; [..|apply Forall_nil_2]; (split; [split; [..|repeat constructor; by vm_compute|]; by vm_compute|by vm_compute]).
  - repeat apply Forall_cons_2; [..|apply Forall_nil_2]; by vm_compute.
  - done.
  - split; [by vm_compute|repeat constructor; by vm_compute|repeat constructor; by vm_compute].
  - split; [by vm_compute|repeat constructor; by vm_compute|repeat constructor; by vm_compute].
  - split; [by vm_compute|repeat constructor; by vm_compute|by vm_compute| |by vm_compute].
    repeat apply Forall_cons_2; [..|apply Forall_nil_2]; split; by vm_compute.
  - vm_compute. reflexivity.
  - vm_compute. reflexivity.
  - by vm_compute.
Defined.
