(* ===== verification/Examples.v ===== *)
(** * The example programs

    The coroutines of [example/]: the requests they build, what they do with
    the responses, and what they print.  A [co_await] splits a coroutine: each
    part is a function of what it awaited, and an error it awaited without
    [redirect_error] is thrown.  Text printed before an exception is not kept. *)

From stdpp Require Import gmap sorting.
From S2P Require Import Prelude Charconv Types Parser Serialization Request Adapters Traits Response Multiplexer Logger Session Connection Run Facade.

#[local] Open Scope string_scope.
#[local] Open Scope N_scope.
#[local] Open Scope list_scope.

(** ** Output *)

(** [operator<<] of [std::ostream], as the text it appends. *)
Class Streamed (T : Type) := { stream_out : T -> bytes }.
#[global] Instance streamed_string : Streamed bytes := {| stream_out s := s |}.
#[global] Instance streamed_int lo hi : Streamed (int_type lo hi) := {| stream_out i := to_string_signed (int_value i) |}.

(** [operator<<] for [std::optional] of the containers example. *)
#[global] Instance streamed_optional {T} `{Streamed T} : Streamed (option T) :=
  {| stream_out o := match o with Some v => stream_out v | None => bs "null" end |}.

(** The order of [std::map<std::string, T>]. *)
Fixpoint bytes_leb (a b : bytes) : bool :=
  match a, b with
  | [], _ => true
  | _ :: _, [] => false
  | x :: a, y :: b =>
      if N_of_ascii x =? N_of_ascii y then bytes_leb a b else N_of_ascii x <? N_of_ascii y
  end.
Definition key_le (x y : bytes * bytes) : Prop := bytes_leb x.1 y.1 = true.
#[global] Instance key_le_dec : RelDecision key_le := fun x y => bool_eq_dec _ _.

Definition elements_in_order (m : gmap bytes bytes) : list (bytes * bytes) := merge_sort key_le (map_to_list m).

(** The two overloads of [print]. *)
Definition print_map (m : gmap bytes bytes) : bytes :=
  concat (map (fun e => e.1 ++ bs ": " ++ e.2 ++ [LF]) (elements_in_order m)).
Definition print_vector {T} `{Streamed T} (v : list T) : bytes :=
  concat (map (fun e => stream_out e ++ bs " ") v) ++ [LF].

(** What a coroutine awaits from [async_exec]: an error is thrown. *)
Definition awaited {A} (r : exec_result) (k : outcome A) : outcome A :=
  if has_ec r.1 then Throw system_error else k.

(** [std::optional::value]. *)
Definition optional_value {A} (o : option A) : outcome A :=
  match o with Some v => Done v | None => Throw std_bad_optional_access end.

(** [std::vector::at]. *)
Definition vector_at {A} (l : list A) (i : size_t) : outcome A :=
  match l !! N.to_nat i with Some v => Done v | None => Throw std_out_of_range end.

Definition fresh_request : request := new_request default_request_config.

(** ** [cpp20_intro.cpp], [cpp20_intro_tls.cpp], [cpp17_intro.cpp] and [cpp17_intro_sync.cpp] *)

Module Intro.
Definition ping_request : outcome request := push fresh_request (bs "PING") [str (bs "Hello world")].
Definition plain_ping_request : outcome request := push fresh_request (bs "PING") [].

Abbreviation ping_response := (response (result bytes * unit)).
Definition ping_resp : ping_response := Response (r_value [], tt).

Section WithChannel.
Context {Ch Ep : Type} `{Channel Ch} `{Platform Ep}.
Abbreviation facade := (facade Ch Ep).

(** After the request. *)
Definition intro_resume (f : facade) (r : exec_result) (resp : ping_response) : outcome (facade * bytes) :=
  awaited r (
    f ← facade_cancel f operation.all;
    v ← result_value (results resp).1;
    Done (f, bs "PING: " ++ v ++ [LF])).
Definition intro_tls_resume (f : facade) (r : exec_result) (resp : ping_response) : outcome (facade * bytes) :=
  awaited r (
    f ← facade_cancel f operation.all;
    v ← result_value (results resp).1;
    Done (f, bs "Response: " ++ v ++ [LF])).

(** The handler of [cpp17_intro.cpp], which does not throw the error. *)
Definition intro_handler (f : facade) (r : exec_result) (resp : ping_response) : outcome (facade * bytes) :=
  out ← (if has_ec r.1 then Done [] else v ← result_value (results resp).1; Done (bs "PING: " ++ v ++ [LF]));
  f ← facade_cancel f operation.all;
  Done (f, out).
End WithChannel.

(** The configuration from the command line, with the program's name first. *)
Definition config_of_args (argv : list bytes) : config :=
  match argv with
  | [_; h; p] =>
      let c := default_config in
      mk_config (use_ssl c) (mk_address h p) (username c) (password c) (clientname c) (database_index c)
        (health_check_id c) (log_prefix c) (resolve_timeout c) (connect_timeout c) (ssl_handshake_timeout c)
        (health_check_interval c) (reconnect_wait_interval c) (max_read_size c)
  | _ => default_config
  end.

Definition tls_config (c : config) : config :=
  mk_config true (mk_address (bs "db.occase.de") (bs "6380")) (bs "aedis") (bs "aedis") (clientname c) (database_index c)
    (health_check_id c) (log_prefix c) (resolve_timeout c) (connect_timeout c) (ssl_handshake_timeout c)
    (health_check_interval c) (reconnect_wait_interval c) (max_read_size c).
End Intro.

(** ** [cpp20_containers.cpp] *)

Module Containers.
Abbreviation hgetall_response := (response (result (gmap bytes bytes) * unit)).
(** [n] is [max_size()] of the vectors. *)
Abbreviation mget_response n := (response (result (vector n (option bytes)) * unit)).
Abbreviation exec_tuple n :=
  (result (option (vector n int32_t)) *
   (result (option (gmap bytes bytes)) * (result (option (vector n (option bytes))) * unit)))%type.
Abbreviation transaction_response n :=
  (response (result ignore_t * (result ignore_t * (result ignore_t * (result ignore_t * (result (tuple (exec_tuple n)) * unit)))))).

Section WithInt.
Context `{Indeterminate} (max_size : size_t).

Definition store_vec : list Z := [1; 2; 3; 4; 5; 6]%Z.
Definition store_map : list (bytes * bytes) :=
  [(bs "key1", bs "value1"); (bs "key2", bs "value2"); (bs "key3", bs "value3")].

Definition store_request : outcome request :=
  req ← push_range_key fresh_request (bs "RPUSH") (bs "rpush-key") store_vec;
  req ← push_range_key req (bs "HSET") (bs "hset-key") store_map;
  push req (bs "SET") [str (bs "key"); str (bs "value")].
Definition store_resume (r : exec_result) : outcome bytes := awaited r (Done []).

Definition hgetall_request : outcome request := push fresh_request (bs "HGETALL") [str (bs "hset-key")].
Definition hgetall_resp : hgetall_response := Response (r_value ∅, tt).
Definition hgetall_resume (r : exec_result) (resp : hgetall_response) : outcome bytes :=
  awaited r (v ← result_value (results resp).1; Done (print_map v)).

Definition mget_request : outcome request := push fresh_request (bs "MGET") [str (bs "key"); str (bs "non-existing-key")].
Definition mget_resp : mget_response max_size := Response (r_value (Vector []), tt).
Definition mget_resume (r : exec_result) (resp : mget_response max_size) : outcome bytes :=
  awaited r (v ← result_value (results resp).1; Done (print_vector (vec v))).

Definition transaction_request : outcome request :=
  req ← push fresh_request (bs "MULTI") [];
  req ← push req (bs "LRANGE") [str (bs "rpush-key"); int_arg 0; int_arg (-1)];
  req ← push req (bs "HGETALL") [str (bs "hset-key")];
  req ← push req (bs "MGET") [str (bs "key"); str (bs "non-existing-key")];
  push req (bs "EXEC") [].

Definition transaction_resp : transaction_response max_size :=
  let i := r_value ignore_value in
  Response (i, (i, (i, (i, (r_value (Tuple (r_value None, (r_value None, (r_value None, tt)))), tt))))).

Definition transaction_resume (r : exec_result) (resp : transaction_response max_size) : outcome bytes :=
  awaited r (
    let '(_, (_, (_, (_, (exec, _))))) := results resp in
    t ← result_value exec;
    let '(l, (h, (g, _))) := tup t in
    l ← result_value l; l ← optional_value l;
    h ← result_value h; h ← optional_value h;
    g ← result_value g; g ← optional_value g;
    Done (print_vector (vec l) ++ print_map h ++ print_vector (vec g))).
End WithInt.
End Containers.

(** ** [cpp20_subscriber.cpp] and [cpp20_chat_room.cpp] *)

Module Receiver.
Section WithChannel.
Context {Ch Ep : Type} `{Channel Ch} `{Platform Ep}.
Abbreviation facade := (facade Ch Ep).

Definition subscribe_request : outcome request := push fresh_request (bs "SUBSCRIBE") [str (bs "channel")].

(** [generic_response resp; conn->set_receive_response(resp)]. *)
Definition receiver_start (f : facade) : outcome facade := facade_set_receive_response f (r_value [] : generic_response).

(** [resp], which the receive adapter of the connection refers to. *)
Definition receive_resp (f : facade) : option generic_response := receive_adapter_ (mpx_ (impl_ f)) ≫= any_object.
Definition set_receive_resp (f : facade) (r : generic_response) : facade :=
  let c := impl_ f in
  mk_facade (set_mpx c (set_receive_adapter (mpx_ c) (any_assign r <$> receive_adapter_ (mpx_ c)))).

(** [std::cout << resp.value().at(1).value << ...]. *)
Definition print_push (resp : generic_response) : outcome bytes :=
  v ← result_value resp;
  a ← vector_at v 1;
  b ← vector_at v 2;
  c ← vector_at v 3;
  Done (value a ++ bs " " ++ value b ++ bs " " ++ value c ++ [LF]).

(** One pass of the inner loop: it awaits a push, handles one and prints, or is
    left when the connection is lost. *)
Inductive pass := pass_waiting | pass_printed (text : bytes) | pass_lost.

(** The end of a pass, with the error of the receive operation. *)
Definition subscriber_handle (f : facade) (ec : error_code) : outcome (facade * pass) :=
  if has_ec ec then Done (f, pass_lost)
  else
    match receive_resp f with
    | None => Fault assertion_failed
    | Some resp =>
        out ← print_push resp;
        resp ← consume_one_throwing resp;
        Done (set_receive_resp f resp, pass_printed out)
    end.

Definition subscriber_pass (f : facade) (ec : error_code) : outcome (facade * pass) :=
  let '(f, ec, _) := facade_receive f ec in
  if is_error ec error.sync_receive_push_failed then
    match facade_async_receive f with
    | (f, co_yield _) => Done (f, pass_waiting)
    | (f, co_complete (ec, _)) => subscriber_handle f ec
    end
  else subscriber_handle f ec.

(** The chat room clears the whole response. *)
Definition chat_handle (f : facade) (ec : error_code) : outcome (facade * pass) :=
  if has_ec ec then Done (f, pass_lost)
  else
    match receive_resp f with
    | None => Fault assertion_failed
    | Some resp =>
        out ← print_push resp;
        _ ← result_value resp;
        Done (set_receive_resp f (r_value []), pass_printed out)
    end.

Definition chat_pass (f : facade) : outcome (facade * pass) :=
  match facade_async_receive f with
  | (f, co_yield _) => Done (f, pass_waiting)
  | (f, co_complete (ec, _)) => chat_handle f ec
  end.

(** The publisher: the message is read up to a line end, of which [n] bytes are
    removed afterwards. *)
Definition publish_request (msg : bytes) : outcome request := push fresh_request (bs "PUBLISH") [str (bs "channel"); str msg].
Definition publisher_resume (r : exec_result) (msg : bytes) (n : size_t) : outcome bytes :=
  awaited r (Done (drop (N.to_nat n) msg)).
End WithChannel.
End Receiver.

(** ** [cpp20_echo_server.cpp] *)

Module Echo.
Abbreviation echo_response := (response (result bytes * unit)).

(** After [async_read_until]: the request for the whole buffer. *)
Definition echo_request (req : request) (buffer : bytes) : outcome request := push req (bs "PING") [str buffer].

(** After the response: the bytes to write to the socket. *)
Definition echo_answer (r : exec_result) (resp : echo_response) : outcome bytes := awaited r (result_value (results resp).1).

(** After the write: the response, the request and the buffer of the next pass. *)
Definition echo_next (resp : echo_response) (req : request) (buffer : bytes) (n : size_t)
    : outcome (echo_response * request * bytes) :=
  _ ← result_value (results resp).1;
  Done (Response (r_value [], tt), clear req, drop (N.to_nat n) buffer).
End Echo.

(** ** [cpp20_resolve_with_sentinel.cpp] *)

Module Sentinel.
Abbreviation sentinel_response := (response (result (option (array 2 bytes)) * (result ignore_t * unit))).

Section WithChannel.
Context {Ch Ep : Type} `{Channel Ch} `{Platform Ep}.
Abbreviation facade := (facade Ch Ep).

Definition sentinel_request : outcome request :=
  req ← push fresh_request (bs "SENTINEL") [str (bs "get-master-addr-by-name"); str (bs "mymaster")];
  push req (bs "QUIT") [].

Definition sentinel_resp : sentinel_response := Response (r_value None, (r_value ignore_value, tt)).

Definition addr_config (a : address) : config :=
  let c := default_config in
  mk_config (use_ssl c) a (username c) (password c) (clientname c) (database_index c)
    (health_check_id c) (log_prefix c) (resolve_timeout c) (connect_timeout c) (ssl_handshake_timeout c)
    (health_check_interval c) (reconnect_wait_interval c) (max_read_size c).

(** The start of a pass. *)
Definition sentinel_start (f : facade) (a : address) (req : request) (resp : sentinel_response)
    : outcome (facade * elem_id * exec_point) :=
  '(f, _) ← facade_async_run f (addr_config a);
  facade_async_exec_response f req resp.

(** The condition at the end of a pass; the conversion of a result to [bool]
    asks for a value, not for what an optional in it holds. *)
Definition sentinel_address (ec : error_code) (resp : sentinel_response) : outcome (option address) :=
  if negb (has_ec ec) && result_has_value (results resp).1 then
    o ← result_value (results resp).1;
    v ← optional_value o;
    h ← vector_at (arr v) 0;
    p ← vector_at (arr v) 1;
    Done (Some (mk_address h p))
  else Done None.

Definition sentinel_resume (f : facade) (ec : error_code) (resp : sentinel_response) : outcome (facade * option address) :=
  f ← facade_cancel f operation.all;
  let f := facade_reset_stream f in
  a ← sentinel_address ec resp;
  Done (f, a).

Definition print_address (a : address) : bytes := bs "Host: " ++ host a ++ [LF] ++ bs "Port: " ++ port a ++ [LF].
End WithChannel.
End Sentinel.

(** ** [cpp20_streams.cpp] *)

Module Streams.
Definition field : bytes := bs "myfield".
Definition stream_request (req : request) (stream_id : bytes) : outcome request :=
  push req (bs "XREAD") [str (bs "BLOCK"); str (bs "0"); str (bs "STREAMS"); str (bs "test-topic"); str stream_id].

(** The loop over the nodes; the index grows, so their number bounds it. *)
Fixpoint scan (fuel : nat) (v : list node) (item_index : size_t) (stream_id : bytes) : outcome (bytes * bytes) :=
  match fuel with
  | O => Fault out_of_fuel
  | S fuel =>
      if item_index <? len v then
        nd ← vector_at v item_index;
        if bool_decide (field = value nd) then
          id ← vector_at v (item_index -w 2);
          payload ← vector_at v (item_index +w 1);
          '(out, stream_id) ← scan fuel v (item_index +w 1 +w 1) (value id);
          Done (bs "StreamId: " ++ value id ++ bs ", " ++ bs "MyField: " ++ value payload ++ [LF] ++ out, stream_id)
        else scan fuel v (item_index +w 1) stream_id
      else Done ([], stream_id)
  end.

(** After the response: the text, the id, the request and the response of the
    next pass. *)
Definition stream_resume (r : exec_result) (req : request) (resp : generic_response) (stream_id : bytes)
    : outcome (bytes * bytes * request * generic_response) :=
  awaited r (
    v ← result_value resp;
    '(out, stream_id) ← scan (S (length v)) v 0 stream_id;
    Done (out, stream_id, clear req, r_value [])).

(** Health checks are disabled. *)
Definition streams_config (c : config) : config :=
  mk_config (use_ssl c) (addr c) (username c) (password c) (clientname c) (database_index c)
    (health_check_id c) (log_prefix c) (resolve_timeout c) (connect_timeout c) (ssl_handshake_timeout c)
    0%Z (reconnect_wait_interval c) (max_read_size c).
End Streams.

(** ** [cpp20_json.cpp] *)

Module Json.
Record user := mk_user { name : bytes; age : bytes; country : bytes }.

Section WithJson.
Context {Ch Ep : Type} `{Channel Ch} `{Platform Ep}.
(** Boost.JSON: [serialize(value_from(u))], and [value_to<user>(parse(s))], which
    throws on anything else. *)
Context (serialize : user -> bytes) (parse_user : bytes -> option user).

(** The customization points. *)
Definition user_to_bulk (to : bytes) (u : user) : outcome bytes := boost_redis_to_bulk to (serialize u).
Definition user_from_bulk (u : user) (nd : node) (ec : error_code) : outcome (user * error_code) :=
  match parse_user (value nd) with Some u => Done (u, ec) | None => Throw system_error end.

#[local] Instance user_bulk : Bulk user :=
  {| to_bulk := user_to_bulk; bulk_text := serialize; to_bulk_text _ _ := eq_refl |}.
#[local] Instance user_converter : FromBulk user :=
  {| bulk_value_init := mk_user [] [] []; bulk_default_init := mk_user [] [] []; from_bulk := user_from_bulk |}.

Definition json_request (u : user) : outcome request :=
  req ← push fresh_request (bs "SET") [str (bs "json-key"); Bulkable u];
  push req (bs "GET") [str (bs "json-key")].

Abbreviation json_response := (response (result ignore_t * (result user * unit))).
Definition json_resp : json_response := Response (r_value ignore_value, (r_value (mk_user [] [] []), tt)).

Definition json_resume (f : facade Ch Ep) (r : exec_result) (resp : json_response) : outcome (facade Ch Ep * bytes) :=
  awaited r (
    f ← facade_cancel f operation.all;
    u ← result_value (results resp).2.1;
    Done (f, bs "Name: " ++ name u ++ [LF] ++ bs "Age: " ++ age u ++ [LF] ++ bs "Country: " ++ country u ++ [LF])).
End WithJson.
End Json.

(** ** [cpp20_protobuf.cpp] *)

Module Protobuf.
(** The message of [person.proto]; a field that is not set reads as its
    default. *)
Record person := mk_person { name : bytes; id : Z; email : bytes }.
Definition no_person : person := mk_person [] 0 [].

Section WithProtobuf.
Context {Ch Ep : Type} `{Channel Ch} `{Platform Ep}.
(** Protobuf: [SerializeToString] may fail; [ParseFromString] tells whether it
    succeeded, and what it leaves in the message in either case. *)
Context (SerializeToString : person -> option bytes) (ParseFromString : bytes -> person * bool).

(** The customization points. *)
Definition person_to_bulk (to : bytes) (u : person) : outcome bytes :=
  match SerializeToString u with
  | None => Throw system_error
  | Some tmp => boost_redis_to_bulk to tmp
  end.
Definition person_from_bulk (u : person) (nd : node) (ec : error_code) : outcome (person * error_code) :=
  let '(u, ok) := ParseFromString (value nd) in
  Done (u, if ok then ec else make_error_code error.invalid_data_type).

(** A message that can be serialized. *)
Record serializable := mk_serializable { message : person; text : bytes; serialized : SerializeToString message = Some text }.

Lemma serializable_bulk payload u : person_to_bulk payload (message u) = boost_redis_to_bulk payload (text u).
Proof. unfold person_to_bulk. by rewrite (serialized u). Qed.

#[local] Instance person_bulk : Bulk serializable :=
  {| to_bulk payload u := person_to_bulk payload (message u); bulk_text := text; to_bulk_text := serializable_bulk |}.
#[local] Instance person_converter : FromBulk person :=
  {| bulk_value_init := no_person; bulk_default_init := no_person; from_bulk := person_from_bulk |}.

Definition louis : person := mk_person (bs "Louis") 3 (bs "No email yet.").

(** The exception of [person_to_bulk] leaves [push], and the coroutine that owns
    the request. *)
Definition protobuf_request (p : person) : outcome request :=
  match SerializeToString p as o return SerializeToString p = o -> outcome request with
  | None => fun _ => Throw system_error
  | Some t => fun E =>
      req ← push fresh_request (bs "SET") [str (bs "protobuf-key"); Bulkable (mk_serializable p t E)];
      push req (bs "GET") [str (bs "protobuf-key")]
  end eq_refl.

Abbreviation protobuf_response := (response (result ignore_t * (result person * unit))).
Definition protobuf_resp : protobuf_response := Response (r_value ignore_value, (r_value no_person, tt)).

Definition protobuf_resume (f : facade Ch Ep) (r : exec_result) (resp : protobuf_response) : outcome (facade Ch Ep * bytes) :=
  awaited r (
    f ← facade_cancel f operation.all;
    u ← result_value (results resp).2.1;
    Done (f, bs "Name: " ++ name u ++ [LF] ++ bs "Age: " ++ to_string_signed (id u) ++ [LF] ++ bs "Email: " ++ email u ++ [LF])).
End WithProtobuf.
End Protobuf.
