(* ===== verification/Programs.v ===== *)
(** * The example programs as a whole

    The functions [co_main] and [main] of [example/], from the construction of
    the connection to what they print, in direct style: while a coroutine awaits
    a request the rest of the process runs, which changes the connection and
    completes the request. *)

From stdpp Require Import gmap.
From S2P Require Import Prelude Charconv Types Parser Serialization Request Adapters Traits Response Multiplexer Logger Session Connection Run Facade System Examples.

#[local] Open Scope string_scope.
#[local] Open Scope N_scope.
#[local] Open Scope list_scope.

(** What happens while a program waits: for a request it has started, which gives
    the connection afterwards, the result and the response object; for a push; for
    a line that is appended to a buffer, which gives the buffer and the length up
    to the end of the line; and for a write to a socket. *)
Class Runtime (Ch Ep : Type) := {
  await_exec {R} `{ResponseTraits R} : facade Ch Ep -> elem_id -> exec_point -> R -> facade Ch Ep * exec_result * R;
  await_receive : facade Ch Ep -> facade Ch Ep * error_code;
  await_line : bytes -> outcome (bytes * size_t);
  await_write : bytes -> outcome unit;
}.

Section Coroutines.
Context {Ch Ep : Type} `{Channel Ch} `{Platform Ep} `{!Runtime Ch Ep}.
Abbreviation facade := (facade Ch Ep).

(** [co_await conn->async_exec(req, resp)], before the result is examined. *)
Definition co_exec {R} `{ResponseTraits R} (f : facade) (req : request) (resp : R) : outcome (facade * exec_result * R) :=
  '(f, id, p) ← facade_async_exec_response f req resp;
  Done (await_exec f id p resp).

(** A new connection that runs. *)
Definition connection_running (cfg : config) : outcome facade :=
  f ← facade_new;
  '(f, _) ← facade_async_run f cfg;
  Done f.

(** ** One request *)

(** [cpp20_intro.cpp]. *)
Definition intro_main (cfg : config) : outcome (facade * bytes) :=
  f ← connection_running cfg;
  req ← Intro.ping_request;
  '(f, r, resp) ← co_exec f req Intro.ping_resp;
  Intro.intro_resume f r resp.

(** [cpp20_intro_tls.cpp]; the verification of the certificate is set up in the
    stream of Boost.Asio. *)
Definition intro_tls_main (cfg : config) : outcome (facade * bytes) :=
  f ← connection_running (Intro.tls_config cfg);
  req ← Intro.plain_ping_request;
  '(f, r, resp) ← co_exec f req Intro.ping_resp;
  Intro.intro_tls_resume f r resp.

(** [cpp17_intro.cpp], with the arguments of the program. *)
Definition cpp17_main (argv : list bytes) : outcome (facade * bytes) :=
  let cfg := Intro.config_of_args argv in
  req ← Intro.ping_request;
  f ← connection_running cfg;
  '(f, r, resp) ← co_exec f req Intro.ping_resp;
  Intro.intro_handler f r resp.

(** [cpp20_json.cpp]. *)
Definition joao : Json.user := Json.mk_user (bs "Joao") (bs "58") (bs "Brazil").

Definition json_main (serialize : Json.user -> bytes) (parse_user : bytes -> option Json.user) (cfg : config) : outcome (facade * bytes) :=
  f ← connection_running cfg;
  req ← Json.json_request serialize joao;
  '(f, r, resp) ← (let _ := Json.user_converter parse_user in co_exec f req Json.json_resp);
  Json.json_resume f r resp.

(** [cpp20_protobuf.cpp]. *)
Definition protobuf_main (SerializeToString : Protobuf.person -> option bytes) (ParseFromString : bytes -> Protobuf.person * bool)
    (cfg : config) : outcome (facade * bytes) :=
  f ← connection_running cfg;
  req ← Protobuf.protobuf_request SerializeToString Protobuf.louis;
  '(f, r, resp) ← (let _ := Protobuf.person_converter ParseFromString in co_exec f req Protobuf.protobuf_resp);
  Protobuf.protobuf_resume f r resp.

(** ** [cpp20_containers.cpp] *)

Section Containers.
Context `{Indeterminate} (max_size : size_t).

Definition store (f : facade) : outcome (facade * bytes) :=
  req ← Containers.store_request;
  '(f, r, _) ← co_exec f req ignore_value;
  out ← Containers.store_resume r;
  Done (f, out).

Definition hgetall (f : facade) : outcome (facade * bytes) :=
  req ← Containers.hgetall_request;
  '(f, r, resp) ← co_exec f req Containers.hgetall_resp;
  out ← Containers.hgetall_resume r resp;
  Done (f, out).

Definition mget (f : facade) : outcome (facade * bytes) :=
  req ← Containers.mget_request;
  '(f, r, resp) ← co_exec f req (Containers.mget_resp max_size);
  out ← Containers.mget_resume max_size r resp;
  Done (f, out).

Definition transaction (f : facade) : outcome (facade * bytes) :=
  req ← Containers.transaction_request;
  '(f, r, resp) ← co_exec f req (Containers.transaction_resp max_size);
  out ← Containers.transaction_resume max_size r resp;
  Done (f, out).

Definition containers_main (cfg : config) : outcome (facade * bytes) :=
  f ← connection_running cfg;
  '(f, out1) ← store f;
  '(f, out2) ← transaction f;
  '(f, out3) ← hgetall f;
  '(f, out4) ← mget f;
  f ← facade_cancel f operation.all;
  Done (f, out1 ++ out2 ++ out3 ++ out4).
End Containers.

(** ** [cpp20_resolve_with_sentinel.cpp] *)

(** The loop over the addresses; the response object is shared by the passes. *)
Fixpoint resolve_loop (f : facade) (req : request) (resp : Sentinel.sentinel_response) (addresses : list address)
    : outcome (facade * address) :=
  match addresses with
  | [] => Done (f, mk_address (bs "127.0.0.1") (bs "6379"))
  | a :: addresses =>
      '(f, id, p) ← Sentinel.sentinel_start f a req resp;
      let '(f, r, resp) := await_exec f id p resp in
      '(f, found) ← Sentinel.sentinel_resume f r.1 resp;
      match found with Some a => Done (f, a) | None => resolve_loop f req resp addresses end
  end.

Definition resolve_master_address (addresses : list address) : outcome (facade * address) :=
  req ← Sentinel.sentinel_request;
  f ← facade_new;
  resolve_loop f req Sentinel.sentinel_resp addresses.

Definition sentinel_main (cfg : config) : outcome (facade * bytes) :=
  '(f, ep) ← resolve_master_address [mk_address (bs "foo") (bs "26379"); mk_address (bs "bar") (bs "26379"); addr cfg];
  Done (f, Sentinel.print_address ep).

(** ** [cpp20_subscriber.cpp] and [cpp20_chat_room.cpp] *)

(** The receivers differ in a pass of their inner loop, and in what they do with
    a push they have waited for. *)
Record receiver_body := mk_body {
  body_pass : facade -> outcome (facade * Receiver.pass);
  body_handle : facade -> error_code -> outcome (facade * Receiver.pass);
}.
Definition subscriber_body : receiver_body := mk_body (fun f => Receiver.subscriber_pass f None) Receiver.subscriber_handle.
Definition chat_body : receiver_body := mk_body Receiver.chat_pass Receiver.chat_handle.

(** The first [n] turns of the loops: the text printed, and whether the coroutine
    is inside the inner loop, or has returned. *)
Inductive receiver_place := outer_loop | inner_loop | receiver_returned.

Fixpoint receiver_turns (b : receiver_body) (n : nat) (f : facade) (req : request) (place : receiver_place)
    : outcome (facade * bytes * receiver_place) :=
  match n with
  | O => Done (f, [], place)
  | S n =>
      match place with
      | receiver_returned => Done (f, [], receiver_returned)
      | outer_loop =>
          if facade_will_reconnect f then
            '(f, r, _) ← co_exec f req ignore_value;
            awaited r (receiver_turns b n f req inner_loop)
          else Done (f, [], receiver_returned)
      | inner_loop =>
          '(f, p) ← body_pass b f;
          '(f, p) ← match p with
                    | Receiver.pass_waiting => let '(f, ec) := await_receive f in body_handle b f ec
                    | _ => Done (f, p)
                    end;
          match p with
          | Receiver.pass_printed text =>
              '(f, out, place) ← receiver_turns b n f req inner_loop; Done (f, text ++ out, place)
          | _ => receiver_turns b n f req outer_loop
          end
      end
  end.

Definition receiver (b : receiver_body) (n : nat) (f : facade) : outcome (facade * bytes * receiver_place) :=
  req ← Receiver.subscribe_request;
  f ← Receiver.receiver_start f;
  receiver_turns b n f req outer_loop.

Definition subscriber_receiver : nat -> facade -> outcome (facade * bytes * receiver_place) := receiver subscriber_body.
Definition chat_receiver : nat -> facade -> outcome (facade * bytes * receiver_place) := receiver chat_body.

(** A pass of the publisher: the rest of its buffer. *)
Definition publisher_pass (f : facade) (msg : bytes) : outcome (facade * bytes) :=
  '(msg, n) ← await_line msg;
  req ← Receiver.publish_request msg;
  '(f, r, _) ← co_exec f req ignore_value;
  msg ← Receiver.publisher_resume r msg n;
  Done (f, msg).

(** ** [cpp20_echo_server.cpp] *)

(** A pass of a session, and what it wrote. *)
Definition echo_pass (f : facade) (req : request) (resp : Echo.echo_response) (buffer : bytes)
    : outcome (facade * request * Echo.echo_response * bytes * bytes) :=
  '(buffer, n) ← await_line buffer;
  req ← Echo.echo_request req buffer;
  '(f, r, resp) ← co_exec f req resp;
  answer ← Echo.echo_answer r resp;
  _ ← await_write answer;
  '(resp, req, buffer) ← Echo.echo_next resp req buffer n;
  Done (f, req, resp, buffer, answer).

(** ** [cpp20_streams.cpp] *)

Definition stream_pass (f : facade) (req : request) (resp : generic_response) (stream_id : bytes)
    : outcome (facade * request * generic_response * bytes * bytes) :=
  req ← Streams.stream_request req stream_id;
  '(f, r, resp) ← co_exec f req resp;
  '(out, stream_id, req, resp) ← Streams.stream_resume r req resp stream_id;
  Done (f, req, resp, stream_id, out).

(** ** Programs that run until a signal arrives *)

(** The coroutines they leave to the event loop. *)
Inductive task :=
  | task_receiver (b : receiver_body)
  | task_publisher (msg : bytes)
  | task_listener
  | task_echo_session (req : request) (resp : Echo.echo_response) (buffer : bytes)
  | task_stream_reader (req : request) (resp : generic_response) (stream_id : bytes).

(** The parts of their [co_main] before the signal. *)
Definition subscriber_main (cfg : config) : outcome (facade * list task) :=
  f ← facade_new;
  '(f, _) ← facade_async_run f cfg;
  Done (f, [task_receiver subscriber_body]).

Definition chat_main (cfg : config) : outcome (facade * list task) :=
  f ← facade_new;
  '(f, _) ← facade_async_run f cfg;
  Done (f, [task_receiver chat_body; task_publisher []]).

Definition echo_main (cfg : config) : outcome (facade * list task) :=
  f ← facade_new;
  '(f, _) ← facade_async_run f cfg;
  Done (f, [task_listener]).

Definition streams_main (cfg : config) : outcome (facade * list task) :=
  f ← facade_new;
  '(f, _) ← facade_async_run f (Streams.streams_config cfg);
  Done (f, [task_stream_reader fresh_request (r_value []) (bs "$")]).

(** After it. *)
Definition signalled (f : facade) : outcome facade := facade_cancel f operation.all.

(** A turn of [listener]: a connection was accepted, or the acceptor has failed,
    which ends the coroutine with a message. *)
Definition listener_turn (failure : option bytes) : list task * bytes :=
  match failure with
  | None => ([task_echo_session fresh_request (Response (r_value [], tt)) []; task_listener], [])
  | Some what => ([], bs "Listener: " ++ what ++ [LF])
  end.

(** ** [main.cpp] *)

(** What the process prints on success, and its exit status. *)
Definition main {A} (co_main : config -> outcome (A * bytes)) (argv : list bytes) : outcome (bytes * Z) :=
  match co_main (Intro.config_of_args argv) with
  | Done (_, out) => Done (out, 0%Z)
  | Throw _ => Done ([], 1%Z)
  | Fault e => Fault e
  end.
End Coroutines.
Arguments receiver_body : clear implicits.
Arguments task : clear implicits.

(** ** [sync_connection.hpp] *)

Section Synchronous.
Context {Ch Ep : Type} `{Channel Ch} `{Platform Ep}.

(** The connection with the event loop, which a second thread runs once it has
    been started. *)
Record sync_connection := mk_sync { sys_ : system Ch Ep; joinable_ : bool }.

Definition sync_new : outcome sync_connection := c ← new_connection; Done (mk_sync (init c) false).

(** [run]: assigning to a thread that is joinable terminates the process. *)
Definition sync_run (s : sync_connection) (cfg : config) : outcome sync_connection :=
  if joinable_ s then Fault terminate
  else r ← async_run (conn (sys_ s)) cfg; Done (mk_sync (after_run (sys_ s) r) true).

Definition sync_stop (s : sync_connection) : outcome sync_connection :=
  c ← cancel (conn (sys_ s)) operation.all;
  Done (mk_sync (set_conn (sys_ s) c) (joinable_ s)).

(** [exec]: the request is started in the event loop; the caller blocks until
    there is a result, and an error is thrown. *)
Definition sync_exec {R} `{ResponseTraits R} (s : sync_connection) (req : request) (resp : R) : outcome (sync_connection * elem_id) :=
  a ← create_impl resp;
  '(c, id, p) ← async_exec (conn (sys_ s)) req a;
  Done (mk_sync (launch user id p (set_conn (sys_ s) c)) (joinable_ s), id).

Definition sync_get (s : sync_connection) (id : elem_id) : option (outcome size_t) :=
  match list_find (fun x => x.1 = id) (results (sys_ s)) with
  | Some (_, (_, (ec, n))) => Some (if has_ec ec then Throw system_error else Done n)
  | None => None
  end.

(** [ioc_.run()] returns when no operation is left. *)
Definition out_of_work (s : system Ch Ep) : bool :=
  match run s with active _ => false | _ => bool_decide (execs s = ∅) end.

(** The destructor joins the thread, which blocks, and terminates the process if
    there is none. *)
Definition sync_destroy (s : sync_connection) : option (outcome unit) :=
  if negb (joinable_ s) then Some (Fault terminate)
  else if out_of_work (sys_ s) then Some (Done tt) else None.

(** ** [cpp17_intro_sync.cpp] *)

Definition sync_main_start (argv : list bytes) : outcome (sync_connection * elem_id) :=
  s ← sync_new;
  s ← sync_run s (Intro.config_of_args argv);
  req ← Intro.plain_ping_request;
  sync_exec s req Intro.ping_resp.

Definition sync_main_resume (s : sync_connection) (result : outcome size_t) (resp : Intro.ping_response) : outcome (sync_connection * bytes) :=
  _ ← result;
  s ← sync_stop s;
  v ← result_value (Traits.results resp).1;
  Done (s, bs "Response: " ++ v ++ [LF]).
End Synchronous.
