(* ===== verification/ExampleClaims.v ===== *)
(** * Claims about the example programs

    What they print on the answers of a server, and where they go wrong. *)

From stdpp Require Import gmap sorting.
From S2P Require Import Prelude Charconv Types Parser ParserSpec ParserSafety Resp3 ParserCorrect.
From S2P Require Import Serialization Request Adapters Traits AdapterTheorems Response.
From S2P Require Import Multiplexer MultiplexerInvariant MultiplexerRead MultiplexerClaims Logger Session Connection Run Facade.
From S2P Require Import ConnectionClaims System SystemInvariant Scenario RoundTrip Examples.

#[local] Open Scope string_scope.
#[local] Open Scope N_scope.
#[local] Open Scope list_scope.

(** ** Typed responses behind an adapter *)

(** The first element of a tuple receives the responses with index zero. *)
Lemma static_head_feed {R Rs} `{ResultTraits R} `{TupleTraits Rs} (a : adapter_type (R := R)) (rest : adapters_array_type (Rs := Rs)) nds :
  feed (fun ads nd ec => static_adapter (Rs := R * Rs) ads 0 nd ec) (a, rest) nds =
  '(a, ec) ← feed adapter_call a nds; Done ((a, rest), ec).
Proof.
  revert a. induction nds as [|nd nds IH]; intros a; [done|]. cbn [feed].
  change (@static_adapter (R * Rs) (tuple_traits_cons R Rs) (a, rest) 0 nd None)
    with ('(a, ec) ← adapter_call a nd None; Done ((a, rest), ec)).
  destruct (adapter_call a nd None) as [[a1 ec]|?|?]; [|done..]. cbn [mbind outcome_bind].
  destruct (has_ec ec); [done|]. apply IH.
Qed.

(** ** [hgetall] *)

(** The answer to HGETALL. *)
Definition hash_reply (kvs : list (bytes * bytes)) : resp3 :=
  r_aggregate type.map (concat (map (fun kv => [r_bulk kv.1; r_bulk kv.2]) kvs)).

(** The map an [std::map] holds after the insertions; the last value of a key
    stays. *)
Definition inserted (kvs : list (bytes * bytes)) : gmap bytes bytes := foldl (fun m kv => <[kv.1 := kv.2]> m) ∅ kvs.

Lemma hash_wrapper_feed kvs :
  exists s, feed wrapper_call (fresh_wrapper (T := gmap bytes bytes)) (nodes 0 (hash_reply kvs)) =
    Done (mk_wrapper (r_value (inserted kvs)) s true, None).
Proof.
  unfold fresh_wrapper. rewrite wrapper_feed; [|by intros nd [= <-]; right|done].
  unfold hash_reply. set (cs := concat (map (fun kv => [r_bulk kv.1; r_bulk kv.2]) kvs)).
  assert (forallb leaf cs = true) as Hleaf.
  { unfold cs. clear. induction kvs as [|kv kvs IH]; [done|]. cbn. exact IH. }
  cbn [nodes].
  assert (impl_adapter (T := gmap bytes bytes) (on_value_available impl_init impl_default, impl_default)
    (mk_node type.map (aggregate_count type.map cs) 0 []) None = Done ((mk_map_state None true, ∅), None)) as Hhd by done.
  rewrite (feed_cons _ _ _ _ _ Hhd), nodes_leaves by done.
  pose (ps := map (fun kv => (leaf_node 1 (r_bulk kv.1), leaf_node 1 (r_bulk kv.2))) kvs).
  assert (map (leaf_node (0 + 1)) cs = concat (map pair_nodes ps)) as ->.
  { unfold cs, ps. clear. induction kvs as [|kv kvs IH]; [done|]. cbn. by rewrite IH. }
  destruct (map_feed (K := bytes) (V := bytes) value value None ∅ ps) as [c ->].
  { unfold ps. apply Forall_map, Forall_true. intros kv. by repeat split. }
  eexists. cbn. repeat f_equal. unfold inserted, ps. clear. generalize (∅ : gmap bytes bytes).
  induction kvs as [|kv kvs IH]; intros m; [done|]. cbn. apply IH.
Qed.

(** The adapter of the response object, in a given state. *)
Definition hgetall_adapter (w : wrapper (gmap bytes bytes)) : any_adapter :=
  mk_any_adapter (response_adapter (R := Containers.hgetall_response)) (w, tt)
    (response_call (R := Containers.hgetall_response)) (get_supported_response_size (R := Containers.hgetall_response))
    (response_object (R := Containers.hgetall_response)) (response_assign (R := Containers.hgetall_response)).

Lemma hgetall_feed kvs :
  exists s, feed_responses (hgetall_adapter fresh_wrapper) 0 [hash_reply kvs] =
    Done (hgetall_adapter (mk_wrapper (r_value (inserted kvs)) s true), None).
Proof.
  destruct (hash_wrapper_feed kvs) as [s Hs]. exists s. cbn [feed_responses]. unfold hgetall_adapter. rewrite any_feed.
  pose proof (static_head_feed (R := result (gmap bytes bytes)) (Rs := unit) fresh_wrapper tt (nodes 0 (hash_reply kvs))) as Hf.
  match type of Hf with _ = mbind _ ?x => change x with (feed wrapper_call (fresh_wrapper (T := gmap bytes bytes)) (nodes 0 (hash_reply kvs))) in Hf end.
  rewrite Hs in Hf. cbn [mbind outcome_bind] in Hf.
  match type of Hf with ?x = _ => match goal with |- context [feed ?g ?s0 ?n] => change (feed g s0 n) with x end end.
  rewrite Hf. done.
Qed.

Lemma hash_reply_ok kvs : valid (hash_reply kvs) = true -> response_ok (hash_reply kvs).
Proof.
  intros Hv. split_and!; [done| |done]. unfold hash_reply. cbn [height].
  assert (fold_right N.max 0 (map height (concat (map (fun kv : bytes * bytes => [r_bulk kv.1; r_bulk kv.2]) kvs))) = 0) as E.
  { clear. induction kvs as [|kv kvs IH]; [done|]. cbn in *. by rewrite IH. }
  destruct (concat _); [done|]. rewrite E. done.
Qed.

(** The request of the program. *)
Definition hgetall_req : request := match Containers.hgetall_request with Done r => r | _ => fresh_request end.

Section WithChannel.
Context {Ch Ep : Type} `{Channel Ch} `{Platform Ep}.
Abbreviation system := (system Ch Ep).

(** C23: The program [hgetall] on a session at rest, from the call of
    [async_exec] to its output: the client sends exactly the command HGETALL, and
    when the server has answered with the fields of a hash the program prints
    them in the order of their names, for a repeated one the last. *)
Theorem hgetall_prints (s : system) se kvs :
  sys_reachable s -> resting s se -> valid (hash_reply kvs) = true ->
  len (encode (hash_reply kvs)) <= buffer_growth_hint ->
  exists id s1 s2 r w,
    create_impl Containers.hgetall_resp = Done (hgetall_adapter fresh_wrapper) /\
    steps [ev_exec hgetall_req (hgetall_adapter fresh_wrapper); ev_writer_timer (Some operation_aborted)] s = Some (Done s1) /\
    writing s1 = Some (wire [[bs "HGETALL"; bs "hset-key"]]) /\
    steps [ev_written None; ev_read None (encode (hash_reply kvs)); ev_notified id not_cancelled] s1 = Some (Done s2) /\
    System.results s2 = System.results s ++ [(id, r)] /\
    adapter_ <$> store (mpx_ (conn s2)) !! id = Some (hgetall_adapter w) /\
    Containers.hgetall_resume r (response_contents (R := Containers.hgetall_response) (w, tt)) = Done (print_map (inserted kvs)).
Proof.
  intros Hre Hrest Hv Hl. destruct (hgetall_feed kvs) as [st Hfeed].
  set (w := mk_wrapper (r_value (inserted kvs)) st true) in *.
  assert (answers [mk_call hgetall_req (hgetall_adapter fresh_wrapper) [hash_reply kvs] (hgetall_adapter w)] = encode (hash_reply kvs)) as Ha.
  { unfold answers, bytes_of. cbn [map concat call_responses app]. by rewrite app_nil_r. }
  destruct (batch_round_trip s se [mk_call hgetall_req (hgetall_adapter fresh_wrapper) [hash_reply kvs] (hgetall_adapter w)])
    as (ids & s1 & s2 & H1 & H2 & H3 & H4 & H5 & _); [done|done| |done|by rewrite Ha|].
  { constructor; [|constructor]. split; [|done]. split; try done. constructor; [by apply hash_reply_ok|constructor]. }
  rewrite Ha in H3. destruct ids as [|id [|? ?]]; [by apply Forall2_length in H5| |by apply Forall2_length in H5].
  apply Forall2_cons in H5 as [(e & He & Had & _) _].
  exists id, s1, s2, (None, len (bytes_of [hash_reply kvs])), w. split_and!; [done|done| |done|done| |done].
  - rewrite H2. unfold sent. cbn [map concat call_req]. by rewrite app_nil_r.
  - rewrite He. cbn. by rewrite Had.
Qed.
End WithChannel.

Lemma hgetall_prints_witness :
  exists id (s1 s2 : example_system) r w,
    create_impl Containers.hgetall_resp = Done (hgetall_adapter fresh_wrapper) /\
    steps [ev_exec hgetall_req (hgetall_adapter fresh_wrapper); ev_writer_timer (Some operation_aborted)] (state_after handshaken) = Some (Done s1) /\
    writing s1 = Some (wire [[bs "HGETALL"; bs "hset-key"]]) /\
    steps [ev_written None; ev_read None (encode (hash_reply [(bs "b", bs "2"); (bs "a", bs "1")])); ev_notified id not_cancelled] s1 = Some (Done s2) /\
    System.results s2 = System.results (state_after handshaken) ++ [(id, r)] /\
    adapter_ <$> store (mpx_ (conn s2)) !! id = Some (hgetall_adapter w) /\
    Containers.hgetall_resume r (response_contents (R := Containers.hgetall_response) (w, tt)) =
      Done (bs "a: 1" ++ [LF] ++ bs "b: 2" ++ [LF]).
Proof.
  apply (hgetall_prints (state_after handshaken) rested_session [(bs "b", bs "2"); (bs "a", bs "1")]).
  - reachable_state.
  - split; by vm_compute.
  - by vm_compute.
  - by vm_compute.
Defined.

(** ** The receivers of pushes *)

(** A message of a channel, and the line the programs print for it. *)
Record message := mk_message { kind : bytes; channel : bytes; text : bytes }.
Definition push_of (p : message) : resp3 := r_aggregate type.push [r_bulk (kind p); r_bulk (channel p); r_bulk (text p)].
Definition line_of (p : message) : bytes := kind p ++ bs " " ++ channel p ++ bs " " ++ text p ++ [LF].

Section Receivers.
Context {Ch Ep : Type} `{Channel Ch} `{Platform Ep}.
Abbreviation facade := (facade Ch Ep).

(** The receiver has been started, and these pushes have arrived that it has not
    handled. *)
Definition listening (f : facade) (ps : list message) : Prop :=
  receive_adapter_ (mpx_ (impl_ f)) =
    Some (mk_any_adapter (response_adapter (R := generic_response)) (r_value (concat (map (nodes 0) (map push_of ps))))
      (fun s _ nd ec => adapter_wrapper (R := generic_response) s nd ec) any_size Some (fun r _ => r)).

Lemma receiver_start_listens (f : facade) : exists f', Receiver.receiver_start f = Done f' /\ listening f' [].
Proof. eexists. split; [reflexivity|]. done. Qed.

Lemma listening_resp (f : facade) ps :
  listening f ps -> Receiver.receive_resp f = Some (r_value (concat (map (nodes 0) (map push_of ps)))).
Proof. intros Hf. unfold Receiver.receive_resp. by rewrite Hf. Qed.

Lemma listening_set (f : facade) ps ps' :
  listening f ps ->
  listening (Receiver.set_receive_resp f (r_value (concat (map (nodes 0) (map push_of ps'))))) ps'.
Proof. intros Hf. unfold listening, Receiver.set_receive_resp. cbn. by rewrite Hf. Qed.

Lemma print_push_first p ps :
  Receiver.print_push (r_value (concat (map (nodes 0) (map push_of (p :: ps))))) = Done (line_of p).
Proof. done. Qed.

Lemma consume_push p ps :
  consume_one_throwing (r_value (concat (map (nodes 0) (map push_of (p :: ps))))) =
  Done (r_value (concat (map (nodes 0) (map push_of ps)))).
Proof. unfold consume_one_throwing, consume_one. cbn. by destruct ps. Qed.

(** The subscriber prints the pushes that have arrived one by one: a pass of
    its loop prints the first one and keeps the others. *)
Theorem subscriber_prints (f : facade) p ps n ch :
  listening f (p :: ps) -> channel_try_receive (receive_channel_ (impl_ f)) = Some (None, n, ch) ->
  exists f', Receiver.subscriber_pass f None = Done (f', Receiver.pass_printed (line_of p)) /\
    listening f' ps /\ receive_channel_ (impl_ f') = ch.
Proof.
  intros Hf Hch. unfold Receiver.subscriber_pass, facade_receive, receive. rewrite Hch. cbn [has_ec is_error].
  unfold Receiver.subscriber_handle. cbn [has_ec].
  set (f1 := mk_facade (set_channel (impl_ f) ch)). assert (listening f1 (p :: ps)) as Hf1 by exact Hf.
  rewrite (listening_resp f1 (p :: ps)) by done. rewrite print_push_first. cbn [mbind outcome_bind].
  rewrite consume_push. cbn [mbind outcome_bind]. eexists. split; [reflexivity|].
  split; [by apply (listening_set f1 (p :: ps))|done].
Qed.

(** C40: The chat room clears all pushes when it has printed the first.  When two
    have arrived before it runs, the second is lost, and its notification makes
    the program read past the end of the response and throw. *)
Theorem chat_room_loses_push (f : facade) p q ps n n' ch ch' :
  listening f (p :: q :: ps) ->
  channel_try_receive (receive_channel_ (impl_ f)) = Some (None, n, ch) ->
  channel_try_receive ch = Some (None, n', ch') ->
  exists f', Receiver.chat_pass f = Done (f', Receiver.pass_printed (line_of p)) /\ listening f' [] /\
    Receiver.chat_pass f' = Throw std_out_of_range.
Proof.
  intros Hf Hch Hch'. unfold Receiver.chat_pass at 1, facade_async_receive, async_receive. rewrite Hch.
  unfold Receiver.chat_handle at 1. cbn [has_ec].
  set (f1 := mk_facade (set_channel (impl_ f) ch)). assert (listening f1 (p :: q :: ps)) as Hf1 by exact Hf.
  rewrite (listening_resp f1 (p :: q :: ps)) by done. rewrite print_push_first. cbn [mbind outcome_bind result_value].
  pose proof (listening_set f1 (p :: q :: ps) [] Hf1) as Hf2. eexists. split; [reflexivity|]. split; [exact Hf2|].
  unfold Receiver.chat_pass, facade_async_receive, async_receive.
  change (receive_channel_ (impl_ (Receiver.set_receive_resp f1 _))) with ch. rewrite Hch'.
  unfold Receiver.chat_handle. cbn [has_ec].
  set (f3 := mk_facade _). assert (listening f3 []) as Hf3 by exact Hf2. by rewrite (listening_resp f3 []).
Qed.
End Receivers.

(** A receiver on a session at rest, where two messages arrive with one read. *)
Definition first_message : message := mk_message (bs "message") (bs "channel") (bs "one").
Definition second_message : message := mk_message (bs "message") (bs "channel") (bs "two").
Definition receiving : example_system :=
  let s := state_after handshaken in
  match Receiver.receiver_start (mk_facade (conn s)) with
  | Done f =>
      match steps [ev_read None (bytes_of (map push_of [first_message; second_message]))] (set_conn s (impl_ f)) with
      | Some (Done s) => s
      | _ => s
      end
  | _ => s
  end.

Lemma subscriber_prints_witness :
  exists f' : Facade.facade (list (error_code * size_t)) bytes,
    Receiver.subscriber_pass (mk_facade (conn receiving)) None = Done (f', Receiver.pass_printed (bs "message channel one" ++ [LF])) /\
    listening f' [second_message] /\ length (receive_channel_ (impl_ f')) = 1%nat.
Proof.
  destruct (subscriber_prints (mk_facade (conn receiving)) first_message [second_message]
    (len (encode (push_of first_message))) [(None, len (encode (push_of second_message)))]) as (f' & H1 & H2 & H3).
  - by vm_compute.
  - by vm_compute.
  - exists f'. rewrite H3. exact (conj H1 (conj H2 eq_refl)).
Defined.

Lemma chat_room_loses_push_witness :
  exists f' : Facade.facade (list (error_code * size_t)) bytes,
    Receiver.chat_pass (mk_facade (conn receiving)) = Done (f', Receiver.pass_printed (bs "message channel one" ++ [LF])) /\
    listening f' [] /\ Receiver.chat_pass f' = Throw std_out_of_range.
Proof.
  apply (chat_room_loses_push (mk_facade (conn receiving)) first_message second_message []
    (len (encode (push_of first_message))) (len (encode (push_of second_message)))
    [(None, len (encode (push_of second_message)))] []).
  - by vm_compute.
  - by vm_compute.
  - by vm_compute.
Defined.

(** ** The reader of a stream *)

(** An entry of the stream with the field the program looks for, and the answer
    to XREAD with such entries. *)
Definition entry (e : bytes * bytes) : resp3 :=
  r_aggregate type.array [r_bulk e.1; r_aggregate type.array [r_bulk Streams.field; r_bulk e.2]].
Definition xread_reply (topic : bytes) (es : list (bytes * bytes)) : resp3 :=
  r_aggregate type.map [r_bulk topic; r_aggregate type.array (map entry es)].
Definition entry_line (e : bytes * bytes) : bytes := bs "StreamId: " ++ e.1 ++ bs ", " ++ bs "MyField: " ++ e.2 ++ [LF].

Lemma vector_at_middle {A} (a b : list A) x i : i = len a -> vector_at (a ++ x :: b) i = Done x.
Proof. intros ->. unfold vector_at, len. rewrite Nat2N.id, list_lookup_middle by done. done. Qed.

Lemma scan_skip fuel a nd b sid :
  len (a ++ nd :: b) < size_modulus -> value nd <> Streams.field ->
  Streams.scan (S fuel) (a ++ nd :: b) (len a) sid = Streams.scan fuel ((a ++ [nd]) ++ b) (len (a ++ [nd])) sid.
Proof.
  intros Hlen Hnd. cbn [Streams.scan]. rewrite <- (app_assoc a [nd] b). cbn [app].
  assert (len (a ++ [nd]) = len a + 1 /\ len a + 1 <= len (a ++ nd :: b)) as [-> Hle].
  { unfold len. rewrite !length_app. cbn [length]. lia. }
  destruct (N.ltb_spec (len a) (len (a ++ nd :: b))); [|lia].
  rewrite (vector_at_middle a b nd (len a)) by done. cbn [mbind outcome_bind]. rewrite bool_decide_eq_false_2 by congruence.
  by rewrite wadd_small by lia.
Qed.

Lemma scan_entry fuel a e es sid :
  len (a ++ nodes 2 (entry e) ++ es) < size_modulus -> e.1 <> Streams.field ->
  Streams.scan (4 + fuel) (a ++ nodes 2 (entry e) ++ es) (len a) sid =
  '(out, sid) ← Streams.scan fuel ((a ++ nodes 2 (entry e)) ++ es) (len (a ++ nodes 2 (entry e))) e.1;
  Done (entry_line e ++ out, sid).
Proof.
  intros Hlen Hid.
  pose (x1 := mk_node type.array 2 2 []). pose (x2 := mk_node type.blob_string 1 3 e.1). pose (x3 := mk_node type.array 2 3 []).
  pose (x4 := mk_node type.blob_string 1 4 Streams.field). pose (x5 := mk_node type.blob_string 1 4 e.2).
  change (nodes 2 (entry e)) with [x1; x2; x3; x4; x5] in *. cbn [app Nat.add] in *.
  rewrite scan_skip by (exact Hlen || by vm_compute).
  rewrite scan_skip by (exact Hid || (rewrite <- app_assoc; exact Hlen)).
  rewrite scan_skip by ((rewrite <- !app_assoc; exact Hlen) || by vm_compute).
  rewrite <- !app_assoc. cbn [app Streams.scan].
  assert (len (a ++ [x1; x2; x3]) = len a + 3 /\ len (a ++ [x1; x2; x3; x4; x5]) = len a + 5 /\
    len a + 5 <= len (a ++ x1 :: x2 :: x3 :: x4 :: x5 :: es)) as (-> & -> & Hle).
  { unfold len. rewrite !length_app. cbn [length]. lia. }
  destruct (N.ltb_spec (len a + 3) (len (a ++ x1 :: x2 :: x3 :: x4 :: x5 :: es))); [|lia].
  assert (forall x i b c, a ++ x1 :: x2 :: x3 :: x4 :: x5 :: es = (a ++ b) ++ x :: c -> i = len a + len b ->
    vector_at (a ++ x1 :: x2 :: x3 :: x4 :: x5 :: es) i = Done x) as Hat.
  { intros x i b c -> ->. apply vector_at_middle. unfold len. rewrite length_app. lia. }
  rewrite (Hat x4 (len a + 3) [x1; x2; x3] (x5 :: es)) by (rewrite <- ?app_assoc; (done || (unfold len; cbn; lia))). cbn [mbind outcome_bind].
  rewrite bool_decide_eq_true_2 by done. rewrite (wsub_small (len a + 3)) by lia. rewrite !wadd_small by (rewrite ?wadd_small; lia).
  rewrite (Hat x2 (len a + 3 - 2) [x1] (x3 :: x4 :: x5 :: es)) by (rewrite <- ?app_assoc; (done || (unfold len; cbn; lia))).
  rewrite (Hat x5 (len a + 3 + 1) [x1; x2; x3; x4] es) by (rewrite <- ?app_assoc; (done || (unfold len; cbn; lia))).
  cbn [mbind outcome_bind]. replace (len a + 3 + 1 + 1) with (len a + 5) by lia.
  destruct (Streams.scan fuel _ _ _) as [[out sid']|?|?]; [|done..].
  cbn [mbind outcome_bind]. unfold entry_line. rewrite <- !app_assoc. reflexivity.
Qed.

Lemma last_cons_default {A} (l : list A) x d : List.last (x :: l) d = List.last l x.
Proof. revert x d. induction l as [|y l IH]; intros x d; [done|]. etrans; [apply (IH y d)|by rewrite IH]. Qed.

Lemma scan_entries es a fuel sid :
  len (a ++ concat (map (nodes 2) (map entry es))) < size_modulus -> Forall (fun e => e.1 <> Streams.field) es ->
  Streams.scan (4 * length es + S fuel) (a ++ concat (map (nodes 2) (map entry es))) (len a) sid =
  Done (concat (map entry_line es), List.last (map fst es) sid).
Proof.
  revert a sid. induction es as [|e es IH]; intros a sid Hlen Hids.
  - cbn [length map concat Nat.mul Nat.add Streams.scan]. rewrite app_nil_r, N.ltb_irrefl. done.
  - apply Forall_cons in Hids as [Hid Hids]. cbn [map concat] in *.
    replace (4 * length (e :: es) + S fuel)%nat with (4 + (4 * length es + S fuel))%nat by (cbn [length]; lia).
    rewrite scan_entry by done. rewrite IH; [|by rewrite <- app_assoc|done]. cbn [mbind outcome_bind].
    cbn [map]. by rewrite last_cons_default.
Qed.

(** The reader of a stream prints each entry of the answer to XREAD, its id
    and its payload, in order, continues after the last of them, and clears the
    request and the response for the next pass.  The length of the response is
    fuel enough for its loop. *)
Theorem streams_prints topic es req sid n :
  topic <> Streams.field -> Forall (fun e => e.1 <> Streams.field) es ->
  len (nodes 0 (xread_reply topic es)) < size_modulus ->
  Streams.stream_resume (None, n) req (r_value (nodes 0 (xread_reply topic es))) sid =
  Done (concat (map entry_line es), List.last (map fst es) sid, clear req, r_value []).
Proof.
  intros Ht Hids Hlen. unfold Streams.stream_resume, awaited. cbn [fst has_ec result_value mbind outcome_bind].
  pose (x1 := mk_node type.map 1 0 []). pose (x2 := mk_node type.blob_string 1 1 topic).
  pose (x3 := mk_node type.array (aggregate_count type.array (map entry es)) 1 []).
  assert (nodes 0 (xread_reply topic es) = [] ++ x1 :: x2 :: x3 :: concat (map (nodes 2) (map entry es))) as E.
  { cbn. by rewrite !app_nil_r. }
  rewrite E in Hlen |- *. change 0 with (len (@nil node)).
  assert (exists fuel, S (length ([] ++ x1 :: x2 :: x3 :: concat (map (nodes 2) (map entry es)))) = S (S (S (4 * length es + S fuel)))) as [fuel ->].
  { exists (length es). cbn [app length]. do 3 f_equal. clear. induction es as [|e es IH]; [done|]. cbn [map concat length].
    rewrite length_app. change (length (nodes 2 (entry e))) with 5%nat. lia. }
  rewrite scan_skip by (exact Hlen || by vm_compute). rewrite scan_skip by (exact Hlen || exact Ht).
  rewrite scan_skip by (exact Hlen || by vm_compute). rewrite scan_entries by done. done.
Qed.

Lemma streams_prints_witness :
  Streams.stream_resume (None, 88) fresh_request
    (r_value (nodes 0 (xread_reply (bs "test-topic") [(bs "1-0", bs "a"); (bs "2-0", bs "myfield")]))) (bs "$") =
  Done (bs "StreamId: 1-0, MyField: a" ++ [LF] ++ bs "StreamId: 2-0, MyField: myfield" ++ [LF], bs "2-0",
    clear fresh_request, r_value []).
Proof.
  apply (streams_prints (bs "test-topic") [(bs "1-0", bs "a"); (bs "2-0", bs "myfield")] fresh_request (bs "$") 88).
  - by vm_compute.
  - repeat (apply Forall_cons_2; [by vm_compute|]). apply Forall_nil_2.
  - by vm_compute.
Defined.

(** The number of nodes is fuel enough, whatever they are. *)
Lemma scan_fuel fuel v i sid :
  len v + 1 < size_modulus -> len v - i < N.of_nat fuel -> Streams.scan fuel v i sid <> Fault out_of_fuel.
Proof.
  intros Hlen. revert i sid. induction fuel as [|fuel IH]; intros i sid Hi; cbn [Streams.scan]; [lia|].
  destruct (N.ltb_spec i (len v)); [|done].
  assert (forall j, vector_at v j <> Fault out_of_fuel) as Hat by (intros j; unfold vector_at; by destruct (v !! _)).
  destruct (vector_at v i) as [nd|?|?] eqn:Hv; cbn [mbind outcome_bind]; [|done|intros [= ->]; by destruct (Hat i)].
  rewrite !(wadd_small i 1), (wadd_small (i + 1) 1) by lia. destruct (bool_decide _); [|apply IH; lia].
  destruct (vector_at v (i -w 2)) as [x|?|?] eqn:Hx; cbn [mbind outcome_bind]; [|done|intros [= ->]; by destruct (Hat (i -w 2))].
  destruct (vector_at v (i + 1)) as [y|?|?] eqn:Hy; cbn [mbind outcome_bind]; [|done|intros [= ->]; by destruct (Hat (i + 1))].
  pose proof (IH (i + 1 + 1) (value x) ltac:(lia)) as IHi. destruct (Streams.scan _ _ _ _) as [[? ?]|?|?]; cbn; [done|done|congruence].
Qed.

(** When the field is not the first of its entry the program takes another field
    for the id of the entry, and asks for the entries after it. *)
Example streams_wrong_id :
  Streams.stream_resume (None, 88) fresh_request
    (r_value (nodes 0 (r_aggregate type.map [r_bulk (bs "test-topic"); r_aggregate type.array
      [r_aggregate type.array [r_bulk (bs "1-0"); r_aggregate type.array
        [r_bulk (bs "other"); r_bulk (bs "x"); r_bulk Streams.field; r_bulk (bs "a")]]]]))) (bs "$") =
  Done (bs "StreamId: other, MyField: a" ++ [LF], bs "other", clear fresh_request, r_value []).
Proof. by vm_compute. Qed.

(** ** The sentinels *)

(** A sentinel that does not know the master answers with a null, which makes
    the program throw: the sentinels after it are not asked. *)
Lemma sentinel_null_throws : Sentinel.sentinel_address None Sentinel.sentinel_resp = Throw std_bad_optional_access.
Proof. done. Qed.

(** ** The echo server *)

(** When a second line has arrived with the first one, the server sends both for
    the first, and the second again. *)
Lemma echo_repeats first second resp v :
  (Traits.results resp).1 = r_value v ->
  exists req, Echo.echo_request fresh_request (first ++ second) = Done req /\
    payload_ req = wire [[bs "PING"; first ++ second]] /\
    exists resp' req', Echo.echo_next resp req (first ++ second) (len first) = Done (resp', req', second) /\
    exists req'', Echo.echo_request req' second = Done req'' /\ payload_ req'' = wire [[bs "PING"; second]].
Proof.
  intros Hr. unfold Echo.echo_request, Echo.echo_next.
  destruct (push_represents fresh_request [] (bs "PING") [str (first ++ second)]) as (req & -> & Hreq & _); [done..|].
  exists req. split_and!; [done|apply Hreq|]. rewrite Hr. cbn [result_value mbind outcome_bind].
  do 2 eexists. split; [unfold len; rewrite Nat2N.id, drop_app_length; reflexivity|].
  destruct (push_represents (clear req) [] (bs "PING") [str second]) as (req'' & -> & Hreq'' & _); [done..|].
  exists req''. split; [done|apply Hreq''].
Qed.

(** ** The transaction *)

Definition queued_reply : resp3 := r_simple type.simple_string (bs "QUEUED").
Definition exec_reply : resp3 :=
  r_aggregate type.array
    [r_aggregate type.array (map r_bulk [bs "1"; bs "-2"]);
     hash_reply [(bs "key2", bs "value2"); (bs "key1", bs "value1")];
     r_aggregate type.array [r_bulk (bs "value"); r_simple type.null []]].

(** The answers passed to the response object, one after the other. *)
Fixpoint fill {R} `{ResponseTraits R} (a : response_adapter (R := R)) (i : size_t) (rs : list resp3)
    : outcome (response_adapter (R := R) * error_code) :=
  match rs with
  | [] => Done (a, None)
  | r :: rs =>
      '(a, ec) ← feed (fun a nd ec => response_call a i nd ec) a (nodes 0 r);
      if has_ec ec then Done (a, ec) else fill a (i + 1) rs
  end.

(** The program [transaction] on the answers of a server: what is queued is
    ignored, and the answer to EXEC fills the three containers. *)
Example transaction_prints `{Indeterminate} :
  (ad ← boost_redis_adapt (Containers.transaction_resp 1024);
   '(ad, ec) ← fill (R := Containers.transaction_response 1024) ad 0 [ok_reply; queued_reply; queued_reply; queued_reply; exec_reply];
   Containers.transaction_resume 1024 (ec, 0) (response_contents (R := Containers.transaction_response 1024) ad)) =
  Done (bs "1 -2 " ++ [LF] ++ bs "key1: value1" ++ [LF] ++ bs "key2: value2" ++ [LF] ++ bs "value null " ++ [LF]).
Proof. by vm_compute. Qed.
