(* ===== verification/Subscriber.v ===== *)
(** * Delivery of pushes to a program

    The receiver of [cpp20_subscriber.cpp] behind the reader of the connection:
    pushes that arrive in any pieces, between any responses, are printed one by
    one, in their order. *)

From stdpp Require Import gmap.
From S2P Require Import Prelude Charconv Types Parser ParserSpec ParserSafety Resp3 ParserCorrect.
From S2P Require Import Serialization Request Adapters Traits AdapterTheorems AdapterClaims Response.
From S2P Require Import Multiplexer MultiplexerInvariant MultiplexerRead MultiplexerStream MultiplexerClaims ReaderStream Logger Session Connection Run Facade.
From S2P Require Import ConnectionClaims System SystemInvariant Scenario RoundTrip Examples Programs ExampleClaims.

#[local] Open Scope string_scope.
#[local] Open Scope N_scope.
#[local] Open Scope list_scope.

(** What the programs rely on in a channel: it delivers what was sent, in order. *)
Class Fifo (Ch : Type) `{Channel Ch} := {
  buffered : Ch -> list (error_code * size_t);
  fifo_send ch ec n ch' : channel_try_send ch ec n = Some ch' -> buffered ch' = buffered ch ++ [(ec, n)];
  fifo_receive ch ec n l : buffered ch = (ec, n) :: l -> exists ch', channel_try_receive ch = Some (ec, n, ch') /\ buffered ch' = l;
}.

#[global, refine] Instance list_fifo : Fifo (list (error_code * size_t)) := {| buffered l := l |}.
Proof.
  - intros l ec n l'. unfold channel_try_send, list_channel. destruct (length l <? 256)%nat; [by intros [= <-]|done].
  - intros l ec n l' ->. by exists l'.
Defined.

(** ** What arrives *)

(** The pushes among the messages are the only ones the receive adapter sees. *)
Lemma deliver_receive w rs w' : deliver_all w rs = Some w' -> receive_pushes (w_receive w) (pushes rs) = Some (w_receive w').
Proof.
  revert w. induction rs as [|r rs IH]; intros w; cbn [deliver_all]; [by intros [= ->]|].
  destruct (deliver w r) as [w1|] eqn:Hd; [|done]. intros Hw. specialize (IH w1 Hw). unfold deliver in Hd. unfold pushes. cbn [List.filter].
  destruct (is_push r).
  - cbn [receive_pushes]. destruct (w_receive w) as [a|]; [|done]. destruct (feed push_adapter a (nodes 0 r)) as [[a' [e|]]|?|?]; [done| |done..].
    by injection Hd as <-.
  - destruct (w_queue w) as [|front others]; [done|]. destruct (w_store w !! front) as [e|]; [|done]. destruct (_ || _); [done|].
    destruct (feed _ _ _) as [[a' [e'|]]|?|?]; [done| |done..]. by injection Hd as <-.
Qed.

Section WithChannel.
Context {Ch Ep : Type} `{Fifo Ch} `{Platform Ep}.
Abbreviation facade := (facade Ch Ep).
Abbreviation system := (system Ch Ep).

Lemma announce_buffered ch rs ch' :
  announce ch rs = Some ch' -> buffered ch' = buffered ch ++ map (fun r => (None, len (encode r))) (pushes rs).
Proof.
  revert ch. unfold pushes. induction rs as [|r rs IH]; intros ch; cbn [announce List.filter]; [by intros [= ->]; rewrite app_nil_r|].
  destruct (is_push r); [|apply IH]. destruct (channel_try_send ch None _) as [ch1|] eqn:Hs; [|done].
  intros Ha. rewrite (IH _ Ha), (fifo_send _ _ _ _ Hs), <- (assoc_L (++)). done.
Qed.

(** The adapter of the receiver collects the nodes of the messages. *)
Definition push_object (ps : list message) : any_adapter :=
  mk_any_adapter (response_adapter (R := generic_response)) (r_value (concat (map (nodes 0) (map push_of ps))))
    (fun s _ nd ec => adapter_wrapper (R := generic_response) s nd ec) any_size Some (fun r _ => r).

Lemma push_object_feed ps p : feed push_adapter (push_object ps) (nodes 0 (push_of p)) = Done (push_object (ps ++ [p]), None).
Proof.
  unfold push_adapter, push_object. rewrite any_feed.
  match goal with |- context [feed ?f ?s ?n] => change (feed f s n) with (feed general_aggregate s n) end.
  match goal with |- context [feed general_aggregate (r_value ?l) ?n] =>
    destruct (generic_response_collects l n (mk_node type.null 1 0 [])) as [-> _]; [by repeat constructor|] end.
  cbn [mbind outcome_bind]. rewrite !map_app, concat_app. cbn [map concat]. by rewrite app_nil_r.
Qed.

Lemma push_object_receives ps qs : receive_pushes (Some (push_object ps)) (map push_of qs) = Some (Some (push_object (ps ++ qs))).
Proof.
  revert ps. induction qs as [|q qs IH]; intros ps; cbn [map receive_pushes]; [by rewrite app_nil_r|].
  rewrite push_object_feed, IH. by rewrite <- (assoc_L (++)).
Qed.

(** ** What is printed *)

Lemma subscriber_turns `{!Runtime Ch Ep} ps ns (f : facade) req :
  listening f ps -> buffered (receive_channel_ (impl_ f)) = map (fun n => (None, n)) ns -> length ns = length ps ->
  exists f', receiver_turns subscriber_body (length ps) f req inner_loop = Done (f', concat (map line_of ps), inner_loop) /\
    listening f' [] /\ buffered (receive_channel_ (impl_ f')) = [].
Proof.
  revert ns f. induction ps as [|p ps IH]; intros [|n ns] f Hf Hb Hlen; try done; [by exists f|].
  destruct (fifo_receive _ _ _ _ Hb) as (ch & Hch & Hb'). destruct (subscriber_prints f p ps n ch Hf Hch) as (f1 & Hp & Hf1 & Hc1).
  destruct (IH ns f1) as (f' & Ht & Hf' & Hb2); [done|by rewrite Hc1|by injection Hlen|].
  exists f'. split_and!; [|done|done]. cbn [length receiver_turns subscriber_body body_pass]. rewrite Hp. cbn [mbind outcome_bind].
  by rewrite Ht.
Qed.

(** C13: While the subscriber listens, whatever messages the server sends, cut into
    reads anywhere, with the answers to requests between them: the reader accepts
    them, and the next turns of the subscriber print the messages of the channel,
    each once and in their order, until none is left. *)
Theorem subscriber_delivers (s : system) se rs chunks w ch ps :
  run s = active (run_group se) -> session_reader se = co_yield (reader_reading 0 buffer_growth_hint) ->
  idle (mpx_ (conn s)) -> Forall message_ok rs -> len (bytes_of rs) < size_modulus ->
  concat chunks = bytes_of rs -> Forall piece_ok chunks -> room (len (bytes_of rs)) (conn s) (concat (tail chunks)) ->
  deliver_all (world_of (mpx_ (conn s))) rs = Some w -> announce (receive_channel_ (conn s)) rs = Some ch ->
  listening (mk_facade (conn s)) [] -> buffered (receive_channel_ (conn s)) = [] -> pushes rs = map push_of ps ->
  exists c', steps (map ev_piece chunks) s = Some (Done (set_conn s c')) /\
    forall (rt : Runtime Ch Ep) req,
      exists f', receiver_turns subscriber_body (length ps) (mk_facade c') req inner_loop = Done (f', concat (map line_of ps), inner_loop) /\
        listening f' [] /\ buffered (receive_channel_ (impl_ f')) = [].
Proof.
  intros Hrun Hrd Hi Hok Hl Hcat Hp Hroom Hd Ha Hf Hb Hps.
  destruct (stream_read s se rs chunks w ch) as (c' & Hst & _ & Hw & Hc); try done.
  exists c'. split; [done|]. intros rt req.
  apply (subscriber_turns ps (map (fun r => len (encode r)) (pushes rs))).
  - pose proof (deliver_receive _ _ _ Hd) as Hr. rewrite <- Hw in Hr. cbn [world_of w_receive] in Hr. unfold listening in Hf. cbn [impl_] in Hf.
    rewrite Hf, Hps in Hr. change (mk_any_adapter _ _ _ _ _ _) with (push_object []) in Hr. rewrite push_object_receives in Hr. injection Hr as Hr. exact (eq_sym Hr).
  - cbn [impl_]. rewrite Hc, (announce_buffered _ _ _ Ha), Hb, map_map. done.
  - by rewrite Hps, !length_map.
Qed.
End WithChannel.

(** The subscriber listens on a session on which a request has been written. *)
Definition subscribed : example_system :=
  let s := state_after asked_once in
  match Receiver.receiver_start (mk_facade (conn s)) with Done f => set_conn s (impl_ f) | _ => s end.

Definition message_stream : list resp3 := [push_of first_message; bulk (bs "A"); push_of second_message].
Definition message_pieces : list bytes := let b := bytes_of message_stream in [take 5 b; take 40 (drop 5 b); drop 45 b].
Definition after_messages : world :=
  default (mk_world [] ∅ None) (deliver_all (world_of (mpx_ (conn subscribed))) message_stream).

Lemma subscriber_delivers_witness :
  exists c', steps (map ev_piece message_pieces) subscribed = Some (Done (set_conn subscribed c')) /\
    forall (rt : Runtime (list (error_code * size_t)) bytes) req,
      exists f', receiver_turns subscriber_body 2 (mk_facade c') req inner_loop =
          Done (f', bs "message channel one" ++ [LF] ++ bs "message channel two" ++ [LF], inner_loop) /\
        listening f' [] /\ buffered (receive_channel_ (impl_ f')) = [].
Proof.
  apply (subscriber_delivers subscribed rested_session message_stream message_pieces after_messages
    (map (fun r => (None, len (encode r))) (map push_of [first_message; second_message])) [first_message; second_message]).
  - vm_compute. reflexivity.
  - vm_compute. reflexivity.
  - split; vm_compute; reflexivity.
  - repeat apply Forall_cons_2; [..|apply Forall_nil_2]; split; vm_compute; done.
  - vm_compute. reflexivity.
  - vm_compute. reflexivity.
  - repeat apply Forall_cons_2; [..|apply Forall_nil_2]; split; vm_compute; done.
  - split_and!; [vm_compute; reflexivity|vm_compute; done|intros _; vm_compute; done].
  - vm_compute. reflexivity.
  - vm_compute. reflexivity.
  - vm_compute. reflexivity.
  - vm_compute. reflexivity.
  - vm_compute. reflexivity.
Defined.
