(* ===== verification/ProgramClaims.v ===== *)
(** * Claims about whole programs

    The example programs on a connection they construct, run and use. *)

From stdpp Require Import gmap.
From S2P Require Import Prelude Charconv Types Parser ParserSpec ParserSafety Resp3 ParserCorrect.
From S2P Require Import Serialization Request Adapters Traits AdapterTheorems Response.
From S2P Require Import Multiplexer MultiplexerInvariant MultiplexerRead MultiplexerStream MultiplexerClaims ReaderStream Logger Session Connection Run Facade Advance.
From S2P Require Import ConnectionClaims System SystemInvariant SystemClaims Scenario RoundTrip SessionStart Startup Examples Programs ExampleClaims.

#[local] Open Scope string_scope.
#[local] Open Scope N_scope.
#[local] Open Scope list_scope.

(** ** [cpp20_intro.cpp] *)

(** The adapter of the response object, in a given state. *)
Definition ping_adapter (w : wrapper bytes) : any_adapter :=
  mk_any_adapter (response_adapter (R := Intro.ping_response)) (w, tt)
    (response_call (R := Intro.ping_response)) (get_supported_response_size (R := Intro.ping_response))
    (response_object (R := Intro.ping_response)) (response_assign (R := Intro.ping_response)).

Definition pong_wrapper (text : bytes) : wrapper bytes := mk_wrapper (r_value text) tt true.

Lemma ping_feed text :
  feed_responses (ping_adapter fresh_wrapper) 0 [r_bulk text] = Done (ping_adapter (pong_wrapper text), None).
Proof. done. Qed.

Definition intro_req : request := match Intro.ping_request with Done r => r | _ => fresh_request end.
Definition intro_call (text : bytes) : call :=
  mk_call intro_req (ping_adapter fresh_wrapper) [r_bulk text] (ping_adapter (pong_wrapper text)).

Lemma ping_request_done : Intro.ping_request = Done intro_req.
Proof. by vm_compute. Qed.
Lemma ping_resp_adapter : create_impl Intro.ping_resp = Done (ping_adapter fresh_wrapper).
Proof. reflexivity. Qed.

Section WithChannel.
Context {Ch Ep : Type} `{Channel Ch} `{Platform Ep}.
Abbreviation connection := (connection Ch Ep).
Abbreviation system := (system Ch Ep).

(** [cancel] at the end of a program closes the connection for good. *)
Lemma cancel_all_stops (c : connection) :
  wf (mpx_ c) -> exists c', cancel c operation.all = Done c' /\ is_open c' = false /\ will_reconnect c' = false.
Proof.
  intros Hwf. destruct (cancel_returns c operation.all Hwf) as [c' Hc]. exists c'. split; [done|]. cbn [cancel] in Hc.
  apply bind_done in Hc as (c1 & Hc1 & Hc). pose proof (cancel_run_closes _ _ Hc1) as Ho.
  unfold exec_cancel in Hc. apply bind_done in Hc as ([m1 n1] & _ & [= <-]). split; [exact Ho|].
  assert (forall d : connection, conn_cfg_ (close d) = conn_cfg_ d) as Hcl by (intros d; unfold close; by destruct (is_open d)).
  unfold cancel_run in Hc1. apply bind_done in Hc1 as ([m n] & _ & [= <-]). unfold will_reconnect.
  cbn [conn_cfg_ set_mpx set_channel set_writer_timer]. by rewrite Hcl.
Qed.

(** The first calls of a program are two events. *)
Lemma program_starts {R} `{ResponseTraits R} (c : connection) cfg req (resp : R) a (s0 : system) id :
  new_connection = Done c -> create_impl resp = Done a ->
  steps [ev_run cfg; ev_exec req a] (init c) = Some (Done s0) ->
  execs s0 !! id = Some (mk_pending user exec_waiting 0) ->
  (f ← connection_running cfg; facade_async_exec_response f req resp) = Done (mk_facade (conn s0), id, exec_waiting).
Proof.
  intros Hc Ha Hs Hx. unfold connection_running, facade_new, facade_async_exec_response, facade_async_exec, facade_async_run.
  rewrite Hc, Ha. cbn [mbind outcome_bind impl_]. cbn [steps step run init conn] in Hs. unfold async_run in *.
  destruct (async_run_config c cfg) as [c1|?|?]; [|done..]. cbn [mbind outcome_bind impl_ after_run conn set_run set_conn run_loop] in *.
  destruct (async_exec _ _ _) as [[[c2 id2] p]|?|?]; [|done..]. cbn [mbind outcome_bind] in *. injection Hs as <-.
  cbn [execs launch set_conn set_execs set_run init conn] in *. destruct (decide (id = id2)) as [->|Hne].
  - rewrite lookup_insert_eq in Hx. by injection Hx as ->.
  - by rewrite lookup_insert_ne in Hx.
Qed.

(** C22: The whole program [cpp20_intro.cpp], from the construction of its
    connection: the client sends exactly the handshake, the PING of the program and
    that of the health check, and when the server has answered, with pushes
    anywhere between the answers and however they are cut into reads, the program
    prints the text the server sent back, and leaves a closed connection that will
    not reconnect. *)
Theorem intro_prints (c : connection) cfg res ep greet text pongs rs chunks ra ch :
  new_connection = Done c -> response_ok (r_bulk text) ->
  welcome (len (hello_command cfg :: select_command cfg)) greet -> welcome (len (ping_commands cfg)) pongs ->
  server_sends (greet ++ [r_bulk text] ++ pongs) rs chunks ->
  receive_pushes (receive_adapter_ (mpx_ c)) (pushes rs) = Some ra -> announce (receive_channel_ c) rs = Some ch ->
  buffer_growth_hint + 2 * len (bytes_of rs) <= max_read_size cfg ->
  exists hid id pids (s0 s1 s2 : system) r,
    steps [ev_run cfg; ev_exec intro_req (ping_adapter fresh_wrapper)] (init c) = Some (Done s0) /\
    steps (connects cfg res ep) s0 = Some (Done s1) /\
    writing s1 = Some (wire ((hello_command cfg :: select_command cfg) ++ [[bs "PING"; bs "Hello world"]] ++ ping_commands cfg)) /\
    steps (ev_written None :: map ev_piece chunks ++ map ev_answered (hid :: id :: pids)) s1 = Some (Done s2) /\
    System.results s2 = [(id, r)] /\ adapter_ <$> Multiplexer.store (mpx_ (conn s2)) !! id = Some (ping_adapter (pong_wrapper text)) /\
    forall rt : Runtime Ch Ep,
      await_exec (mk_facade (conn s0)) id exec_waiting Intro.ping_resp =
        (mk_facade (conn s2), r, response_contents (R := Intro.ping_response) (pong_wrapper text, tt)) ->
      exists f, intro_main cfg = Done (f, bs "PING: " ++ text ++ [LF]) /\ is_open (impl_ f) = false /\ facade_will_reconnect f = false.
Proof.
  intros Hc Hv Hgr Hpo Hsrv Hra Hch Hmax.
  destruct (startup_trip c cfg [intro_call text] res ep greet pongs rs chunks ra ch)
    as (hid & ids & pids & s0 & s1 & s2 & se & H1 & H2 & H3 & H4 & H5 & H6 & H7 & _); try done.
  { constructor; [|constructor]. split; [|done]. split; try done. by constructor. }
  { by constructor. }
  destruct ids as [|id [|? ?]]; [by apply Forall2_length in H7| |by apply Forall2_length in H7].
  apply Forall2_cons in H7 as [(e & He & Had & _) _]. apply Forall_cons in H2 as [H2 _].
  exists hid, id, pids, s0, s1, s2, (None, len (bytes_of [r_bulk text])). split_and!; try done.
  - rewrite H4. unfold sent. cbn [map concat call_req intro_call]. rewrite app_nil_r. unfold wire. by rewrite !map_app, !concat_app.
  - rewrite He. cbn. by rewrite Had.
  - intros rt Hrt. pose proof (program_starts c cfg intro_req Intro.ping_resp _ s0 id Hc ping_resp_adapter H1 H2) as Hst.
    assert (wf (mpx_ (conn s2))) as Hwf.
    { eapply (reachable_ok s2), reachable_steps; [..|exact H5]; [eapply reachable_steps; [..|exact H3]; [eapply reachable_steps; [..|exact H1]|]|].
      - by apply run_init.
      - apply Forall_cons_2; [exact Logic.I|]. apply Forall_cons_2; [by vm_compute|apply Forall_nil_2].
      - unfold connects. destruct (use_ssl cfg); repeat apply Forall_cons_2; try exact Logic.I; apply Forall_nil_2.
      - constructor; [done|]. apply Forall_app. split; apply Forall_map, Forall_true; done. }
    destruct (cancel_all_stops _ Hwf) as (c3 & Hc3 & Ho & Hw). exists (mk_facade c3). split_and!; [|done|done].
    unfold intro_main, co_exec. rewrite ping_request_done.
    destruct (connection_running cfg) as [f0|?|?]; [|done..]. cbn [mbind outcome_bind] in Hst |- *. rewrite Hst.
    cbn [mbind outcome_bind]. rewrite Hrt. cbn [mbind outcome_bind].
    unfold Intro.intro_resume, awaited. cbn [fst has_ec]. unfold facade_cancel. cbn [impl_]. by rewrite Hc3.
Qed.
End WithChannel.

(** A runtime in which the server answers every request with the same responses,
    and nothing else happens. *)
Definition answering {Ch Ep} (f : facade Ch Ep) (r : exec_result) (rs : list resp3) : Runtime Ch Ep := {|
  await_exec _ _ _ _ _ resp :=
    (f, r, match (ad ← response_new resp; fill ad 0 rs) with Done (ad, _) => response_contents ad | _ => resp end);
  await_receive f := (f, Some operation_aborted);
  await_line buffer := Done (buffer, 0);
  await_write _ := Done tt;
|}.

Definition hello_stream : list resp3 := [ok_reply; a_push; bulk (bs "Hello world"); bulk (bs "Boost.Redis")].
Definition hello_pieces : list bytes := let b := bytes_of hello_stream in [take 9 b; drop 9 b].

Lemma intro_prints_witness :
  exists (rt : Runtime (list (error_code * size_t)) bytes) f,
    intro_main default_config = Done (f, bs "PING: Hello world" ++ [LF]) /\ is_open (impl_ f) = false /\ facade_will_reconnect f = false.
Proof.
  destruct (intro_prints (conn unconnected) default_config [bs "10.0.0.1:6379"] (bs "10.0.0.1:6379") [ok_reply] (bs "Hello world")
    [bulk (bs "Boost.Redis")] hello_stream hello_pieces (receive_adapter_ (mpx_ (conn unconnected))) [(None, 11)])
    as (hid & id & pids & s0 & s1 & s2 & r & _ & _ & _ & _ & _ & _ & Hrt).
  - vm_compute. reflexivity.
  - split_and!; by vm_compute.
  - split; [by vm_compute|repeat constructor; by vm_compute|repeat constructor; by vm_compute].
  - split; [by vm_compute|repeat constructor; by vm_compute|repeat constructor; by vm_compute].
  - split; [by vm_compute|repeat constructor; by vm_compute|by vm_compute| |by vm_compute].
    repeat apply Forall_cons_2; [..|apply Forall_nil_2]; split; by vm_compute.
  - vm_compute. reflexivity.
  - vm_compute. reflexivity.
  - by vm_compute.
  - exists (answering (mk_facade (conn s2)) r [bulk (bs "Hello world")]). apply Hrt. vm_compute. reflexivity.
Defined.

(** ** [sync_connection.hpp] and [cpp17_intro_sync.cpp] *)

Definition plain_req : request := match Intro.plain_ping_request with Done r => r | _ => fresh_request end.

Lemma plain_request_done : Intro.plain_ping_request = Done plain_req.
Proof. by vm_compute. Qed.
Lemma plain_expected : get_expected_responses plain_req = 1 /\ cancel_if_not_connected (get_config plain_req) = false.
Proof. by vm_compute. Qed.

Section Synchronous.
Context {Ch Ep : Type} `{Channel Ch} `{Platform Ep}.

(** The program waits for its request. *)
Lemma sync_main_waits argv (s : sync_connection (Ch := Ch) (Ep := Ep)) id :
  sync_main_start argv = Done (s, id) ->
  joinable_ s = true /\ run (sys_ s) = active run_resolving /\ System.results (sys_ s) = [] /\
  execs (sys_ s) = {[id := mk_pending user exec_waiting 0]} /\ notifications (sys_ s) id = 0%nat.
Proof.
  unfold sync_main_start, sync_new. destruct new_connection as [c|?|?] eqn:Hc; [|done..]. cbn [mbind outcome_bind].
  unfold sync_run. cbn [joinable_ sys_ conn init]. set (cfg := Intro.config_of_args argv).
  destruct (async_run_returns c cfg) as [[c1 k] Hr]. rewrite Hr. cbn [mbind outcome_bind]. rewrite plain_request_done. cbn [mbind outcome_bind].
  unfold sync_exec. rewrite ping_resp_adapter. cbn [mbind outcome_bind sys_].
  assert (k = co_yield run_resolving) as -> by (unfold async_run in Hr; apply bind_done in Hr as (c2 & _ & Hr); unfold run_loop in Hr; by injection Hr).
  set (s1 := after_run (init c) (c1, co_yield run_resolving)).
  assert (sys_reachable s1) as Hre.
  { eapply (run_event (ev_run cfg)); [by apply run_init|exact Logic.I|]. cbn [step run init conn]. by rewrite Hr. }
  pose proof (reachable_ok _ Hre) as Hok. destruct plain_expected as [Hexp Hcan].
  assert (reqs_ (mpx_ (conn s1)) = []) as Hq.
  { cbn [s1 after_run conn set_run set_conn]. unfold async_run, async_run_config in Hr. apply bind_done in Hr as (c2 & Hr & Hl). unfold run_loop in Hl. injection Hl as <-.
    apply bind_done in Hr as (h & _ & [= <-]). unfold new_connection in Hc. apply bind_done in Hc as (hc & _ & Hc).
    apply bind_done in Hc as (m & Hm & [= <-]). by injection Hm as <-. }
  destruct (async_exec_queues (conn s1) plain_req (ping_adapter fresh_wrapper)) as (c2 & id2 & Hex & _ & [_ _ _ He _ _]);
    [apply Hok|unfold all_waiting; by rewrite Hq|by rewrite Hexp|by rewrite Hexp|by rewrite Hcan|].
  rewrite Hex. cbn [mbind outcome_bind]. intros [= <- <-]. cbn [joinable_ sys_]. split_and!; try done.
  unfold notifications. cbn [conn launch set_conn set_execs]. by rewrite He.
Qed.

(** If the name of the server cannot be resolved, the call of [exec] never
    returns, and neither would the destructor: nothing is left to happen in the
    event loop, which still waits for the request. *)
Lemma sync_main_hangs argv (s : sync_connection (Ch := Ch) (Ep := Ep)) id e res s' :
  sync_main_start argv = Done (s, id) -> step (ev_resolved (Some e) res) (sys_ s) = Some (Done s') ->
  sync_get (mk_sync s' (joinable_ s)) id = None /\ sync_destroy (mk_sync s' (joinable_ s)) = None /\
  forall ev, by_user ev = false -> step ev s' = None.
Proof.
  intros Hs Hst. destruct (sync_main_waits _ _ _ Hs) as (Hj & _ & Hr & Hx & Hn).
  destruct (connect_failure (sys_ s) s' (ev_resolved (Some e) res)) as ((ec & Hrun & _) & _ & Hx' & Hr' & Hst'); [done|done|].
  split_and!.
  - unfold sync_get. cbn [sys_]. by rewrite Hr', Hr.
  - unfold sync_destroy, out_of_work. cbn [joinable_ sys_]. rewrite Hj, Hrun, Hx', Hx. cbn [negb].
    by rewrite bool_decide_false by apply map_non_empty_singleton.
  - apply Hst'. unfold none_notified. rewrite Hx. apply map_Forall_singleton. by rewrite Hn.
Qed.

(** Destroying a connection that was never run terminates the process. *)
Lemma sync_unused (s : sync_connection (Ch := Ch) (Ep := Ep)) : sync_new = Done s -> sync_destroy s = Some (Fault terminate).
Proof. unfold sync_new. intros Hs. by apply bind_done in Hs as (c & _ & [= <-]). Qed.
End Synchronous.
